(* ===== verification/_CoqProject ===== *)
-Q . S2P
Prelude.v
Json.v
Types.v
Router.v
State.v
Ledger.v
Matching.v
Sweep.v
Events.v
Outbox.v
Depth.v
Commands.v
Handlers.v
Replay.v
Invariant.v
Settle.v
Register.v
Match.v
Sections.v
Concurrency.v
Commanding.v
Determinism.v
StateMachine.v
Fixtures.v
Priority.v
Accounting.v
Lifecycle.v
Recovery.v
Durability.v
MarketData.v
Routing.v
Lease.v
Repository.v
History.v
Statements.v
DbWorker.v
Projection.v
Account.v
Persistence.v
DatabaseAccount.v
Settling.v
Pipeline.v
EngineAccount.v
Announcing.v
EventLog.v
Agreement.v
Delivery.v
Divergence.v
Findings.v
Consumer.v
Ownership.v
Manager.v
Rpc.v
Auth.v
Gateway.v
Streaming.v
Broadcast.v
Price.v
Api.v
Access.v
Boundaries.v
Deployment.v
Observability.v
Services.v
