(* ===== verification/Prelude.v ===== *)
(** * Predix: a verified model of a prediction market's backend

    Predix is the backend of a prediction market, in four services.  The HTTP API
    and the WebSocket gateway face the users; the matching engine keeps all order
    books, balances and positions in memory; the DB worker persists what the
    engine announces.  They talk through Redis: the API appends commands to the
    stream of a partition and waits for the reply on a private channel, the engine
    emits domain events on the event stream of the partition and on the gateway's
    channel.  This library models the four services and the code they share, and
    proves what each of them relies on.

    ** The program and its model

    A partition worker claims a lease on a partition, rebuilds the state by
    replaying the command stream, then consumes the stream: every entry is a
    command, dispatched by [handleMessage] to a handler; a handler takes [e.mu]
    for one or more critical sections and emits events in between.  All workers
    of a process share one [Engine].

    The engine (src/internal/engine, src/internal/events, src/internal/partition):
    - Types: engine/types.go.  An [int64] is a [Z] with wrapping operators
      ([add64], [sub64], [mul64] below); an [*Order] is an index into a heap of
      orders, because the order table and the books share it.  Price: ScalePrice
      and UnscalePrice of the same file, on IEEE 754 floats.
    - Json: what the services use of encoding/json; Events: events/events.go and
      the wire format of orders and trades; Commands: the message types of
      pkg/redis/manager.go and the request structs.
    - Router: partition/router.go (FNV-1a, key names).
    - State: the [Engine] struct, its constructor and setters, AddPartition of
      engine/worker.go, the counters of engine/metric.go; the [World] around it
      (journal file, event stream, channel, acknowledgements) and the
      [Environment] class: ids, clock, outcome of every I/O call, order of map
      iteration.  A handler is a [World -> option (A * World)]; [None] is a
      run-time panic.  A Redis call is up to four attempts, the default of
      go-redis: one that returns nil took effect one to four times, one that
      returns an error up to four times ([executed]), since only its replies may
      have been lost.
    - Ledger: engine/ledger.go.  Matching: the book operations of
      engine/engine.go.  Depth: the aggregation of a snapshot.  Outbox:
      engine/outbox.go and [emitEventP].  Handlers: every command handler and
      [handleMessage].  Replay: processing of stream entries and
      engine/replay.go.  Consumer: the consumer loop and the service of a
      partition between the claim and the release of its lease; Ownership: the
      ownership loop [runPartition] and the renewal loop, as a whole.
    - Lease: partition/lease.go, partition/fencing.go, the claim, renewal and
      yield steps of engine/worker.go and the fencing decision of
      dbworker/worker.go, over a Redis server that is a parameter
      ([RedisServer]) with documented laws ([RedisLaws]) and a network that may
      lose a request or a reply ([Network]); [kvRedis] is a server that has the
      laws.  [own_step] are the moves of all engines on one partition; the SETNX
      and the INCR of a claim are separate moves, and the lease may expire between
      them.

    The other services:
    - Repository: the tables, constraints and SQL statements of
      internal/repository and db/migrations; DbWorker: dbworker/worker.go, with
      transactions and failures of every call; what it uses of third-party
      packages is the class [Packages].  Delivery: the worker's calls to the
      consumer group, over the life of several worker processes, with the group
      as the class [StreamGroup].  History: the trade history of an event.
    - Manager: pkg/redis/manager.go, the API's end of the request/reply protocol,
      over a Redis server given by [CommandBus] and [CommandBusLaws]; a call makes
      up to four attempts ([tries]), each with its own answer of the network.
    - Auth: pkg/auth/jwt.go and internal/middleware/auth.go, over a JWT library
      given by [Jwt] and [JwtLaws].  Api: internal/handler, internal/dto and
      internal/router: handlers on the database and the manager, with the routes.
    - Gateway: internal/websocket.  A [*Client] is an index into a heap of
      clients, because the hub, the pumps and a running broadcast share it.  The
      flag, the channel and the connection of a [close] are set apart
      ([setClosed], [closeSend], [closeConn]), and so are what the write pump has
      received and what it has written ([receiveSend], [writeHeld]).
    - Deployment: pkg/config, the set-up in cmd/*/main.go, Start and Shutdown of
      the engine, the probes of internal/observability/ops.go and [itoa] of
      pkg/logging.  Observability: the structured logger, the registration of
      the metrics and the operations endpoints, over a Prometheus client given
      by [Prometheus] and [PrometheusLaws].
    - Services: the four main programs from the first call to the exit status:
      what main does, a panic of [auth.Init] included, its deferred calls, of which
      the Close of the pgxpool takes until its connections are given back, and what
      goroutines and the system do while it waits for a signal.

    Specification and proof:
    - Sweep: the matching loop equals a single pass over the opposite side.
    - Invariant: the invariant of the engine ([Inv]); Settle, Register, Match and
      Sections: every critical section keeps it; Concurrency: so does every
      interleaving of the sections of concurrent workers (a step relation);
      Commanding: so does every whole command, under any I/O failures.
    - Determinism and StateMachine: the engine as a pure machine over commands,
      implemented by the live engine and by the replaying one; the classes
      [EmissionMode] and [ReplyMode] are the interface between the handlers and
      the way events and replies are sent in each mode.
    - Statements and Projection: what the statements do, and the database as the
      projection of its trades; Persistence: runs of the worker; Pipeline: the
      engine's events satisfy what the worker's theorems assume.
    - Account: an abstract machine of cash, shares, orders and trades that both
      sides implement.  EngineAccount, Announcing and EventLog: a command of the
      engine is a list of bookings, and exactly their events are announced;
      DatabaseAccount and Settling: an event that the worker processes is a
      booking in the database, and what can make it fail.
    - Streaming: the interleavings of the gateway's goroutines (a step relation in
      which the parts of a close, of a send and of a write are separate steps), and
      what holds along every run.
    - Fixtures: a concrete market, on which the witnesses are evaluated.

    ** What the theorems show

    - Priority: matching is price-time fair, at the resting price, within limits,
      accounts for every share, always ends, and leaves no crossed book.
    - Accounting: settlement transfers exactly what the trade says, and
      registering and cancelling an order is neutral.
    - Lifecycle: the invariant under interleaving and per command, idempotence of
      resubmitted commands, cancellation on every branch.  Consumer: the same
      along whole runs of the consumer.
    - Recovery: replay reconstructs the live state, silently, if the I/O of the
      live process succeeded.
    - Durability: what an emission's result means, also with lost replies and
      repeated attempts, and that recovery of the journal loses nothing.
    - MarketData: depth snapshots are exact and deterministic.
    - Routing, Lease: partitions and their keys are disjoint and have one owner at
      a time; events under a token drawn before the last one are dropped.
    - Persistence: every aggregate of the database is what its trades imply,
      settlement is all or nothing, redelivery has no effect.  Pipeline: the
      engine's events are such that this holds.
    - Agreement: the database follows the engine, in every interleaving of
      commands, deliveries, failures of the worker, statements of the API and
      changes of the lease, as long as no event was dropped as stale; and till then
      the worker fails on no event of the engine, overflow of a column apart.  The
      drops are part of the runs: the state lists them ([sy_dropped]).
      Delivery: so it does over restarts of the worker, and History: the trades
      of an event can be read page by page.
    - Ownership: every event carries the token of the lease under which it was
      emitted.  Services: a service that started and is told to stop closes what it
      opened, in order, in time, if the pool's connections are given back.
    - Rpc: a request is in its stream at most twelve times and only its own
      reply is returned; a served request is answered with what the engine
      computed; a fan-out reaches every partition.
    - Access: protected routes need a valid token, orders are placed and
      cancelled only in the name of their owner, an event is created in the
      database and the engine or withdrawn, signing in gives a token that
      authenticates its user.
    - Broadcast: the hub stays consistent in every interleaving, clients get what
      was queued for them in order, a broadcast that finds no closed subscriber
      reaches exactly the subscribers, a trade of the engine gets to the wire.
    - Deployment: services that load the same configuration, with at least one
      partition, agree on partitions, streams and channel.
    - Findings and Boundaries: where the code falls short.  Findings has the
      engine (no share issuance, an early order forfeits the starting balance,
      market buys overspend, filled makers keep cash locked, a failed emission
      loses a reservation and makes replay diverge, the journal forgets an unsent
      event, a retried append revives a refused order); Boundaries has the seams
      between services (an order id that stops the DB worker, an event id in
      another spelling, a market without an event row, a lost USER_CREATED);
      Divergence has what the theorems of Agreement exclude (a market order too
      large for the column, the canceled remainder of a market order that stays
      open in the database, trades of two partitions published in the opposite
      order, entries dropped as stale after the lease passed on).  The redelivered
      backlog is in Consumer, the replay over a state that was kept, or after a
      failed read, in Ownership, a holder of the lease with an old token in Lease, a
      worker restarted too soon and a lost read in Delivery, the crash on a closed
      subscriber in Broadcast, the engine without partitions in Deployment, the
      unbounded shutdown of the engine and of the DB worker and services that stay
      ready without working in Services, the doubled instance id in Observability.

    ** Bounds and hypotheses

    - The matching loop has fuel [matchFuel] = |bids| + |asks| + 2: each round but
      the last takes an order off the opposite side, and the theorem on the
      sweep in Priority shows that the fuel never runs out.  [itoa] has fuel 20,
      the digits of an int64 and one more; appendCommand makes the code's three
      calls, each of at most 1 + [MaxRetries] = 4 attempts; a client's queue holds
      [sendBufferSize] = 256 messages.
    - [cost_in_range]: quantity times price of a limit buy fits an int64 (the
      code does not check it).  [within_budget]: a market buy does not spend more
      than it locked (the code does not enforce it; see Findings).  Both are
      conditions on commands, stated where a theorem needs them; [admissible] is
      both and that the total cash fits an int64 after a new user.  [any_step] of
      Findings has none of them.
    - [event_ok]: a trade's cost fits an int64 and an order is announced without
      fills; the engine guarantees it (Pipeline).  [PackageLaws]: a float64 holds
      whole numbers up to 2^53 exactly; the columns stay below 10^12.
    - [identified]: a command names its order; replay draws fresh ids otherwise.
      Theorems on live runs against replay assume that I/O calls succeed; the
      safety theorems hold for every pattern of failures.
    - [FreshIds]: ids of trades and events are canonical and never repeat.
      [named_command]: the ids of an order request are canonical, its price is not
      negative and its user has a balance.  Agreement and Delivery need both, that
      the engine's own I/O succeeds (if need be after repeated attempts, which
      leave copies in the stream), that it serves one command at a time (trades of
      two partitions may otherwise be published in the wrong order, see
      Divergence), and a state without orders to start from ([starting]).
      [MinIdle]: a worker starts ten seconds after its predecessor or later, and
      the replies of its reads arrive (see Delivery).
    - [JwtLaws], [GinLaws], [CommandBusLaws], [GoArchLaws], [StreamGroupLaws],
      [PrometheusLaws]: what the packages and
      Redis document; each has an instance for which the laws are proved, on which
      the witnesses run.  [ScalePrice_exact] covers every price of whole cents
      from 0 to 10.
    - [wf]: the consistency of the gateway's hub, proved for every run.
      [all_open]: no subscriber's channel is closed during a broadcast; the code
      does not ensure it (see Broadcast).
    - [starts]: what a service opens could be opened, and the JWT secret of cmd/api
      and cmd/ws is not empty (its default is).  [returns]: what it waits for
      without a deadline comes about, the engine's workers and the pool's
      connections.

    ** Not modelled

    What blocking reads return, the order of cases in a [select], and which I/O
    calls fail are arguments or answers of the environment; when tickers fire and
    deadlines pass is an argument of the steps they cause.  The mutexes are not
    objects of the model: a critical section is one step (Concurrency).  Calls of
    libraries with no logic of the program's own: what net/http, the Prometheus
    client and log/slog do inside.  The time-stamp columns nobody reads, the
    latency histograms, the aliases of internal/dbworker/events.go and the
    response types of internal/dto that no handler uses.  Planned next: the
    agreement of engine and database with several engine processes, and a bound
    on how far the database lags.

    This file: machine integers, the development's notations, tactics and hint
    database, and the lemmas on lists, sums, sorting and maps that the other
    files share. *)

From stdpp Require Export base tactics list sorting gmap strings pretty.
From Stdlib Require Export ZArith Lia.

#[export] Set Default Goal Selector "!".

(** * Shared hint database *)

Create HintDb predix discriminated.

(** * Machine integers

    A Go [int64] is a [Z] in [[-2^63, 2^63)]; every arithmetic operator of the
    source wraps around, so the operators below do too. *)

Definition max_int64 : Z := 9223372036854775807.
Definition min_int64 : Z := -9223372036854775808.
Definition max_uint64 : Z := 18446744073709551615.

Definition in64 (z : Z) : Prop := (min_int64 ≤ z ≤ max_int64)%Z.
Definition in64b (z : Z) : bool := ((min_int64 <=? z) && (z <=? max_int64))%Z.

Definition inu64b (z : Z) : bool := ((0 <=? z) && (z <=? max_uint64))%Z.

Definition wrap64 (z : Z) : Z :=
  ((z + 9223372036854775808) mod 18446744073709551616 - 9223372036854775808)%Z.

Definition wrapu64 (z : Z) : Z := (z mod 18446744073709551616)%Z.

Declare Scope i64_scope.
Delimit Scope i64_scope with i64.

Definition add64 (a b : Z) : Z := wrap64 (a + b).
Definition sub64 (a b : Z) : Z := wrap64 (a - b).
Definition mul64 (a b : Z) : Z := wrap64 (a * b).

Notation "a +' b" := (add64 a b) (at level 50, left associativity) : i64_scope.
Notation "a -' b" := (sub64 a b) (at level 50, left associativity) : i64_scope.
Notation "a *' b" := (mul64 a b) (at level 40, left associativity) : i64_scope.

Lemma in64b_spec z : in64b z = true ↔ in64 z.
Proof. unfold in64b, in64. rewrite andb_true_iff, !Z.leb_le. done. Qed.

Lemma wrap64_in64 z : in64 (wrap64 z).
Proof.
  unfold in64, wrap64, min_int64, max_int64.
  pose proof (Z.mod_pos_bound (z + 9223372036854775808) 18446744073709551616).
  lia.
Qed.

Lemma wrap64_id z : in64 z → wrap64 z = z.
Proof.
  unfold in64, wrap64, min_int64, max_int64. intros H.
  rewrite Z.mod_small; lia.
Qed.

Lemma add64_id a b : in64 (a + b) → add64 a b = (a + b)%Z.
Proof. apply wrap64_id. Qed.
Lemma sub64_id a b : in64 (a - b) → sub64 a b = (a - b)%Z.
Proof. apply wrap64_id. Qed.
Lemma mul64_id a b : in64 (a * b) → mul64 a b = (a * b)%Z.
Proof. apply wrap64_id. Qed.

#[export] Hint Resolve wrap64_in64 : predix.
Create Rewrite HintDb i64.
#[export] Hint Rewrite add64_id sub64_id mul64_id using (unfold in64, min_int64, max_int64; nia) : i64.

(** [i64] removes the wrap-around of every operation whose exact result is
    provably in range. *)
Ltac i64 := unfold in64, min_int64, max_int64 in *; lia.

(** * String equality as the source's [==] *)

Definition seqb (a b : string) : bool := bool_decide (a = b).
Notation "a =s b" := (seqb a b) (at level 70, no associativity).

Lemma seqb_eq a b : (a =s b) = true ↔ a = b.
Proof. apply bool_decide_eq_true. Qed.
Lemma seqb_neq a b : (a =s b) = false ↔ a ≠ b.
Proof. apply bool_decide_eq_false. Qed.
Lemma seqb_refl a : (a =s a) = true.
Proof. by apply seqb_eq. Qed.
Lemma seqb_ne a b : a ≠ b → (a =s b) = false.
Proof. apply seqb_neq. Qed.

Lemma seqb_spec a b : reflect (a = b) (a =s b).
Proof. apply bool_decide_reflect. Qed.

Create Rewrite HintDb seqb.
#[export] Hint Rewrite seqb_eq seqb_neq : seqb.

(** [sep] does not occur in [s]. *)
Fixpoint free_of (sep : Ascii.ascii) (s : string) : bool :=
  match s with
  | EmptyString => true
  | String a s => negb (bool_decide (a = sep)) && free_of sep s
  end.

(** A text is determined by its part before the first separator and the rest. *)
Lemma free_of_split sep a b x y :
  free_of sep a = true → free_of sep b = true →
  a +:+ String sep x = b +:+ String sep y → a = b ∧ x = y.
Proof.
  revert b. induction a as [|c a IH]; intros [|d b] Ha Hb Heq; simpl in *.
  - by injection Heq as ->.
  - injection Heq as <- _. by rewrite bool_decide_eq_true_2 in Hb.
  - injection Heq as -> _. by rewrite bool_decide_eq_true_2 in Ha.
  - apply andb_true_iff in Ha as [_ Ha], Hb as [_ Hb]. injection Heq as -> Heq.
    by destruct (IH b Ha Hb Heq) as [-> ->].
Qed.

(** [seq_case] splits on a string comparison in the goal. *)
Ltac seq_case :=
  match goal with
  | |- context [?a =s ?b] => destruct (seqb_spec a b); simplify_eq
  end.

(** * Sums over lists *)

Section sums.
Context {A : Type}.
Implicit Types (f g : A → Z) (l k : list A).
Local Open Scope Z_scope.

Fixpoint sumZ f l : Z :=
  match l with
  | [] => 0
  | x :: l => f x + sumZ f l
  end.

Lemma sumZ_app f l k : sumZ f (l ++ k) = sumZ f l + sumZ f k.
Proof. induction l as [|x l IH]; simpl; lia. Qed.

Lemma sumZ_insert f l i x y :
  l !! i = Some x → sumZ f (<[i:=y]> l) = sumZ f l - f x + f y.
Proof.
  revert i. induction l as [|z l IH]; intros [|i] Hi; simplify_eq/=; [lia|].
  rewrite (IH i Hi). lia.
Qed.

Lemma sumZ_ext f g l : (∀ x, x ∈ l → f x = g x) → sumZ f l = sumZ g l.
Proof.
  induction l as [|x l IH]; intros H; simpl; [done|].
  rewrite H by (by left). rewrite IH; [done|]. intros y Hy. apply H. by right.
Qed.

Lemma sumZ_nonneg f l : (∀ x, x ∈ l → 0 ≤ f x) → 0 ≤ sumZ f l.
Proof.
  induction l as [|x l IH]; intros H; simpl; [lia|].
  assert (0 ≤ f x) by (apply H; by left).
  assert (0 ≤ sumZ f l) by (apply IH; intros y Hy; apply H; by right). lia.
Qed.

Lemma sumZ_le f g l : (∀ x, x ∈ l → f x ≤ g x) → sumZ f l ≤ sumZ g l.
Proof.
  induction l as [|x l IH]; intros H; simpl; [lia|].
  assert (f x ≤ g x) by (apply H; by left).
  assert (sumZ f l ≤ sumZ g l) by (apply IH; intros y Hy; apply H; by right). lia.
Qed.

(** One summand is bounded by a sum of non-negative summands. *)
Lemma sumZ_elem_le f l i x :
  (∀ y, y ∈ l → 0 ≤ f y) → l !! i = Some x → f x ≤ sumZ f l.
Proof.
  revert i. induction l as [|z l IH]; intros [|i] H Hi; simplify_eq/=.
  - assert (0 ≤ sumZ f l) by (apply sumZ_nonneg; intros y Hy; apply H; by right). lia.
  - assert (0 ≤ f z) by (apply H; by left).
    assert (f x ≤ sumZ f l) by (eapply IH; eauto; intros y Hy; apply H; by right). lia.
Qed.

Lemma sumZ_zero f l : (∀ x, x ∈ l → f x = 0) → sumZ f l = 0.
Proof.
  intros H. rewrite (sumZ_ext f (λ _, 0)) by done. clear H.
  induction l; simpl; lia.
Qed.

Lemma sumZ_Permutation f l k : l ≡ₚ k → sumZ f l = sumZ f k.
Proof. induction 1; simpl; lia. Qed.

Lemma sumZ_mul_l f c l : sumZ (λ x, c * f x) l = c * sumZ f l.
Proof. induction l; simpl; lia. Qed.
End sums.

Lemma sumZ_fmap {A B} (g : B → A) (f : A → Z) (l : list B) :
  sumZ f (g <$> l) = sumZ (f ∘ g) l.
Proof. induction l as [|x l IH]; simpl; [done|]. f_equal. exact IH. Qed.

#[export] Instance sumZ_proper {A} (f : A → Z) : Proper ((≡ₚ) ==> eq) (sumZ f).
Proof. intros l k. apply sumZ_Permutation. Qed.

(** * Sums over finite maps *)

Section map_sums.
Context `{Countable K} {V : Type}.
Implicit Types (f : V → Z) (m : gmap K V).
Local Open Scope Z_scope.

Definition map_sumZ f m : Z := sumZ (λ kv, f kv.2) (map_to_list m).

Lemma map_sumZ_empty f : map_sumZ f ∅ = 0.
Proof. unfold map_sumZ. by rewrite map_to_list_empty. Qed.

Lemma map_sumZ_insert_new f m k v :
  m !! k = None → map_sumZ f (<[k:=v]> m) = f v + map_sumZ f m.
Proof. intros Hk. unfold map_sumZ. by rewrite (map_to_list_insert m k v Hk). Qed.

Lemma map_sumZ_insert f m k v v' :
  m !! k = Some v → map_sumZ f (<[k:=v']> m) = map_sumZ f m - f v + f v'.
Proof.
  intros Hk.
  assert (map_sumZ f m = f v + map_sumZ f (delete k m)) as ->.
  { rewrite <- (insert_delete_id m k v Hk) at 1.
    apply map_sumZ_insert_new, lookup_delete_eq. }
  rewrite <- (insert_delete_eq m k v'), map_sumZ_insert_new by apply lookup_delete_eq.
  lia.
Qed.

Lemma map_sumZ_elem_le f m k v :
  (∀ k v, m !! k = Some v → 0 ≤ f v) → m !! k = Some v → f v ≤ map_sumZ f m.
Proof.
  intros Hpos Hk. unfold map_sumZ.
  apply elem_of_map_to_list, list_elem_of_lookup in Hk as [i Hi].
  apply (sumZ_elem_le (λ kv : K * V, f kv.2) _ i (k, v)); [|done].
  intros [k' v'] Hin. apply elem_of_map_to_list in Hin. by eapply Hpos.
Qed.

(** Two distinct entries together are bounded by the sum. *)
Lemma map_sumZ_two_le f m k1 k2 v1 v2 :
  (∀ k v, m !! k = Some v → 0 ≤ f v) → k1 ≠ k2 → m !! k1 = Some v1 → m !! k2 = Some v2 →
  f v1 + f v2 ≤ map_sumZ f m.
Proof.
  intros Hpos Hne H1 H2.
  rewrite <- (insert_delete_id m k1 v1 H1), map_sumZ_insert_new by apply lookup_delete_eq.
  assert (f v2 ≤ map_sumZ f (delete k1 m)); [|lia].
  apply (map_sumZ_elem_le _ _ k2); [|by rewrite lookup_delete_ne].
  intros k v [_ Hk]%lookup_delete_Some. by eapply Hpos.
Qed.
End map_sums.

(** * Stable sorting

    [sort.SliceStable] sorts by a strict order and keeps equal elements in
    place.  An insertion sort that inserts from the right computes exactly
    that list. *)

Section stable_sort.
Context {A : Type} (less : A → A → bool).

Fixpoint insert_stable (x : A) (l : list A) : list A :=
  match l with
  | [] => [x]
  | y :: l' => if less y x then y :: insert_stable x l' else x :: y :: l'
  end.

Definition stable_sort (l : list A) : list A := foldr insert_stable [] l.

Lemma insert_stable_Permutation x l : insert_stable x l ≡ₚ x :: l.
Proof.
  induction l as [|y l IH]; simpl; [done|].
  destruct (less y x); [|done]. rewrite IH. constructor.
Qed.

Lemma stable_sort_Permutation l : stable_sort l ≡ₚ l.
Proof.
  induction l as [|x l IH]; simpl; [done|].
  by rewrite insert_stable_Permutation, IH.
Qed.

(** "[x] may stand before [y]": [y] is not strictly smaller. *)
Definition not_after (x y : A) : Prop := less y x = false.

Hypothesis less_trans_neg : ∀ x y z,
  less y x = false → less z y = false → less z x = false.
Hypothesis less_asym : ∀ x y, less x y = true → less y x = false.

Lemma insert_stable_sorted x l :
  StronglySorted not_after l → StronglySorted not_after (insert_stable x l).
Proof.
  induction 1 as [|y l Hs IH Hall]; simpl.
  { repeat constructor. }
  destruct (less y x) eqn:E.
  - constructor; [done|]. rewrite insert_stable_Permutation.
    constructor; [|done]. by apply less_asym.
  - constructor; [by constructor|]. constructor; [done|].
    eapply Forall_impl; [exact Hall|]. intros z Hz. by eapply less_trans_neg.
Qed.

Lemma stable_sort_sorted l : StronglySorted not_after (stable_sort l).
Proof. induction l; simpl; [constructor|]. by apply insert_stable_sorted. Qed.

(** Sorting a sorted list leaves it alone. *)
Lemma stable_sort_id l : StronglySorted not_after l → stable_sort l = l.
Proof.
  induction 1 as [|x l Hs IH Hall]; simpl; [done|]. rewrite IH.
  destruct l as [|y l]; [done|]. simpl.
  apply Forall_cons in Hall as [Hy _]. unfold not_after in Hy. by rewrite Hy.
Qed.

(** Appending [x] to a sorted list and sorting puts [x] behind every element
    it is not strictly smaller than: the time priority of the book. *)
Lemma stable_sort_snoc l x :
  StronglySorted not_after l →
  ∃ pre post, stable_sort (l ++ [x]) = pre ++ x :: post ∧ l = pre ++ post
    ∧ Forall (λ y, less x y = false) pre ∧ Forall (λ y, less x y = true) post.
Proof.
  induction 1 as [|y l Hs IH Hall]; simpl.
  { exists [], []. done. }
  destruct IH as (pre & post & -> & -> & Hpre & Hpost).
  destruct (less x y) eqn:E.
  - assert (pre = []) as ->.
    { destruct pre as [|z pre]; [done|]. exfalso.
      apply Forall_app in Hall as [Hz _]. apply Forall_cons in Hz as [Hz _].
      apply Forall_cons in Hpre as [Hxz _].
      pose proof (less_trans_neg y z x Hz Hxz). congruence. }
    exists [], (y :: post). simpl. rewrite E. split_and!; [|done..|by constructor].
    f_equal. destruct post as [|w post]; [done|]. simpl.
    apply Forall_app in Hall as [_ Hall]. apply Forall_cons in Hall as [Hw _].
    unfold not_after in Hw. by rewrite Hw.
  - exists (y :: pre), post. simpl. split_and!; [|done|by constructor|done].
    destruct pre as [|z pre]; simpl; [by rewrite E|].
    apply Forall_cons in Hall as [Hz _]. unfold not_after in Hz. by rewrite Hz.
Qed.
End stable_sort.

(** * Sorted lists *)

Lemma StronglySorted_elem {A} (R R' : relation A) l :
  (∀ x y, x ∈ l → y ∈ l → R x y → R' x y) → StronglySorted R l → StronglySorted R' l.
Proof.
  intros HR Hs. induction Hs as [|x l Hs IH Hx]; [constructor|]. constructor.
  - apply IH. intros y z ??. apply HR; by right.
  - rewrite Forall_forall in Hx |- *. intros y Hy. apply HR; [by left|by right|by apply Hx].
Qed.

Lemma StronglySorted_sublist {A} (R : relation A) l k :
  sublist l k → StronglySorted R k → StronglySorted R l.
Proof.
  induction 1 as [|x l k Hs IH|x l k Hs IH]; intros Hk; [done| |].
  - inversion Hk as [|? ? Hk' Hx]; subst. constructor; [by apply IH|].
    rewrite Forall_forall in Hx |- *. intros y Hy. apply Hx. by eapply elem_of_sublist.
  - inversion Hk; subst. by apply IH.
Qed.
