(* ===== verification/Json.v ===== *)
(** JSON documents and the part of [encoding/json] the services rely on.

    A Go [string] or [json.RawMessage] that holds JSON is a [json_text]: either
    a text that parses, represented by the document it denotes, or one that
    does not.  [Marshal] builds documents; [unmarshal_struct] is the decoding of
    a document into a struct: keys are matched against the field tags (exactly,
    or else ignoring ASCII case), unknown keys are skipped, [null] leaves a
    field alone, a later key overwrites an earlier one and a value of the wrong
    kind makes [Unmarshal] return an error. *)

From S2P Require Import Prelude.
From Stdlib Require Import Ascii.

Inductive json :=
| JNull
| JBool (b : bool)
| JInt (z : Z)              (** a number literal without fraction or exponent *)
| JNum (literal : string)   (** any other number literal *)
| JStr (s : string)
| JTime (t : Z)             (** the RFC 3339 string of the instant [t] *)
| JArr (l : list json)
| JObj (kvs : list (string * json)).

Inductive json_text :=
| JText (j : json)
| JBad (s : string).

(** The zero [json.RawMessage]. *)
Definition raw_nil : json_text := JBad "".

(** [raw == ""] *)
Definition text_empty (t : json_text) : bool :=
  match t with JBad s => s =s "" | JText _ => false end.

(** ** Field resolution *)

Definition lower_ascii (a : ascii) : ascii :=
  let n := N_of_ascii a in
  if ((65 <=? n) && (n <=? 90))%N then ascii_of_N (n + 32) else a.

Fixpoint lower (s : string) : string :=
  match s with
  | EmptyString => EmptyString
  | String a s => String (lower_ascii a) (lower s)
  end.

Fixpoint find_first (P : string → bool) (l : list string) : option string :=
  match l with
  | [] => None
  | x :: l => if P x then Some x else find_first P l
  end.

Definition resolve_field (tags : list string) (key : string) : option string :=
  match find_first (λ t, t =s key) tags with
  | Some t => Some t
  | None => find_first (λ t, lower t =s lower key) tags
  end.

(** ** Values into fields *)

Definition into_string (j : json) (old : string) : option string :=
  match j with
  | JStr s => Some s
  | JNull => Some old
  | _ => None
  end.

Definition into_int64 (j : json) (old : Z) : option Z :=
  match j with
  | JInt z => if in64b z then Some z else None
  | JNull => Some old
  | _ => None
  end.

Definition into_uint64 (j : json) (old : Z) : option Z :=
  match j with
  | JInt z => if inu64b z then Some z else None
  | JNull => Some old
  | _ => None
  end.

Definition into_time (j : json) (old : Z) : option Z :=
  match j with
  | JTime t => Some t
  | JNull => Some old
  | _ => None
  end.

Definition into_bool (j : json) (old : bool) : option bool :=
  match j with
  | JBool b => Some b
  | JNull => Some old
  | _ => None
  end.

(** The elements of a JSON array decode into the zero value of their type. *)
Fixpoint decode_list {A} (into : json → option A) (l : list json) : option (list A) :=
  match l with
  | [] => Some []
  | j :: l =>
      match into j, decode_list into l with
      | Some a, Some l => Some (a :: l)
      | _, _ => None
      end
  end.

(** A slice field: [null] makes it nil, which is as empty as [[]]. *)
Definition into_slice {A} (into : json → option A) (j : json) (_ : list A) : option (list A) :=
  match j with
  | JArr l => decode_list into l
  | JNull => Some []
  | _ => None
  end.

(** A [json.RawMessage] field takes the value as it is written, [null] too. *)
Definition into_raw (j : json) (_ : json_text) : option json_text := Some (JText j).

(** ** Structs *)

Section decode.
Context {A : Type} (tags : list string) (set_field : string → json → A → option A).

Fixpoint decode_fields (kvs : list (string * json)) (a : A) : option A :=
  match kvs with
  | [] => Some a
  | (k, j) :: kvs =>
      match resolve_field tags k with
      | None => decode_fields kvs a
      | Some t =>
          match set_field t j a with
          | None => None
          | Some a => decode_fields kvs a
          end
      end
  end.

Definition unmarshal_struct (txt : json_text) (zero : A) : option A :=
  match txt with
  | JText (JObj kvs) => decode_fields kvs zero
  | JText JNull => Some zero
  | _ => None
  end.
End decode.

(** A field of struct type: an object is decoded into the value that is there. *)
Definition into_struct {A} (tags : list string) (set_field : string → json → A → option A)
    (j : json) (old : A) : option A :=
  match j with
  | JObj kvs => decode_fields tags set_field kvs old
  | JNull => Some old
  | _ => None
  end.

(** [json:",omitempty"] on a string field. *)
Definition omit_empty (k : string) (s : string) : list (string * json) :=
  if s =s "" then [] else [(k, JStr s)].

(** ** Embedding a raw message in a document: [nil] marshals as [null]. *)
Definition raw_json (t : json_text) : json :=
  match t with JText j => j | JBad _ => JNull end.

Lemma find_first_self tags k : k ∈ tags → find_first (λ t, t =s k) tags = Some k.
Proof.
  induction tags as [|t tags IH]; intros Hin; [by apply elem_of_nil in Hin|].
  simpl. seq_case; [done|]. apply IH. apply elem_of_cons in Hin as [->|]; done.
Qed.

(** A key that is a tag is resolved to that tag. *)
Lemma resolve_field_exact tags k : k ∈ tags → resolve_field tags k = Some k.
Proof. intros H. unfold resolve_field. by rewrite find_first_self. Qed.
