(* ===== verification/Types.v ===== *)
(** The data of the matching engine: internal/engine/types.go.

    Go pointers to orders are shared between the order table and the books, so
    an [*Order] is a location [loc] of a heap of orders (file State); all other
    structs are reached through one map only and are plain values. *)

From S2P Require Import Prelude.
Local Open Scope Z_scope.

Definition SideBuy : string := "BUY".
Definition SideSell : string := "SELL".
Definition OutcomeYes : string := "YES".
Definition OutcomeNo : string := "NO".
Definition OrderTypeLimit : string := "LIMIT".
Definition OrderTypeMarket : string := "MARKET".
Definition StatusPending : string := "PENDING".
Definition StatusPartial : string := "PARTIAL".
Definition StatusFilled : string := "FILLED".
Definition StatusCanceled : string := "CANCELED".
Definition StatusRejected : string := "REJECTED".

Definition PriceScale : Z := 10000.
Definition DefaultStartingBalance : Z := 100 * PriceScale.

(** A pointer to an order. *)
Abbreviation loc := nat (only parsing).

Record Balance := mkBalance { bal_Available : Z; bal_Reserved : Z }.
Record Position := mkPosition { pos_Available : Z; pos_Reserved : Z }.

Record Order := mkOrder {
  o_ID : string;
  o_EventID : string;
  o_UserID : string;
  o_OrderType : string;
  o_Outcome : string;
  o_Side : string;
  o_Quantity : Z;
  o_FilledQuantity : Z;
  o_RemainingQuantity : Z;
  o_Price : Z;
  o_Status : string;
  o_LockedFunds : Z;
  o_CreatedAt : Z
}.

Record Trade := mkTrade {
  t_ID : string;
  t_OrderID : string;
  t_MatchOrderID : string;
  t_EventID : string;
  t_Outcome : string;
  t_BuyerID : string;
  t_SellerID : string;
  t_TakerSide : string;
  t_Quantity : Z;
  t_Price : Z;
  t_CreatedAt : Z
}.

Record OrderBook := mkBook { Bids : list loc; Asks : list loc }.
Record Market := mkMarket { YES : OrderBook; NO : OrderBook }.

Definition NewMarket : Market := mkMarket (mkBook [] []) (mkBook [] []).

(** [Market.Book]; [None] is the nil pointer. *)
Definition Book (m : Market) (outcome : string) : option OrderBook :=
  if outcome =s OutcomeYes then Some (YES m)
  else if outcome =s OutcomeNo then Some (NO m)
  else None.

(** Writing through the pointer [Book] returned. *)
Definition set_Book (outcome : string) (b : OrderBook) (m : Market) : Market :=
  if outcome =s OutcomeYes then mkMarket b (NO m)
  else if outcome =s OutcomeNo then mkMarket (YES m) b
  else m.

Record OrderBookEntry := mkEntry {
  e_Price : Z; e_Quantity : Z; e_Total : Z; e_OrderCount : Z }.
Record DepthSide := mkDepthSide {
  d_Bids : list OrderBookEntry; d_Asks : list OrderBookEntry }.
Record Depth := mkDepth { d_EventID : string; d_Yes : DepthSide; d_No : DepthSide }.

(** ** Field updates of an order *)

Definition set_Status (s : string) (o : Order) : Order :=
  mkOrder (o_ID o) (o_EventID o) (o_UserID o) (o_OrderType o) (o_Outcome o) (o_Side o)
    (o_Quantity o) (o_FilledQuantity o) (o_RemainingQuantity o) (o_Price o) s
    (o_LockedFunds o) (o_CreatedAt o).

Definition set_LockedFunds (l : Z) (o : Order) : Order :=
  mkOrder (o_ID o) (o_EventID o) (o_UserID o) (o_OrderType o) (o_Outcome o) (o_Side o)
    (o_Quantity o) (o_FilledQuantity o) (o_RemainingQuantity o) (o_Price o) (o_Status o)
    l (o_CreatedAt o).

Definition set_RemainingQuantity (r : Z) (o : Order) : Order :=
  mkOrder (o_ID o) (o_EventID o) (o_UserID o) (o_OrderType o) (o_Outcome o) (o_Side o)
    (o_Quantity o) (o_FilledQuantity o) r (o_Price o) (o_Status o)
    (o_LockedFunds o) (o_CreatedAt o).

Definition set_FilledQuantity (f : Z) (o : Order) : Order :=
  mkOrder (o_ID o) (o_EventID o) (o_UserID o) (o_OrderType o) (o_Outcome o) (o_Side o)
    (o_Quantity o) f (o_RemainingQuantity o) (o_Price o) (o_Status o)
    (o_LockedFunds o) (o_CreatedAt o).

(** The zero value of the struct. *)
Definition zeroOrder : Order := mkOrder "" "" "" "" "" "" 0 0 0 0 "" 0 0.

#[export] Instance Balance_eq_dec : EqDecision Balance.
Proof. solve_decision. Defined.
#[export] Instance Position_eq_dec : EqDecision Position.
Proof. solve_decision. Defined.
#[export] Instance Order_eq_dec : EqDecision Order.
Proof. solve_decision. Defined.
#[export] Instance Trade_eq_dec : EqDecision Trade.
Proof. solve_decision. Defined.

(** ** Status classes *)

(** An order that may rest in a book. *)
Definition live_status (s : string) : bool := (s =s StatusPending) || (s =s StatusPartial).

(** An order [handleCancelOrderP] refuses to cancel. *)
Definition final_status (s : string) : bool :=
  (s =s StatusFilled) || (s =s StatusCanceled) || (s =s StatusRejected).

Lemma live_not_final s : live_status s = true → final_status s = false.
Proof.
  unfold live_status. rewrite orb_true_iff, !seqb_eq. by intros [-> | ->].
Qed.

Lemma Book_set_same oc b m :
  Book m oc ≠ None → Book (set_Book oc b m) oc = Some b.
Proof.
  unfold Book, set_Book. by repeat seq_case.
Qed.

Lemma Book_set_other oc oc' b m : oc ≠ oc' → Book (set_Book oc b m) oc' = Book m oc'.
Proof.
  unfold Book, set_Book. intros H.
  destruct (seqb_spec oc OutcomeYes), (seqb_spec oc OutcomeNo),
    (seqb_spec oc' OutcomeYes), (seqb_spec oc' OutcomeNo); simplify_eq; done.
Qed.
