(* ===== verification/Router.v ===== *)
(** Partition routing: internal/partition/router.go.

    [hash64] is FNV-1a over the bytes of the event id ([hash/fnv]); the stream,
    group, sequence, fencing and lease names are [fmt.Sprintf] with [%d], which
    is [pretty] on integers. *)

From S2P Require Import Prelude.
From Stdlib Require Import Ascii.
Local Open Scope Z_scope.

Record Router := mkRouter { Partitions : Z; StreamPrefix : string }.

Definition NewRouter (partitions : Z) (streamPrefix : string) : Router :=
  let partitions := if partitions <? 1 then 1 else partitions in
  let streamPrefix := if streamPrefix =s "" then "commands" else streamPrefix in
  mkRouter partitions streamPrefix.

Definition fnv_offset64 : Z := 14695981039346656037.
Definition fnv_prime64 : Z := 1099511628211.

Definition byte_of (a : ascii) : Z := Z.of_N (N_of_ascii a).

Fixpoint fnv1a (h : Z) (s : string) : Z :=
  match s with
  | EmptyString => h
  | String a s => fnv1a (wrapu64 (Z.lxor h (byte_of a) * fnv_prime64)) s
  end.

Definition hash64 (s : string) : Z := fnv1a fnv_offset64 s.

(** [int(hash64(eventID) % uint64(r.Partitions))]. *)
Definition Partition (r : Router) (eventID : string) : Z :=
  wrap64 (hash64 eventID mod wrapu64 (Partitions r)).

Definition Stream (r : Router) (partition : Z) : string :=
  StreamPrefix r +:+ ":partition:" +:+ pretty partition.

Definition StreamForEvent (r : Router) (eventID : string) : string :=
  Stream r (Partition r eventID).

Definition Group (r : Router) (partitionID : Z) : string :=
  "engines:p:" +:+ pretty partitionID.

Definition SequenceKey (r : Router) (partitionID : Z) : string :=
  StreamPrefix r +:+ ":" +:+ pretty partitionID +:+ ":sequence".

Definition FencingKey (partitionID : Z) : string :=
  "engine:fencing:" +:+ pretty partitionID.

Definition LeaseKey (partitionID : Z) : string :=
  "engine:lease:" +:+ pretty partitionID.

Definition PartitionStreams (r : Router) : list string :=
  Stream r <$> (Z.of_nat <$> seq 0 (Z.to_nat (Partitions r))).

(** ** Hashing *)

Example hash64_empty : hash64 "" = 14695981039346656037.
Proof. reflexivity. Qed.
Example hash64_a : hash64 "a" = 12638187200555641996.
Proof. vm_compute. reflexivity. Qed.
Example hash64_foobar : hash64 "foobar" = 9625390261332436968.
Proof. vm_compute. reflexivity. Qed.

Lemma fnv1a_range h s : 0 ≤ h ≤ max_uint64 → 0 ≤ fnv1a h s ≤ max_uint64.
Proof.
  revert h. induction s as [|a s IH]; intros h Hh; simpl; [done|].
  apply IH. unfold wrapu64, max_uint64.
  pose proof (Z.mod_pos_bound (Z.lxor h (byte_of a) * fnv_prime64) 18446744073709551616).
  lia.
Qed.

Lemma hash64_range s : 0 ≤ hash64 s ≤ max_uint64.
Proof. apply fnv1a_range. unfold fnv_offset64, max_uint64. lia. Qed.

Lemma NewRouter_Partitions n p : 1 ≤ Partitions (NewRouter n p).
Proof. unfold NewRouter; simpl. destruct (n <? 1) eqn:E; lia. Qed.

(** ** Names *)

Lemma string_app_inj_l (p a b : string) : p +:+ a = p +:+ b → a = b.
Proof. apply (inj (String.append p)). Qed.
