(* ===== verification/State.v ===== *)
(** The state of an engine process: the [Engine] struct of
    internal/engine/engine.go, its metrics, its outbox file and what it has sent
    to Redis, with the monad the handlers run in.

    - [heap] holds every [Order] the engine has registered; a [loc] is a pointer
      into it.  The order table [orders] and the books share these pointers, so
      an update through one is seen through the other.
    - [World] adds the outside: the outbox journal on disk, the entries Redis
      accepted ([xlog]), the messages it published ([published]) and the
      position [tick] in the stream of environment answers.
    - The [Environment] answers what the program cannot determine: fresh UUIDs,
      the clock, whether an I/O call succeeds, how many attempts of a Redis call
      took effect although their reply was lost, and in which order [range]
      visits the entries of a map.
    - A handler is a function [M A := World → option (A * World)]; [None] is a
      run-time panic (nil dereference, index out of range). *)

From S2P Require Import Prelude Json Types Router.
Local Open Scope Z_scope.

(** ** The environment *)

Class Environment := {
  uuid_NewString : nat → string;
  time_Now : nat → Z;
  io_ok : nat → bool;
  io_lost : nat → nat;
  map_range : ∀ {A : Type}, nat → list A → list A
}.

(** What is documented of these answers: [range] over a map visits every entry
    once, in any order. *)
Class EnvironmentLaws `{Environment} : Prop := {
  map_range_perm : ∀ A n (l : list A), map_range n l ≡ₚ l
}.

(** ** Engine *)

Record Engine := mkEngine {
  heap : list Order;
  markets : gmap string Market;
  orders : gmap string nat;
  balances : gmap string Balance;
  positions : gmap string Position;
  redisManager : bool;               (** [e.redisManager != nil] *)
  engineID : string;
  leaseTTL : Z;
  leaseRenewInterval : Z;
  router : Router;
  partitionSeq : list Z;
  partitionToken : gmap Z Z;
  partitions : gset Z;
  replaying : gset Z;
  eventStream : string;
  wsChannel : string
}.

Definition with_heap (f : list Order → list Order) (e : Engine) : Engine :=
  mkEngine (f (heap e)) (markets e) (orders e) (balances e) (positions e) (redisManager e)
    (engineID e) (leaseTTL e) (leaseRenewInterval e) (router e) (partitionSeq e)
    (partitionToken e) (partitions e) (replaying e) (eventStream e) (wsChannel e).

Definition with_markets (f : gmap string Market → gmap string Market) (e : Engine) : Engine :=
  mkEngine (heap e) (f (markets e)) (orders e) (balances e) (positions e) (redisManager e)
    (engineID e) (leaseTTL e) (leaseRenewInterval e) (router e) (partitionSeq e)
    (partitionToken e) (partitions e) (replaying e) (eventStream e) (wsChannel e).

Definition with_orders (f : gmap string nat → gmap string nat) (e : Engine) : Engine :=
  mkEngine (heap e) (markets e) (f (orders e)) (balances e) (positions e) (redisManager e)
    (engineID e) (leaseTTL e) (leaseRenewInterval e) (router e) (partitionSeq e)
    (partitionToken e) (partitions e) (replaying e) (eventStream e) (wsChannel e).

Definition with_balances (f : gmap string Balance → gmap string Balance) (e : Engine) : Engine :=
  mkEngine (heap e) (markets e) (orders e) (f (balances e)) (positions e) (redisManager e)
    (engineID e) (leaseTTL e) (leaseRenewInterval e) (router e) (partitionSeq e)
    (partitionToken e) (partitions e) (replaying e) (eventStream e) (wsChannel e).

Definition with_positions (f : gmap string Position → gmap string Position) (e : Engine) : Engine :=
  mkEngine (heap e) (markets e) (orders e) (balances e) (f (positions e)) (redisManager e)
    (engineID e) (leaseTTL e) (leaseRenewInterval e) (router e) (partitionSeq e)
    (partitionToken e) (partitions e) (replaying e) (eventStream e) (wsChannel e).

Definition with_router (r : Router) (seqs : list Z) (e : Engine) : Engine :=
  mkEngine (heap e) (markets e) (orders e) (balances e) (positions e) (redisManager e)
    (engineID e) (leaseTTL e) (leaseRenewInterval e) r seqs
    (partitionToken e) (partitions e) (replaying e) (eventStream e) (wsChannel e).

Definition with_partitionSeq (f : list Z → list Z) (e : Engine) : Engine :=
  with_router (router e) (f (partitionSeq e)) e.

Definition with_partitionToken (f : gmap Z Z → gmap Z Z) (e : Engine) : Engine :=
  mkEngine (heap e) (markets e) (orders e) (balances e) (positions e) (redisManager e)
    (engineID e) (leaseTTL e) (leaseRenewInterval e) (router e) (partitionSeq e)
    (f (partitionToken e)) (partitions e) (replaying e) (eventStream e) (wsChannel e).

Definition with_partitions (f : gset Z → gset Z) (e : Engine) : Engine :=
  mkEngine (heap e) (markets e) (orders e) (balances e) (positions e) (redisManager e)
    (engineID e) (leaseTTL e) (leaseRenewInterval e) (router e) (partitionSeq e)
    (partitionToken e) (f (partitions e)) (replaying e) (eventStream e) (wsChannel e).

Definition with_replaying (f : gset Z → gset Z) (e : Engine) : Engine :=
  mkEngine (heap e) (markets e) (orders e) (balances e) (positions e) (redisManager e)
    (engineID e) (leaseTTL e) (leaseRenewInterval e) (router e) (partitionSeq e)
    (partitionToken e) (partitions e) (f (replaying e)) (eventStream e) (wsChannel e).

(** ** Pointers *)

(** [*p].  A pointer in use is always allocated (see the engine invariant), so
    the zero order stands for no reachable read. *)
Definition deref (h : list Order) (p : nat) : Order := default zeroOrder (h !! p).

(** [p.Field = v] *)
Definition store (p : nat) (f : Order → Order) (h : list Order) : list Order := alter f p h.

(** ** Construction and configuration *)

(** [defaultLeaseTTL], [defaultLeaseRenewInterval], in nanoseconds. *)
Definition defaultLeaseTTL : Z := 15 * 1000000000.
Definition defaultLeaseRenewInterval : Z := 5 * 1000000000.

(** [newEngine]: the state the constructor returns. *)
Definition newEngine (rm : bool) : option Engine :=
  if rm then
    Some (mkEngine [] ∅ ∅ ∅ ∅ true "engine-0" defaultLeaseTTL defaultLeaseRenewInterval
            (NewRouter 1 "commands") [0] ∅ ∅ ∅ "events:out" "ws:updates")
  else None.

(** [SetStreamNames] *)
Definition SetStreamNames (es ws : string) (e : Engine) : Engine :=
  mkEngine (heap e) (markets e) (orders e) (balances e) (positions e) (redisManager e)
    (engineID e) (leaseTTL e) (leaseRenewInterval e) (router e) (partitionSeq e)
    (partitionToken e) (partitions e) (replaying e)
    (if es =s "" then eventStream e else es) (if ws =s "" then wsChannel e else ws).

(** [SetRouter] with a non-nil router: the counters are copied into a slice of
    the new length. *)
Definition SetRouter (r : Router) (e : Engine) : Engine :=
  with_router r (resize (Z.to_nat (Partitions r)) 0 (partitionSeq e)) e.

(** [SetLeaseSettings] *)
Definition SetLeaseSettings (id : string) (ttl renew : Z) (e : Engine) : Engine :=
  mkEngine (heap e) (markets e) (orders e) (balances e) (positions e) (redisManager e)
    (if id =s "" then engineID e else id)
    (if 0 <? ttl then ttl else leaseTTL e)
    (if 0 <? renew then renew else leaseRenewInterval e)
    (router e) (partitionSeq e)
    (partitionToken e) (partitions e) (replaying e) (eventStream e) (wsChannel e).

(** [AddPartition]; the [string] is the error. *)
Definition AddPartition (partitionID : Z) (e : Engine) : string + Engine :=
  if (partitionID <? 0) || (Partitions (router e) <=? partitionID) then
    inl ("partition " +:+ pretty partitionID +:+ " out of range [0,"
           +:+ pretty (Partitions (router e)) +:+ ")")
  else if bool_decide (partitionID ∈ partitions e) then
    inl ("partition " +:+ pretty partitionID +:+ " already configured")
  else inr (with_partitions (λ s, {[partitionID]} ∪ s) e).

(** [isReplaying], [OwnedPartitions] *)
Definition isReplaying (e : Engine) (partitionID : Z) : bool :=
  bool_decide (partitionID ∈ replaying e).
Definition OwnedPartitions (e : Engine) : nat := size (partitionToken e).

(** ** Metrics: the counters of internal/engine/metric.go *)

Record Metrics := mkMetrics {
  OrdersProcessed : nat;
  OrdersAccepted : nat;
  OrdersRejected : nat;
  OrdersCanceled : nat;
  OrdersFilled : nat;
  TradesExecuted : nat
}.

Definition NewMetrics : Metrics := mkMetrics 0 0 0 0 0 0.

Definition inc_Processed (m : Metrics) : Metrics :=
  mkMetrics (S (OrdersProcessed m)) (OrdersAccepted m) (OrdersRejected m) (OrdersCanceled m)
    (OrdersFilled m) (TradesExecuted m).
Definition inc_Accepted (m : Metrics) : Metrics :=
  mkMetrics (OrdersProcessed m) (S (OrdersAccepted m)) (OrdersRejected m) (OrdersCanceled m)
    (OrdersFilled m) (TradesExecuted m).
Definition inc_Rejected (m : Metrics) : Metrics :=
  mkMetrics (OrdersProcessed m) (OrdersAccepted m) (S (OrdersRejected m)) (OrdersCanceled m)
    (OrdersFilled m) (TradesExecuted m).
Definition inc_Canceled (m : Metrics) : Metrics :=
  mkMetrics (OrdersProcessed m) (OrdersAccepted m) (OrdersRejected m) (S (OrdersCanceled m))
    (OrdersFilled m) (TradesExecuted m).
Definition inc_Filled (m : Metrics) : Metrics :=
  mkMetrics (OrdersProcessed m) (OrdersAccepted m) (OrdersRejected m) (OrdersCanceled m)
    (S (OrdersFilled m)) (TradesExecuted m).
Definition inc_Trades (m : Metrics) : Metrics :=
  mkMetrics (OrdersProcessed m) (OrdersAccepted m) (OrdersRejected m) (OrdersCanceled m)
    (OrdersFilled m) (S (TradesExecuted m)).

(** ** The process and its surroundings *)

Record World := mkWorld {
  eng : Engine;
  metrics : Metrics;
  outboxOpen : bool;                         (** [o.file != nil] *)
  journal : list json_text;                  (** the lines of the outbox file *)
  xlog : list (string * json_text);          (** XADDs Redis accepted: stream, event *)
  published : list (string * json_text);     (** PUBLISHes Redis accepted *)
  acked : list (string * string * string);   (** XACKs: stream, group, entry *)
  tick : nat                                 (** environment answers used so far *)
}.

Definition with_eng (f : Engine → Engine) (w : World) : World :=
  mkWorld (f (eng w)) (metrics w) (outboxOpen w) (journal w) (xlog w) (published w) (acked w) (tick w).
Definition with_metrics (f : Metrics → Metrics) (w : World) : World :=
  mkWorld (eng w) (f (metrics w)) (outboxOpen w) (journal w) (xlog w) (published w) (acked w) (tick w).
Definition with_journal (f : list json_text → list json_text) (w : World) : World :=
  mkWorld (eng w) (metrics w) (outboxOpen w) (f (journal w)) (xlog w) (published w) (acked w) (tick w).
Definition with_xlog (f : list (string * json_text) → list (string * json_text)) (w : World) : World :=
  mkWorld (eng w) (metrics w) (outboxOpen w) (journal w) (f (xlog w)) (published w) (acked w) (tick w).
Definition with_published (f : list (string * json_text) → list (string * json_text)) (w : World) : World :=
  mkWorld (eng w) (metrics w) (outboxOpen w) (journal w) (xlog w) (f (published w)) (acked w) (tick w).
Definition with_acked (f : list (string * string * string) → list (string * string * string))
    (w : World) : World :=
  mkWorld (eng w) (metrics w) (outboxOpen w) (journal w) (xlog w) (published w) (f (acked w)) (tick w).
Definition with_tick (n : nat) (w : World) : World :=
  mkWorld (eng w) (metrics w) (outboxOpen w) (journal w) (xlog w) (published w) (acked w) n.
Definition with_outboxOpen (b : bool) (w : World) : World :=
  mkWorld (eng w) (metrics w) b (journal w) (xlog w) (published w) (acked w) (tick w).

(** A process around an engine that has sent nothing yet. *)
Definition initWorld (e : Engine) : World := mkWorld e NewMetrics true [] [] [] [] 0.

(** ** The handler monad *)

Definition M (A : Type) : Type := World → option (A * World).

Definition ret {A} (a : A) : M A := λ w, Some (a, w).
Definition bind {A B} (m : M A) (k : A → M B) : M B := λ w,
  match m w with
  | None => None
  | Some (a, w) => k a w
  end.

Declare Scope go_scope.
Delimit Scope go_scope with go.
Notation "x <- m ;; k" := (bind m (λ x, k))
  (at level 100, m at next level, right associativity) : go_scope.
Notation "m ;;; k" := (bind m (λ _, k))
  (at level 100, right associativity) : go_scope.
#[global] Open Scope go_scope.

Definition panic {A} : M A := λ _, None.
Definition get_eng : M Engine := λ w, Some (eng w, w).
Definition put_eng (e : Engine) : M () := λ w, Some ((), with_eng (λ _, e) w).
Definition modify_eng (f : Engine → Engine) : M () := λ w, Some ((), with_eng f w).
Definition modify (f : World → World) : M () := λ w, Some ((), f w).

Section environment.
Context `{Environment}.

(** One answer of the environment. *)
Definition next_uuid : M string := λ w, Some (uuid_NewString (tick w), with_tick (S (tick w)) w).
Definition next_time : M Z := λ w, Some (time_Now (tick w), with_tick (S (tick w)) w).
Definition next_range {A} (l : list A) : M (list A) :=
  λ w, Some (map_range (tick w) l, with_tick (S (tick w)) w).
Definition next_io : M bool := λ w, Some (io_ok (tick w), with_tick (S (tick w)) w).

(** How often the server executed a Redis command.  [NewRedisManager]
    (pkg/redis/manager.go) leaves [MaxRetries] of go-redis at its default of
    3, so a call is attempted up to four times.  An attempt whose reply was lost
    took effect; a call that returns nil had one more attempt, the one that was
    answered. *)
Definition MaxRetries : nat := 3.
Definition executed (k : nat) : nat :=
  if io_ok k then S (io_lost k `min` MaxRetries) else io_lost k `min` S MaxRetries.

(** One Redis call: its outcome, and how often it took effect. *)
Definition next_call : M (bool * nat) := λ w,
  Some ((io_ok (tick w), executed (tick w)), with_tick (S (tick w)) w).

Lemma executed_bound k : (executed k ≤ S MaxRetries)%nat.
Proof. unfold executed, MaxRetries. destruct (io_ok k); lia. Qed.

Lemma executed_ok k : io_ok k = true → ∃ n, executed k = S n ∧ (n ≤ MaxRetries)%nat.
Proof. unfold executed. intros ->. eexists. split; [done|]. lia. Qed.

End environment.

Lemma bind_eq {A B} (m : M A) (k : A → M B) w a w' :
  m w = Some (a, w') → bind m k w = k a w'.
Proof. intros Hm. unfold bind. by rewrite Hm. Qed.

(** ** Heap laws *)

Lemma length_store p f h : length (store p f h) = length h.
Proof. apply length_alter. Qed.

Lemma deref_store_eq p f h : (p < length h)%nat → deref (store p f h) p = f (deref h p).
Proof.
  intros Hp. unfold deref, store.
  apply lookup_lt_is_Some_2 in Hp as [o Ho]. by rewrite list_lookup_alter_eq, Ho.
Qed.

Lemma deref_store_ne p q f h : p ≠ q → deref (store p f h) q = deref h q.
Proof. intros Hne. unfold deref, store. by rewrite list_lookup_alter_ne. Qed.

Lemma deref_lookup h p : (p < length h)%nat → h !! p = Some (deref h p).
Proof. intros Hp. unfold deref. by apply lookup_lt_is_Some_2 in Hp as [o ->]. Qed.

Lemma lookup_deref h p o : h !! p = Some o → deref h p = o.
Proof. intros Hp. unfold deref. by rewrite Hp. Qed.

Lemma deref_app_l h o p : (p < length h)%nat → deref (h ++ [o]) p = deref h p.
Proof. intros Hp. unfold deref. by rewrite lookup_app_l. Qed.

Lemma deref_app_r h o : deref (h ++ [o]) (length h) = o.
Proof. unfold deref. by rewrite list_lookup_middle. Qed.

Lemma sumZ_store f g p h :
  (p < length h)%nat → sumZ f (store p g h) = (sumZ f h - f (deref h p) + f (g (deref h p)))%Z.
Proof.
  intros Hp. pose proof (deref_lookup h p Hp) as Hl. unfold store.
  assert (alter g p h = <[p:=g (deref h p)]> h) as ->.
  { apply list_eq. intros i. destruct (decide (p = i)) as [->|Hne].
    - by rewrite list_lookup_alter_eq, list_lookup_insert_eq, Hl.
    - by rewrite list_lookup_alter_ne, list_lookup_insert_ne. }
  by apply sumZ_insert.
Qed.
