(* ===== verification/Ledger.v ===== *)
(** The engine's ledger: internal/engine/ledger.go.

    The operations run under [e.mu], so each is one state transformer.  Amounts
    are [int64]: the arithmetic wraps.  [handleUserCreated] is with the other
    command handlers (file Handlers). *)

From S2P Require Import Prelude Types State.
Local Open Scope Z_scope.
Local Open Scope i64_scope.

Definition ErrInsufficientFunds : string := "insufficient balance for order".
Definition ErrInsufficientShares : string := "insufficient shares for order".

(** ** Accounts *)

Definition zeroBalance : Balance := mkBalance 0 0.
Definition zeroPosition : Position := mkPosition 0 0.

(** Writes through a [*Balance] or [*Position] obtained from the map. *)
Definition putBalance (userID : string) (b : Balance) (e : Engine) : Engine :=
  with_balances (<[userID := b]>) e.
Definition putPosition (key : string) (p : Position) (e : Engine) : Engine :=
  with_positions (<[key := p]>) e.

Definition getOrCreateBalance (userID : string) (e : Engine) : Balance * Engine :=
  match balances e !! userID with
  | Some bal => (bal, e)
  | None => (zeroBalance, putBalance userID zeroBalance e)
  end.

Definition positionKey (userID eventID outcome : string) : string :=
  userID +:+ ":" +:+ eventID +:+ ":" +:+ outcome.

Definition getOrCreatePosition (userID eventID outcome : string) (e : Engine)
    : Position * Engine :=
  let key := positionKey userID eventID outcome in
  match positions e !! key with
  | Some pos => (pos, e)
  | None => (zeroPosition, putPosition key zeroPosition e)
  end.

(** ** Reservation

    The order is still local to the caller: it is passed and returned by value.
    The first component is the error, [None] for nil. *)
Definition reserveOrderLocked (order : Order) (e : Engine)
    : option string * Order * Engine :=
  if o_Side order =s SideBuy then
    let '(bal, e) := getOrCreateBalance (o_UserID order) e in
    let cost :=
      if o_OrderType order =s OrderTypeMarket then bal_Available bal
      else o_RemainingQuantity order *' o_Price order in
    if bal_Available bal <? cost then (Some ErrInsufficientFunds, order, e)
    else
      let bal := mkBalance (bal_Available bal -' cost) (bal_Reserved bal +' cost) in
      (None, set_LockedFunds cost order, putBalance (o_UserID order) bal e)
  else
    let key := positionKey (o_UserID order) (o_EventID order) (o_Outcome order) in
    let '(pos, e) :=
      getOrCreatePosition (o_UserID order) (o_EventID order) (o_Outcome order) e in
    if pos_Available pos <? o_RemainingQuantity order then
      (Some ErrInsufficientShares, order, e)
    else
      let pos := mkPosition (pos_Available pos -' o_RemainingQuantity order)
                            (pos_Reserved pos +' o_RemainingQuantity order) in
      (None, set_LockedFunds (o_RemainingQuantity order) order, putPosition key pos e).

(** ** Settlement *)

(** [if x < 0 { x = 0 }] *)
Definition clamp0 (x : Z) : Z := if x <? 0 then 0 else x.

(** The loop body over [{trade.OrderID, trade.MatchOrderID}]. *)
Definition unlockFill (cost qty : Z) (orderID : string) (e : Engine) : Engine :=
  match orders e !! orderID with
  | None => e
  | Some p =>
      with_heap (store p (λ o,
        let l := if o_Side o =s SideBuy then o_LockedFunds o -' cost
                 else o_LockedFunds o -' qty in
        set_LockedFunds (clamp0 l) o)) e
  end.

Definition settleTradeLocked (trade : Trade) (e : Engine) : Engine :=
  let cost := t_Quantity trade *' t_Price trade in
  let '(buyerBal, e) := getOrCreateBalance (t_BuyerID trade) e in
  let e := putBalance (t_BuyerID trade)
             (mkBalance (bal_Available buyerBal) (clamp0 (bal_Reserved buyerBal -' cost))) e in
  let '(buyerPos, e) :=
    getOrCreatePosition (t_BuyerID trade) (t_EventID trade) (t_Outcome trade) e in
  let e := putPosition (positionKey (t_BuyerID trade) (t_EventID trade) (t_Outcome trade))
             (mkPosition (pos_Available buyerPos +' t_Quantity trade) (pos_Reserved buyerPos)) e in
  let '(sellerBal, e) := getOrCreateBalance (t_SellerID trade) e in
  let e := putBalance (t_SellerID trade)
             (mkBalance (bal_Available sellerBal +' cost) (bal_Reserved sellerBal)) e in
  let '(sellerPos, e) :=
    getOrCreatePosition (t_SellerID trade) (t_EventID trade) (t_Outcome trade) e in
  let e := putPosition (positionKey (t_SellerID trade) (t_EventID trade) (t_Outcome trade))
             (mkPosition (pos_Available sellerPos)
                (clamp0 (pos_Reserved sellerPos -' t_Quantity trade))) e in
  unlockFill cost (t_Quantity trade) (t_MatchOrderID trade)
    (unlockFill cost (t_Quantity trade) (t_OrderID trade) e).

(** ** Release *)

Definition releaseOrderLocked (p : nat) (e : Engine) : Engine :=
  let order := deref (heap e) p in
  if o_LockedFunds order <=? 0 then e
  else
    let e :=
      if o_Side order =s SideBuy then
        let '(bal, e) := getOrCreateBalance (o_UserID order) e in
        putBalance (o_UserID order)
          (mkBalance (bal_Available bal +' o_LockedFunds order)
             (clamp0 (bal_Reserved bal -' o_LockedFunds order))) e
      else
        let '(pos, e) :=
          getOrCreatePosition (o_UserID order) (o_EventID order) (o_Outcome order) e in
        putPosition (positionKey (o_UserID order) (o_EventID order) (o_Outcome order))
          (mkPosition (pos_Available pos +' o_LockedFunds order)
             (clamp0 (pos_Reserved pos -' o_LockedFunds order))) e in
    with_heap (store p (set_LockedFunds 0)) e.

(** ** Snapshots *)

Definition GetBalances (userID : string) (e : Engine) : Z * Z * bool :=
  match balances e !! userID with
  | None => (0, 0, false)
  | Some bal => (bal_Available bal, bal_Reserved bal, true)
  end.

Definition GetPosition (userID eventID outcome : string) (e : Engine) : Z * Z * bool :=
  match positions e !! positionKey userID eventID outcome with
  | None => (0, 0, false)
  | Some pos => (pos_Available pos, pos_Reserved pos, true)
  end.

(** ** The ledger as total functions

    An absent account is an account with nothing in it; the lemmas below state
    each operation against this view. *)

Definition balanceOf (e : Engine) (u : string) : Balance := default zeroBalance (balances e !! u).
Definition positionOf (e : Engine) (k : string) : Position := default zeroPosition (positions e !! k).

(** Total cash and total shares held by the engine. *)
Definition cash (e : Engine) : Z :=
  map_sumZ (λ b, bal_Available b + bal_Reserved b) (balances e).
Definition shares (e : Engine) : Z :=
  map_sumZ (λ p, pos_Available p + pos_Reserved p) (positions e).

Lemma getOrCreateBalance_spec u e :
  getOrCreateBalance u e = (balanceOf e u, snd (getOrCreateBalance u e)).
Proof. unfold getOrCreateBalance, balanceOf. by destruct (balances e !! u). Qed.

Lemma getOrCreatePosition_spec u ev oc e :
  getOrCreatePosition u ev oc e =
    (positionOf e (positionKey u ev oc), snd (getOrCreatePosition u ev oc e)).
Proof. unfold getOrCreatePosition, positionOf. by destruct (positions e !! _). Qed.

(** A write after [getOrCreate] hides whether the entry was created. *)
Lemma putBalance_getOrCreate u b e :
  putBalance u b (snd (getOrCreateBalance u e)) = putBalance u b e.
Proof.
  unfold getOrCreateBalance. destruct (balances e !! u) eqn:E; [done|].
  unfold putBalance, with_balances; simpl. by rewrite insert_insert_eq.
Qed.

Lemma putPosition_getOrCreate u ev oc p e :
  putPosition (positionKey u ev oc) p (snd (getOrCreatePosition u ev oc e)) =
  putPosition (positionKey u ev oc) p e.
Proof.
  unfold getOrCreatePosition. destruct (positions e !! _) eqn:E; [done|].
  unfold putPosition, with_positions; simpl. by rewrite insert_insert_eq.
Qed.

Lemma balanceOf_put u b e u' :
  balanceOf (putBalance u b e) u' = if decide (u = u') then b else balanceOf e u'.
Proof. unfold balanceOf, putBalance; simpl. rewrite lookup_insert. by case_decide. Qed.

Lemma positionOf_put k p e k' :
  positionOf (putPosition k p e) k' = if decide (k = k') then p else positionOf e k'.
Proof. unfold positionOf, putPosition; simpl. rewrite lookup_insert. by case_decide. Qed.

Lemma balanceOf_getOrCreate u e u' :
  balanceOf (snd (getOrCreateBalance u e)) u' = balanceOf e u'.
Proof.
  unfold getOrCreateBalance. destruct (balances e !! u) eqn:E; [done|]; simpl.
  rewrite balanceOf_put. case_decide; [|done]. subst. unfold balanceOf. by rewrite E.
Qed.

Lemma positionOf_getOrCreate u ev oc e k :
  positionOf (snd (getOrCreatePosition u ev oc e)) k = positionOf e k.
Proof.
  unfold getOrCreatePosition. destruct (positions e !! _) eqn:E; [done|]; simpl.
  rewrite positionOf_put. case_decide; [|done]. subst. unfold positionOf. by rewrite E.
Qed.

Lemma cash_put u b e :
  cash (putBalance u b e) =
    cash e - (bal_Available (balanceOf e u) + bal_Reserved (balanceOf e u))
      + (bal_Available b + bal_Reserved b).
Proof.
  unfold cash, putBalance, balanceOf; simpl. destruct (balances e !! u) as [b0|] eqn:E; simpl.
  - by rewrite (map_sumZ_insert _ _ _ _ _ E).
  - rewrite map_sumZ_insert_new by done. lia.
Qed.

Lemma shares_put k p e :
  shares (putPosition k p e) =
    shares e - (pos_Available (positionOf e k) + pos_Reserved (positionOf e k))
      + (pos_Available p + pos_Reserved p).
Proof.
  unfold shares, putPosition, positionOf; simpl. destruct (positions e !! k) as [p0|] eqn:E; simpl.
  - by rewrite (map_sumZ_insert _ _ _ _ _ E).
  - rewrite map_sumZ_insert_new by done. lia.
Qed.

Lemma cash_getOrCreate u e : cash (snd (getOrCreateBalance u e)) = cash e.
Proof.
  unfold getOrCreateBalance. destruct (balances e !! u) eqn:E; [done|]; simpl.
  rewrite cash_put. unfold balanceOf. rewrite E. simpl. lia.
Qed.

Lemma shares_getOrCreate u ev oc e : shares (snd (getOrCreatePosition u ev oc e)) = shares e.
Proof.
  unfold getOrCreatePosition. destruct (positions e !! _) eqn:E; [done|]; simpl.
  rewrite shares_put. unfold positionOf. rewrite E. simpl. lia.
Qed.

Create Rewrite HintDb ledger.
#[export] Hint Rewrite putBalance_getOrCreate putPosition_getOrCreate
  balanceOf_put positionOf_put balanceOf_getOrCreate positionOf_getOrCreate
  cash_put shares_put cash_getOrCreate shares_getOrCreate : ledger.

(** ** Equations of the operations

    The four operations as writes of new account values; every later proof uses
    these equations instead of the definitions. *)

Lemma reserve_buy order e :
  o_Side order = SideBuy →
  let u := o_UserID order in
  let b := balanceOf e u in
  let cost := if o_OrderType order =s OrderTypeMarket then bal_Available b
              else o_RemainingQuantity order *' o_Price order in
  reserveOrderLocked order e =
    if bal_Available b <? cost
    then (Some ErrInsufficientFunds, order, snd (getOrCreateBalance u e))
    else (None, set_LockedFunds cost order,
          putBalance u (mkBalance (bal_Available b -' cost) (bal_Reserved b +' cost)) e).
Proof.
  intros Hs u b cost. unfold reserveOrderLocked. rewrite Hs, seqb_refl.
  rewrite getOrCreateBalance_spec. cbv zeta. fold u b cost.
  destruct (_ <? _); [done|]. by rewrite putBalance_getOrCreate.
Qed.

Lemma reserve_sell order e :
  o_Side order ≠ SideBuy →
  let k := positionKey (o_UserID order) (o_EventID order) (o_Outcome order) in
  let p := positionOf e k in
  let q := o_RemainingQuantity order in
  reserveOrderLocked order e =
    if pos_Available p <? q
    then (Some ErrInsufficientShares, order,
          snd (getOrCreatePosition (o_UserID order) (o_EventID order) (o_Outcome order) e))
    else (None, set_LockedFunds q order,
          putPosition k (mkPosition (pos_Available p -' q) (pos_Reserved p +' q)) e).
Proof.
  intros Hs k p q. unfold reserveOrderLocked. rewrite (seqb_ne _ _ Hs).
  rewrite getOrCreatePosition_spec. cbv zeta. fold k p q.
  destruct (_ <? _); [done|]. unfold k. by rewrite putPosition_getOrCreate.
Qed.

Lemma release_buy p e :
  o_Side (deref (heap e) p) = SideBuy →
  0 < o_LockedFunds (deref (heap e) p) →
  let o := deref (heap e) p in
  let b := balanceOf e (o_UserID o) in
  releaseOrderLocked p e =
    with_heap (store p (set_LockedFunds 0))
      (putBalance (o_UserID o)
         (mkBalance (bal_Available b +' o_LockedFunds o)
            (clamp0 (bal_Reserved b -' o_LockedFunds o))) e).
Proof.
  intros Hs Hl o b. unfold releaseOrderLocked. fold o in Hs, Hl |- *.
  destruct (Z.leb_spec (o_LockedFunds o) 0); [lia|].
  rewrite Hs, seqb_refl, getOrCreateBalance_spec. by rewrite putBalance_getOrCreate.
Qed.

Lemma release_sell p e :
  o_Side (deref (heap e) p) ≠ SideBuy →
  0 < o_LockedFunds (deref (heap e) p) →
  let o := deref (heap e) p in
  let k := positionKey (o_UserID o) (o_EventID o) (o_Outcome o) in
  let s := positionOf e k in
  releaseOrderLocked p e =
    with_heap (store p (set_LockedFunds 0))
      (putPosition k
         (mkPosition (pos_Available s +' o_LockedFunds o)
            (clamp0 (pos_Reserved s -' o_LockedFunds o))) e).
Proof.
  intros Hs Hl o k s. unfold releaseOrderLocked. fold o in Hs, Hl |- *.
  destruct (Z.leb_spec (o_LockedFunds o) 0); [lia|].
  rewrite (seqb_ne _ _ Hs), getOrCreatePosition_spec. by rewrite putPosition_getOrCreate.
Qed.

Lemma release_nothing p e :
  o_LockedFunds (deref (heap e) p) ≤ 0 → releaseOrderLocked p e = e.
Proof.
  intros Hl. unfold releaseOrderLocked.
  destruct (Z.leb_spec (o_LockedFunds (deref (heap e) p)) 0); [done|lia].
Qed.

Lemma clamp0_id x : 0 ≤ x → clamp0 x = x.
Proof. unfold clamp0. destruct (Z.ltb_spec x 0); lia. Qed.

Lemma clamp0_nonneg x : 0 ≤ clamp0 x.
Proof. unfold clamp0. destruct (Z.ltb_spec x 0); lia. Qed.
