(* ===== verification/Matching.v ===== *)
(** Order books and matching: the book operations of internal/engine/engine.go
    ([matchAgainstBook], [findCounterparty], [executePair], [removeOrderIndex],
    [canMatch], [addToBook], [removeInvalidBids], [removeInvalidAsks],
    [buildTrade], [removeOrderFromSlice]).

    A book side is a list of pointers; the orders live in the heap, so filling a
    resting order is seen by everyone who holds its pointer. *)

From S2P Require Import Prelude Types State.
Local Open Scope Z_scope.
Local Open Scope i64_scope.

(** [min] on [int64] *)
Definition min64 (a b : Z) : Z := if a <? b then a else b.

Definition canMatch (incoming resting : Order) : bool :=
  if negb (o_Outcome incoming =s o_Outcome resting) then false
  else if o_OrderType incoming =s OrderTypeMarket then true
  else if o_Side incoming =s SideBuy then o_Price resting <=? o_Price incoming
  else if o_Side incoming =s SideSell then o_Price incoming <=? o_Price resting
  else false.

(** The guard [findCounterparty] skips an order on. *)
Definition dead (o : Order) : bool :=
  (o_Status o =s StatusFilled) || (o_Status o =s StatusCanceled)
  || (o_Status o =s StatusRejected) || (o_RemainingQuantity o <=? 0).

Fixpoint findCounterparty (h : list Order) (l : list nat) (incoming : Order) : option nat :=
  match l with
  | [] => None
  | p :: l =>
      let resting := deref h p in
      if dead resting then S <$> findCounterparty h l incoming
      else if o_UserID resting =s o_UserID incoming then S <$> findCounterparty h l incoming
      else if canMatch incoming resting then Some 0%nat
      else S <$> findCounterparty h l incoming
  end.

(** [removeInvalidBids] and [removeInvalidAsks] drop a stale prefix. *)
Definition stale (o : Order) : bool :=
  (o_Status o =s StatusFilled) || (o_Status o =s StatusCanceled)
  || (o_RemainingQuantity o <=? 0).

Fixpoint dropStale (h : list Order) (l : list nat) : list nat :=
  match l with
  | [] => []
  | p :: l' => if stale (deref h p) then dropStale h l' else l
  end.

Definition removeInvalidBids (h : list Order) (b : OrderBook) : OrderBook :=
  mkBook (dropStale h (Bids b)) (Asks b).
Definition removeInvalidAsks (h : list Order) (b : OrderBook) : OrderBook :=
  mkBook (Bids b) (dropStale h (Asks b)).

(** [removeOrderIndex]: shift the tail down by one. *)
Definition removeOrderIndex (l : list nat) (idx : nat) : list nat := delete idx l.

(** [removeOrderFromSlice]: the first entry with that id goes. *)
Fixpoint removeOrderFromSlice (h : list Order) (l : list nat) (orderID : string)
    : list nat * bool :=
  match l with
  | [] => ([], false)
  | p :: l' =>
      if negb (o_ID (deref h p) =s orderID) then
        let '(l'', found) := removeOrderFromSlice h l' orderID in (p :: l'', found)
      else (l', true)
  end.

(** [addToBook]: append and stable-sort by price. *)
Definition addToBook (h : list Order) (b : OrderBook) (p : nat) : OrderBook :=
  if o_Side (deref h p) =s SideBuy then
    mkBook (stable_sort (λ i j, o_Price (deref h j) <? o_Price (deref h i)) (Bids b ++ [p]))
           (Asks b)
  else
    mkBook (Bids b)
           (stable_sort (λ i j, o_Price (deref h i) <? o_Price (deref h j)) (Asks b ++ [p])).

Section matching.
Context `{Environment}.

(** [buildTrade]: the id and the time stamp come from answer [t]. *)
Definition buildTrade (taker maker : Order) (quantity : Z) (t : nat) : Trade :=
  let buyer := if o_Side taker =s SideBuy then o_UserID taker else o_UserID maker in
  let seller := if o_Side taker =s SideBuy then o_UserID maker else o_UserID taker in
  mkTrade (uuid_NewString t) (o_ID taker) (o_ID maker) (o_EventID taker) (o_Outcome taker)
    buyer seller (o_Side taker) quantity (o_Price maker) (time_Now t).

(** What the matching loop mutates. *)
Record MatchState := mkMS {
  ms_heap : list Order;
  ms_side : list nat;
  ms_trades : list Trade;
  ms_tick : nat
}.

Definition executePair (p : nat) (idx : nat) (s : MatchState) : MatchState :=
  let q := default 0%nat (ms_side s !! idx) in
  let incoming := deref (ms_heap s) p in
  let resting := deref (ms_heap s) q in
  let matchQuantity := min64 (o_RemainingQuantity incoming) (o_RemainingQuantity resting) in
  if matchQuantity <=? 0 then s
  else
    let trade := buildTrade incoming resting matchQuantity (ms_tick s) in
    let h := store p (λ o, set_FilledQuantity (o_FilledQuantity o +' matchQuantity)
                         (set_RemainingQuantity (o_RemainingQuantity o -' matchQuantity) o))
               (ms_heap s) in
    let h := store q (λ o, set_FilledQuantity (o_FilledQuantity o +' matchQuantity)
                         (set_RemainingQuantity (o_RemainingQuantity o -' matchQuantity) o)) h in
    if o_RemainingQuantity (deref h q) <=? 0 then
      mkMS (store q (λ o, set_Status StatusFilled (set_RemainingQuantity 0 o)) h)
        (removeOrderIndex (ms_side s) idx) (ms_trades s ++ [trade]) (S (ms_tick s))
    else
      mkMS (store q (set_Status StatusPartial) h)
        (ms_side s) (ms_trades s ++ [trade]) (S (ms_tick s)).

(** The body of the loop of [matchAgainstBook] once the side is chosen;
    [None] is [break]. *)
Definition matchStep (p : nat) (s : MatchState) : option MatchState :=
  let incoming := deref (ms_heap s) p in
  match ms_side s with
  | [] => None
  | _ =>
      match findCounterparty (ms_heap s) (ms_side s) incoming with
      | None => None
      | Some idx => Some (executePair p idx s)
      end
  end.

(** [for incoming.RemainingQuantity > 0 { ... }].  [None] means the fuel ran
    out before the loop ended. *)
Fixpoint matchLoop (fuel : nat) (p : nat) (b : OrderBook) (h : list Order)
    (trades : list Trade) (t : nat) : option (list Order * OrderBook * list Trade * nat) :=
  match fuel with
  | O => None
  | S fuel =>
      if 0 <? o_RemainingQuantity (deref h p) then
        if o_Side (deref h p) =s SideBuy then
          let b := removeInvalidAsks h b in
          match matchStep p (mkMS h (Asks b) trades t) with
          | None => Some (h, b, trades, t)
          | Some s => matchLoop fuel p (mkBook (Bids b) (ms_side s)) (ms_heap s)
                        (ms_trades s) (ms_tick s)
          end
        else
          let b := removeInvalidBids h b in
          match matchStep p (mkMS h (Bids b) trades t) with
          | None => Some (h, b, trades, t)
          | Some s => matchLoop fuel p (mkBook (ms_side s) (Asks b)) (ms_heap s)
                        (ms_trades s) (ms_tick s)
          end
      else Some (h, b, trades, t)
  end.

(** Every round but the last takes an order off the side, so one round more
    than the side is long always suffices (file Priority). *)
Definition matchFuel (b : OrderBook) : nat := S (S (length (Bids b) + length (Asks b))).

Definition matchAgainstBook (p : nat) (b : OrderBook) (h : list Order) (t : nat)
    : option (list Order * OrderBook * list Trade * nat) :=
  matchLoop (matchFuel b) p b h [] t.

End matching.
