(* ===== verification/Sweep.v ===== *)
(** The matching loop against its specification.

    [sweep] walks a book side once, front to back, and fills the incoming order
    against every eligible resting order until it is exhausted: price-time
    priority with same-user orders skipped.  The loop of [matchAgainstBook]
    restarts its search from the front after every fill and prunes stale
    entries; [sideLoop_sweep] shows that it computes the sweep and never needs
    more rounds than the side has orders (plus one).  The facts about matching
    are then proved by induction on the side. *)

From S2P Require Import Prelude Types State Matching.
Local Open Scope Z_scope.
Local Open Scope i64_scope.

(** ** The specification *)

(** A resting order the incoming order may trade with. *)
Definition eligible (incoming resting : Order) : bool :=
  negb (o_UserID resting =s o_UserID incoming) && canMatch incoming resting.

(** Executing [n] shares of an order, as taker and as maker. *)
Definition fillTaker (n : Z) (o : Order) : Order :=
  set_FilledQuantity (o_FilledQuantity o + n) (set_RemainingQuantity (o_RemainingQuantity o - n) o).
Definition fillMaker (n : Z) (o : Order) : Order :=
  set_Status (if o_RemainingQuantity o <=? n then StatusFilled else StatusPartial) (fillTaker n o).

Section sweep.
Context `{Environment}.

Definition tradeOf (h : list Order) (p q : nat) (t : nat) : Trade :=
  let n := Z.min (o_RemainingQuantity (deref h p)) (o_RemainingQuantity (deref h q)) in
  buildTrade (deref h p) (deref h q) n t.

Definition fillPair (h : list Order) (p q : nat) : list Order :=
  let n := Z.min (o_RemainingQuantity (deref h p)) (o_RemainingQuantity (deref h q)) in
  store q (fillMaker n) (store p (fillTaker n) h).

(** [q] keeps resting after the pair was executed. *)
Definition survives (h : list Order) (p q : nat) : bool :=
  o_RemainingQuantity (deref h p) <? o_RemainingQuantity (deref h q).

Fixpoint sweep (p : nat) (h : list Order) (l : list nat) (t : nat)
    : list Order * list nat * list Trade * nat :=
  match l with
  | [] => (h, [], [], t)
  | q :: l' =>
      if o_RemainingQuantity (deref h p) <=? 0 then (h, l, [], t)
      else if eligible (deref h p) (deref h q) then
        let '(h', keep, trades, t') := sweep p (fillPair h p q) l' (S t) in
        (h', if survives h p q then q :: keep else keep, tradeOf h p q t :: trades, t')
      else
        let '(h', keep, trades, t') := sweep p h l' t in (h', q :: keep, trades, t')
  end.
End sweep.

(** ** Well-formed matching problems *)

Definition qty_ok (o : Order) : Prop :=
  0 ≤ o_FilledQuantity o ∧ 0 ≤ o_RemainingQuantity o ∧
  o_FilledQuantity o + o_RemainingQuantity o = o_Quantity o ∧ o_Quantity o ≤ max_int64.

Definition resting_ok (o : Order) : Prop :=
  qty_ok o ∧ 0 < o_RemainingQuantity o ∧ live_status (o_Status o) = true.

Record sweepable (p : nat) (h : list Order) (l : list nat) : Prop := {
  sw_taker : (p < length h)%nat;
  sw_taker_qty : qty_ok (deref h p);
  sw_fresh : p ∉ l;
  sw_nodup : NoDup l;
  sw_alloc : ∀ q, q ∈ l → (q < length h)%nat;
  sw_resting : ∀ q, q ∈ l → resting_ok (deref h q)
}.

(** Fields matching never writes. *)
Definition static (o : Order) :=
  (o_ID o, o_EventID o, o_UserID o, o_OrderType o, o_Outcome o, o_Side o,
   o_Quantity o, o_Price o, o_LockedFunds o, o_CreatedAt o).

Lemma static_inv o o' : static o = static o' →
  o_ID o = o_ID o' ∧ o_EventID o = o_EventID o' ∧ o_UserID o = o_UserID o' ∧
  o_OrderType o = o_OrderType o' ∧ o_Outcome o = o_Outcome o' ∧ o_Side o = o_Side o' ∧
  o_Quantity o = o_Quantity o' ∧ o_Price o = o_Price o' ∧
  o_LockedFunds o = o_LockedFunds o' ∧ o_CreatedAt o = o_CreatedAt o'.
Proof. unfold static. intros Heq. simplify_eq. done. Qed.

Lemma static_fillTaker n o : static (fillTaker n o) = static o.
Proof. done. Qed.
Lemma static_fillMaker n o : static (fillMaker n o) = static o.
Proof. done. Qed.

Lemma eligible_static a a' b b' :
  static a = static a' → static b = static b' → eligible a b = eligible a' b'.
Proof.
  intros Ha Hb. apply static_inv in Ha as (?&?&Hu&Ht&Ho&Hs&?&Hp&_).
  apply static_inv in Hb as (?&?&Hu'&?&Ho'&?&?&Hp'&_).
  unfold eligible, canMatch. by rewrite Hu, Ht, Ho, Hs, Hp, Hu', Ho', Hp'.
Qed.

(** ** One pair *)

Section pair.
Context (p q : nat) (h : list Order).
Hypothesis Hp : (p < length h)%nat.
Hypothesis Hq : (q < length h)%nat.
Hypothesis Hpq : p ≠ q.

Lemma length_fillPair : length (fillPair h p q) = length h.
Proof. unfold fillPair. by rewrite !length_store. Qed.

Lemma fillPair_taker :
  deref (fillPair h p q) p =
    fillTaker (Z.min (o_RemainingQuantity (deref h p)) (o_RemainingQuantity (deref h q)))
      (deref h p).
Proof. unfold fillPair. rewrite deref_store_ne by done. by apply deref_store_eq. Qed.

Lemma fillPair_maker :
  deref (fillPair h p q) q =
    fillMaker (Z.min (o_RemainingQuantity (deref h p)) (o_RemainingQuantity (deref h q)))
      (deref h q).
Proof.
  unfold fillPair. rewrite deref_store_eq by (by rewrite length_store).
  by rewrite deref_store_ne.
Qed.

Lemma fillPair_other r : r ≠ p → r ≠ q → deref (fillPair h p q) r = deref h r.
Proof. intros. unfold fillPair. by rewrite !deref_store_ne by done. Qed.

Lemma fillPair_static r : static (deref (fillPair h p q) r) = static (deref h r).
Proof.
  destruct (decide (r = p)) as [->|]; [by rewrite fillPair_taker|].
  destruct (decide (r = q)) as [->|]; [by rewrite fillPair_maker|].
  by rewrite fillPair_other.
Qed.
End pair.

Lemma qty_ok_fillTaker n o : qty_ok o → 0 ≤ n ≤ o_RemainingQuantity o → qty_ok (fillTaker n o).
Proof. unfold qty_ok; simpl. lia. Qed.

Lemma fillPair_sweepable p h q l :
  sweepable p h (q :: l) → sweepable p (fillPair h p q) l.
Proof.
  intros [Hp Hpq Hf Hn Ha Hr].
  apply not_elem_of_cons in Hf as [Hne Hf]. apply NoDup_cons in Hn as [Hql Hn].
  assert (q < length h)%nat as Hq by (apply Ha; by left).
  destruct (Hr q) as ((?&?&?&?)&?&?); [by left|].
  destruct Hpq as (?&?&?&?).
  split; rewrite ?length_fillPair; [done| |done|done| |].
  - rewrite fillPair_taker by done. apply qty_ok_fillTaker; [done|lia].
  - intros r Hr'. apply Ha. by right.
  - intros r Hr'. rewrite fillPair_other; [|set_solver..]. apply Hr. by right.
Qed.

(** The pair survives with its remainder: still a well-formed resting order. *)
Lemma fillPair_survivor p h q l :
  sweepable p h (q :: l) → survives h p q = true →
  resting_ok (deref (fillPair h p q) q) ∧ o_RemainingQuantity (deref (fillPair h p q) p) = 0.
Proof.
  intros [Hp Hpq Hf Hn Ha Hr] Hs%Z.ltb_lt.
  apply not_elem_of_cons in Hf as [Hne Hf].
  assert (q < length h)%nat as Hq by (apply Ha; by left).
  destruct (Hr q) as ((?&?&?&?)&?&?); [by left|]. destruct Hpq as (?&?&?&?).
  rewrite fillPair_maker, fillPair_taker by done. rewrite Z.min_l by lia.
  unfold resting_ok, qty_ok, fillMaker; simpl.
  destruct (Z.leb_spec (o_RemainingQuantity (deref h q)) (o_RemainingQuantity (deref h p))); [lia|].
  split_and!; try lia; done.
Qed.

(** Otherwise it leaves the side, filled. *)
Lemma fillPair_exhausted p h q l :
  sweepable p h (q :: l) → survives h p q = false →
  o_RemainingQuantity (deref (fillPair h p q) q) = 0 ∧
  o_Status (deref (fillPair h p q) q) = StatusFilled.
Proof.
  intros [Hp Hpq Hf Hn Ha Hr] Hs%Z.ltb_ge.
  apply not_elem_of_cons in Hf as [Hne Hf].
  assert (q < length h)%nat as Hq by (apply Ha; by left).
  rewrite fillPair_maker by done. rewrite Z.min_r by lia.
  unfold fillMaker; simpl. rewrite Z.leb_refl. split; [lia|done].
Qed.

(** ** The loop over one side *)

Section loop.
Context `{Environment}.

Fixpoint sideLoop (fuel : nat) (p : nat) (s : MatchState) : option MatchState :=
  match fuel with
  | O => None
  | S fuel =>
      if 0 <? o_RemainingQuantity (deref (ms_heap s) p) then
        let s := mkMS (ms_heap s) (dropStale (ms_heap s) (ms_side s)) (ms_trades s) (ms_tick s) in
        match matchStep p s with
        | None => Some s
        | Some s => sideLoop fuel p s
        end
      else Some s
  end.

Lemma resting_not_dead o : resting_ok o → dead o = false ∧ stale o = false.
Proof.
  intros (_ & Hr & Hl). unfold dead, stale.
  assert ((o_RemainingQuantity o <=? 0) = false) as -> by lia.
  unfold live_status in Hl. apply orb_true_iff in Hl as [E|E];
    apply seqb_eq in E; rewrite E; done.
Qed.

Lemma dropStale_id p h l : sweepable p h l → dropStale h l = l.
Proof.
  intros Hs. destruct l as [|q l]; [done|]. simpl.
  by rewrite (proj2 (resting_not_dead _ (sw_resting _ _ _ Hs q ltac:(by left)))).
Qed.

(** The search stops at the first eligible order. *)
Lemma findCounterparty_skip h pre l inc :
  (∀ q, q ∈ pre → dead (deref h q) = false ∧ eligible inc (deref h q) = false) →
  findCounterparty h (pre ++ l) inc = (λ i, length pre + i)%nat <$> findCounterparty h l inc.
Proof.
  induction pre as [|q pre IH]; intros Hpre; simpl.
  { by destruct (findCounterparty h l inc). }
  destruct (Hpre q) as [Hd He]; [by left|]. rewrite Hd.
  unfold eligible in He.
  rewrite IH by (intros; apply Hpre; by right).
  destruct (_ =s _); simpl in He; [|rewrite He]; by destruct (findCounterparty h l inc).
Qed.

Lemma findCounterparty_hit h q l inc :
  dead (deref h q) = false → eligible inc (deref h q) = true →
  findCounterparty h (q :: l) inc = Some 0%nat.
Proof.
  intros Hd He. simpl. rewrite Hd. unfold eligible in He.
  apply andb_true_iff in He as [Hu Hc]. apply negb_true_iff in Hu. by rewrite Hu, Hc.
Qed.

Lemma min64_min a b : min64 a b = Z.min a b.
Proof. unfold min64. destruct (Z.ltb_spec a b); lia. Qed.

(** The wrapped arithmetic of [executePair] is exact on well-formed orders. *)
Lemma executePair_fill p h side i q trades t :
  sweepable p h side → side !! i = Some q → 0 < o_RemainingQuantity (deref h p) →
  executePair p i (mkMS h side trades t) =
    mkMS (fillPair h p q)
      (if survives h p q then side else delete i side)
      (trades ++ [tradeOf h p q t]) (S t).
Proof.
  intros Hs Hi Hrem. destruct Hs as [Hp (?&?&?&?) Hf Hn Ha Hr].
  assert (q ∈ side) as Hin by (by eapply list_elem_of_lookup_2).
  assert (p ≠ q) as Hpq by set_solver.
  destruct (Hr q Hin) as ((?&?&?&?)&?&?). pose proof (Ha q Hin) as Hq.
  unfold executePair; simpl. rewrite Hi; simpl. rewrite min64_min.
  unfold survives, tradeOf, fillPair, removeOrderIndex.
  set (n := Z.min (o_RemainingQuantity (deref h p)) (o_RemainingQuantity (deref h q))).
  assert (0 < n) by lia. rewrite (proj2 (Z.leb_gt n 0)) by lia.
  set (F := λ o, set_FilledQuantity (o_FilledQuantity o +' n)
                   (set_RemainingQuantity (o_RemainingQuantity o -' n) o)).
  assert (store p F h = store p (fillTaker n) h) as ->.
  { apply list_eq. intros j. unfold store. destruct (decide (p = j)) as [->|].
    - rewrite !list_lookup_alter_eq, !(deref_lookup h j Hp). simpl.
      unfold F, fillTaker. rewrite add64_id, sub64_id by i64. done.
    - by rewrite !list_lookup_alter_ne. }
  set (h1 := store p (fillTaker n) h).
  assert (q < length h1)%nat as Hq1 by (unfold h1; by rewrite length_store).
  assert (deref h1 q = deref h q) as Eq1 by (unfold h1; by rewrite deref_store_ne).
  assert (o_RemainingQuantity (deref (store q F h1) q) = o_RemainingQuantity (deref h q) - n) as Er.
  { rewrite deref_store_eq by done. rewrite Eq1. simpl. apply sub64_id. i64. }
  rewrite Er.
  assert (∀ G, (∀ o, o = deref h q → G (F o) = fillMaker n o) →
    store q G (store q F h1) = store q (fillMaker n) h1) as Hstore.
  { intros G HG. apply list_eq. intros j. unfold store. destruct (decide (q = j)) as [->|].
    - rewrite !list_lookup_alter_eq, !(deref_lookup h1 j Hq1). simpl. rewrite Eq1. f_equal. by apply HG.
    - by rewrite !list_lookup_alter_ne. }
  destruct (Z.ltb_spec (o_RemainingQuantity (deref h p)) (o_RemainingQuantity (deref h q))).
  - rewrite (proj2 (Z.leb_gt _ 0)) by lia. f_equal. apply Hstore. intros o ->.
    unfold F, fillMaker, fillTaker. rewrite add64_id, sub64_id by i64.
    rewrite (proj2 (Z.leb_gt _ n)) by lia. done.
  - rewrite (proj2 (Z.leb_le _ 0)) by lia. f_equal. apply Hstore. intros o ->.
    unfold F, fillMaker, fillTaker. rewrite add64_id, sub64_id by i64.
    rewrite (proj2 (Z.leb_le _ n)) by lia. unfold set_Status, set_RemainingQuantity; simpl.
    f_equal. lia.
Qed.

Lemma sweep_done p h l t :
  o_RemainingQuantity (deref h p) ≤ 0 → sweep p h l t = (h, l, [], t).
Proof. intros Hr. destruct l; simpl; [done|]. by rewrite (proj2 (Z.leb_le _ _) Hr). Qed.

Lemma sideLoop_done f p s :
  o_RemainingQuantity (deref (ms_heap s) p) ≤ 0 → sideLoop (S f) p s = Some s.
Proof. intros Hr. simpl. by rewrite (proj2 (Z.ltb_ge _ _) Hr). Qed.

Lemma sideLoop_none f p h side trades t :
  sweepable p h side → 0 < o_RemainingQuantity (deref h p) →
  (∀ q, q ∈ side → eligible (deref h p) (deref h q) = false) →
  sideLoop (S f) p (mkMS h side trades t) = Some (mkMS h side trades t).
Proof.
  intros Hs Hr He. simpl. rewrite (proj2 (Z.ltb_lt _ _) Hr).
  rewrite (dropStale_id _ _ _ Hs). unfold matchStep; simpl.
  destruct side as [|q side]; [done|].
  assert (findCounterparty h (q :: side) (deref h p) = None) as ->; [|done].
  rewrite <- (app_nil_r (q :: side)), findCounterparty_skip; [done|].
  intros r Hin. split; [|by apply He].
  by apply resting_not_dead, (sw_resting _ _ _ Hs).
Qed.

Lemma sideLoop_hit f p h pre q l trades t :
  sweepable p h (pre ++ q :: l) → 0 < o_RemainingQuantity (deref h p) →
  (∀ r, r ∈ pre → eligible (deref h p) (deref h r) = false) →
  eligible (deref h p) (deref h q) = true →
  sideLoop (S f) p (mkMS h (pre ++ q :: l) trades t) =
  sideLoop f p (mkMS (fillPair h p q) (if survives h p q then pre ++ q :: l else pre ++ l)
                  (trades ++ [tradeOf h p q t]) (S t)).
Proof.
  intros Hs Hr Hpre Hq. simpl. rewrite (proj2 (Z.ltb_lt _ _) Hr).
  rewrite (dropStale_id _ _ _ Hs). unfold matchStep; simpl.
  assert (findCounterparty h (pre ++ q :: l) (deref h p) = Some (length pre)) as Hf.
  { rewrite findCounterparty_skip, findCounterparty_hit; simpl.
    - f_equal; lia.
    - apply resting_not_dead, (sw_resting _ _ _ Hs). set_solver.
    - done.
    - intros r Hin. split; [|by apply Hpre].
      apply resting_not_dead, (sw_resting _ _ _ Hs). set_solver. }
  rewrite Hf. destruct (pre ++ q :: l) eqn:E; [by destruct pre|]. rewrite <- E in *.
  rewrite (executePair_fill p h (pre ++ q :: l) (length pre) q); [|done| |done].
  - by rewrite delete_middle.
  - by apply list_lookup_middle.
Qed.

Lemma sweepable_perm p h l l' : l ≡ₚ l' → sweepable p h l → sweepable p h l'.
Proof.
  intros Hl [Hp Hq Hf Hn Ha Hr].
  split; [done|done|by rewrite <- Hl|by rewrite <- Hl| |];
    intros r; rewrite <- Hl; auto.
Qed.

Lemma sweepable_cons_inv p h q l : sweepable p h (q :: l) → sweepable p h l.
Proof.
  intros [Hp Hq Hf [_ Hn]%NoDup_cons Ha Hr]. split; [done|done|set_solver|done| |];
    intros r ?; [apply Ha|apply Hr]; by right.
Qed.

Lemma fillPair_sweepable_mid p h pre q l :
  sweepable p h (pre ++ q :: l) →
  sweepable p (fillPair h p q) (if survives h p q then pre ++ q :: l else pre ++ l).
Proof.
  intros Hs. apply (sweepable_perm _ _ _ (q :: pre ++ l)) in Hs;
    [|by rewrite Permutation_middle].
  pose proof (fillPair_sweepable _ _ _ _ Hs) as Hs'.
  destruct (survives h p q) eqn:E; [|done].
  apply (sweepable_perm _ _ (q :: pre ++ l)); [by rewrite Permutation_middle|].
  pose proof (fillPair_survivor _ _ _ _ Hs E) as [Hr _].
  destruct Hs' as [??? Hn Ha ?], Hs as [? ? Hf Hn' Ha' ?].
  split; [done|done|done|done| |].
  - intros r Hr'. rewrite length_fillPair. auto.
  - intros r [->|]%elem_of_cons; auto.
Qed.

(** The loop, started with [pre] already ruled out, computes the sweep of the
    rest; as many rounds as orders suffice. *)
Lemma sideLoop_sweep p l : ∀ pre fuel h trades t,
  sweepable p h (pre ++ l) →
  (∀ r, r ∈ pre → eligible (deref h p) (deref h r) = false) →
  (length l < fuel)%nat →
  sideLoop fuel p (mkMS h (pre ++ l) trades t) =
    let '(h', keep, trs, t') := sweep p h l t in
    Some (mkMS h' (pre ++ keep) (trades ++ trs) t').
Proof.
  induction l as [|q l IH]; intros pre fuel h trades t Hs Hpre Hfuel;
    (destruct fuel as [|f]; [simpl in Hfuel; lia|]);
    destruct (Z.le_gt_cases (o_RemainingQuantity (deref h p)) 0) as [Hr|Hr].
  - rewrite sideLoop_done by done. simpl. by rewrite !app_nil_r.
  - rewrite app_nil_r in *. rewrite sideLoop_none by done. simpl. by rewrite !app_nil_r.
  - rewrite sideLoop_done, sweep_done by done. by rewrite app_nil_r.
  - simpl sweep. rewrite (proj2 (Z.leb_gt _ 0)) by lia.
    destruct (eligible (deref h p) (deref h q)) eqn:Eq.
    + rewrite sideLoop_hit by done.
      pose proof (fillPair_sweepable_mid _ _ _ _ _ Hs) as Hs'.
      assert (p ≠ q) by (intros ->; apply (sw_fresh _ _ _ Hs); set_solver).
      assert (q < length h)%nat by (apply (sw_alloc _ _ _ Hs); set_solver).
      pose proof (sw_taker _ _ _ Hs).
      destruct (survives h p q) eqn:Es.
      * assert (o_RemainingQuantity (deref (fillPair h p q) p) = 0) as Hz.
        { apply (fillPair_survivor p h q (pre ++ l)); [|done].
          apply (sweepable_perm _ _ (pre ++ q :: l)); [by rewrite Permutation_middle|done]. }
        destruct f as [|f]; [simpl in Hfuel; lia|].
        rewrite sideLoop_done, sweep_done by (simpl; lia). done.
      * rewrite IH; [|done| |simpl in Hfuel; lia].
        -- destruct (sweep p (fillPair h p q) l (S t)) as [[[h' keep] trs] t'].
           by rewrite <- app_assoc.
        -- intros r Hin. rewrite <- (Hpre r Hin).
           apply eligible_static; by apply fillPair_static.
    + assert (pre ++ q :: l = (pre ++ [q]) ++ l) as Heq by (by rewrite <- app_assoc).
      rewrite Heq in *. rewrite IH; [|done| |simpl in Hfuel; lia].
      * destruct (sweep p h l t) as [[[h' keep] trs] t']. by rewrite <- app_assoc.
      * intros r. rewrite elem_of_app, list_elem_of_singleton. intros [?| ->]; auto.
Qed.

End loop.

(** ** The book loop is the side loop *)

(** The side an order matches against, and the book with that side replaced. *)
Definition oppSide (o : Order) (b : OrderBook) : list nat :=
  if o_Side o =s SideBuy then Asks b else Bids b.
Definition withOpp (o : Order) (l : list nat) (b : OrderBook) : OrderBook :=
  if o_Side o =s SideBuy then mkBook (Bids b) l else mkBook l (Asks b).

Section book_loop.
Context `{Environment}.

Lemma executePair_side p i s :
  o_Side (deref (ms_heap (executePair p i s)) p) = o_Side (deref (ms_heap s) p).
Proof.
  assert (∀ r g h q, (∀ o, o_Side (g o) = o_Side o) →
    o_Side (deref (store r g h) q) = o_Side (deref h q)) as Hst.
  { intros r g h q Hg. unfold deref, store. destruct (decide (r = q)) as [->|].
    - rewrite list_lookup_alter_eq. by destruct (h !! q); simpl.
    - by rewrite list_lookup_alter_ne. }
  unfold executePair. destruct (_ <=? 0); [done|].
  destruct (_ <=? 0); simpl; rewrite !Hst; done.
Qed.

Lemma matchStep_side p s s' :
  matchStep p s = Some s' →
  o_Side (deref (ms_heap s') p) = o_Side (deref (ms_heap s) p).
Proof.
  unfold matchStep. destruct (ms_side s); [done|].
  destruct (findCounterparty _ _ _); [|done]. intros [= <-]. apply executePair_side.
Qed.

Lemma matchLoop_sideLoop fuel p : ∀ b h trades t,
  matchLoop fuel p b h trades t =
    (λ s, (ms_heap s, withOpp (deref h p) (ms_side s) b, ms_trades s, ms_tick s))
      <$> sideLoop fuel p (mkMS h (oppSide (deref h p) b) trades t).
Proof.
  induction fuel as [|f IH]; intros b h trades t; simpl; [done|].
  unfold oppSide, withOpp.
  destruct (0 <? _); [|simpl; by destruct b, (o_Side _ =s _)].
  destruct (o_Side (deref h p) =s SideBuy) eqn:Es; simpl;
    (destruct (matchStep p _) as [s|] eqn:Em; simpl; [|by destruct b]);
    apply matchStep_side in Em; simpl in Em; rewrite IH;
    unfold oppSide, withOpp; rewrite Em, Es; simpl; by destruct s.
Qed.

(** [matchAgainstBook] computes the sweep of the opposite side. *)
Lemma matchAgainstBook_eq p b h t :
  sweepable p h (oppSide (deref h p) b) →
  matchAgainstBook p b h t =
    let '(h', keep, trs, t') := sweep p h (oppSide (deref h p) b) t in
    Some (h', withOpp (deref h p) keep b, trs, t').
Proof.
  intros Hs. unfold matchAgainstBook. rewrite matchLoop_sideLoop.
  rewrite (sideLoop_sweep p (oppSide (deref h p) b) [] _ h [] t); simpl; [|done|set_solver|].
  - by destruct (sweep _ _ _ _) as [[[h' keep] trs] t'].
  - unfold matchFuel, oppSide. destruct (_ =s _); lia.
Qed.
End book_loop.

(** ** Facts about a sweep *)

Section facts.
Context `{Environment}.

(** Induction along a sweep: the taker is exhausted (or the side is), a pair is
    executed, or an ineligible order is passed over. *)
Lemma sweep_ind p
    (P : list Order → list nat → list Order → list nat → list Trade → Prop) :
  (∀ h l, sweepable p h l → l = [] ∨ o_RemainingQuantity (deref h p) ≤ 0 → P h l h l []) →
  (∀ h q l t h' keep trs,
     sweepable p h (q :: l) → 0 < o_RemainingQuantity (deref h p) →
     eligible (deref h p) (deref h q) = true →
     P (fillPair h p q) l h' keep trs →
     (survives h p q = true → h' = fillPair h p q ∧ keep = l ∧ trs = []) →
     P h (q :: l) h' (if survives h p q then q :: keep else keep) (tradeOf h p q t :: trs)) →
  (∀ h q l h' keep trs,
     sweepable p h (q :: l) → 0 < o_RemainingQuantity (deref h p) →
     eligible (deref h p) (deref h q) = false →
     P h l h' keep trs → P h (q :: l) h' (q :: keep) trs) →
  ∀ l h t h' keep trs t',
    sweepable p h l → sweep p h l t = (h', keep, trs, t') → P h l h' keep trs.
Proof.
  intros Hdone Hfill Hskip l. induction l as [|q l IH]; intros h t h' keep trs t' Hs Hsw.
  { simplify_eq/=. apply Hdone; auto. }
  destruct (Z.le_gt_cases (o_RemainingQuantity (deref h p)) 0) as [Hr|Hr].
  { rewrite sweep_done in Hsw by done. simplify_eq. apply Hdone; auto. }
  simpl in Hsw. rewrite (proj2 (Z.leb_gt _ 0)) in Hsw by lia.
  destruct (eligible (deref h p) (deref h q)) eqn:He.
  - destruct (sweep p (fillPair h p q) l (S t)) as [[[h1 keep1] trs1] t1] eqn:E. simplify_eq.
    apply Hfill; [done|lia|done| |].
    + eapply IH; [|exact E]. by apply fillPair_sweepable.
    + intros Hsv. destruct (fillPair_survivor _ _ _ _ Hs Hsv) as [_ Hz].
      rewrite sweep_done in E by lia. by simplify_eq.
  - destruct (sweep p h l t) as [[[h1 keep1] trs1] t1] eqn:E. simplify_eq.
    apply Hskip; [done|lia|done|]. eapply IH; [|exact E]. by eapply sweepable_cons_inv.
Qed.

Section fixed.
Context (p : nat).

(** Facts about the head of the side, used in every case. *)
Lemma sweepable_head h q l :
  sweepable p h (q :: l) →
  (p < length h)%nat ∧ (q < length h)%nat ∧ p ≠ q ∧ p ∉ l ∧ q ∉ l ∧
  qty_ok (deref h p) ∧ resting_ok (deref h q).
Proof.
  intros [Hp Hq Hf [Hql Hn]%NoDup_cons Ha Hr]. apply not_elem_of_cons in Hf as [??].
  split_and!; try done; [apply Ha|apply Hr]; by left.
Qed.

Lemma sweep_frame l h t h' keep trs t' :
  sweepable p h l → sweep p h l t = (h', keep, trs, t') →
  length h' = length h ∧ (∀ r, static (deref h' r) = static (deref h r)) ∧
  (∀ r, r ≠ p → r ∉ l → deref h' r = deref h r) ∧
  o_Status (deref h' p) = o_Status (deref h p) ∧ qty_ok (deref h' p).
Proof.
  revert l h t h' keep trs t'. apply sweep_ind.
  - intros h l Hs _. split_and!; try done. by apply (sw_taker_qty _ _ _ Hs).
  - intros h q l t h' keep trs Hs Hr He (IHl & IHs & IHo & IHst & IHq) _.
    destruct (sweepable_head _ _ _ Hs) as (Hp & Hq & Hpq & _).
    rewrite length_fillPair in IHl. split_and!; [done| | | |done].
    + intros r. rewrite IHs. by apply fillPair_static.
    + intros r Hrp [Hrq Hrl]%not_elem_of_cons.
      rewrite IHo by done. by apply fillPair_other.
    + rewrite IHst, fillPair_taker; done.
  - intros h q l h' keep trs Hs Hr He (IHl & IHs & IHo & IHst & IHq).
    split_and!; try done. intros r Hrp [Hrq Hrl]%not_elem_of_cons. by apply IHo.
Qed.

Lemma sweep_keep l h t h' keep trs t' :
  sweepable p h l → sweep p h l t = (h', keep, trs, t') →
  sublist keep l ∧ (∀ r, r ∈ keep → resting_ok (deref h' r)) ∧
  (∀ r, r ∈ l → r ∉ keep →
     o_RemainingQuantity (deref h' r) = 0 ∧ o_Status (deref h' r) = StatusFilled ∧
     qty_ok (deref h' r)).
Proof.
  intros Hs0 Hsw.
  enough ((∀ r, r ≠ p → r ∉ l → deref h' r = deref h r) ∧
    sublist keep l ∧ (∀ r, r ∈ keep → resting_ok (deref h' r)) ∧
    (∀ r, r ∈ l → r ∉ keep →
     o_RemainingQuantity (deref h' r) = 0 ∧ o_Status (deref h' r) = StatusFilled ∧
     qty_ok (deref h' r))) by tauto.
  revert Hs0 Hsw. revert l h t h' keep trs t'. apply sweep_ind.
  - intros h l Hs _. split_and!; try done. by apply (sw_resting _ _ _ Hs).
  - intros h q l t h' keep trs Hs Hr He (IHo & IHsub & IHk & IHg) Hsv.
    destruct (sweepable_head _ _ _ Hs) as (Hp & Hq & Hpq & Hpl & Hql & (?&?&?&?) & (?&?&?&?) & ? & ?).
    assert (∀ r, r ≠ p → r ∉ q :: l → deref h' r = deref h r) as Hfr.
    { intros r Hrp [Hrq Hrl]%not_elem_of_cons.
      rewrite IHo by done. by apply fillPair_other. }
    assert (deref h' q = deref (fillPair h p q) q) as Eq by (by apply IHo).
    destruct (survives h p q) eqn:Es; (split_and!; [done| | |]).
    + by constructor.
    + intros r [->|Hin]%elem_of_cons; [|by apply IHk].
      rewrite Eq. by eapply fillPair_survivor.
    + intros r Hin Hnk. apply not_elem_of_cons in Hnk as [Hrq Hrk].
      apply elem_of_cons in Hin as [->|Hin]; [done|]. by apply IHg.
    + by constructor.
    + done.
    + intros r [->|Hin]%elem_of_cons Hnk; [|by apply IHg].
      rewrite Eq. destruct (fillPair_exhausted _ _ _ _ Hs Es) as [??].
      split_and!; [done|done|]. rewrite fillPair_maker by done.
      unfold qty_ok; simpl. lia.
  - intros h q l h' keep trs Hs Hr He (IHo & IHsub & IHk & IHg).
    destruct (sweepable_head _ _ _ Hs) as (Hp & Hq & Hpq & Hpl & Hql & _ & Hres).
    assert (deref h' q = deref h q) as Eq by (by apply IHo).
    split_and!; [| by constructor| |].
    + intros r Hrp [Hrq Hrl]%not_elem_of_cons. by apply IHo.
    + intros r [->|Hin]%elem_of_cons; [by rewrite Eq|by apply IHk].
    + intros r Hin [Hrq Hrk]%not_elem_of_cons.
      apply elem_of_cons in Hin as [->|Hin]; [done|]. by apply IHg.
Qed.

(** If the taker is not exhausted, nobody left on the side may trade with it. *)
Lemma sweep_uncrossed l h t h' keep trs t' :
  sweepable p h l → sweep p h l t = (h', keep, trs, t') →
  0 < o_RemainingQuantity (deref h' p) →
  ∀ r, r ∈ keep → eligible (deref h p) (deref h r) = false.
Proof.
  revert l h t h' keep trs t'. apply (sweep_ind p (λ h l h' keep trs,
    0 < o_RemainingQuantity (deref h' p) →
    ∀ r, r ∈ keep → eligible (deref h p) (deref h r) = false)).
  - intros h l Hs [->|Hr] H0 r Hin; [by apply elem_of_nil in Hin|lia].
  - intros h q l t h' keep trs Hs Hr He IH Hsv H0 r Hin.
    destruct (sweepable_head _ _ _ Hs) as (Hp & Hq & Hpq & _).
    destruct (survives h p q) eqn:Es.
    + destruct (Hsv eq_refl) as (-> & -> & ->).
      destruct (fillPair_survivor _ _ _ _ Hs Es) as [_ Hz]. lia.
    + rewrite <- (IH H0 r Hin). apply eligible_static; symmetry; by apply fillPair_static.
  - intros h q l h' keep trs Hs Hr He IH H0 r [->|Hin]%elem_of_cons; [done|]. by apply IH.
Qed.

(** Every trade is between the taker and an eligible order of the side, at the
    price of the resting order. *)
Definition trade_between (h : list Order) (l : list nat) (tr : Trade) : Prop :=
  ∃ r n t0, r ∈ l ∧ 0 < n ≤ o_RemainingQuantity (deref h r) ∧
    n ≤ o_RemainingQuantity (deref h p) ∧
    eligible (deref h p) (deref h r) = true ∧
    tr = buildTrade (deref h p) (deref h r) n t0.

Lemma buildTrade_static a a' b b' n t :
  static a = static a' → static b = static b' → buildTrade a b n t = buildTrade a' b' n t.
Proof.
  intros Ha Hb. apply static_inv in Ha as (Hi&Hev&Hu&Ht&Ho&Hs&?&Hp&_).
  apply static_inv in Hb as (Hi'&?&Hu'&?&Ho'&?&?&Hp'&_).
  unfold buildTrade. by rewrite Hi, Hev, Hu, Ho, Hs, Hi', Hu', Hp'.
Qed.

Lemma sweep_trades l h t h' keep trs t' :
  sweepable p h l → sweep p h l t = (h', keep, trs, t') → Forall (trade_between h l) trs.
Proof.
  revert l h t h' keep trs t'. apply sweep_ind.
  - intros; constructor.
  - intros h q l t h' keep trs Hs Hr He IH _.
    destruct (sweepable_head _ _ _ Hs) as (Hp & Hq & Hpq & Hpl & Hql & (?&?&?&?) & ? & ? & ?).
    constructor.
    + exists q, (Z.min (o_RemainingQuantity (deref h p)) (o_RemainingQuantity (deref h q))), t.
      split_and!; [by left|lia|lia|lia|done|done].
    + eapply Forall_impl; [exact IH|]. intros tr (r & n & t0 & Hin & Hn & Hn' & Hel & ->).
      assert (r ≠ q) by set_solver. assert (r ≠ p) by set_solver.
      exists r, n, t0. rewrite fillPair_other in Hn by done.
      rewrite fillPair_taker in Hn' by done. simpl in Hn'.
      split_and!; [by right|lia|lia|lia| |].
      * rewrite <- Hel. apply eligible_static; symmetry; by apply fillPair_static.
      * apply buildTrade_static; by apply fillPair_static.
  - intros h q l h' keep trs Hs Hr He IH.
    eapply Forall_impl; [exact IH|]. intros tr (r & n & t0 & Hin & Hrest).
    exists r, n, t0. split; [by right|done].
Qed.

(** What the taker lost, the trades carry. *)
Lemma sweep_taker_qty l h t h' keep trs t' :
  sweepable p h l → sweep p h l t = (h', keep, trs, t') →
  o_RemainingQuantity (deref h p) = o_RemainingQuantity (deref h' p) + sumZ t_Quantity trs.
Proof.
  revert l h t h' keep trs t'. apply sweep_ind.
  - intros; simpl; lia.
  - intros h q l t h' keep trs Hs Hr He IH _.
    destruct (sweepable_head _ _ _ Hs) as (Hp & Hq & Hpq & _).
    rewrite fillPair_taker in IH by done. simpl in *. lia.
  - intros h q l h' keep trs Hs Hr He IH. done.
Qed.

(** The trades against one maker. *)
Definition makerQty (id : string) (tr : Trade) : Z :=
  if t_MatchOrderID tr =s id then t_Quantity tr else 0.

Lemma sweep_maker_qty l h t h' keep trs t' :
  sweepable p h l → sweep p h l t = (h', keep, trs, t') →
  NoDup ((λ r, o_ID (deref h r)) <$> l) →
  ∀ r, r ∈ l → o_RemainingQuantity (deref h r) =
    o_RemainingQuantity (deref h' r) + sumZ (makerQty (o_ID (deref h r))) trs.
Proof.
  intros Hs0 Hsw.
  enough ((∀ r, r ≠ p → r ∉ l → deref h' r = deref h r) ∧
    (∀ tr, tr ∈ trs → t_MatchOrderID tr ∈ ((λ r, o_ID (deref h r)) <$> l)) ∧
    (NoDup ((λ r, o_ID (deref h r)) <$> l) →
     ∀ r, r ∈ l → o_RemainingQuantity (deref h r) =
       o_RemainingQuantity (deref h' r) + sumZ (makerQty (o_ID (deref h r))) trs)) by tauto.
  revert Hs0 Hsw. revert l h t h' keep trs t'. apply sweep_ind.
  - intros h l Hs _. split_and!; try done; [set_solver|]. intros; simpl; lia.
  - intros h q l t h' keep trs Hs Hr He (IHo & IHin & IH) _.
    destruct (sweepable_head _ _ _ Hs) as (Hp & Hq & Hpq & Hpl & Hql & _).
    assert (∀ r, o_ID (deref (fillPair h p q) r) = o_ID (deref h r)) as Hid.
    { intros r. by apply static_inv, fillPair_static. }
    assert (((λ r, o_ID (deref (fillPair h p q) r)) <$> l) = ((λ r, o_ID (deref h r)) <$> l)) as Eids.
    { apply list_fmap_ext. intros; apply Hid. }
    rewrite Eids in *. split_and!.
    + intros r Hrp [Hrq Hrl]%not_elem_of_cons.
      rewrite IHo by done. by apply fillPair_other.
    + intros tr [->|Hin]%elem_of_cons; [by left|]. right. by apply IHin.
    + rewrite fmap_cons, NoDup_cons. intros [Hnq Hnd] r [->|Hin]%elem_of_cons.
      * rewrite IHo by done. rewrite fillPair_maker by done. simpl.
        unfold makerQty at 1; simpl. rewrite seqb_refl.
        rewrite (sumZ_zero _ trs); [lia|]. intros tr Htr. unfold makerQty.
        rewrite seqb_ne; [done|]. intros Heq. apply Hnq. rewrite <- Heq. by apply IHin.
      * assert (r ≠ q) by set_solver. assert (r ≠ p) by set_solver.
        specialize (IH Hnd r Hin). rewrite Hid, fillPair_other in IH by done.
        rewrite IH. simpl. unfold makerQty at 2; simpl.
        rewrite seqb_ne; [lia|]. intros Heq. apply Hnq. rewrite Heq.
        apply list_elem_of_fmap. by exists r.
  - intros h q l h' keep trs Hs Hr He (IHo & IHin & IH).
    destruct (sweepable_head _ _ _ Hs) as (Hp & Hq & Hpq & Hpl & Hql & _).
    split_and!.
    + intros r Hrp [Hrq Hrl]%not_elem_of_cons. by apply IHo.
    + intros tr Hin. right. by apply IHin.
    + rewrite fmap_cons, NoDup_cons. intros [Hnq Hnd] r [->|Hin]%elem_of_cons.
      * rewrite IHo by done. rewrite (sumZ_zero _ trs); [lia|]. intros tr Htr. unfold makerQty.
        rewrite seqb_ne; [done|]. intros Heq. apply Hnq. rewrite <- Heq. by apply IHin.
      * by apply IH.
Qed.

End fixed.
End facts.
