(* ===== verification/Events.v ===== *)
(** Domain events and their wire format: internal/events/events.go, and the
    JSON of [engine.Order] and [engine.Trade] (the field tags of
    internal/engine/types.go) that the envelopes carry. *)

From S2P Require Import Prelude Json Types State.
Local Open Scope Z_scope.

Definition EventStream : string := "events:out".
Definition EventGroup : string := "db-workers".
Definition WSChannel : string := "ws:updates".

Definition EventTradeExecuted : string := "trade_executed".
Definition EventOrderCreated : string := "order_created".
Definition EventOrderStatus : string := "order_status".
Definition EventOrderCanceled : string := "order_canceled".
Definition EventDepthUpdated : string := "depth_updated".

Record EventEnvelope := mkEnvelope {
  ev_ID : string;
  ev_Type : string;
  ev_PartitionID : Z;
  ev_FencingToken : Z;
  ev_Sequence : Z;
  ev_CreatedAt : Z;
  ev_Data : json_text
}.

Record NewEnvelopeParams := mkParams {
  np_Type : string;
  np_Data : json_text;
  np_PartitionID : Z;
  np_FencingToken : Z;
  np_Sequence : Z
}.

Definition NewEnvelope `{Environment} (p : NewEnvelopeParams) : M EventEnvelope :=
  id <- next_uuid ;;
  now <- next_time ;;
  ret (mkEnvelope id (np_Type p) (np_PartitionID p) (np_FencingToken p) (np_Sequence p)
          now (np_Data p)).

(** ** [json.Marshal] *)

Definition order_json (o : Order) : json := JObj [
  ("id", JStr (o_ID o)); ("eventId", JStr (o_EventID o)); ("userId", JStr (o_UserID o));
  ("orderType", JStr (o_OrderType o)); ("outcome", JStr (o_Outcome o));
  ("side", JStr (o_Side o)); ("quantity", JInt (o_Quantity o));
  ("filledQuantity", JInt (o_FilledQuantity o));
  ("remainingQuantity", JInt (o_RemainingQuantity o));
  ("price", JInt (o_Price o)); ("status", JStr (o_Status o));
  ("createdAt", JTime (o_CreatedAt o))].

Definition trade_json (t : Trade) : json := JObj [
  ("id", JStr (t_ID t)); ("orderId", JStr (t_OrderID t));
  ("matchOrderId", JStr (t_MatchOrderID t)); ("eventId", JStr (t_EventID t));
  ("outcome", JStr (t_Outcome t)); ("buyerId", JStr (t_BuyerID t));
  ("sellerId", JStr (t_SellerID t)); ("takerSide", JStr (t_TakerSide t));
  ("quantity", JInt (t_Quantity t)); ("price", JInt (t_Price t));
  ("createdAt", JTime (t_CreatedAt t))].

Definition envelope_json (e : EventEnvelope) : json := JObj [
  ("id", JStr (ev_ID e)); ("type", JStr (ev_Type e));
  ("partitionId", JInt (ev_PartitionID e)); ("fencingToken", JInt (ev_FencingToken e));
  ("sequence", JInt (ev_Sequence e)); ("createdAt", JTime (ev_CreatedAt e));
  ("data", raw_json (ev_Data e))].

(** ** [json.Unmarshal] *)

Definition order_tags : list string :=
  ["id"; "eventId"; "userId"; "orderType"; "outcome"; "side"; "quantity"; "filledQuantity";
   "remainingQuantity"; "price"; "status"; "createdAt"].

Definition set_order_field (tag : string) (j : json) (o : Order) : option Order :=
  let '(mkOrder id ev us ty oc sd qty fl rm pr st lk ca) := o in
  if tag =s "id" then (λ x, mkOrder x ev us ty oc sd qty fl rm pr st lk ca) <$> into_string j id
  else if tag =s "eventId" then (λ x, mkOrder id x us ty oc sd qty fl rm pr st lk ca) <$> into_string j ev
  else if tag =s "userId" then (λ x, mkOrder id ev x ty oc sd qty fl rm pr st lk ca) <$> into_string j us
  else if tag =s "orderType" then (λ x, mkOrder id ev us x oc sd qty fl rm pr st lk ca) <$> into_string j ty
  else if tag =s "outcome" then (λ x, mkOrder id ev us ty x sd qty fl rm pr st lk ca) <$> into_string j oc
  else if tag =s "side" then (λ x, mkOrder id ev us ty oc x qty fl rm pr st lk ca) <$> into_string j sd
  else if tag =s "quantity" then (λ x, mkOrder id ev us ty oc sd x fl rm pr st lk ca) <$> into_int64 j qty
  else if tag =s "filledQuantity" then (λ x, mkOrder id ev us ty oc sd qty x rm pr st lk ca) <$> into_int64 j fl
  else if tag =s "remainingQuantity" then (λ x, mkOrder id ev us ty oc sd qty fl x pr st lk ca) <$> into_int64 j rm
  else if tag =s "price" then (λ x, mkOrder id ev us ty oc sd qty fl rm x st lk ca) <$> into_int64 j pr
  else if tag =s "status" then (λ x, mkOrder id ev us ty oc sd qty fl rm pr x lk ca) <$> into_string j st
  else if tag =s "createdAt" then (λ x, mkOrder id ev us ty oc sd qty fl rm pr st lk x) <$> into_time j ca
  else Some o.

Definition unmarshal_order (t : json_text) : option Order :=
  unmarshal_struct order_tags set_order_field t zeroOrder.

Definition trade_tags : list string :=
  ["id"; "orderId"; "matchOrderId"; "eventId"; "outcome"; "buyerId"; "sellerId"; "takerSide";
   "quantity"; "price"; "createdAt"].

Definition zeroTrade : Trade := mkTrade "" "" "" "" "" "" "" "" 0 0 0.

Definition set_trade_field (tag : string) (j : json) (t : Trade) : option Trade :=
  let '(mkTrade id oi mi ev oc bu se ts qty pr ca) := t in
  if tag =s "id" then (λ x, mkTrade x oi mi ev oc bu se ts qty pr ca) <$> into_string j id
  else if tag =s "orderId" then (λ x, mkTrade id x mi ev oc bu se ts qty pr ca) <$> into_string j oi
  else if tag =s "matchOrderId" then (λ x, mkTrade id oi x ev oc bu se ts qty pr ca) <$> into_string j mi
  else if tag =s "eventId" then (λ x, mkTrade id oi mi x oc bu se ts qty pr ca) <$> into_string j ev
  else if tag =s "outcome" then (λ x, mkTrade id oi mi ev x bu se ts qty pr ca) <$> into_string j oc
  else if tag =s "buyerId" then (λ x, mkTrade id oi mi ev oc x se ts qty pr ca) <$> into_string j bu
  else if tag =s "sellerId" then (λ x, mkTrade id oi mi ev oc bu x ts qty pr ca) <$> into_string j se
  else if tag =s "takerSide" then (λ x, mkTrade id oi mi ev oc bu se x qty pr ca) <$> into_string j ts
  else if tag =s "quantity" then (λ x, mkTrade id oi mi ev oc bu se ts x pr ca) <$> into_int64 j qty
  else if tag =s "price" then (λ x, mkTrade id oi mi ev oc bu se ts qty x ca) <$> into_int64 j pr
  else if tag =s "createdAt" then (λ x, mkTrade id oi mi ev oc bu se ts qty pr x) <$> into_time j ca
  else Some t.

Definition unmarshal_trade (t : json_text) : option Trade :=
  unmarshal_struct trade_tags set_trade_field t zeroTrade.

Definition envelope_tags : list string :=
  ["id"; "type"; "partitionId"; "fencingToken"; "sequence"; "createdAt"; "data"].

Definition zeroEnvelope : EventEnvelope := mkEnvelope "" "" 0 0 0 0 raw_nil.

Definition set_envelope_field (tag : string) (j : json) (e : EventEnvelope) : option EventEnvelope :=
  let '(mkEnvelope id ty pid tok sq ca da) := e in
  if tag =s "id" then (λ x, mkEnvelope x ty pid tok sq ca da) <$> into_string j id
  else if tag =s "type" then (λ x, mkEnvelope id x pid tok sq ca da) <$> into_string j ty
  else if tag =s "partitionId" then (λ x, mkEnvelope id ty x tok sq ca da) <$> into_int64 j pid
  else if tag =s "fencingToken" then (λ x, mkEnvelope id ty pid x sq ca da) <$> into_uint64 j tok
  else if tag =s "sequence" then (λ x, mkEnvelope id ty pid tok x ca da) <$> into_uint64 j sq
  else if tag =s "createdAt" then (λ x, mkEnvelope id ty pid tok sq x da) <$> into_time j ca
  else if tag =s "data" then (λ x, mkEnvelope id ty pid tok sq ca x) <$> into_raw j da
  else Some e.

Definition unmarshal_envelope (t : json_text) : option EventEnvelope :=
  unmarshal_struct envelope_tags set_envelope_field t zeroEnvelope.

(** ** Round trips

    What the engine marshals, the DB worker and the gateway read back. *)

Definition trade_in_range (t : Trade) : Prop := in64 (t_Quantity t) ∧ in64 (t_Price t).

Definition envelope_in_range (e : EventEnvelope) : Prop :=
  in64 (ev_PartitionID e) ∧ 0 ≤ ev_FencingToken e ≤ max_uint64 ∧ 0 ≤ ev_Sequence e ≤ max_uint64.

Definition order_in_range (o : Order) : Prop :=
  in64 (o_Quantity o) ∧ in64 (o_FilledQuantity o) ∧ in64 (o_RemainingQuantity o) ∧ in64 (o_Price o).

Lemma inu64b_spec z : inu64b z = true ↔ 0 ≤ z ≤ max_uint64.
Proof. unfold inu64b. by rewrite andb_true_iff, !Z.leb_le. Qed.

Lemma into_int64_ok z old : in64 z → into_int64 (JInt z) old = Some z.
Proof. intros Hz. simpl. by rewrite (proj2 (in64b_spec z) Hz). Qed.

Lemma into_uint64_ok z old : 0 ≤ z ≤ max_uint64 → into_uint64 (JInt z) old = Some z.
Proof. intros Hz. simpl. by rewrite (proj2 (inu64b_spec z) Hz). Qed.

Lemma decode_cons {A} tags (sf : string → json → A → option A) k j kvs a a' :
  resolve_field tags k = Some k → sf k j a = Some a' →
  decode_fields tags sf ((k, j) :: kvs) a = decode_fields tags sf kvs a'.
Proof. intros Hk Ha. simpl. by rewrite Hk, Ha. Qed.

(** [decode_all] decodes a document whose keys are the tags, field by field. *)
Ltac decode_all :=
  repeat (erewrite decode_cons;
    [|by vm_compute
     |lazy -[into_int64 into_uint64];
      rewrite ?into_int64_ok, ?into_uint64_ok by done; reflexivity]);
  reflexivity.

Lemma unmarshal_marshal_trade t :
  trade_in_range t → unmarshal_trade (JText (trade_json t)) = Some t.
Proof.
  destruct t. intros [Hq Hp]; simpl in Hq, Hp.
  cbv beta iota zeta delta [unmarshal_trade unmarshal_struct trade_json raw_json]. decode_all.
Qed.

Lemma unmarshal_marshal_envelope e j :
  envelope_in_range e → ev_Data e = JText j →
  unmarshal_envelope (JText (envelope_json e)) = Some e.
Proof.
  destruct e. intros (Hp & Ht & Hs) Hd; simpl in Hp, Ht, Hs, Hd. subst.
  cbv beta iota zeta delta [unmarshal_envelope unmarshal_struct envelope_json raw_json]. decode_all.
Qed.

(** [LockedFunds] is tagged [json:"-"]: it does not travel. *)
Lemma unmarshal_marshal_order o :
  order_in_range o → unmarshal_order (JText (order_json o)) = Some (set_LockedFunds 0 o).
Proof.
  destruct o. intros (Hq&Hf&Hr&Hp); simpl in Hq, Hf, Hr, Hp.
  cbv beta iota zeta delta [unmarshal_order unmarshal_struct order_json raw_json]. decode_all.
Qed.
