(* ===== verification/Outbox.v ===== *)
(** The outbox journal and event emission: internal/engine/outbox.go and
    [emitEventP], [emitEvent], [publishTrade] of internal/engine/engine.go.

    The journal is the list of lines of the outbox file; every envelope is one
    line, because [json.Marshal] writes no newline.  Whether a file or Redis call
    succeeds is an answer of the environment.  A failed write leaves the file
    unchanged.  A Redis call may take effect although its reply is lost, and
    go-redis then repeats it: [xlog]/[published] list what the server executed,
    one entry per execution.  An error is [Some message], nil is [None]. *)

From S2P Require Import Prelude Json Types Router State Events.
Local Open Scope Z_scope.

Section outbox.
Context `{Environment}.

Definition io_error : string := "i/o error".

(** [if o.file == nil { return closed }] *)
Definition ifOpen {A} (closed : A) (m : M A) : M A := λ w,
  if outboxOpen w then m w else Some (closed, w).

(** [o.file.Write(append(data, '\n'))], then [o.file.Sync()]; both fail on a
    closed file. *)
Definition Append (data : json_text) : M (option string) :=
  ifOpen (Some "invalid argument")
    (ok <- next_io ;;
     if ok then
       modify (with_journal (λ j, j ++ [data])) ;;;
       synced <- next_io ;;
       ret (if synced then None else Some io_error)
     else ret (Some io_error)).

Definition Reset : M (option string) :=
  ifOpen None
    (ok <- next_io ;;
     if ok then
       modify (with_journal (λ _, [])) ;;;
       sought <- next_io ;;
       ret (if sought then None else Some io_error)
     else ret (Some io_error)).

Definition Close : M (option string) :=
  ifOpen None
    (ok <- next_io ;;
     modify (with_outboxOpen false) ;;;
     ret (if ok then None else Some io_error)).

(** The lines on disk, empty ones dropped. *)
Definition ReadAll : M (string + list json_text) :=
  ok <- next_io ;;
  if ok then λ w, Some (inr (filter (λ l, text_empty l = false) (journal w)), w)
  else ret (inl io_error).

Definition xadd (stream : string) (event : json_text) : M bool :=
  call <- next_call ;;
  modify (with_xlog (λ l, l ++ replicate call.2 (stream, event))) ;;;
  ret call.1.

Definition publish (channel : string) (msg : json_text) : M bool :=
  call <- next_call ;;
  modify (with_published (λ l, l ++ replicate call.2 (channel, msg))) ;;;
  ret call.1.

Definition publishEnvelope (envBytes : json_text) (broadcast : bool) (stream ws : string)
    : M (option string) :=
  ok <- xadd stream envBytes ;;
  if ok then
    if broadcast then
      ok <- publish ws envBytes ;;
      ret (if ok then None else Some io_error)
    else ret None
  else ret (Some io_error).

Definition republishEnvelope (line : json_text) (stream ws : string) : M (option string) :=
  match unmarshal_envelope line with
  | None => ret None
  | Some env =>
      publishEnvelope (JText (envelope_json env)) (ev_Type env =s EventTradeExecuted) stream ws
  end.

Fixpoint republishAll (lines : list json_text) (stream ws : string) : M (option string) :=
  match lines with
  | [] => ret None
  | line :: lines =>
      err <- republishEnvelope line stream ws ;;
      match err with
      | Some e => ret (Some e)
      | None => republishAll lines stream ws
      end
  end.

Definition Recover (stream ws : string) : M (option string) :=
  r <- ReadAll ;;
  match r with
  | inl err => ret (Some err)
  | inr [] => ret None
  | inr lines =>
      err <- republishAll lines stream ws ;;
      match err with
      | Some e => ret (Some e)
      | None => Reset
      end
  end.

(** [e.partitionSeq[partitionID].Add(1)]; out of range is a panic. *)
Definition nextSequence (partitionID : Z) : M Z := λ w,
  if partitionID <? 0 then None
  else
    match partitionSeq (eng w) !! Z.to_nat partitionID with
    | None => None
    | Some n =>
        let n := wrapu64 (n + 1) in
        Some (n, with_eng (with_partitionSeq (<[Z.to_nat partitionID := n]>)) w)
    end.

Definition emitEventP (partitionID : Z) (envType : string) (data : json_text) (broadcast : bool)
    : M (option string) :=
  e <- get_eng ;;
  let token := default 0 (partitionToken e !! partitionID) in
  if isReplaying e partitionID then ret None
  else if negb (redisManager e) then ret None
  else
    sequence <- nextSequence partitionID ;;
    envelope <- NewEnvelope (mkParams envType data partitionID token sequence) ;;
    let envBytes := JText (envelope_json envelope) in
    err <- Append envBytes ;;
    match err with
    | Some err => ret (Some err)
    | None =>
        ok <- xadd (eventStream e) envBytes ;;
        if negb ok then ret (Some io_error)
        else
          ok <- (if broadcast then publish (wsChannel e) envBytes else ret true) ;;
          if negb ok then ret (Some io_error)
          else
            Reset ;;;
            ret None
    end.

(** [emitEvent], the entry point without a partition. *)
Definition emitEvent (envType : string) (data : json_text) (broadcast : bool) : M (option string) :=
  emitEventP 0 envType data broadcast.

Definition publishTrade (partitionID : Z) (trade : Trade) : M (option string) :=
  emitEventP partitionID EventTradeExecuted (JText (trade_json trade)) true.

End outbox.

(** ** Copies

[copied xs ys]: [ys] is [xs] with each element repeated up to [MaxRetries]
    times on the spot. *)
Inductive copied {A} : list A → list A → Prop :=
  | copied_nil : copied [] []
  | copied_cons x n xs ys : (n ≤ MaxRetries)%nat → copied xs ys → copied (x :: xs) (replicate (S n) x ++ ys).

Lemma copied_app {A} (xs xs' ys ys' : list A) : copied xs ys → copied xs' ys' → copied (xs ++ xs') (ys ++ ys').
Proof. induction 1; intros Hc; simpl; [done|]. rewrite <- app_assoc. apply (copied_cons _ n); auto. Qed.

Lemma copied_one {A} (x : A) n : (n ≤ MaxRetries)%nat → copied [x] (replicate (S n) x).
Proof. intros Hn. rewrite <- (app_nil_r (replicate _ _)). apply copied_cons; [done|constructor]. Qed.

(** ** What emission leaves alone

    Emission touches the sequence counters, the journal and the two logs; the
    market, order and ledger state is the same before and after. *)

(** The part of the engine the command handlers work on. *)
Definition core (e : Engine) :=
  (heap e, markets e, orders e, balances e, positions e).

Definition same_setup (e e' : Engine) : Prop :=
  redisManager e' = redisManager e ∧ engineID e' = engineID e ∧
  leaseTTL e' = leaseTTL e ∧ leaseRenewInterval e' = leaseRenewInterval e ∧
  router e' = router e ∧ partitionToken e' = partitionToken e ∧
  partitions e' = partitions e ∧ replaying e' = replaying e ∧
  eventStream e' = eventStream e ∧ wsChannel e' = wsChannel e ∧
  length (partitionSeq e') = length (partitionSeq e).

#[export] Instance same_setup_refl : Reflexive same_setup.
Proof. intros e. by repeat split. Qed.
#[export] Instance same_setup_trans : Transitive same_setup.
Proof.
  unfold same_setup. intros a b c (?&?&?&?&?&?&?&?&?&?&?) (?&?&?&?&?&?&?&?&?&?&?).
  split_and!; congruence.
Qed.

(** The partition may emit: it has a sequence counter. *)
Definition seq_slot (e : Engine) (pid : Z) : Prop :=
  0 ≤ pid ∧ (Z.to_nat pid < length (partitionSeq e))%nat.

Section frames.
Context `{Environment}.

(** [quiet m]: [m] returns, and changes neither the engine nor its metrics. *)
Definition quiet {A} (m : M A) : Prop :=
  ∀ w, ∃ a w', m w = Some (a, w') ∧ eng w' = eng w ∧ metrics w' = metrics w.

Lemma quiet_ret {A} (a : A) : quiet (ret a).
Proof. intros w. by exists a, w. Qed.

Lemma quiet_bind {A B} (m : M A) (k : A → M B) : quiet m → (∀ a, quiet (k a)) → quiet (bind m k).
Proof.
  intros Hm Hk w. destruct (Hm w) as (a & w1 & E1 & He1 & Hm1).
  destruct (Hk a w1) as (b & w2 & E2 & He2 & Hm2).
  exists b, w2. rewrite (bind_eq _ _ _ _ _ E1). split_and!; congruence.
Qed.

Lemma quiet_next_io : quiet next_io.
Proof. intros w. eexists _, _. by split_and!. Qed.
Lemma quiet_next_call : quiet next_call.
Proof. intros w. eexists _, _. by split_and!. Qed.
Lemma quiet_next_uuid : quiet next_uuid.
Proof. intros w. eexists _, _. by split_and!. Qed.
Lemma quiet_next_time : quiet next_time.
Proof. intros w. eexists _, _. by split_and!. Qed.
Lemma quiet_modify f :
  (∀ w, eng (f w) = eng w ∧ metrics (f w) = metrics w) → quiet (modify f).
Proof. intros Hf w. destruct (Hf w). eexists _, _. by split_and!. Qed.
Lemma quiet_if {A} (b : bool) (m m' : M A) : quiet m → quiet m' → quiet (if b then m else m').
Proof. by destruct b. Qed.

Hint Resolve quiet_ret quiet_next_io quiet_next_call quiet_next_uuid quiet_next_time quiet_if : predix.

Ltac quiet :=
  repeat first
    [ apply quiet_bind; [|intros ?]
    | apply quiet_if
    | solve [auto with predix]
    | solve [apply quiet_modify; intros w; by destruct_and?; repeat case_match] ].

Lemma quiet_ifOpen {A} (a : A) m : quiet m → quiet (ifOpen a m).
Proof. intros Hm w. unfold ifOpen. destruct (outboxOpen w); [apply Hm|by exists a, w]. Qed.

Lemma quiet_Append d : quiet (Append d).
Proof. apply quiet_ifOpen. quiet. Qed.
Lemma quiet_Reset : quiet Reset.
Proof. apply quiet_ifOpen. quiet. Qed.
Lemma quiet_xadd s d : quiet (xadd s d).
Proof. unfold xadd. quiet. Qed.
Lemma quiet_publish s d : quiet (publish s d).
Proof. unfold publish. quiet. Qed.
Lemma quiet_NewEnvelope p : quiet (NewEnvelope p).
Proof. unfold NewEnvelope. quiet. Qed.

Hint Resolve quiet_Append quiet_Reset quiet_xadd quiet_publish quiet_NewEnvelope : predix.

Lemma emitEventP_frame pid ty d b w :
  seq_slot (eng w) pid →
  ∃ err w', emitEventP pid ty d b w = Some (err, w') ∧
    core (eng w') = core (eng w) ∧ same_setup (eng w) (eng w') ∧ metrics w' = metrics w.
Proof.
  intros [Hpid Hlen]. unfold emitEventP.
  rewrite (bind_eq get_eng _ w (eng w) w) by done.
  destruct (isReplaying (eng w) pid); [by exists None, w|].
  destruct (redisManager (eng w)) eqn:Er; cbv beta zeta iota delta [negb]; [|by exists None, w].
  apply lookup_lt_is_Some_2 in Hlen as [n Hn].
  set (w1 := with_eng (with_partitionSeq (<[Z.to_nat pid := wrapu64 (n + 1)]>)) w).
  rewrite (bind_eq (nextSequence pid) _ w (wrapu64 (n + 1)) w1).
  2:{ unfold nextSequence. rewrite (proj2 (Z.ltb_ge _ _) Hpid), Hn. done. }
  match goal with |- ∃ err w', ?m w1 = _ ∧ _ => assert (quiet m) as Hq end.
  { apply quiet_bind; [auto with predix|intros env].
    apply quiet_bind; [auto with predix|intros [err|]]; [auto with predix|].
    apply quiet_bind; [auto with predix|intros ok]. apply quiet_if; [auto with predix|].
    apply quiet_bind; [auto with predix|intros ok']. quiet. }
  destruct (Hq w1) as (err & w2 & E & He & Hm).
  exists err, w2. split_and!; [done|by rewrite He| |by rewrite Hm].
  rewrite He. unfold same_setup; simpl. rewrite length_insert. done.
Qed.

(** While a partition replays, nothing is emitted and nothing changes. *)
Lemma emitEventP_replaying pid ty d b w :
  isReplaying (eng w) pid = true → emitEventP pid ty d b w = Some (None, w).
Proof.
  intros Hr. unfold emitEventP. rewrite (bind_eq get_eng _ w (eng w) w) by done.
  by rewrite Hr.
Qed.

End frames.

(** ** Emission step by step

    The envelope one emission writes, and the world in which every I/O call of
    it succeeded. *)

Section emission.
Context `{Environment}.

Definition envelopeOf (pid : Z) (ty : string) (d : json_text) (n : Z) (w : World) : EventEnvelope :=
  mkEnvelope (uuid_NewString (tick w)) ty pid (default 0 (partitionToken (eng w) !! pid))
    (wrapu64 (n + 1)) (time_Now (S (tick w))) d.

Section reliable.
Hypothesis Hio : ∀ k, io_ok k = true.

Lemma Append_ok d w : outboxOpen w = true →
  Append d w = Some (None, with_tick (S (S (tick w))) (with_journal (λ j, j ++ [d]) w)).
Proof.
  intros Ho. unfold Append, ifOpen. rewrite Ho. unfold bind, next_io. rewrite Hio. simpl. by rewrite Hio.
Qed.

Lemma Reset_ok w : outboxOpen w = true →
  Reset w = Some (None, with_tick (S (S (tick w))) (with_journal (λ _, []) w)).
Proof.
  intros Ho. unfold Reset, ifOpen. rewrite Ho. unfold bind, next_io. rewrite Hio. simpl. by rewrite Hio.
Qed.

Lemma xadd_ok s d w : ∃ n, (n ≤ MaxRetries)%nat ∧
  xadd s d w = Some (true, with_tick (S (tick w)) (with_xlog (λ l, l ++ replicate (S n) (s, d)) w)).
Proof.
  destruct (executed_ok _ (Hio (tick w))) as (n & E & Hn). exists n. split; [done|].
  unfold xadd, bind, next_call. by rewrite Hio, E.
Qed.

Lemma publish_ok s d w : ∃ n, (n ≤ MaxRetries)%nat ∧
  publish s d w = Some (true, with_tick (S (tick w)) (with_published (λ l, l ++ replicate (S n) (s, d)) w)).
Proof.
  destruct (executed_ok _ (Hio (tick w))) as (n & E & Hn). exists n. split; [done|].
  unfold publish, bind, next_call. by rewrite Hio, E.
Qed.

Lemma emitEventP_reliable pid ty d b w n :
  isReplaying (eng w) pid = false → redisManager (eng w) = true →
  outboxOpen w = true → 0 ≤ pid → partitionSeq (eng w) !! Z.to_nat pid = Some n →
  let env := JText (envelope_json (envelopeOf pid ty d n w)) in
  ∃ t' k k', (tick w ≤ t')%nat ∧ (k ≤ MaxRetries)%nat ∧ (k' ≤ MaxRetries)%nat ∧
    emitEventP pid ty d b w = Some (None,
    mkWorld (with_partitionSeq (<[Z.to_nat pid := wrapu64 (n + 1)]>) (eng w)) (metrics w) true []
      (xlog w ++ replicate (S k) (eventStream (eng w), env))
      (published w ++ (if b then replicate (S k') (wsChannel (eng w), env) else [])) (acked w) t').
Proof.
  intros Hrep Hrm Hopen Hpid Hn env. unfold emitEventP.
  destruct w as [e0 m0 o0 j0 x0 p0 a0 t0]. simpl in Hopen. subst o0.
  set (w := mkWorld e0 m0 true j0 x0 p0 a0 t0) in *.
  rewrite (bind_eq get_eng _ w (eng w) w) by done. rewrite Hrep, Hrm. cbv iota beta zeta delta [negb].
  set (w1 := with_eng (with_partitionSeq (<[Z.to_nat pid := wrapu64 (n + 1)]>)) w).
  rewrite (bind_eq (nextSequence pid) _ w (wrapu64 (n + 1)) w1).
  2:{ unfold nextSequence. by rewrite (proj2 (Z.ltb_ge _ _) Hpid), Hn. }
  rewrite (bind_eq (NewEnvelope _) _ w1 (envelopeOf pid ty d n w) (with_tick (S (S (tick w))) w1)) by done.
  erewrite bind_eq by (by apply Append_ok). cbv iota.
  fold env. match goal with |- ∃ _ _ _, _ ∧ _ ∧ _ ∧ bind (xadd ?s _) _ ?w = _ => destruct (xadd_ok s env w) as (k & Hk & Ex) end.
  rewrite (bind_eq _ _ _ _ _ Ex). cbv iota delta [negb]. destruct b.
  - match goal with |- ∃ _ _ _, _ ∧ _ ∧ _ ∧ bind (publish ?s _) _ ?w = _ => destruct (publish_ok s env w) as (k' & Hk' & Ep) end.
    rewrite (bind_eq _ _ _ _ _ Ep). cbv iota delta [negb].
    erewrite bind_eq by (by apply Reset_ok). eexists _, k, k'. split_and!; [|done|done|reflexivity]. simpl. lia.
  - erewrite bind_eq by reflexivity. cbv iota delta [negb].
    erewrite bind_eq by (by apply Reset_ok). eexists _, k, 0%nat. rewrite app_nil_r. split_and!; [|done|lia|reflexivity]. simpl. lia.
Qed.
End reliable.
End emission.
