(* ===== verification/Depth.v ===== *)
(** Market depth: [aggregateBids] and [aggregateAsks] of
    internal/engine/engine.go, with the JSON of the snapshot.

    The levels are collected in a map and then listed by [range], whose order
    the language leaves open: the listing is a parameter, and file MarketData
    shows that the sorted result does not depend on it. *)

From S2P Require Import Prelude Json Types State.
Local Open Scope Z_scope.
Local Open Scope i64_scope.

Record level := mkLevel { l_quantity : Z; l_count : Z }.

(** The orders [aggregateBids]/[aggregateAsks] count. *)
Definition shown (o : Order) : bool :=
  live_status (o_Status o) && negb (o_RemainingQuantity o <=? 0).

Definition addLevel (o : Order) (levels : gmap Z level) : gmap Z level :=
  if shown o then
    let l := default (mkLevel 0 0) (levels !! o_Price o) in
    <[o_Price o := mkLevel (l_quantity l +' o_RemainingQuantity o) (l_count l +' 1)]> levels
  else levels.

Definition collectLevels (os : list Order) : gmap Z level :=
  foldl (λ levels o, addLevel o levels) ∅ os.

Definition entry_of (kl : Z * level) : OrderBookEntry :=
  mkEntry kl.1 (l_quantity kl.2) (kl.1 *' l_quantity kl.2) (l_count kl.2).

Definition higher (a b : OrderBookEntry) : bool := e_Price b <? e_Price a.
Definition lower_price (a b : OrderBookEntry) : bool := e_Price a <? e_Price b.

Definition aggregateBids (range : list (Z * level) → list (Z * level)) (os : list Order)
    : list OrderBookEntry :=
  stable_sort higher (entry_of <$> range (map_to_list (collectLevels os))).

Definition aggregateAsks (range : list (Z * level) → list (Z * level)) (os : list Order)
    : list OrderBookEntry :=
  stable_sort lower_price (entry_of <$> range (map_to_list (collectLevels os))).

(** ** JSON *)

Definition entry_json (e : OrderBookEntry) : json := JObj [
  ("price", JInt (e_Price e)); ("quantity", JInt (e_Quantity e));
  ("total", JInt (e_Total e)); ("orderCount", JInt (e_OrderCount e))].

Definition depthSide_json (d : DepthSide) : json := JObj [
  ("bids", JArr (entry_json <$> d_Bids d)); ("asks", JArr (entry_json <$> d_Asks d))].

Definition depth_json (d : Depth) : json := JObj [
  ("eventId", JStr (d_EventID d)); ("yes", depthSide_json (d_Yes d));
  ("no", depthSide_json (d_No d))].

(** ** The levels *)

(** Shares and orders shown at one price. *)
Definition shownQty (pr : Z) (o : Order) : Z :=
  if shown o && (o_Price o =? pr) then o_RemainingQuantity o else 0.
Definition shownCount (pr : Z) (o : Order) : Z :=
  if shown o && (o_Price o =? pr) then 1 else 0.

Definition levels_exact (os : list Order) (m : gmap Z level) : Prop :=
  ∀ pr, match m !! pr with
        | Some l => l_quantity l = sumZ (shownQty pr) os ∧ l_count l = sumZ (shownCount pr) os
                    ∧ 1 ≤ l_count l
        | None => sumZ (shownCount pr) os = 0 ∧ sumZ (shownQty pr) os = 0
        end.

Lemma shownQty_nonneg pr o : 0 ≤ shownQty pr o.
Proof.
  unfold shownQty, shown. destruct (live_status _); simpl; [|lia].
  destruct (Z.leb_spec (o_RemainingQuantity o) 0); simpl; [lia|]. destruct (_ =? _); lia.
Qed.

Lemma shownCount_range pr o : 0 ≤ shownCount pr o ≤ 1.
Proof. unfold shownCount. destruct (_ && _); lia. Qed.

Lemma sum_shownCount_le pr os : 0 ≤ sumZ (shownCount pr) os ≤ Z.of_nat (length os).
Proof.
  induction os as [|o os IH]; simpl; [lia|]. pose proof (shownCount_range pr o). lia.
Qed.

Lemma addLevel_exact os o m :
  levels_exact os m →
  (∀ pr, in64 (sumZ (shownQty pr) (os ++ [o])) ∧ in64 (sumZ (shownCount pr) (os ++ [o]))) →
  levels_exact (os ++ [o]) (addLevel o m).
Proof.
  intros Hm Hin pr. specialize (Hm pr). destruct (Hin pr) as [H1 H2].
  rewrite !sumZ_app in *; simpl in *.
  pose proof (sum_shownCount_le pr os). unfold addLevel.
  destruct (shown o) eqn:Es.
  - destruct (decide (o_Price o = pr)) as [<-|Hne].
    + rewrite lookup_insert_eq.
      assert (shownQty (o_Price o) o = o_RemainingQuantity o ∧ shownCount (o_Price o) o = 1)
        as [Eq Ec] by (unfold shownQty, shownCount; by rewrite Es, Z.eqb_refl).
      rewrite Eq, Ec in *.
      destruct (m !! o_Price o) as [l|]; simpl in *; destruct_and?;
        rewrite !add64_id by i64; lia.
    + rewrite lookup_insert_ne by done.
      assert (shownQty pr o = 0 ∧ shownCount pr o = 0) as [-> ->].
      { unfold shownQty, shownCount. rewrite (proj2 (Z.eqb_neq _ _) Hne).
        by rewrite andb_false_r. }
      destruct (m !! pr); lia.
  - assert (shownQty pr o = 0 ∧ shownCount pr o = 0) as [-> ->].
    { unfold shownQty, shownCount. by rewrite Es. }
    destruct (m !! pr); lia.
Qed.

(** No level overflows: the shares at one price fit an [int64]. *)
Definition depth_in_range (os : list Order) : Prop :=
  (∀ pr, sumZ (shownQty pr) os ≤ max_int64) ∧ Z.of_nat (length os) ≤ max_int64.

Lemma collectLevels_exact os : depth_in_range os → levels_exact os (collectLevels os).
Proof.
  induction os as [|o os IH] using rev_ind; intros [Hq Hl].
  - intros pr. unfold collectLevels; simpl. rewrite lookup_empty. done.
  - unfold collectLevels. rewrite foldl_app; simpl. apply addLevel_exact.
    + apply IH. split.
      * intros pr. specialize (Hq pr). rewrite sumZ_app in Hq; simpl in Hq.
        pose proof (shownQty_nonneg pr o). lia.
      * rewrite length_app in Hl; simpl in Hl. lia.
    + intros pr. pose proof (sumZ_nonneg (shownQty pr) (os ++ [o])
        (λ x _, shownQty_nonneg pr x)).
      pose proof (sum_shownCount_le pr (os ++ [o])). specialize (Hq pr). i64.
Qed.

(** ** Sorting distinct prices *)

Lemma higher_trans_neg : ∀ x y z, higher y x = false → higher z y = false → higher z x = false.
Proof. unfold higher. lia. Qed.
Lemma higher_asym : ∀ x y, higher x y = true → higher y x = false.
Proof. unfold higher. lia. Qed.
Lemma lower_trans_neg : ∀ x y z, lower_price y x = false → lower_price z y = false → lower_price z x = false.
Proof. unfold lower_price. lia. Qed.
Lemma lower_asym : ∀ x y, lower_price x y = true → lower_price y x = false.
Proof. unfold lower_price. lia. Qed.

(** A list sorted by a strict order on pairwise distinct keys is determined by
    its elements. *)
Lemma strict_sorted_unique {A} (R : relation A) (l k : list A) :
  (∀ x y, R x y → R y x → False) → StronglySorted R l → StronglySorted R k → l ≡ₚ k → l = k.
Proof.
  intros HR Hl. revert k. induction Hl as [|x l Hs IH Hx]; intros k Hk Hp.
  { by apply Permutation_nil in Hp as ->. }
  destruct k as [|y k]; [by apply Permutation_sym, Permutation_nil in Hp|].
  inversion Hk as [|? ? Hks Hy]; subst.
  assert (x = y) as <-.
  { assert (x ∈ y :: k) as Hin by (rewrite <- Hp; by left).
    assert (y ∈ x :: l) as Hin' by (rewrite Hp; by left).
    apply elem_of_cons in Hin as [|Hin]; [done|].
    apply elem_of_cons in Hin' as [|Hin']; [done|]. exfalso.
    rewrite Forall_forall in Hx, Hy. eauto. }
  f_equal. apply IH; [done|]. by eapply Permutation_cons_inv.
Qed.

Lemma sorted_strict (less : OrderBookEntry → OrderBookEntry → bool) (l : list OrderBookEntry) :
  (∀ x y, e_Price x ≠ e_Price y → less y x = false → less x y = true) →
  NoDup (e_Price <$> l) → StronglySorted (not_after less) l →
  StronglySorted (λ x y, less x y = true) l.
Proof.
  intros Htot Hn Hs. induction Hs as [|x l Hs IH Hx]; [constructor|].
  rewrite fmap_cons in Hn. apply NoDup_cons in Hn as [Hnx Hn].
  constructor; [by apply IH|]. rewrite Forall_forall in Hx |- *. intros y Hy.
  apply Htot; [|by apply Hx]. intros Heq. apply Hnx. rewrite Heq.
  apply list_elem_of_fmap. by exists y.
Qed.

Lemma higher_total x y : e_Price x ≠ e_Price y → higher y x = false → higher x y = true.
Proof. unfold higher. lia. Qed.
Lemma lower_total x y : e_Price x ≠ e_Price y → lower_price y x = false → lower_price x y = true.
Proof. unfold lower_price. lia. Qed.

Lemma entries_distinct (l : list (Z * level)) (m : gmap Z level) :
  l ≡ₚ map_to_list m → NoDup (e_Price <$> (entry_of <$> l)).
Proof.
  intros Hl. rewrite <- list_fmap_compose.
  assert ((e_Price ∘ entry_of) <$> l = l.*1) as -> by (by apply list_fmap_ext).
  rewrite Hl. apply NoDup_fst_map_to_list.
Qed.

Section aggregate.
Context (range : list (Z * level) → list (Z * level)).
Hypothesis Hrange : ∀ l, range l ≡ₚ l.

Lemma aggregate_entries (less : OrderBookEntry → OrderBookEntry → bool) os e :
  e ∈ stable_sort less (entry_of <$> range (map_to_list (collectLevels os))) ↔
  ∃ pr l, collectLevels os !! pr = Some l ∧ e = entry_of (pr, l).
Proof.
  rewrite stable_sort_Permutation, Hrange, list_elem_of_fmap. split.
  - intros ([pr l] & -> & Hin). apply elem_of_map_to_list in Hin. eauto.
  - intros (pr & l & Hl & ->). exists (pr, l). split; [done|]. by apply elem_of_map_to_list.
Qed.

Lemma aggregate_strict (less : OrderBookEntry → OrderBookEntry → bool) os :
  (∀ x y z, less y x = false → less z y = false → less z x = false) →
  (∀ x y, less x y = true → less y x = false) →
  (∀ x y, e_Price x ≠ e_Price y → less y x = false → less x y = true) →
  StronglySorted (λ x y, less x y = true)
    (stable_sort less (entry_of <$> range (map_to_list (collectLevels os)))).
Proof.
  intros Ht Ha Htot. apply sorted_strict; [done| |by apply stable_sort_sorted].
  rewrite stable_sort_Permutation. by eapply entries_distinct, Hrange.
Qed.
End aggregate.
