(* ===== verification/Commands.v ===== *)
(** The commands of the engine and their wire format: the types of
    pkg/redis/manager.go and the request structs the handlers of
    internal/engine decode. *)

From S2P Require Import Prelude Json Types.
Local Open Scope Z_scope.

Definition CreateOrderCommand : string := "CREATE_ORDER".
Definition CancelOrderCommand : string := "CANCEL_ORDER".
Definition GetDepthCommand : string := "GET_DEPTH".
Definition GetOpenOrdersCommand : string := "GET_OPEN_ORDERS".
Definition CreateEventCommand : string := "CREATE_EVENT".
Definition UserCreatedCommand : string := "USER_CREATED".

Record MessageToEngine := mkMessage { msg_Type : string; msg_Payload : json_text }.

Record CommandEnvelope := mkCommand {
  c_CommandID : string;
  c_Type : string;
  c_EventID : string;
  c_RequestID : string;
  c_Sequence : Z;
  c_Timestamp : Z;
  c_Payload : json_text
}.

Record EngineResponse := mkResponse {
  Success : bool;
  Error : string;
  RequestID : string;
  Data : json_text
}.

Definition successJSON (value : json) : EngineResponse := mkResponse true "" "" (JText value).
Definition failure (message : string) : EngineResponse := mkResponse false message "" raw_nil.

(** ** Command envelopes *)

Definition command_tags : list string :=
  ["commandId"; "type"; "eventId"; "requestId"; "sequence"; "timestamp"; "payload"].

Definition zeroCommand : CommandEnvelope := mkCommand "" "" "" "" 0 0 raw_nil.

Definition set_command_field (tag : string) (j : json) (c : CommandEnvelope) : option CommandEnvelope :=
  let '(mkCommand id ty ev rq sq ts pl) := c in
  if tag =s "commandId" then (λ x, mkCommand x ty ev rq sq ts pl) <$> into_string j id
  else if tag =s "type" then (λ x, mkCommand id x ev rq sq ts pl) <$> into_string j ty
  else if tag =s "eventId" then (λ x, mkCommand id ty x rq sq ts pl) <$> into_string j ev
  else if tag =s "requestId" then (λ x, mkCommand id ty ev x sq ts pl) <$> into_string j rq
  else if tag =s "sequence" then (λ x, mkCommand id ty ev rq x ts pl) <$> into_uint64 j sq
  else if tag =s "timestamp" then (λ x, mkCommand id ty ev rq sq x pl) <$> into_time j ts
  else if tag =s "payload" then (λ x, mkCommand id ty ev rq sq ts x) <$> into_raw j pl
  else Some c.

Definition unmarshal_command (t : json_text) : option CommandEnvelope :=
  unmarshal_struct command_tags set_command_field t zeroCommand.

(** ** Requests *)

(** A request of string fields only, as the list of its values in tag order. *)
Definition set_nth (tags : list string) (tag : string) (j : json) (vs : list string)
    : option (list string) :=
  match list_find (λ t, t = tag) tags with
  | None => Some vs
  | Some (i, _) => (λ x, <[i := x]> vs) <$> into_string j (default "" (vs !! i))
  end.

Definition unmarshal_strings (tags : list string) (t : json_text) : option (list string) :=
  unmarshal_struct tags (set_nth tags) t (replicate (length tags) "").

Record CreateOrderReq := mkCreateOrder {
  r_OrderID : string;
  r_EventID : string;
  r_UserID : string;
  r_OrderType : string;
  r_Outcome : string;
  r_Side : string;
  r_Quantity : Z;
  r_Price : Z
}.

Definition createOrder_tags : list string :=
  ["orderId"; "eventId"; "userId"; "orderType"; "outcome"; "side"; "quantity"; "price"].

Definition set_createOrder_field (tag : string) (j : json) (r : CreateOrderReq)
    : option CreateOrderReq :=
  let '(mkCreateOrder oi ev us ty oc sd qty pr) := r in
  if tag =s "orderId" then (λ x, mkCreateOrder x ev us ty oc sd qty pr) <$> into_string j oi
  else if tag =s "eventId" then (λ x, mkCreateOrder oi x us ty oc sd qty pr) <$> into_string j ev
  else if tag =s "userId" then (λ x, mkCreateOrder oi ev x ty oc sd qty pr) <$> into_string j us
  else if tag =s "orderType" then (λ x, mkCreateOrder oi ev us x oc sd qty pr) <$> into_string j ty
  else if tag =s "outcome" then (λ x, mkCreateOrder oi ev us ty x sd qty pr) <$> into_string j oc
  else if tag =s "side" then (λ x, mkCreateOrder oi ev us ty oc x qty pr) <$> into_string j sd
  else if tag =s "quantity" then (λ x, mkCreateOrder oi ev us ty oc sd x pr) <$> into_int64 j qty
  else if tag =s "price" then (λ x, mkCreateOrder oi ev us ty oc sd qty x) <$> into_int64 j pr
  else Some r.

Definition unmarshal_createOrder (t : json_text) : option CreateOrderReq :=
  unmarshal_struct createOrder_tags set_createOrder_field t
    (mkCreateOrder "" "" "" "" "" "" 0 0).

(** The payload [map[string]any] of a create-order request, keys sorted. *)
Definition createOrder_json (r : CreateOrderReq) : json := JObj [
  ("eventId", JStr (r_EventID r)); ("orderId", JStr (r_OrderID r));
  ("orderType", JStr (r_OrderType r)); ("outcome", JStr (r_Outcome r));
  ("price", JInt (r_Price r)); ("quantity", JInt (r_Quantity r));
  ("side", JStr (r_Side r)); ("userId", JStr (r_UserID r))].

(** Numbers that decode into an [int64] field are [int64]s. *)
Definition req_in_range (r : CreateOrderReq) : Prop := in64 (r_Quantity r) ∧ in64 (r_Price r).

Lemma into_int64_range j old z : in64 old → into_int64 j old = Some z → in64 z.
Proof.
  intros Hold. destruct j; simpl; intros; simplify_eq; try done.
  destruct (in64b z0) eqn:E; simplify_eq. by apply in64b_spec.
Qed.

Lemma set_createOrder_field_range tag j r r' :
  req_in_range r → set_createOrder_field tag j r = Some r' → req_in_range r'.
Proof.
  destruct r. unfold req_in_range, set_createOrder_field; simpl. intros [Hq Hp].
  repeat case_match; intros Heq;
    try (apply fmap_Some in Heq as (x & Hx & ->)); simplify_eq; simpl;
    eauto using into_int64_range.
Qed.

Lemma unmarshal_createOrder_range t r :
  unmarshal_createOrder t = Some r → req_in_range r.
Proof.
  assert (∀ kvs r r', req_in_range r →
    decode_fields createOrder_tags set_createOrder_field kvs r = Some r' → req_in_range r') as Hd.
  { induction kvs as [|[k j] kvs IH]; simpl; intros r0 r1 Hr Heq; simplify_eq; [done|].
    destruct (resolve_field _ k); [|by eapply IH].
    destruct (set_createOrder_field _ _ _) eqn:E; [|done].
    eapply IH; [|done]. by eapply set_createOrder_field_range. }
  assert (req_in_range (mkCreateOrder "" "" "" "" "" "" 0 0)) by (by vm_compute).
  unfold unmarshal_createOrder, unmarshal_struct.
  destruct t as [[]|]; intros; simplify_eq; eauto.
Qed.
