(* ===== verification/Handlers.v ===== *)
(** The command handlers of internal/engine/engine.go (and [handleUserCreated]
    of ledger.go).

    A handler takes [e.mu] once or several times; what it does while holding
    the lock is one function ([registerOrder], [abortOrder], [matchOrderLocked],
    [cancelOrderLocked]), and the handler composes these sections with the
    emission of events the way the source does. *)

From S2P Require Import Prelude Json Types Router State Ledger Matching Events Outbox Depth Commands.
Local Open Scope Z_scope.

Definition ErrEventNotFound : string := "event not found".
Definition ErrOrderNotFound : string := "order not found".
Definition ErrOrderNotCancelable : string := "order cannot be canceled".

(** ** Validation *)

(** [None] is nil.  (The nil-pointer guard has no counterpart: the only caller
    passes the address of a composite literal.) *)
Definition validateOrder (order : Order) : option string :=
  if o_EventID order =s "" then Some "eventId is required"
  else if o_UserID order =s "" then Some "userId is required"
  else if o_Quantity order <=? 0 then Some "quantity must be greater than zero"
  else if negb ((o_Side order =s SideBuy) || (o_Side order =s SideSell)) then Some "invalid side"
  else if negb ((o_Outcome order =s OutcomeYes) || (o_Outcome order =s OutcomeNo)) then
    Some "invalid outcome"
  else if o_OrderType order =s OrderTypeLimit then
    if o_Price order <=? 0 then Some "limit order price must be greater than zero" else None
  else if o_OrderType order =s OrderTypeMarket then None
  else Some "invalid order type".

(** ** Registering an order: the first critical section of
    [handleCreateOrderCore] *)

Inductive Registration :=
| RegExisting (existing : Order)     (** a resubmission *)
| RegFailed (err : string)
| RegOK (p : nat).

Definition registerOrder (order : Order) (e : Engine) : Registration * Engine :=
  match orders e !! o_ID order with
  | Some p => (RegExisting (deref (heap e) p), e)
  | None =>
      match markets e !! o_EventID order with
      | None => (RegFailed ErrEventNotFound, e)
      | Some _ =>
          let '(err, order, e) := reserveOrderLocked order e in
          match err with
          | Some err => (RegFailed err, e)
          | None =>
              let p := length (heap e) in
              (RegOK p, with_orders (<[o_ID order := p]>) (with_heap (λ h, h ++ [order]) e))
          end
      end
  end.

(** The section that undoes the registration when the event cannot be emitted. *)
Definition abortOrder (p : nat) (e : Engine) : Engine :=
  with_heap (store p (set_Status StatusRejected))
    (with_orders (delete (o_ID (deref (heap e) p))) e).

Section handlers.
Context `{Environment}.

(** ** Matching *)

(** The critical section of [matchOrder]; [None] if the loop did not end. *)
Definition matchOrderLocked (p : nat) (e : Engine) (t : nat)
    : option (list Trade * Engine * nat) :=
  let order := deref (heap e) p in
  if o_Status order =s StatusCanceled then Some ([], e, t)
  else
    match markets e !! o_EventID order with
    | None => Some ([], with_heap (store p (set_Status StatusRejected)) e, t)
    | Some market =>
        match Book market (o_Outcome order) with
        | None => Some ([], with_heap (store p (set_Status StatusRejected)) e, t)
        | Some book =>
            match matchAgainstBook p book (heap e) t with
            | None => None
            | Some (h, book, trades, t) =>
                let order := deref h p in
                let '(h, book) :=
                  if o_RemainingQuantity order =? 0 then
                    (store p (set_Status StatusFilled) h, book)
                  else if 0 <? o_FilledQuantity order then
                    if o_OrderType order =s OrderTypeLimit then
                      let h := store p (set_Status StatusPartial) h in (h, addToBook h book p)
                    else (store p (set_Status StatusCanceled) h, book)
                  else if o_OrderType order =s OrderTypeMarket then
                    (store p (set_Status StatusCanceled) h, book)
                  else
                    let h := store p (set_Status StatusPending) h in (h, addToBook h book p) in
                let e := with_markets
                           (<[o_EventID order := set_Book (o_Outcome order) book market]>)
                           (with_heap (λ _, h) e) in
                let e := foldl (λ e trade, settleTradeLocked trade e) e trades in
                let status := o_Status (deref (heap e) p) in
                let e := if (status =s StatusFilled) || (status =s StatusCanceled)
                         then releaseOrderLocked p e else e in
                Some (trades, e, t)
            end
        end
    end.

(** [for _, trade := range trades]: count and publish; a failed publish is only
    logged. *)
Fixpoint publishTrades (partitionID : Z) (trades : list Trade) : M () :=
  match trades with
  | [] => ret ()
  | trade :: trades =>
      modify (with_metrics inc_Trades) ;;;
      publishTrade partitionID trade ;;;
      publishTrades partitionID trades
  end.

Definition runMatch (p : nat) : M (list Trade) := λ w,
  match matchOrderLocked p (eng w) (tick w) with
  | None => None
  | Some (trades, e, t) => Some (trades, with_tick t (with_eng (λ _, e) w))
  end.

Definition matchOrder (p : nat) (partitionID : Z) : M (list Trade) :=
  trades <- runMatch p ;;
  e <- get_eng ;;
  if isReplaying e partitionID then ret trades
  else
    (if o_Status (deref (heap e) p) =s StatusFilled then modify (with_metrics inc_Filled)
     else ret ()) ;;;
    publishTrades partitionID trades ;;;
    ret trades.

(** ** CREATE_EVENT and USER_CREATED *)

Definition createEventLocked (eventID : string) (e : Engine) : string * Engine :=
  match markets e !! eventID with
  | Some _ => ("already_exists", e)
  | None => ("created", with_markets (<[eventID := NewMarket]>) e)
  end.

Definition handleCreateEvent (payload : json_text) : M EngineResponse :=
  match unmarshal_strings ["eventId"] payload with
  | Some [eventID] =>
      if eventID =s "" then ret (failure "eventId is required")
      else
        e <- get_eng ;;
        let '(status, e) := createEventLocked eventID e in
        put_eng e ;;;
        ret (successJSON (JObj [("status", JStr status)]))
  | _ => ret (failure "invalid payload")
  end.

Definition createUserLocked (userID : string) (e : Engine) : Engine :=
  match balances e !! userID with
  | Some _ => e
  | None => with_balances (<[userID := mkBalance DefaultStartingBalance 0]>) e
  end.

Definition handleUserCreated (payload : json_text) : M EngineResponse :=
  match unmarshal_strings ["userId"] payload with
  | Some [userID] =>
      if userID =s "" then ret (failure "userId is required")
      else
        modify_eng (createUserLocked userID) ;;;
        ret (successJSON (JObj [("status", JStr "ok")]))
  | _ => ret (failure "invalid payload")
  end.

(** ** CREATE_ORDER *)

Definition newOrder (r : CreateOrderReq) (orderID : string) (now : Z) : Order :=
  mkOrder orderID (r_EventID r) (r_UserID r) (r_OrderType r) (r_Outcome r) (r_Side r)
    (r_Quantity r) 0 (r_Quantity r) (r_Price r) StatusPending 0 now.

(** Emit ORDER_CREATED for the registered order, then match it; if the emission
    fails, withdraw the order. *)
Definition emitAndMatch (partitionID : Z) (p : nat) : M EngineResponse :=
  e <- get_eng ;;
  err <- emitEventP partitionID EventOrderCreated (JText (order_json (deref (heap e) p))) false ;;
  match err with
  | Some _ =>
      modify_eng (abortOrder p) ;;;
      ret (failure "failed to stream order creation")
  | None =>
      matchOrder p partitionID ;;;
      modify (with_metrics inc_Processed) ;;;
      e <- get_eng ;;
      let order := deref (heap e) p in
      ret (successJSON (JObj [
        ("filledQuantity", JInt (o_FilledQuantity order));
        ("orderId", JStr (o_ID order));
        ("remainingQuantity", JInt (o_RemainingQuantity order));
        ("status", JStr (o_Status order))]))
  end.

(** From the built order on: validate, register, emit and match. *)
Definition placeOrder (partitionID : Z) (order : Order) : M EngineResponse :=
  match validateOrder order with
  | Some err => ret (failure err)
  | None =>
      e <- get_eng ;;
      let '(reg, e) := registerOrder order e in
      put_eng e ;;;
      match reg with
      | RegExisting existing =>
          ret (successJSON (JObj [
            ("orderId", JStr (o_ID existing)); ("status", JStr (o_Status existing))]))
      | RegFailed err => ret (failure err)
      | RegOK p => emitAndMatch partitionID p
      end
  end.

Definition handleCreateOrderCore (partitionID : Z) (payload : json_text) : M EngineResponse :=
  match unmarshal_createOrder payload with
  | None => ret (failure "invalid payload")
  | Some req =>
      orderID <- (if r_OrderID req =s "" then next_uuid else ret (r_OrderID req)) ;;
      if r_Quantity req <=? 0 then ret (failure "quantity must be greater than zero")
      else
        now <- next_time ;;
        placeOrder partitionID (newOrder req orderID now)
  end.

Definition handleCreateOrderP (partitionID : Z) (payload : json_text) : M EngineResponse :=
  resp <- handleCreateOrderCore partitionID payload ;;
  e <- get_eng ;;
  (if isReplaying e partitionID then ret ()
   else modify (with_metrics (if Success resp then inc_Accepted else inc_Rejected))) ;;;
  ret resp.

(** [handleCreateOrder], the entry point without a partition. *)
Definition handleCreateOrder (payload : json_text) : M EngineResponse :=
  handleCreateOrderP 0 payload.

(** ** CANCEL_ORDER *)

Inductive Cancellation :=
| CancelRefused (err : string)
| CancelPanics                       (** the book pointer is nil *)
| CancelDone (p : nat).

Definition cancelOrderLocked (orderID eventID : string) (e : Engine) : Cancellation * Engine :=
  match orders e !! orderID with
  | None => (CancelRefused ErrOrderNotFound, e)
  | Some p =>
      let order := deref (heap e) p in
      if negb (eventID =s "") && negb (o_EventID order =s eventID) then
        (CancelRefused "order does not belong to event", e)
      else if final_status (o_Status order) then (CancelRefused ErrOrderNotCancelable, e)
      else
        match markets e !! o_EventID order with
        | None => (CancelRefused ErrEventNotFound, e)
        | Some market =>
            match Book market (o_Outcome order) with
            | None => (CancelPanics, e)
            | Some book =>
                let book :=
                  if o_Side order =s SideBuy then
                    mkBook (fst (removeOrderFromSlice (heap e) (Bids book) (o_ID order))) (Asks book)
                  else
                    mkBook (Bids book) (fst (removeOrderFromSlice (heap e) (Asks book) (o_ID order))) in
                let e := with_markets
                           (<[o_EventID order := set_Book (o_Outcome order) book market]>) e in
                let e := with_heap (store p (set_Status StatusCanceled)) e in
                (CancelDone p, releaseOrderLocked p e)
            end
        end
  end.

Definition handleCancelOrderP (partitionID : Z) (payload : json_text) : M EngineResponse :=
  match unmarshal_strings ["orderId"; "eventId"] payload with
  | Some [orderID; eventID] =>
      if orderID =s "" then ret (failure "orderId is required")
      else
        e <- get_eng ;;
        let '(res, e) := cancelOrderLocked orderID eventID e in
        put_eng e ;;;
        match res with
        | CancelRefused err => ret (failure err)
        | CancelPanics => panic
        | CancelDone p =>
            (if isReplaying e partitionID then ret ()
             else modify (with_metrics inc_Canceled)) ;;;
            let id := o_ID (deref (heap e) p) in
            emitEventP partitionID EventOrderCanceled (JText (JObj [("orderId", JStr id)])) false ;;;
            ret (successJSON (JObj [("orderId", JStr id); ("status", JStr StatusCanceled)]))
        end
  | _ => ret (failure "invalid payload")
  end.

(** [handleCancelOrder], the entry point without a partition. *)
Definition handleCancelOrder (payload : json_text) : M EngineResponse :=
  handleCancelOrderP 0 payload.

(** ** Queries *)

Definition handleGetDepth (payload : json_text) : M EngineResponse :=
  match unmarshal_strings ["eventId"] payload with
  | Some [eventID] =>
      e <- get_eng ;;
      match markets e !! eventID with
      | None => ret (failure ErrEventNotFound)
      | Some market =>
          let side l := deref (heap e) <$> l in
          λ w,
          let t := tick w in
          let depth := mkDepth eventID
            (mkDepthSide (aggregateBids (map_range t) (side (Bids (YES market))))
                         (aggregateAsks (map_range (t + 1)) (side (Asks (YES market)))))
            (mkDepthSide (aggregateBids (map_range (t + 2)) (side (Bids (NO market))))
                         (aggregateAsks (map_range (t + 3)) (side (Asks (NO market))))) in
          Some (successJSON (depth_json depth), with_tick (t + 4) w)
      end
  | _ => ret (failure "invalid payload")
  end.

(** The filter of [handleGetOpenOrders]. *)
Definition is_open (eventID userID : string) (o : Order) : bool :=
  (o_EventID o =s eventID) && (o_UserID o =s userID) && live_status (o_Status o).

Definition openOrders (eventID userID : string) (e : Engine) (visit : list nat) : list Order :=
  stable_sort (λ a b, o_CreatedAt a <? o_CreatedAt b)
    (filter (λ o, is_open eventID userID o = true) (deref (heap e) <$> visit)).

Definition handleGetOpenOrders (payload : json_text) : M EngineResponse :=
  match unmarshal_strings ["eventId"; "userId"] payload with
  | Some [eventID; userID] =>
      e <- get_eng ;;
      visit <- next_range ((map_to_list (orders e)).*2) ;;
      ret (successJSON (JArr (order_json <$> openOrders eventID userID e visit)))
  | _ => ret (failure "invalid payload")
  end.

(** ** Dispatch *)

Definition handleMessage (partitionID : Z) (msg : MessageToEngine) : M EngineResponse :=
  if msg_Type msg =s CreateOrderCommand then handleCreateOrderP partitionID (msg_Payload msg)
  else if msg_Type msg =s CancelOrderCommand then handleCancelOrderP partitionID (msg_Payload msg)
  else if msg_Type msg =s GetDepthCommand then handleGetDepth (msg_Payload msg)
  else if msg_Type msg =s GetOpenOrdersCommand then handleGetOpenOrders (msg_Payload msg)
  else if msg_Type msg =s CreateEventCommand then handleCreateEvent (msg_Payload msg)
  else if msg_Type msg =s UserCreatedCommand then handleUserCreated (msg_Payload msg)
  else ret (failure "unknown message type").

End handlers.
