(* ===== verification/Replay.v ===== *)
(** Command consumption and replay: internal/engine/replay.go and
    [processStreamEntry] of internal/engine/engine.go.

    A stream entry is its id and the two values the code reads from it; an
    absent value, or one of another type, reads as the empty string. *)

From S2P Require Import Prelude Json Types Router State Events Outbox Commands Handlers.
Local Open Scope Z_scope.

Record StreamEntry := mkEntryOf {
  se_ID : string;
  se_clientId : string;
  se_command : json_text
}.

Definition response_json (r : EngineResponse) : json := JObj
  ([("success", JBool (Success r))] ++ omit_empty "error" (Error r)
   ++ omit_empty "requestId" (RequestID r)
   ++ match Data r with JText j => [("data", j)] | JBad _ => [] end).

Definition with_RequestID (id : string) (r : EngineResponse) : EngineResponse :=
  mkResponse (Success r) (Error r) id (Data r).

(** The entry's command, if it carries one the engine handles. *)
Definition entryMessage (msg : StreamEntry) : option MessageToEngine :=
  if text_empty (se_command msg) then None
  else match unmarshal_command (se_command msg) with
       | None => None
       | Some env => if c_Type env =s "" then None else Some (mkMessage (c_Type env) (c_Payload env))
       end.

Section replay.
Context `{Environment}.

(** [applyCommand] *)
Definition applyCommand (partitionID : Z) (env : CommandEnvelope) : M () :=
  if c_Type env =s "" then ret ()
  else
    handleMessage partitionID (mkMessage (c_Type env) (c_Payload env)) ;;;
    ret ().

(** One iteration of the replay loop. *)
Definition replayEntry (partitionID : Z) (msg : StreamEntry) : M () :=
  if text_empty (se_command msg) then ret ()
  else
    match unmarshal_command (se_command msg) with
    | None => ret ()
    | Some env => applyCommand partitionID env
    end.

Fixpoint replayEntries (partitionID : Z) (entries : list StreamEntry) : M () :=
  match entries with
  | [] => ret ()
  | msg :: entries => replayEntry partitionID msg ;;; replayEntries partitionID entries
  end.

(** [replayCommandLog]; [entries] is what XRANGE returned, [None] its error. *)
Definition replayCommandLog (partitionID : Z) (entries : option (list StreamEntry))
    : M (option string) :=
  e <- get_eng ;;
  if negb (redisManager e) then ret None
  else
    match entries with
    | None => ret (Some io_error)
    | Some entries =>
        modify_eng (with_replaying (λ s, {[partitionID]} ∪ s)) ;;;
        replayEntries partitionID entries ;;;
        modify_eng (with_replaying (λ s, s ∖ {[partitionID]})) ;;;
        ret None
    end.

(** The reply of [processStreamEntry]: only when a client waits for it. *)
Definition reply (clientID : string) (env : CommandEnvelope) (response : EngineResponse) : M () :=
  if clientID =s "" then ret ()
  else
    let response :=
      if c_RequestID env =s "" then response else with_RequestID (c_RequestID env) response in
    publish clientID (JText (response_json response)) ;;;
    ret ().

(** The deferred XACK; [acked] lists the requests the server executed. *)
Definition ack (partitionID : Z) (entryID : string) : M () :=
  e <- get_eng ;;
  call <- next_call ;;
  modify (with_acked (λ l, l ++
    replicate call.2 (Stream (router e) partitionID, Group (router e) partitionID, entryID))).

Definition handleEntry (partitionID : Z) (msg : StreamEntry) : M () :=
  if text_empty (se_command msg) then ret ()
  else
    match unmarshal_command (se_command msg) with
    | None => ret ()
    | Some env =>
        if c_Type env =s "" then ret ()
        else
          response <- handleMessage partitionID (mkMessage (c_Type env) (c_Payload env)) ;;
          reply (se_clientId msg) env response
    end.

Definition processStreamEntry (partitionID : Z) (msg : StreamEntry) : M () :=
  handleEntry partitionID msg ;;;
  ack partitionID (se_ID msg).

(** The entries one read of the consumer loop hands out, in order. *)
Fixpoint processEntries (partitionID : Z) (msgs : list StreamEntry) : M () :=
  match msgs with
  | [] => ret ()
  | msg :: msgs => processStreamEntry partitionID msg ;;; processEntries partitionID msgs
  end.

End replay.
