(* ===== verification/Invariant.v ===== *)
(** The invariant of the engine's state.

    - [Accounts]: no account is negative, what an account has reserved is
      exactly the sum of the locks of its owner's orders, and the totals fit an
      [int64].
    - [Table]: the order table maps an id to the order with that id, and the
      orders in it are well formed.
    - [Locks ts]: every registered order has locked enough for what it may still
      buy or sell plus what the trades [ts], executed but not yet settled, take
      from it.
    - [Books]: a book lists registered, live limit orders of its event, outcome
      and side, without repetition, in price-time order, and never crossed
      between different users.

    [Inv ts] is their conjunction; [Inv []] holds between commands. *)

From S2P Require Import Prelude Types State Ledger Matching Sweep.
Local Open Scope Z_scope.

(** ** Locks *)

Definition pkey (o : Order) : string := positionKey (o_UserID o) (o_EventID o) (o_Outcome o).

(** What an order freezes in a user's cash account and in a position. *)
Definition lockCash (u : string) (o : Order) : Z :=
  if (o_Side o =s SideBuy) && (o_UserID o =s u) then o_LockedFunds o else 0.
Definition lockShares (k : string) (o : Order) : Z :=
  if negb (o_Side o =s SideBuy) && (pkey o =s k) then o_LockedFunds o else 0.

Definition lockedCash (h : list Order) (u : string) : Z := sumZ (lockCash u) h.
Definition lockedShares (h : list Order) (k : string) : Z := sumZ (lockShares k) h.

(** What an order may still take from its owner. *)
Definition need (o : Order) : Z :=
  if (o_Status o =s StatusCanceled) || (o_Status o =s StatusRejected) then 0
  else if o_Side o =s SideBuy then
    if o_OrderType o =s OrderTypeLimit then o_RemainingQuantity o * o_Price o else 0
  else o_RemainingQuantity o.

(** What one trade takes from an order on side [s], and what a list of trades
    takes from the order [id]. *)
Definition amount (s : string) (t : Trade) : Z :=
  if s =s SideBuy then t_Quantity t * t_Price t else t_Quantity t.

Definition due (id s : string) (t : Trade) : Z :=
  (if t_OrderID t =s id then amount s t else 0) + (if t_MatchOrderID t =s id then amount s t else 0).

Definition dues (ts : list Trade) (o : Order) : Z := sumZ (due (o_ID o) (o_Side o)) ts.

(** ** The four parts *)

Record Accounts (e : Engine) : Prop := {
  acc_bal : ∀ u, 0 ≤ bal_Available (balanceOf e u) ∧
                 bal_Reserved (balanceOf e u) = lockedCash (heap e) u;
  acc_pos : ∀ k, 0 ≤ pos_Available (positionOf e k) ∧
                 pos_Reserved (positionOf e k) = lockedShares (heap e) k;
  acc_cash : cash e ≤ max_int64;
  acc_shares : shares e ≤ max_int64;
  acc_locks : ∀ o, o ∈ heap e → 0 ≤ o_LockedFunds o
}.

Record order_wf (o : Order) : Prop := {
  wf_qty : qty_ok o;
  wf_pos : 0 < o_Quantity o;
  wf_side : o_Side o = SideBuy ∨ o_Side o = SideSell;
  wf_outcome : o_Outcome o = OutcomeYes ∨ o_Outcome o = OutcomeNo;
  wf_type : o_OrderType o = OrderTypeLimit ∨ o_OrderType o = OrderTypeMarket;
  wf_price : in64 (o_Price o);
  wf_limit : o_OrderType o = OrderTypeLimit → 0 < o_Price o
}.

Definition Table (e : Engine) : Prop := ∀ id p, orders e !! id = Some p →
  (p < length (heap e))%nat ∧ o_ID (deref (heap e) p) = id ∧ order_wf (deref (heap e) p).

Definition Locks (ts : list Trade) (e : Engine) : Prop := ∀ id p, orders e !! id = Some p →
  dues ts (deref (heap e) p) + need (deref (heap e) p) ≤ o_LockedFunds (deref (heap e) p).

(** The order at [p] rests on side [s] of the book of [ev] and [oc]. *)
Record rests (e : Engine) (ev oc s : string) (p : nat) : Prop := {
  rs_table : orders e !! o_ID (deref (heap e) p) = Some p;
  rs_event : o_EventID (deref (heap e) p) = ev;
  rs_outcome : o_Outcome (deref (heap e) p) = oc;
  rs_side : o_Side (deref (heap e) p) = s;
  rs_type : o_OrderType (deref (heap e) p) = OrderTypeLimit;
  rs_live : live_status (o_Status (deref (heap e) p)) = true;
  rs_left : 0 < o_RemainingQuantity (deref (heap e) p)
}.

(** Price order of a side: best price first. *)
Definition bidOrder (h : list Order) (p q : nat) : Prop := o_Price (deref h q) ≤ o_Price (deref h p).
Definition askOrder (h : list Order) (p q : nat) : Prop := o_Price (deref h p) ≤ o_Price (deref h q).

(** No bid meets the ask of another user. *)
Definition uncrossed (h : list Order) (b : OrderBook) : Prop := ∀ p q, p ∈ Bids b → q ∈ Asks b →
  o_UserID (deref h p) ≠ o_UserID (deref h q) → o_Price (deref h p) < o_Price (deref h q).

Record book_ok (e : Engine) (ev oc : string) (b : OrderBook) : Prop := {
  bk_bids : ∀ p, p ∈ Bids b → rests e ev oc SideBuy p;
  bk_asks : ∀ p, p ∈ Asks b → rests e ev oc SideSell p;
  bk_bids_nodup : NoDup (Bids b);
  bk_asks_nodup : NoDup (Asks b);
  bk_bids_sorted : StronglySorted (bidOrder (heap e)) (Bids b);
  bk_asks_sorted : StronglySorted (askOrder (heap e)) (Asks b);
  bk_uncrossed : uncrossed (heap e) b
}.

Definition Books (e : Engine) : Prop := ∀ ev m oc b,
  markets e !! ev = Some m → Book m oc = Some b → book_ok e ev oc b.

Record Inv (ts : list Trade) (e : Engine) : Prop := {
  inv_accounts : Accounts e;
  inv_table : Table e;
  inv_locks : Locks ts e;
  inv_books : Books e
}.

(** ** Bounds that follow *)

Section bounds.
Context (e : Engine).
Hypothesis HA : Accounts e.

Lemma lockedCash_nonneg u : 0 ≤ lockedCash (heap e) u.
Proof.
  apply sumZ_nonneg. intros o Ho. unfold lockCash.
  pose proof (acc_locks _ HA o Ho). destruct (_ && _); lia.
Qed.

Lemma lockedShares_nonneg k : 0 ≤ lockedShares (heap e) k.
Proof.
  apply sumZ_nonneg. intros o Ho. unfold lockShares.
  pose proof (acc_locks _ HA o Ho). destruct (_ && _); lia.
Qed.

(** Every account fits an [int64]: it is part of a total that does. *)
Lemma balance_bound u :
  0 ≤ bal_Available (balanceOf e u) ∧ 0 ≤ bal_Reserved (balanceOf e u) ∧
  bal_Available (balanceOf e u) + bal_Reserved (balanceOf e u) ≤ cash e ∧ 0 ≤ cash e.
Proof.
  assert (∀ u b, balances e !! u = Some b → 0 ≤ bal_Available b + bal_Reserved b) as Hpos.
  { intros v b Hv. destruct (acc_bal _ HA v) as [Ha Hr]. pose proof (lockedCash_nonneg v).
    unfold balanceOf in *. rewrite Hv in *; simpl in *. lia. }
  destruct (acc_bal _ HA u) as [Ha Hr]. pose proof (lockedCash_nonneg u).
  assert (0 ≤ cash e).
  { apply sumZ_nonneg. intros [v b] Hin. apply elem_of_map_to_list in Hin. eauto. }
  split_and!; [done|lia| |done].
  unfold balanceOf in *. destruct (balances e !! u) as [b|] eqn:E; simpl in *; [|lia].
  by apply (map_sumZ_elem_le (λ b, bal_Available b + bal_Reserved b) _ u b).
Qed.

Lemma position_bound k :
  0 ≤ pos_Available (positionOf e k) ∧ 0 ≤ pos_Reserved (positionOf e k) ∧
  pos_Available (positionOf e k) + pos_Reserved (positionOf e k) ≤ shares e ∧ 0 ≤ shares e.
Proof.
  assert (∀ u b, positions e !! u = Some b → 0 ≤ pos_Available b + pos_Reserved b) as Hpos.
  { intros v b Hv. destruct (acc_pos _ HA v) as [Ha Hr]. pose proof (lockedShares_nonneg v).
    unfold positionOf in *. rewrite Hv in *; simpl in *. lia. }
  destruct (acc_pos _ HA k) as [Ha Hr]. pose proof (lockedShares_nonneg k).
  assert (0 ≤ shares e).
  { apply sumZ_nonneg. intros [v b] Hin. apply elem_of_map_to_list in Hin. eauto. }
  split_and!; [done|lia| |done].
  unfold positionOf in *. destruct (positions e !! k) as [b|] eqn:E; simpl in *; [|lia].
  by apply (map_sumZ_elem_le (λ b, pos_Available b + pos_Reserved b) _ k b).
Qed.

(** A lock is covered by the reservation of its owner. *)
Lemma lock_le_reserved p :
  (p < length (heap e))%nat →
  let o := deref (heap e) p in
  0 ≤ o_LockedFunds o ∧
  (o_Side o = SideBuy → o_LockedFunds o ≤ bal_Reserved (balanceOf e (o_UserID o))) ∧
  (o_Side o ≠ SideBuy → o_LockedFunds o ≤ pos_Reserved (positionOf e (pkey o))).
Proof.
  intros Hp o. pose proof (deref_lookup _ _ Hp) as Hl. fold o in Hl.
  assert (0 ≤ o_LockedFunds o) by (by eapply (acc_locks _ HA), list_elem_of_lookup_2).
  split_and!; [done| |]; intros Hs.
  - rewrite (proj2 (acc_bal _ HA _)).
    assert (o_LockedFunds o = lockCash (o_UserID o) o) as ->.
    { unfold lockCash. by rewrite Hs, !seqb_refl. }
    apply (sumZ_elem_le _ _ p); [|done]. intros o' Ho'. unfold lockCash.
    pose proof (acc_locks _ HA o' Ho'). destruct (_ && _); lia.
  - rewrite (proj2 (acc_pos _ HA _)).
    assert (o_LockedFunds o = lockShares (pkey o) o) as ->.
    { unfold lockShares. by rewrite (seqb_ne _ _ Hs), !seqb_refl. }
    apply (sumZ_elem_le _ _ p); [|done]. intros o' Ho'. unfold lockShares.
    pose proof (acc_locks _ HA o' Ho'). destruct (_ && _); lia.
Qed.
End bounds.

(** ** Changing one lock *)

Lemma lockedCash_store h p l u :
  (p < length h)%nat →
  lockedCash (store p (set_LockedFunds l) h) u =
    lockedCash h u + (if (o_Side (deref h p) =s SideBuy) && (o_UserID (deref h p) =s u)
                      then l - o_LockedFunds (deref h p) else 0).
Proof.
  intros Hp. unfold lockedCash. rewrite sumZ_store by done.
  unfold lockCash at 2 3; simpl. destruct (_ && _); lia.
Qed.

Lemma lockedShares_store h p l k :
  (p < length h)%nat →
  lockedShares (store p (set_LockedFunds l) h) k =
    lockedShares h k + (if negb (o_Side (deref h p) =s SideBuy) && (pkey (deref h p) =s k)
                        then l - o_LockedFunds (deref h p) else 0).
Proof.
  intros Hp. unfold lockedShares. rewrite sumZ_store by done.
  unfold lockShares at 2 3; simpl. unfold pkey; simpl. destruct (_ && _); lia.
Qed.

Lemma locks_store h p l :
  (∀ o, o ∈ h → 0 ≤ o_LockedFunds o) → 0 ≤ l →
  ∀ o, o ∈ store p (set_LockedFunds l) h → 0 ≤ o_LockedFunds o.
Proof.
  intros Hh Hl o Ho. apply list_elem_of_lookup in Ho as [i Hi]. unfold store in Hi.
  destruct (decide (p = i)) as [->|].
  - rewrite list_lookup_alter_eq in Hi. destruct (h !! i) as [o'|]; simplify_eq/=. done.
  - rewrite list_lookup_alter_ne in Hi by done. eapply Hh. by eapply list_elem_of_lookup_2.
Qed.

(** Orders that agree on what locks depend on. *)
Definition lockview (o : Order) := (o_Side o, o_UserID o, o_EventID o, o_Outcome o, o_LockedFunds o).

Lemma lockview_inv a b : lockview a = lockview b →
  o_Side a = o_Side b ∧ o_UserID a = o_UserID b ∧ o_EventID a = o_EventID b ∧
  o_Outcome a = o_Outcome b ∧ o_LockedFunds a = o_LockedFunds b.
Proof. unfold lockview. intros Heq. injection Heq as ? ? ? ? ?. done. Qed.

Lemma sumZ_view {A B} (g : A → B) (f : A → Z) (l k : list A) :
  (∀ a b, g a = g b → f a = f b) → g <$> l = g <$> k → sumZ f l = sumZ f k.
Proof.
  intros Hf. revert k. induction l as [|a l IH]; intros [|b k] Heq; simplify_eq/=; [done|].
  erewrite IH by done. erewrite Hf by done. done.
Qed.

Lemma lockedCash_view h h' u : lockview <$> h = lockview <$> h' → lockedCash h u = lockedCash h' u.
Proof.
  apply sumZ_view. intros a b (Es & Eu & Ee & Eo & El)%lockview_inv.
  unfold lockCash. by rewrite Es, Eu, El.
Qed.

Lemma lockedShares_view h h' k : lockview <$> h = lockview <$> h' → lockedShares h k = lockedShares h' k.
Proof.
  apply sumZ_view. intros a b (Es & Eu & Ee & Eo & El)%lockview_inv.
  unfold lockShares, pkey. by rewrite Es, Eu, Ee, Eo, El.
Qed.

Lemma fmap_deref {B} (g : Order → B) h h' :
  length h = length h' → (∀ r, g (deref h r) = g (deref h' r)) → g <$> h = g <$> h'.
Proof.
  intros Hlen Hg. apply list_eq. intros i. rewrite !list_lookup_fmap.
  destruct (decide (i < length h)%nat) as [Hi|Hi].
  - rewrite (deref_lookup h i Hi), (deref_lookup h' i) by lia. simpl. by rewrite Hg.
  - rewrite !lookup_ge_None_2 by lia. done.
Qed.

(** [Accounts] only looks at the lock view of the heap. *)
Lemma Accounts_view e e' :
  balances e' = balances e → positions e' = positions e →
  lockview <$> heap e = lockview <$> heap e' → Accounts e → Accounts e'.
Proof.
  intros Hb Hp Hv [H1 H2 H3 H4 H5].
  assert (∀ u, balanceOf e' u = balanceOf e u) as Eb by (intros; unfold balanceOf; by rewrite Hb).
  assert (∀ u, positionOf e' u = positionOf e u) as Ep by (intros; unfold positionOf; by rewrite Hp).
  split.
  - intros u. rewrite Eb, <- (lockedCash_view _ _ u Hv). apply H1.
  - intros k. rewrite Ep, <- (lockedShares_view _ _ k Hv). apply H2.
  - unfold cash. by rewrite Hb.
  - unfold shares. by rewrite Hp.
  - intros o Ho. apply list_elem_of_lookup in Ho as [i Hi].
    assert ((lockview <$> heap e) !! i = Some (lockview o)) as Hi'.
    { rewrite Hv, list_lookup_fmap, Hi. done. }
    rewrite list_lookup_fmap in Hi'. destruct (heap e !! i) as [o'|] eqn:E; [|done].
    apply (inj Some) in Hi'. apply lockview_inv in Hi' as (_ & _ & _ & _ & <-).
    eapply H5. by eapply list_elem_of_lookup_2.
Qed.

(** ** Orders that agree up to their locks *)

Definition unlocked (o : Order) : Order := set_LockedFunds 0 o.

Lemma unlocked_inv a b : unlocked a = unlocked b →
  o_ID a = o_ID b ∧ o_EventID a = o_EventID b ∧ o_UserID a = o_UserID b ∧
  o_OrderType a = o_OrderType b ∧ o_Outcome a = o_Outcome b ∧ o_Side a = o_Side b ∧
  o_Quantity a = o_Quantity b ∧ o_FilledQuantity a = o_FilledQuantity b ∧
  o_RemainingQuantity a = o_RemainingQuantity b ∧ o_Price a = o_Price b ∧
  o_Status a = o_Status b ∧ o_CreatedAt a = o_CreatedAt b.
Proof. unfold unlocked, set_LockedFunds. intros Heq. by injection Heq. Qed.

Lemma order_wf_unlocked a b : unlocked a = unlocked b → order_wf a → order_wf b.
Proof.
  intros (Ei&_&_&Et&Eo&Es&Eq&Ef&Er&Ep&_)%unlocked_inv [Hq H0 Hs Ho Ht Hp Hl].
  unfold qty_ok in Hq. split; unfold qty_ok; by rewrite <- ?Eq, <- ?Ef, <- ?Er, <- ?Es, <- ?Eo, <- ?Et, <- ?Ep.
Qed.

Lemma need_unlocked a b : unlocked a = unlocked b → need a = need b.
Proof.
  intros (Ei&_&_&Et&_&Es&_&_&Er&Ep&Est&_)%unlocked_inv. unfold need. by rewrite Est, Es, Et, Er, Ep.
Qed.

Lemma dues_unlocked ts a b : unlocked a = unlocked b → dues ts a = dues ts b.
Proof. intros (Ei&_&_&_&_&Es&_)%unlocked_inv. unfold dues. by rewrite Ei, Es. Qed.

(** A book only looks at its own orders, and not at their locks. *)
Lemma rests_unlocked e e' ev oc s p :
  unlocked (deref (heap e') p) = unlocked (deref (heap e) p) →
  orders e' !! o_ID (deref (heap e) p) = Some p →
  rests e ev oc s p → rests e' ev oc s p.
Proof.
  intros (Ei&Ee&_&Et&Eo&Es&_&_&Er&_&Est&_)%unlocked_inv Ht [? ? ? ? ? ? ?].
  split; by rewrite ?Ei, ?Ee, ?Et, ?Eo, ?Es, ?Er, ?Est.
Qed.

Lemma book_ok_unlocked e e' ev oc b :
  (∀ p, p ∈ Bids b ++ Asks b → unlocked (deref (heap e') p) = unlocked (deref (heap e) p) ∧
        orders e' !! o_ID (deref (heap e) p) = Some p) →
  book_ok e ev oc b → book_ok e' ev oc b.
Proof.
  intros Hb [H1 H2 H3 H4 H5 H6 H7].
  assert (∀ p, p ∈ Bids b ++ Asks b → o_Price (deref (heap e') p) = o_Price (deref (heap e) p) ∧
     o_UserID (deref (heap e') p) = o_UserID (deref (heap e) p)) as Hpu.
  { intros p [Hp _]%Hb. apply unlocked_inv in Hp. tauto. }
  split; [| |done|done| | |].
  - intros p Hp. destruct (Hb p) as [??]; [set_solver|]. by eapply rests_unlocked; eauto.
  - intros p Hp. destruct (Hb p) as [??]; [set_solver|]. by eapply rests_unlocked; eauto.
  - eapply StronglySorted_elem; [|exact H5]. unfold bidOrder. intros p q Hp Hq.
    rewrite (proj1 (Hpu p ltac:(set_solver))), (proj1 (Hpu q ltac:(set_solver))). done.
  - eapply StronglySorted_elem; [|exact H6]. unfold askOrder. intros p q Hp Hq.
    rewrite (proj1 (Hpu p ltac:(set_solver))), (proj1 (Hpu q ltac:(set_solver))). done.
  - intros p q Hp Hq. destruct (Hpu p ltac:(set_solver)) as [-> ->].
    destruct (Hpu q ltac:(set_solver)) as [-> ->]. by apply H7.
Qed.
