(* ===== verification/Settle.v ===== *)
(** Settlement and release keep the books of account.

    Under the engine invariant no operation of the ledger overflows and none of
    its "clamp at zero" guards ever fires: [settleTradeLocked] moves exactly the
    cost from the buyer's reserved cash to the seller's available cash and the
    shares the other way, and [releaseOrderLocked] gives an order's lock back to
    its owner.  Both leave the engine's totals alone. *)

From S2P Require Import Prelude Types Router State Ledger Matching Sweep Invariant.
Local Open Scope Z_scope.
Local Open Scope i64_scope.

(** ** Keys *)

Lemma string_length_app (a b : string) :
  String.length (a +:+ b) = (String.length a + String.length b)%nat.
Proof. induction a as [|c a IH]; simpl; [done|]. by rewrite IH. Qed.

Lemma string_app_inj_r (p a b : string) : a +:+ p = b +:+ p → a = b.
Proof.
  revert b. induction a as [|c a IH]; intros [|d b] Heq.
  - done.
  - apply (f_equal String.length) in Heq. rewrite !string_length_app in Heq. simpl in Heq. lia.
  - apply (f_equal String.length) in Heq. rewrite !string_length_app in Heq. simpl in Heq. lia.
  - simpl in Heq. injection Heq as -> Heq. f_equal. by apply IH.
Qed.

(** Within one market, positions of different users are different. *)
Lemma positionKey_user u u' ev oc : positionKey u ev oc = positionKey u' ev oc → u = u'.
Proof. unfold positionKey. apply string_app_inj_r. Qed.

(** ** Two accounts together *)

Section two.
Context (e : Engine).
Hypothesis HA : Accounts e.

Lemma balance_two u v : u ≠ v →
  bal_Available (balanceOf e u) + bal_Reserved (balanceOf e u) +
  (bal_Available (balanceOf e v) + bal_Reserved (balanceOf e v)) ≤ cash e.
Proof.
  intros Hne. pose proof (balance_bound e HA u) as Hu. pose proof (balance_bound e HA v) as Hv.
  destruct (balances e !! u) as [b|] eqn:Eu; [|unfold balanceOf in *; rewrite Eu in *; simpl in *; lia].
  destruct (balances e !! v) as [c|] eqn:Ev; [|unfold balanceOf in *; rewrite Ev in *; simpl in *; lia].
  unfold balanceOf. rewrite Eu, Ev. simpl.
  apply (map_sumZ_two_le (λ b, bal_Available b + bal_Reserved b) (balances e) u v); [|done..].
  intros k d Hk. pose proof (balance_bound e HA k) as Hb. unfold balanceOf in Hb.
  rewrite Hk in Hb. simpl in Hb. lia.
Qed.

Lemma position_two u v : u ≠ v →
  pos_Available (positionOf e u) + pos_Reserved (positionOf e u) +
  (pos_Available (positionOf e v) + pos_Reserved (positionOf e v)) ≤ shares e.
Proof.
  intros Hne. pose proof (position_bound e HA u) as Hu. pose proof (position_bound e HA v) as Hv.
  destruct (positions e !! u) as [b|] eqn:Eu; [|unfold positionOf in *; rewrite Eu in *; simpl in *; lia].
  destruct (positions e !! v) as [c|] eqn:Ev; [|unfold positionOf in *; rewrite Ev in *; simpl in *; lia].
  unfold positionOf. rewrite Eu, Ev. simpl.
  apply (map_sumZ_two_le (λ b, pos_Available b + pos_Reserved b) (positions e) u v); [|done..].
  intros k d Hk. pose proof (position_bound e HA k) as Hb. unfold positionOf in Hb.
  rewrite Hk in Hb. simpl in Hb. lia.
Qed.
End two.

(** ** A trade the engine may settle *)

(** The two orders of the trade [t]: the buying order [b] and the selling
    order [s]. *)
Record parties (e : Engine) (t : Trade) (b s : nat) : Prop := {
  pt_ids : orders e !! t_OrderID t = Some b ∧ orders e !! t_MatchOrderID t = Some s ∨
           orders e !! t_OrderID t = Some s ∧ orders e !! t_MatchOrderID t = Some b;
  pt_buy : o_Side (deref (heap e) b) = SideBuy;
  pt_sell : o_Side (deref (heap e) s) = SideSell;
  pt_buyer : o_UserID (deref (heap e) b) = t_BuyerID t;
  pt_seller : o_UserID (deref (heap e) s) = t_SellerID t;
  pt_event : o_EventID (deref (heap e) s) = t_EventID t;
  pt_outcome : o_Outcome (deref (heap e) s) = t_Outcome t;
  pt_users : t_BuyerID t ≠ t_SellerID t;
  pt_qty : 0 < t_Quantity t;
  pt_price : 0 ≤ t_Price t
}.

Definition trade_ok (e : Engine) (t : Trade) : Prop := ∃ b s, parties e t b s.

(** The lock of the order at [p] goes down by what the trade takes. *)
Definition payLock (t : Trade) (o : Order) : Order :=
  set_LockedFunds (o_LockedFunds o - amount (o_Side o) t) o.

Lemma store_ext p f g h : f (deref h p) = g (deref h p) → store p f h = store p g h.
Proof.
  intros Hfg. apply list_eq. intros i. unfold store. destruct (decide (p = i)) as [->|].
  - rewrite !list_lookup_alter_eq. destruct (h !! i) as [o|] eqn:E; simpl; [|done].
    rewrite (lookup_deref _ _ _ E) in Hfg. by rewrite Hfg.
  - by rewrite !list_lookup_alter_ne.
Qed.

Lemma store_id p f h : f (deref h p) = deref h p → store p f h = h.
Proof.
  intros Hf. rewrite (store_ext p f id) by done. unfold store.
  apply list_eq. intros i. destruct (decide (p = i)) as [->|].
  - rewrite list_lookup_alter_eq. by destruct (h !! i).
  - by rewrite list_lookup_alter_ne.
Qed.

Lemma store_comm p q f g h : p ≠ q → store p f (store q g h) = store q g (store p f h).
Proof.
  intros Hne. apply list_eq. intros i. unfold store.
  destruct (decide (p = i)) as [->|]; destruct (decide (q = i)) as [->|]; try done;
    rewrite ?list_lookup_alter_eq, ?list_lookup_alter_ne, ?list_lookup_alter_eq by done;
    rewrite ?list_lookup_alter_ne by done; done.
Qed.

Lemma due_nonneg id sd tr : 0 < t_Quantity tr → 0 ≤ t_Price tr → 0 ≤ due id sd tr.
Proof. intros. unfold due, amount. repeat case_match; nia. Qed.

Lemma need_nonneg o : order_wf o → 0 ≤ need o.
Proof.
  intros [(?&?&?&?) ? _ _ _ _ Hl]. unfold need. repeat case_match; try lia.
  match goal with H : (_ =s OrderTypeLimit) = true |- _ => apply seqb_eq, Hl in H end. nia.
Qed.

Lemma heap_locks h : (∀ p, (p < length h)%nat → 0 ≤ o_LockedFunds (deref h p)) →
  ∀ o, o ∈ h → 0 ≤ o_LockedFunds o.
Proof.
  intros Hp o [i Hi]%list_elem_of_lookup. rewrite <- (lookup_deref _ _ _ Hi).
  apply Hp. by eapply lookup_lt_Some.
Qed.

(** ** One trade *)

Section settle.
Context (e : Engine) (t : Trade) (ts : list Trade) (b s : nat).
Hypothesis HI : Inv (t :: ts) e.
Hypothesis Hts : Forall (trade_ok e) ts.
Hypothesis HP : parties e t b s.

Let cost : Z := t_Quantity t * t_Price t.
Let kb : string := positionKey (t_BuyerID t) (t_EventID t) (t_Outcome t).
Let ks : string := positionKey (t_SellerID t) (t_EventID t) (t_Outcome t).

Lemma dues_nonneg o : 0 ≤ dues ts o.
Proof.
  apply sumZ_nonneg. intros tr Htr. rewrite Forall_forall in Hts.
  destruct (Hts tr Htr) as (?&?&Hp). apply due_nonneg; apply Hp.
Qed.

Lemma parties_ne : b ≠ s.
Proof. intros ->. pose proof (pt_buy _ _ _ _ HP) as Hb. by rewrite (pt_sell _ _ _ _ HP) in Hb. Qed.

Lemma parties_table : ∃ bi si, orders e !! bi = Some b ∧ orders e !! si = Some s ∧ bi ≠ si ∧
  (t_OrderID t = bi ∧ t_MatchOrderID t = si ∨ t_OrderID t = si ∧ t_MatchOrderID t = bi).
Proof.
  pose proof parties_ne as Hne.
  destruct (pt_ids _ _ _ _ HP) as [[H1 H2]|[H1 H2]]; eexists _, _;
    (split_and!; [done|done| |naive_solver]); congruence.
Qed.

Lemma due_self p : p = b ∨ p = s → due (o_ID (deref (heap e) p)) (o_Side (deref (heap e) p)) t =
  amount (o_Side (deref (heap e) p)) t.
Proof.
  destruct parties_table as (bi & si & Hb & Hs & Hne & Hid).
  pose proof (inv_table _ _ HI _ _ Hb) as (_ & Ib & _). pose proof (inv_table _ _ HI _ _ Hs) as (_ & Is & _).
  unfold due. intros [-> | ->]; rewrite ?Ib, ?Is;
    destruct Hid as [[-> ->]|[-> ->]]; rewrite ?seqb_refl, ?(seqb_ne _ _ Hne), ?(seqb_ne _ _ (not_eq_sym Hne)); lia.
Qed.

Lemma due_other id p : orders e !! id = Some p → p ≠ b → p ≠ s →
  due (o_ID (deref (heap e) p)) (o_Side (deref (heap e) p)) t = 0.
Proof.
  intros Hid Hpb Hps. destruct (inv_table _ _ HI _ _ Hid) as (_ & -> & _).
  destruct parties_table as (bi & si & Hb & Hs & Hne & Hids). unfold due.
  assert (bi ≠ id) by congruence. assert (si ≠ id) by congruence.
  destruct Hids as [[-> ->]|[-> ->]]; rewrite !seqb_ne by done; lia.
Qed.

(** Both orders are allocated and have locked enough for this trade. *)
Lemma parties_cover :
  (b < length (heap e))%nat ∧ (s < length (heap e))%nat ∧
  0 ≤ cost ≤ o_LockedFunds (deref (heap e) b) ∧
  t_Quantity t ≤ o_LockedFunds (deref (heap e) s) ∧
  o_LockedFunds (deref (heap e) b) ≤ bal_Reserved (balanceOf e (t_BuyerID t)) ∧
  o_LockedFunds (deref (heap e) s) ≤ pos_Reserved (positionOf e ks).
Proof.
  destruct parties_table as (bi & si & Hb & Hs & Hne & Hid).
  destruct (inv_table _ _ HI _ _ Hb) as (Lb & Ib & Wb). destruct (inv_table _ _ HI _ _ Hs) as (Ls & Is & Ws).
  pose proof (inv_locks _ _ HI _ _ Hb) as Kb. pose proof (inv_locks _ _ HI _ _ Hs) as Ks.
  change (dues (t :: ts) ?o) with (due (o_ID o) (o_Side o) t + dues ts o) in Kb, Ks.
  rewrite due_self in Kb, Ks by auto.
  pose proof (dues_nonneg (deref (heap e) b)). pose proof (dues_nonneg (deref (heap e) s)).
  pose proof (need_nonneg _ Wb). pose proof (need_nonneg _ Ws).
  pose proof (pt_qty _ _ _ _ HP). pose proof (pt_price _ _ _ _ HP).
  rewrite (pt_buy _ _ _ _ HP) in Kb. rewrite (pt_sell _ _ _ _ HP) in Ks.
  unfold amount in Kb, Ks. simpl in Kb, Ks.
  destruct (lock_le_reserved e (inv_accounts _ _ HI) b Lb) as (_ & Rb & _).
  destruct (lock_le_reserved e (inv_accounts _ _ HI) s Ls) as (_ & _ & Rs).
  specialize (Rb (pt_buy _ _ _ _ HP)). rewrite (pt_buyer _ _ _ _ HP) in Rb.
  assert (pkey (deref (heap e) s) = ks) as Ek.
  { unfold pkey, ks. by rewrite (pt_seller _ _ _ _ HP), (pt_event _ _ _ _ HP), (pt_outcome _ _ _ _ HP). }
  rewrite Ek in Rs.
  assert (o_Side (deref (heap e) s) ≠ SideBuy) as Hsd by (by rewrite (pt_sell _ _ _ _ HP)).
  specialize (Rs Hsd).
  assert (cost = t_Quantity t * t_Price t) by done.
  change ((SideBuy =s SideBuy)) with true in Kb. change (SideSell =s SideBuy) with false in Ks.
  simpl in Kb, Ks. split_and!; try done; nia.
Qed.

Lemma unlockFill_pay id p e' :
  orders e' !! id = Some p → 
  0 ≤ cost ≤ max_int64 → t_Quantity t ≤ max_int64 →
  amount (o_Side (deref (heap e') p)) t ≤ o_LockedFunds (deref (heap e') p) ≤ max_int64 →
  unlockFill cost (t_Quantity t) id e' = with_heap (store p (payLock t)) e'.
Proof.
  intros Hid Hc Hq Ha. unfold unlockFill. rewrite Hid. unfold with_heap. f_equal.
  pose proof (pt_qty _ _ _ _ HP).
  apply store_ext. unfold payLock, amount in *. destruct (_ =s _); rewrite sub64_id, clamp0_id; try i64; done.
Qed.

(** The four account values after the trade. *)
Let bb : Balance := balanceOf e (t_BuyerID t).
Let sb : Balance := balanceOf e (t_SellerID t).
Let bp : Position := positionOf e kb.
Let sp : Position := positionOf e ks.

Definition settled_accounts : Engine :=
  putPosition ks (mkPosition (pos_Available sp) (pos_Reserved sp - t_Quantity t))
    (putBalance (t_SellerID t) (mkBalance (bal_Available sb + cost) (bal_Reserved sb))
      (putPosition kb (mkPosition (pos_Available bp + t_Quantity t) (pos_Reserved bp))
        (putBalance (t_BuyerID t) (mkBalance (bal_Available bb) (bal_Reserved bb - cost)) e))).

Lemma keys_ne : kb ≠ ks.
Proof. intros Heq. apply positionKey_user in Heq. by apply (pt_users _ _ _ _ HP). Qed.

(** Everything the settlement computes is exact. *)
Lemma settle_ranges :
  0 ≤ cost ≤ bal_Reserved bb ∧ bal_Reserved bb ≤ max_int64 ∧ in64 cost ∧
  in64 (bal_Reserved bb - cost) ∧ in64 (bal_Available sb + cost) ∧
  0 < t_Quantity t ≤ pos_Reserved sp ∧ pos_Reserved sp ≤ max_int64 ∧
  in64 (pos_Reserved sp - t_Quantity t) ∧ in64 (pos_Available bp + t_Quantity t).
Proof.
  pose proof parties_cover as (_ & _ & Hc & Hq & Hrb & Hrs). fold bb sp in Hrb, Hrs.
  pose proof (inv_accounts _ _ HI) as HA. pose proof (pt_qty _ _ _ _ HP).
  pose proof (balance_bound e HA (t_BuyerID t)) as B1. pose proof (balance_bound e HA (t_SellerID t)) as B2.
  pose proof (position_bound e HA kb) as P1. pose proof (position_bound e HA ks) as P2.
  pose proof (balance_two e HA _ _ (pt_users _ _ _ _ HP)) as B3.
  pose proof (position_two e HA _ _ keys_ne) as P3.
  pose proof (acc_cash _ HA). pose proof (acc_shares _ HA).
  fold bb sb bp sp in B1, B2, B3, P1, P2, P3. i64.
Qed.

Lemma settle_eq :
  settleTradeLocked t e =
    with_heap (λ h, store s (payLock t) (store b (payLock t) h)) settled_accounts.
Proof.
  pose proof settle_ranges as (Hc & Hrb & Hic & Hi1 & Hi2 & Hq & Hrs & Hi3 & Hi4).
  pose proof keys_ne as Hk. pose proof (pt_users _ _ _ _ HP) as Hu.
  unfold settleTradeLocked. rewrite mul64_id by done. fold cost.
  rewrite (getOrCreateBalance_spec (t_BuyerID t)), putBalance_getOrCreate.
  rewrite (getOrCreatePosition_spec (t_BuyerID t)), putPosition_getOrCreate.
  rewrite (getOrCreateBalance_spec (t_SellerID t)), putBalance_getOrCreate.
  rewrite (getOrCreatePosition_spec (t_SellerID t)), putPosition_getOrCreate.
  fold kb ks bb.
  change (balanceOf (putPosition kb ?p ?e) ?u) with (balanceOf e u).
  change (positionOf (putBalance ?u ?p ?e) ?k) with (positionOf e k).
  rewrite balanceOf_put, decide_False by done. rewrite positionOf_put, decide_False by done.
  change (positionOf (putBalance ?u ?p ?e) ?k) with (positionOf e k). fold sb bp sp.
  rewrite !sub64_id, !add64_id, !clamp0_id by (done || lia). fold settled_accounts.
  pose proof parties_cover as (Lb & Ls & Hcb & Hqs & Hrb' & Hrs').
  pose proof parties_ne as Hne.
  assert (∀ p, amount (o_Side (deref (heap e) p)) t ≤ o_LockedFunds (deref (heap e) p) ≤ max_int64 →
    ∀ q id id', orders e !! id = Some q → orders e !! id' = Some p → p ≠ q →
    amount (o_Side (deref (heap e) q)) t ≤ o_LockedFunds (deref (heap e) q) ≤ max_int64 →
    unlockFill cost (t_Quantity t) id (unlockFill cost (t_Quantity t) id' settled_accounts) =
    with_heap (λ h, store q (payLock t) (store p (payLock t) h)) settled_accounts) as Hun.
  { intros p Hp q id id' Hid Hid' Hpq Hq'.
    rewrite (unlockFill_pay id' p) by (done || i64).
    rewrite (unlockFill_pay id q); [done|done|i64|i64|].
    simpl. rewrite deref_store_ne by done. done. }
  assert (amount (o_Side (deref (heap e) b)) t ≤ o_LockedFunds (deref (heap e) b) ≤ max_int64).
  { rewrite (pt_buy _ _ _ _ HP). unfold amount. rewrite seqb_refl. fold cost. fold bb in Hrb'. lia. }
  assert (amount (o_Side (deref (heap e) s)) t ≤ o_LockedFunds (deref (heap e) s) ≤ max_int64).
  { rewrite (pt_sell _ _ _ _ HP). unfold amount. rewrite seqb_ne by done. fold sp in Hrs'. lia. }
  destruct (pt_ids _ _ _ _ HP) as [[H1 H2]|[H1 H2]].
  - by rewrite (Hun b ltac:(done) s).
  - rewrite (Hun s ltac:(done) b) by done. unfold with_heap. f_equal. by apply store_comm.
Qed.

(** The orders after the trade. *)
Let h' : list Order := heap (settleTradeLocked t e).

Lemma settle_heap_eq : h' = store s (payLock t) (store b (payLock t) (heap e)).
Proof. unfold h'. by rewrite settle_eq. Qed.

Lemma settle_buy : deref h' b = payLock t (deref (heap e) b).
Proof.
  pose proof parties_cover as (Lb & Ls & _). rewrite settle_heap_eq, deref_store_ne by (symmetry; apply parties_ne).
  by apply deref_store_eq.
Qed.

Lemma settle_sell : deref h' s = payLock t (deref (heap e) s).
Proof.
  pose proof parties_cover as (Lb & Ls & _). rewrite settle_heap_eq.
  rewrite deref_store_eq by (by rewrite length_store). by rewrite deref_store_ne by apply parties_ne.
Qed.

Lemma settle_other p : p ≠ b → p ≠ s → deref h' p = deref (heap e) p.
Proof. intros. by rewrite settle_heap_eq, !deref_store_ne. Qed.

Lemma settle_unlocked p : unlocked (deref h' p) = unlocked (deref (heap e) p).
Proof.
  destruct (decide (p = b)) as [->|]; [by rewrite settle_buy|].
  destruct (decide (p = s)) as [->|]; [by rewrite settle_sell|]. by rewrite settle_other.
Qed.

Lemma settle_length : length h' = length (heap e).
Proof. by rewrite settle_heap_eq, !length_store. Qed.

(** What the two updates do to the sums of locks. *)
Lemma settle_lockedCash u :
  lockedCash h' u = lockedCash (heap e) u - (if t_BuyerID t =s u then cost else 0).
Proof.
  pose proof parties_cover as (Lb & Ls & _). pose proof parties_ne as Hne.
  rewrite settle_heap_eq. unfold lockedCash. rewrite !sumZ_store by (by rewrite ?length_store).
  rewrite deref_store_ne by done. unfold lockCash at 2 3 4 5. simpl.
  rewrite (pt_sell _ _ _ _ HP), (pt_buy _ _ _ _ HP), (pt_buyer _ _ _ _ HP). simpl.
  unfold amount. rewrite seqb_refl. fold cost. destruct (_ =s u); simpl; lia.
Qed.

Lemma settle_lockedShares k :
  lockedShares h' k = lockedShares (heap e) k - (if ks =s k then t_Quantity t else 0).
Proof.
  pose proof parties_cover as (Lb & Ls & _). pose proof parties_ne as Hne.
  rewrite settle_heap_eq. unfold lockedShares. rewrite !sumZ_store by (by rewrite ?length_store).
  rewrite deref_store_ne by done. unfold lockShares at 2 3 4 5. simpl.
  rewrite (pt_sell _ _ _ _ HP), (pt_buy _ _ _ _ HP). simpl. unfold pkey; simpl.
  rewrite (pt_seller _ _ _ _ HP), (pt_event _ _ _ _ HP), (pt_outcome _ _ _ _ HP).
  fold ks. change (amount SideSell t) with (t_Quantity t). destruct (ks =s k); simpl; lia.
Qed.

Lemma settle_totals : cash (settleTradeLocked t e) = cash e ∧ shares (settleTradeLocked t e) = shares e.
Proof.
  rewrite settle_eq. unfold settled_accounts.
  change (cash (with_heap ?f ?e)) with (cash e). change (shares (with_heap ?f ?e)) with (shares e).
  change (cash (putPosition ?k ?p ?e)) with (cash e). change (shares (putPosition ks ?p (putBalance ?u ?b ?e)))
    with (shares (putPosition ks p e)).
  rewrite cash_put, shares_put. 
  change (balanceOf (putPosition kb ?p ?e) ?u) with (balanceOf e u).
  rewrite balanceOf_put, decide_False by apply HP. rewrite positionOf_put, decide_False by apply keys_ne.
  change (cash (putPosition ?k ?p ?e)) with (cash e). rewrite shares_put, cash_put.
  change (positionOf (putBalance ?u ?p ?e) ?k) with (positionOf e k).
  change (shares (putBalance ?u ?p ?e)) with (shares e). fold bb sb bp sp. simpl. lia.
Qed.

Lemma settle_balanceOf u :
  balanceOf (settleTradeLocked t e) u =
    if decide (t_SellerID t = u) then mkBalance (bal_Available sb + cost) (bal_Reserved sb)
    else if decide (t_BuyerID t = u) then mkBalance (bal_Available bb) (bal_Reserved bb - cost)
    else balanceOf e u.
Proof.
  rewrite settle_eq. unfold settled_accounts.
  change (balanceOf (with_heap ?f ?e) u) with (balanceOf e u).
  change (balanceOf (putPosition ?k ?p ?e) u) with (balanceOf e u). rewrite balanceOf_put.
  case_decide; [done|].
  change (balanceOf (putPosition ?k ?p ?e) u) with (balanceOf e u). apply balanceOf_put.
Qed.

Lemma settle_positionOf k :
  positionOf (settleTradeLocked t e) k =
    if decide (ks = k) then mkPosition (pos_Available sp) (pos_Reserved sp - t_Quantity t)
    else if decide (kb = k) then mkPosition (pos_Available bp + t_Quantity t) (pos_Reserved bp)
    else positionOf e k.
Proof.
  rewrite settle_eq. unfold settled_accounts.
  change (positionOf (with_heap ?f ?e) k) with (positionOf e k). rewrite positionOf_put.
  case_decide; [done|].
  change (positionOf (putBalance ?u ?p ?e) k) with (positionOf e k). rewrite positionOf_put. done.
Qed.

Lemma settle_Accounts : Accounts (settleTradeLocked t e).
Proof.
  pose proof settle_ranges as (Hc & _ & _ & _ & _ & Hq & _).
  pose proof (inv_accounts _ _ HI) as HA. pose proof settle_totals as [Etc Ets].
  split.
  - intros u. fold h'. rewrite settle_balanceOf, settle_lockedCash.
    destruct (acc_bal _ HA u) as [Ha Hr]. destruct (acc_bal _ HA (t_BuyerID t)) as [Ha' Hr'].
    destruct (acc_bal _ HA (t_SellerID t)) as [Ha'' Hr'']. fold bb sb in Ha', Hr', Ha'', Hr''.
    pose proof (pt_users _ _ _ _ HP).
    case_decide; [|case_decide]; subst; simpl.
    + rewrite seqb_ne by done. lia.
    + rewrite seqb_refl. lia.
    + rewrite seqb_ne by done. lia.
  - intros k. fold h'. rewrite settle_positionOf, settle_lockedShares.
    destruct (acc_pos _ HA k) as [Ha Hr]. destruct (acc_pos _ HA kb) as [Ha' Hr'].
    destruct (acc_pos _ HA ks) as [Ha'' Hr'']. fold bp sp in Ha', Hr', Ha'', Hr''.
    pose proof keys_ne.
    case_decide as E1; [|case_decide as E2]; simpl.
    + rewrite <- E1, seqb_refl. lia.
    + rewrite <- E2, seqb_ne by done. lia.
    + rewrite seqb_ne by done. lia.
  - rewrite Etc. apply HA.
  - rewrite Ets. apply HA.
  - apply heap_locks. fold h'. rewrite settle_length. intros p Hp.
    pose proof parties_cover as (Lb & Ls & Hcb & Hqs & _).
    destruct (decide (p = b)) as [->|]; [|destruct (decide (p = s)) as [->|]].
    + rewrite settle_buy. unfold payLock; simpl. rewrite (pt_buy _ _ _ _ HP).
      change (amount SideBuy t) with cost. lia.
    + rewrite settle_sell. unfold payLock; simpl. rewrite (pt_sell _ _ _ _ HP).
      change (amount SideSell t) with (t_Quantity t). lia.
    + rewrite settle_other by done. eapply (acc_locks _ HA), list_elem_of_lookup_2.
      by apply deref_lookup.
Qed.

Lemma settle_frame :
  markets (settleTradeLocked t e) = markets e ∧ orders (settleTradeLocked t e) = orders e.
Proof. by rewrite settle_eq. Qed.

Lemma settle_Locks : Locks ts (settleTradeLocked t e).
Proof.
  intros id p. rewrite (proj2 settle_frame). intros Hid. fold h'.
  pose proof (settle_unlocked p) as Eu. rewrite (dues_unlocked _ _ _ Eu), (need_unlocked _ _ Eu).
  pose proof (inv_locks _ _ HI _ _ Hid) as HL.
  change (dues (t :: ts) ?o) with (due (o_ID o) (o_Side o) t + dues ts o) in HL.
  destruct (decide (p = b)) as [->|]; [|destruct (decide (p = s)) as [->|]].
  - rewrite due_self in HL by auto. rewrite settle_buy. unfold payLock; simpl. lia.
  - rewrite due_self in HL by auto. rewrite settle_sell. unfold payLock; simpl. lia.
  - rewrite (due_other id) in HL by done. rewrite settle_other by done. lia.
Qed.

Lemma settle_Inv : Inv ts (settleTradeLocked t e).
Proof.
  pose proof settle_frame as [Em Eo]. split.
  - apply settle_Accounts.
  - intros id p Hid. rewrite Eo in Hid. destruct (inv_table _ _ HI _ _ Hid) as (Hl & Hi & Hw).
    fold h'. pose proof (settle_unlocked p) as Eu. rewrite settle_length. split_and!; [done| |].
    + by rewrite (proj1 (unlocked_inv _ _ Eu)).
    + by eapply order_wf_unlocked.
  - apply settle_Locks.
  - intros ev m oc bk. rewrite Em. intros Hm Hb. pose proof (inv_books _ _ HI _ _ _ _ Hm Hb) as Hbk.
    eapply book_ok_unlocked; [|exact Hbk]. intros p Hp. split; [apply settle_unlocked|].
    rewrite Eo. apply elem_of_app in Hp as [Hp|Hp].
    + by apply (bk_bids _ _ _ _ Hbk).
    + by apply (bk_asks _ _ _ _ Hbk).
Qed.
End settle.

(** ** A batch of trades *)

(** Two engines whose orders agree up to their locks, with the same markets and
    order table. *)
Record relocked (e e' : Engine) : Prop := {
  rl_length : length (heap e') = length (heap e);
  rl_heap : ∀ p, unlocked (deref (heap e') p) = unlocked (deref (heap e) p);
  rl_markets : markets e' = markets e;
  rl_orders : orders e' = orders e
}.

#[export] Instance relocked_refl : Reflexive relocked.
Proof. intros e. by split. Qed.
#[export] Instance relocked_trans : Transitive relocked.
Proof. intros a b c [] []. split; intros; etrans; eauto. Qed.

Lemma parties_relocked e e' t b s : relocked e e' → parties e t b s → parties e' t b s.
Proof.
  intros [_ Hh _ Ho] HP.
  destruct (unlocked_inv _ _ (Hh b)) as (_&_&Eub&_&_&Esb&_).
  destruct (unlocked_inv _ _ (Hh s)) as (_&Ees&Eus&_&Eos&Ess&_).
  destruct HP; split; rewrite ?Ho, ?Eub, ?Esb, ?Ees, ?Eus, ?Eos, ?Ess; done.
Qed.

Lemma trades_relocked e e' ts : relocked e e' → Forall (trade_ok e) ts → Forall (trade_ok e') ts.
Proof.
  intros Hr Hts. eapply Forall_impl; [exact Hts|]. intros t (b & s & HP). exists b, s. by eapply parties_relocked.
Qed.

Lemma settle_batch ts : ∀ e,
  Inv ts e → Forall (trade_ok e) ts →
  let e' := foldl (λ e trade, settleTradeLocked trade e) e ts in
  Inv [] e' ∧ cash e' = cash e ∧ shares e' = shares e ∧ relocked e e'.
Proof.
  induction ts as [|t ts IH]; intros e HI Hts; simpl; [done|].
  apply Forall_cons in Hts as [(b & s & HP) Hts].
  pose proof (settle_Inv e t ts b s HI Hts HP) as HI'.
  pose proof (settle_totals e t ts b s HI Hts HP) as [Ec Es].
  assert (relocked e (settleTradeLocked t e)) as Hr.
  { split.
    - by eapply settle_length.
    - intros p. by eapply settle_unlocked.
    - by apply (settle_frame e t ts b s HI Hts HP).
    - by apply (settle_frame e t ts b s HI Hts HP). }
  destruct (IH _ HI' (trades_relocked _ _ _ Hr Hts)) as (H1 & H2 & H3 & H4).
  split_and!; [done|congruence|congruence|by etrans].
Qed.

(** ** Release *)

Section release.
Context (e : Engine) (p : nat).
Hypothesis HA : Accounts e.
Hypothesis Hp : (p < length (heap e))%nat.

Let o : Order := deref (heap e) p.

Lemma release_ranges :
  0 ≤ o_LockedFunds o ∧
  (o_Side o = SideBuy →
     in64 (bal_Available (balanceOf e (o_UserID o)) + o_LockedFunds o) ∧
     0 ≤ bal_Reserved (balanceOf e (o_UserID o)) - o_LockedFunds o ≤ max_int64) ∧
  (o_Side o ≠ SideBuy →
     in64 (pos_Available (positionOf e (pkey o)) + o_LockedFunds o) ∧
     0 ≤ pos_Reserved (positionOf e (pkey o)) - o_LockedFunds o ≤ max_int64).
Proof.
  destruct (lock_le_reserved e HA p Hp) as (H0 & Hb & Hs). fold o in H0, Hb, Hs.
  pose proof (balance_bound e HA (o_UserID o)). pose proof (position_bound e HA (pkey o)).
  pose proof (acc_cash _ HA). pose proof (acc_shares _ HA).
  split_and!; [done| |]; intros Hside; [specialize (Hb Hside)|specialize (Hs Hside)]; i64.
Qed.

(** The released account, and the order with no lock left. *)
Definition release_accounts : Engine :=
  if o_Side o =s SideBuy then
    let b := balanceOf e (o_UserID o) in
    putBalance (o_UserID o)
      (mkBalance (bal_Available b + o_LockedFunds o) (bal_Reserved b - o_LockedFunds o)) e
  else
    let s := positionOf e (pkey o) in
    putPosition (pkey o)
      (mkPosition (pos_Available s + o_LockedFunds o) (pos_Reserved s - o_LockedFunds o)) e.

Lemma release_eq : 0 < o_LockedFunds o →
  releaseOrderLocked p e = with_heap (store p (set_LockedFunds 0)) release_accounts.
Proof.
  intros Hl. destruct release_ranges as (H0 & Hb & Hs). unfold release_accounts.
  destruct (seqb_spec (o_Side o) SideBuy) as [Hside|Hside].
  - destruct (Hb Hside). rewrite release_buy by done. fold o. cbv zeta.
    rewrite add64_id, sub64_id, clamp0_id by i64. done.
  - destruct (Hs Hside). rewrite release_sell by done. fold o. cbv zeta. fold (pkey o).
    rewrite add64_id, sub64_id, clamp0_id by i64. done.
Qed.

Lemma release_heap : heap (releaseOrderLocked p e) = store p (set_LockedFunds 0) (heap e).
Proof.
  destruct release_ranges as (H0 & _). destruct (decide (o_LockedFunds o = 0)) as [E|].
  - rewrite release_nothing by (fold o; lia). rewrite store_id; [done|].
    fold o. rewrite <- E. by destruct o.
  - rewrite release_eq by lia. unfold release_accounts. by destruct (_ =s _).
Qed.

Lemma release_totals : cash (releaseOrderLocked p e) = cash e ∧ shares (releaseOrderLocked p e) = shares e.
Proof.
  destruct release_ranges as (H0 & _). destruct (decide (o_LockedFunds o = 0)) as [E|].
  { by rewrite release_nothing by (fold o; lia). }
  rewrite release_eq by lia. unfold release_accounts.
  change (cash (with_heap ?f ?e)) with (cash e). change (shares (with_heap ?f ?e)) with (shares e).
  destruct (_ =s _); cbv zeta.
  - rewrite cash_put. simpl. split; [lia|done].
  - rewrite shares_put. simpl. split; [done|lia].
Qed.

Lemma release_frame :
  markets (releaseOrderLocked p e) = markets e ∧ orders (releaseOrderLocked p e) = orders e.
Proof.
  destruct release_ranges as (H0 & _). destruct (decide (o_LockedFunds o = 0)) as [E|].
  { by rewrite release_nothing by (fold o; lia). }
  rewrite release_eq by lia. unfold release_accounts. by destruct (_ =s _).
Qed.

Lemma release_relocked : relocked e (releaseOrderLocked p e).
Proof.
  pose proof release_frame as [Hm Ho]. split; [| |done|done].
  - by rewrite release_heap, length_store.
  - intros q. rewrite release_heap. destruct (decide (p = q)) as [<-|].
    + by rewrite deref_store_eq.
    + by rewrite deref_store_ne.
Qed.

Lemma release_Accounts : Accounts (releaseOrderLocked p e).
Proof.
  pose proof release_totals as [Ec Es]. destruct release_ranges as (H0 & Hb & Hs).
  destruct (decide (o_LockedFunds o = 0)) as [E|].
  { by rewrite release_nothing by (fold o; lia). }
  split.
  - intros u. rewrite release_heap, lockedCash_store by done. fold o.
    destruct (acc_bal _ HA u) as [Ha Hr]. rewrite release_eq by lia.
    change (balanceOf (with_heap ?f ?e) u) with (balanceOf e u). unfold release_accounts.
    destruct (seqb_spec (o_Side o) SideBuy) as [Hside|Hside]; cbv zeta; simpl.
    + rewrite balanceOf_put. case_decide as Eu; simpl.
      * rewrite <- Eu in Ha, Hr |- *. rewrite seqb_refl. lia.
      * rewrite seqb_ne by done. lia.
    + change (balanceOf (putPosition ?k ?p ?e) u) with (balanceOf e u). lia.
  - intros k. rewrite release_heap, lockedShares_store by done. fold o.
    destruct (acc_pos _ HA k) as [Ha Hr]. rewrite release_eq by lia.
    change (positionOf (with_heap ?f ?e) k) with (positionOf e k). unfold release_accounts.
    destruct (seqb_spec (o_Side o) SideBuy) as [Hside|Hside]; cbv zeta; simpl.
    + change (positionOf (putBalance ?u ?b ?e) k) with (positionOf e k). lia.
    + rewrite positionOf_put. specialize (Hs Hside). case_decide as Eu; simpl.
      * rewrite <- Eu in Ha, Hr |- *. rewrite seqb_refl. lia.
      * rewrite seqb_ne by done. lia.
  - rewrite Ec. apply HA.
  - rewrite Es. apply HA.
  - rewrite release_heap. apply locks_store; [apply HA|lia].
Qed.
End release.

(** The table and the books do not look at locks. *)
Lemma Table_relocked e e' : relocked e e' → Table e → Table e'.
Proof.
  intros [Hl Hh _ Ho] HT id p Hid. rewrite Ho in Hid. destruct (HT _ _ Hid) as (H1 & H2 & H3).
  rewrite Hl. split_and!; [done| |].
  - by rewrite (proj1 (unlocked_inv _ _ (Hh p))).
  - eapply order_wf_unlocked; [symmetry; apply Hh|done].
Qed.

Lemma Books_relocked e e' : relocked e e' → Books e → Books e'.
Proof.
  intros [Hl Hh Hm Ho] HB ev m oc b. rewrite Hm. intros Em Eb. specialize (HB _ _ _ _ Em Eb).
  eapply book_ok_unlocked; [|exact HB]. intros p Hp. split; [done|]. rewrite Ho.
  apply elem_of_app in Hp as [Hp|Hp]; [by apply (bk_bids _ _ _ _ HB)|by apply (bk_asks _ _ _ _ HB)].
Qed.

(** Releasing an order that needs nothing any more keeps the invariant. *)
Lemma release_Inv e p :
  Inv [] e → (p < length (heap e))%nat →
  (need (deref (heap e) p) = 0 ∨ orders e !! o_ID (deref (heap e) p) ≠ Some p) →
  Inv [] (releaseOrderLocked p e).
Proof.
  intros [HA HT HL HB] Hp Hn. pose proof (release_relocked e p HA Hp) as Hr.
  split; [by apply release_Accounts|by eapply Table_relocked| |by eapply Books_relocked].
  intros id q Hid. rewrite (rl_orders _ _ Hr) in Hid. specialize (HL _ _ Hid).
  rewrite (dues_unlocked _ _ _ (rl_heap _ _ Hr q)), (need_unlocked _ _ (rl_heap _ _ Hr q)).
  rewrite release_heap by done. destruct (decide (p = q)) as [<-|].
  - rewrite deref_store_eq by done. simpl. change (dues [] (deref (heap e) p)) with 0.
    destruct Hn as [Hn|Hn]; [lia|].
    destruct (HT _ _ Hid) as (_ & <- & _). done.
  - by rewrite deref_store_ne.
Qed.
