(* ===== verification/Register.v ===== *)
(** Registering an order keeps the engine invariant.

    [registerOrder] is the first critical section of [handleCreateOrderCore]: it
    reserves the funds or shares and enters the order in the table.  Until the
    second section runs, the order is [pending]: in the table, in no book. *)

From S2P Require Import Prelude Json Types Router State Ledger Matching Sweep Invariant Settle.
From S2P Require Import Events Outbox Depth Commands Handlers.
Local Open Scope Z_scope.
Local Open Scope i64_scope.

(** ** Valid orders *)

(** An order as [handleCreateOrderCore] builds it, after validation. *)
Record placeable (o : Order) : Prop := {
  pl_wf : order_wf o;
  pl_filled : o_FilledQuantity o = 0;
  pl_locked : o_LockedFunds o = 0;
  pl_status : o_Status o = StatusPending
}.

Lemma validate_placeable r id now :
  req_in_range r → validateOrder (newOrder r id now) = None → placeable (newOrder r id now).
Proof.
  intros [Hq Hp]. unfold validateOrder; simpl.
  destruct (_ =s ""); [done|]. destruct (_ =s ""); [done|].
  destruct (Z.leb_spec (r_Quantity r) 0); [done|].
  destruct (seqb_spec (r_Side r) SideBuy); destruct (seqb_spec (r_Side r) SideSell); simpl; try done;
  (destruct (seqb_spec (r_Outcome r) OutcomeYes); destruct (seqb_spec (r_Outcome r) OutcomeNo); simpl; try done);
  (destruct (seqb_spec (r_OrderType r) OrderTypeLimit);
   [|destruct (seqb_spec (r_OrderType r) OrderTypeMarket); [|done]]);
  try (destruct (Z.leb_spec (r_Price r) 0); [done|]); intros _;
  (split; [split|..]; simpl; unfold qty_ok; simpl; auto; try i64; congruence).
Qed.

(** What a buyer pays at most: the cost of a limit order fits an [int64]. *)
Definition cost_in_range (o : Order) : Prop :=
  o_Side o = SideBuy → o_OrderType o = OrderTypeLimit → o_Quantity o * o_Price o ≤ max_int64.

(** ** Pending orders *)

Definition unbooked (e : Engine) (p : nat) : Prop := ∀ ev m oc b,
  markets e !! ev = Some m → Book m oc = Some b → p ∉ Bids b ∧ p ∉ Asks b.

Record pending (e : Engine) (p : nat) : Prop := {
  pd_table : orders e !! o_ID (deref (heap e) p) = Some p;
  pd_unbooked : unbooked e p;
  pd_status : o_Status (deref (heap e) p) = StatusPending ∨
              o_Status (deref (heap e) p) = StatusCanceled;
  pd_filled : o_FilledQuantity (deref (heap e) p) = 0
}.

(** Everything in a book is allocated. *)
Lemma book_alloc e ev oc b p :
  Table e → book_ok e ev oc b → p ∈ Bids b ++ Asks b →
  (p < length (heap e))%nat ∧ orders e !! o_ID (deref (heap e) p) = Some p.
Proof.
  intros HT Hb Hp.
  assert (orders e !! o_ID (deref (heap e) p) = Some p) as Hid.
  { apply elem_of_app in Hp as [Hp|Hp]; [by apply (bk_bids _ _ _ _ Hb)|by apply (bk_asks _ _ _ _ Hb)]. }
  split; [|done]. by destruct (HT _ _ Hid).
Qed.

(** ** Creating empty accounts changes nothing *)

Record same_ledger (e e' : Engine) : Prop := {
  sl_heap : heap e' = heap e;
  sl_markets : markets e' = markets e;
  sl_orders : orders e' = orders e;
  sl_bal : ∀ u, balanceOf e' u = balanceOf e u;
  sl_pos : ∀ k, positionOf e' k = positionOf e k;
  sl_cash : cash e' = cash e;
  sl_shares : shares e' = shares e
}.

#[export] Instance same_ledger_refl : Reflexive same_ledger.
Proof. intros e. by split. Qed.
#[export] Instance same_ledger_trans : Transitive same_ledger.
Proof. intros a b c [] []. split; intros; etrans; eauto. Qed.

Lemma Inv_same_ledger ts e e' : same_ledger e e' → Inv ts e → Inv ts e'.
Proof.
  intros [Hh Hm Ho Hb Hp Hc Hs] [[A1 A2 A3 A4 A5] HT HL HB]. split.
  - split; intros; rewrite ?Hb, ?Hp, ?Hc, ?Hs, ?Hh in *; auto.
  - intros id p. rewrite Hh, Ho. apply HT.
  - intros id p. rewrite Hh, Ho. apply HL.
  - intros ev m oc b. rewrite Hm. intros Em Eb. specialize (HB _ _ _ _ Em Eb).
    eapply book_ok_unlocked; [|exact HB]. rewrite Hh, Ho. intros p Hp'. split; [done|].
    by eapply book_alloc.
Qed.

Lemma same_ledger_balance u e : same_ledger e (snd (getOrCreateBalance u e)).
Proof.
  split; intros; rewrite ?balanceOf_getOrCreate, ?cash_getOrCreate; try done;
    unfold getOrCreateBalance; by destruct (_ !! _).
Qed.

Lemma same_ledger_position u ev oc e : same_ledger e (snd (getOrCreatePosition u ev oc e)).
Proof.
  split; intros; rewrite ?positionOf_getOrCreate, ?shares_getOrCreate; try done;
    unfold getOrCreatePosition; by destruct (_ !! _).
Qed.

(** ** Reservation *)

(** The account of [o]'s owner after [l] was set aside for [o]. *)
Definition set_aside (o : Order) (l : Z) (e : Engine) : Engine :=
  if o_Side o =s SideBuy then
    let b := balanceOf e (o_UserID o) in
    putBalance (o_UserID o) (mkBalance (bal_Available b - l) (bal_Reserved b + l)) e
  else
    let s := positionOf e (pkey o) in
    putPosition (pkey o) (mkPosition (pos_Available s - l) (pos_Reserved s + l)) e.

Section reserve.
Context (e : Engine) (o : Order).
Hypothesis HA : Accounts e.
Hypothesis Ho : placeable o.
Hypothesis Hcost : cost_in_range o.

(** What [reserveOrderLocked] locks. *)
Definition lockFor : Z :=
  if o_Side o =s SideBuy then
    if o_OrderType o =s OrderTypeMarket then bal_Available (balanceOf e (o_UserID o))
    else o_RemainingQuantity o * o_Price o
  else o_RemainingQuantity o.

Definition availableFor : Z :=
  if o_Side o =s SideBuy then bal_Available (balanceOf e (o_UserID o))
  else pos_Available (positionOf e (pkey o)).

Lemma lockFor_range : 0 ≤ lockFor ≤ max_int64 ∧ need o ≤ lockFor.
Proof.
  destruct Ho as [[(?&?&?&?) ? Hs _ Ht Hp Hlim] Hf _ Hst].
  pose proof (balance_bound e HA (o_UserID o)). pose proof (acc_cash _ HA).
  unfold lockFor, need. rewrite Hst. simpl.
  destruct (seqb_spec (o_Side o) SideBuy) as [Es|Es]; [|simpl; i64].
  destruct Ht as [Ht|Ht]; rewrite Ht; simpl.
  - specialize (Hcost Es Ht). specialize (Hlim Ht).
    assert (o_RemainingQuantity o = o_Quantity o) as -> by lia. nia.
  - lia.
Qed.

(** [reserveOrderLocked] refuses when the account holds less than the lock,
    and otherwise moves the lock from available to reserved. *)
Lemma reserve_cases :
  (availableFor < lockFor ∧
   ∃ e', reserveOrderLocked o e =
     (Some (if o_Side o =s SideBuy then ErrInsufficientFunds else ErrInsufficientShares), o, e') ∧
     same_ledger e e') ∨
  (lockFor ≤ availableFor ∧
   reserveOrderLocked o e = (None, set_LockedFunds lockFor o, set_aside o lockFor e)).
Proof.
  pose proof lockFor_range as [[Hl0 Hl1] _].
  pose proof (balance_bound e HA (o_UserID o)). pose proof (acc_cash _ HA).
  pose proof (position_bound e HA (pkey o)). pose proof (acc_shares _ HA).
  unfold availableFor, set_aside.
  destruct (seqb_spec (o_Side o) SideBuy) as [Es|Es].
  - rewrite reserve_buy by done. cbv zeta.
    assert ((if o_OrderType o =s OrderTypeMarket then bal_Available (balanceOf e (o_UserID o))
             else o_RemainingQuantity o *' o_Price o) = lockFor) as ->.
    { unfold lockFor in *. rewrite (proj2 (seqb_eq _ _) Es) in *.
      destruct (_ =s _); [done|]. rewrite mul64_id by i64. done. }
    destruct (Z.ltb_spec (bal_Available (balanceOf e (o_UserID o))) lockFor).
    + left. split; [done|]. eexists _. split; [done|]. apply same_ledger_balance.
    + right. split; [done|]. rewrite sub64_id, add64_id by i64. done.
  - rewrite reserve_sell by done. cbv zeta. fold (pkey o).
    assert (o_RemainingQuantity o = lockFor) as ->.
    { unfold lockFor. by rewrite (seqb_ne _ _ Es). }
    destruct (Z.ltb_spec (pos_Available (positionOf e (pkey o))) lockFor).
    + left. split; [done|]. eexists _. split; [done|]. apply same_ledger_position.
    + right. split; [done|]. rewrite sub64_id, add64_id by i64. done.
Qed.

(** The engine with the order registered. *)
Definition registered : Engine :=
  with_orders (<[o_ID o := length (heap e)]>)
    (with_heap (λ h, h ++ [set_LockedFunds lockFor o]) (set_aside o lockFor e)).

Lemma set_aside_frame l :
  heap (set_aside o l e) = heap e ∧ markets (set_aside o l e) = markets e ∧
  orders (set_aside o l e) = orders e ∧ cash (set_aside o l e) = cash e ∧
  shares (set_aside o l e) = shares e.
Proof.
  unfold set_aside. destruct (_ =s _); cbv zeta; split_and!; try done.
  - rewrite cash_put. simpl. lia.
  - rewrite shares_put. simpl. lia.
Qed.

Lemma registered_frame :
  heap registered = heap e ++ [set_LockedFunds lockFor o] ∧ markets registered = markets e ∧
  orders registered = <[o_ID o := length (heap e)]> (orders e) ∧
  cash registered = cash e ∧ shares registered = shares e.
Proof.
  destruct (set_aside_frame lockFor) as (Hh & Hm & Hor & Hc & Hs).
  unfold registered; simpl. rewrite Hh, Hm, Hor. by split_and!.
Qed.

Lemma registered_Accounts : lockFor ≤ availableFor → Accounts registered.
Proof.
  intros Hav. destruct registered_frame as (Hh & _ & _ & Hc & Hs).
  pose proof lockFor_range as [[Hl0 Hl1] _]. split.
  - intros u. destruct (acc_bal _ HA u) as [Ha Hr]. rewrite Hh. unfold lockedCash in *. rewrite sumZ_app.
    cbn [sumZ]. change (balanceOf registered u) with (balanceOf (set_aside o lockFor e) u).
    unfold set_aside. unfold availableFor in Hav. unfold lockCash at 2; cbn [o_Side o_UserID o_LockedFunds set_LockedFunds].
    destruct (_ =s SideBuy); cbv zeta; cbn [andb].
    + rewrite balanceOf_put. case_decide as E; cbn.
      * rewrite E in *. rewrite seqb_refl. lia.
      * rewrite seqb_ne by done. lia.
    + change (balanceOf (putPosition ?k ?p ?e) u) with (balanceOf e u). lia.
  - intros k. destruct (acc_pos _ HA k) as [Ha Hr]. rewrite Hh. unfold lockedShares in *. rewrite sumZ_app.
    cbn [sumZ]. change (positionOf registered k) with (positionOf (set_aside o lockFor e) k).
    unfold set_aside. unfold availableFor in Hav. unfold lockShares at 2; cbn [o_Side o_LockedFunds set_LockedFunds].
    change (pkey (set_LockedFunds lockFor o)) with (pkey o).
    destruct (_ =s SideBuy); cbv zeta; cbn [andb negb].
    + change (positionOf (putBalance ?u ?p ?e) k) with (positionOf e k). lia.
    + rewrite positionOf_put. case_decide as E; cbn.
      * rewrite E in *. rewrite seqb_refl. lia.
      * rewrite seqb_ne by done. lia.
  - rewrite Hc. apply HA.
  - rewrite Hs. apply HA.
  - rewrite Hh. intros x [Hx| ->%list_elem_of_singleton]%elem_of_app; [by apply (acc_locks _ HA)|].
    simpl. lia.
Qed.
End reserve.

(** ** The section *)

Section register.
Context (e : Engine) (o : Order).
Hypothesis HI : Inv [] e.
Hypothesis Ho : placeable o.
Hypothesis Hcost : cost_in_range o.

Lemma registered_Inv :
  orders e !! o_ID o = None → lockFor e o ≤ availableFor e o →
  Inv [] (registered e o) ∧ pending (registered e o) (length (heap e)).
Proof.
  intros Hnew Hav. destruct HI as [HA HT HL HB].
  destruct (registered_frame e o) as (Hh & Hm & Hor & _).
  pose proof (lockFor_range e o HA Ho Hcost) as [[Hl0 Hl1] Hneed].
  set (lk := lockFor e o) in *.
  assert (∀ id p, orders (registered e o) !! id = Some p →
    (id = o_ID o ∧ p = length (heap e) ∧ deref (heap (registered e o)) p = set_LockedFunds lk o) ∨
    (id ≠ o_ID o ∧ orders e !! id = Some p ∧ deref (heap (registered e o)) p = deref (heap e) p)) as Hcase.
  { intros id p. rewrite Hor, Hh. intros [[<- <-]|[Hne Hid]]%lookup_insert_Some.
    - left. by rewrite deref_app_r.
    - right. split_and!; [done|done|]. apply deref_app_l. by apply (HT _ _ Hid). }
  split; [split|].
  - by apply registered_Accounts.
  - intros id p [(-> & -> & Ed)|(Hne & Hid & Ed)]%Hcase; rewrite Ed, Hh, length_app; simpl.
    + split_and!; [lia|done|]. eapply order_wf_unlocked; [|apply Ho]. done.
    + destruct (HT _ _ Hid) as (? & ? & ?). split_and!; [lia|done|done].
  - intros id p [(-> & -> & Ed)|(Hne & Hid & Ed)]%Hcase; rewrite Ed.
    + change (dues [] (set_LockedFunds lk o)) with 0. change (need (set_LockedFunds lk o)) with (need o).
      simpl. lia.
    + by apply (HL _ _ Hid).
  - intros ev m oc b. rewrite Hm. intros Em Eb. specialize (HB _ _ _ _ Em Eb).
    eapply book_ok_unlocked; [|exact HB]. intros p Hp. destruct (book_alloc _ _ _ _ _ HT HB Hp) as [Hlt Hid].
    rewrite Hh, Hor, deref_app_l by done. split; [done|]. rewrite lookup_insert_ne; [done|].
    intros E. rewrite <- E in Hid. congruence.
  - assert (deref (heap (registered e o)) (length (heap e)) = set_LockedFunds lk o) as Ed.
    { rewrite Hh. apply deref_app_r. }
    split; rewrite ?Ed.
    + rewrite Hor. apply lookup_insert_eq.
    + intros ev m oc b. rewrite Hm. intros Em Eb. specialize (HB _ _ _ _ Em Eb).
      split; intros Hin; destruct (book_alloc e ev oc b (length (heap e)) HT HB); [set_solver|lia|set_solver|lia].
    + left. apply Ho.
    + apply Ho.
Qed.

(** What [registerOrder] does, case by case. *)
Lemma registerOrder_cases :
  (∃ p, orders e !! o_ID o = Some p ∧
        registerOrder o e = (RegExisting (deref (heap e) p), e)) ∨
  (orders e !! o_ID o = None ∧ ∃ err e', registerOrder o e = (RegFailed err, e') ∧ same_ledger e e') ∨
  (orders e !! o_ID o = None ∧ lockFor e o ≤ availableFor e o ∧ is_Some (markets e !! o_EventID o) ∧
   registerOrder o e = (RegOK (length (heap e)), registered e o)).
Proof.
  pose proof (inv_accounts _ _ HI) as HA. unfold registerOrder.
  destruct (orders e !! o_ID o) as [p|] eqn:Eo; [left; by exists p|right].
  destruct (markets e !! o_EventID o) as [m|] eqn:Em; [|left; split; [done|]; by eexists _, _].
  destruct (reserve_cases e o HA Ho Hcost) as [(_ & e' & -> & Hs)|(Hav & ->)].
  - left. split; [done|]. by eexists _, e'.
  - right. split_and!; [done|done|done|]. unfold registered.
    rewrite (proj1 (set_aside_frame e o (lockFor e o))). done.
Qed.
End register.
