(* ===== verification/Match.v ===== *)
(** Matching keeps the engine invariant.

    The critical section of [matchOrder], taken apart: the sweep of the opposite
    side, the taker's final status, its entry into the book, the settlement of
    the trades and the release of what a finished order still holds. *)

From S2P Require Import Prelude Json Types Router State Ledger Matching Sweep Invariant Settle.
From S2P Require Import Events Outbox Depth Commands Handlers Register.
Local Open Scope Z_scope.
Local Open Scope i64_scope.

(** ** One side of a book *)

Definition priceOrder (s : string) (h : list Order) : relation nat :=
  if s =s SideBuy then bidOrder h else askOrder h.

Record side_ok (e : Engine) (ev oc s : string) (l : list nat) : Prop := {
  so_rests : ∀ p, p ∈ l → rests e ev oc s p;
  so_nodup : NoDup l;
  so_sorted : StronglySorted (priceOrder s (heap e)) l
}.

Lemma book_ok_sides e ev oc b :
  book_ok e ev oc b ↔
  side_ok e ev oc SideBuy (Bids b) ∧ side_ok e ev oc SideSell (Asks b) ∧ uncrossed (heap e) b.
Proof.
  split.
  - intros []. split_and!; [by split|by split|done].
  - intros ([] & [] & ?). by split.
Qed.

Lemma priceOrder_price s h h' p q :
  o_Price (deref h' p) = o_Price (deref h p) → o_Price (deref h' q) = o_Price (deref h q) →
  priceOrder s h p q → priceOrder s h' p q.
Proof.
  intros Ep Eq. unfold priceOrder, bidOrder, askOrder. destruct (_ =s _); by rewrite Ep, Eq.
Qed.

(** The side keeps resting when some of its orders were filled up and left. *)
Lemma side_ok_keep e e' ev oc s l keep :
  side_ok e ev oc s l → sublist keep l →
  (∀ p, p ∈ keep → static (deref (heap e') p) = static (deref (heap e) p) ∧
     resting_ok (deref (heap e') p)) →
  orders e' = orders e → side_ok e' ev oc s keep.
Proof.
  intros [Hr Hn Hs] Hsub Hk Ho.
  assert (∀ p, p ∈ keep → p ∈ l) as Hin.
  { intros p Hp. by eapply elem_of_sublist. }
  split.
  - intros p Hp. destruct (Hr p (Hin p Hp)). destruct (Hk p Hp) as [Hst (_ & Hq & Hl)].
    apply static_inv in Hst as (Ei&Ee&_&Et&Eo&Es&_).
    split; by rewrite ?Ei, ?Ee, ?Et, ?Eo, ?Es, ?Ho.
  - by eapply sublist_NoDup.
  - apply (StronglySorted_elem (priceOrder s (heap e))); [|by eapply StronglySorted_sublist].
    intros p q Hp Hq. apply priceOrder_price; by apply static_inv, Hk.
Qed.

(** Inserting an order by price keeps a side sorted, and puts it behind the
    orders of the same price. *)
Definition sideSort (s : string) (h : list Order) (l : list nat) : list nat :=
  if s =s SideBuy then stable_sort (λ i j, o_Price (deref h j) <? o_Price (deref h i)) l
  else stable_sort (λ i j, o_Price (deref h i) <? o_Price (deref h j)) l.

Lemma sideSort_Permutation s h l : sideSort s h l ≡ₚ l.
Proof. unfold sideSort. destruct (_ =s _); apply stable_sort_Permutation. Qed.

Lemma sideSort_sorted s h l : StronglySorted (priceOrder s h) (sideSort s h l).
Proof.
  unfold sideSort, priceOrder. destruct (_ =s _).
  - eapply StronglySorted_elem; [|apply stable_sort_sorted]; [|intros; lia..].
    unfold not_after, bidOrder. intros. lia.
  - eapply StronglySorted_elem; [|apply stable_sort_sorted]; [|intros; lia..].
    unfold not_after, askOrder. intros. lia.
Qed.

Lemma side_ok_add e ev oc s l p :
  side_ok e ev oc s l → rests e ev oc s p → p ∉ l → side_ok e ev oc s (sideSort s (heap e) (l ++ [p])).
Proof.
  intros [Hr Hn _] Hp Hnp. split.
  - intros q. rewrite sideSort_Permutation. intros [Hq| ->%list_elem_of_singleton]%elem_of_app; auto.
  - rewrite sideSort_Permutation. apply NoDup_app. split_and!; [done| |apply NoDup_singleton].
    intros q Hq ->%list_elem_of_singleton. done.
  - apply sideSort_sorted.
Qed.

Lemma addToBook_eq h b p :
  o_Side (deref h p) = SideBuy ∨ o_Side (deref h p) = SideSell →
  addToBook h b p =
    if o_Side (deref h p) =s SideBuy
    then mkBook (sideSort SideBuy h (Bids b ++ [p])) (Asks b)
    else mkBook (Bids b) (sideSort SideSell h (Asks b ++ [p])).
Proof. intros [E|E]; unfold addToBook; rewrite E; done. Qed.

Lemma order_wf_static a c : static c = static a → qty_ok c → order_wf a → order_wf c.
Proof.
  intros (_&_&_&Et&Eo&Es&Eq&Ep&_)%static_inv Hq [_ H0 Hs Ho Ht Hp Hl].
  split; rewrite ?Eq, ?Es, ?Eo, ?Et, ?Ep; done.
Qed.

Lemma dues_static ts a c : static a = static c → dues ts a = dues ts c.
Proof. intros (Ei&_&_&_&_&Es&_)%static_inv. unfold dues. by rewrite Ei, Es. Qed.

(** ** The section as one expression *)

Definition finalStatus (o : Order) : string :=
  if o_RemainingQuantity o =? 0 then StatusFilled
  else if o_OrderType o =s OrderTypeLimit then
    if 0 <? o_FilledQuantity o then StatusPartial else StatusPending
  else StatusCanceled.

Definition ownSide (o : Order) (b : OrderBook) : list nat :=
  if o_Side o =s SideBuy then Bids b else Asks b.

(** The taker rests with what is left of it. *)
Definition enters (o : Order) : bool :=
  negb (o_RemainingQuantity o =? 0) && (o_OrderType o =s OrderTypeLimit).

Definition matchedHeap (p : nat) (h : list Order) : list Order :=
  store p (set_Status (finalStatus (deref h p))) h.

Definition matchedBook (p : nat) (h : list Order) (b : OrderBook) : OrderBook :=
  if enters (deref h p) then addToBook (matchedHeap p h) b p else b.

Definition matchedEngine (p : nat) (m : Market) (h : list Order) (b : OrderBook) (e : Engine) : Engine :=
  let o := deref h p in
  with_markets (<[o_EventID o := set_Book (o_Outcome o) (matchedBook p h b) m]>)
    (with_heap (λ _, matchedHeap p h) e).

Definition releaseDone (p : nat) (e : Engine) : Engine :=
  let st := o_Status (deref (heap e) p) in
  if (st =s StatusFilled) || (st =s StatusCanceled) then releaseOrderLocked p e else e.

Section matching.
Context `{Environment}.

Lemma matchOrderLocked_eq p e m b t h' keep trs t' :
  let o := deref (heap e) p in
  o_Status o = StatusPending →
  markets e !! o_EventID o = Some m → Book m (o_Outcome o) = Some b →
  sweepable p (heap e) (oppSide o b) →
  sweep p (heap e) (oppSide o b) t = (h', keep, trs, t') →
  o_OrderType (deref h' p) = OrderTypeLimit ∨ o_OrderType (deref h' p) = OrderTypeMarket →
  0 ≤ o_FilledQuantity (deref h' p) →
  matchOrderLocked p e t =
    Some (trs,
      releaseDone p (foldl (λ e trade, settleTradeLocked trade e)
        (matchedEngine p m h' (withOpp o keep b) e) trs), t').
Proof.
  intros o Hst Hm Hb Hs Hsw Hty Hf. unfold matchOrderLocked. fold o. rewrite Hst, Hm, Hb.
  change (StatusPending =s StatusCanceled) with false. cbv iota.
  rewrite matchAgainstBook_eq by done. fold o. rewrite Hsw.
  unfold releaseDone, matchedEngine, matchedBook, matchedHeap, finalStatus, enters. cbv zeta.
  destruct (o_RemainingQuantity (deref h' p) =? 0); [done|].
  destruct Hty as [-> | ->]; simpl; destruct (0 <? o_FilledQuantity (deref h' p)); done.
Qed.
End matching.

(** ** The matching problem of a pending order *)

Section matched.
Context `{Environment}.
Context (e : Engine) (p : nat) (m : Market) (b : OrderBook) (t : nat).

Let o : Order := deref (heap e) p.
Let l : list nat := oppSide o b.

Hypothesis HI : Inv [] e.
Hypothesis HP : pending e p.
Hypothesis Hst : o_Status o = StatusPending.
Hypothesis Hm : markets e !! o_EventID o = Some m.
Hypothesis Hb : Book m (o_Outcome o) = Some b.

Lemma taker_table : (p < length (heap e))%nat ∧ order_wf o.
Proof. destruct (inv_table _ _ HI _ _ (pd_table _ _ HP)) as (?&_&?). done. Qed.

Lemma taker_side : o_Side o = SideBuy ∨ o_Side o = SideSell.
Proof. apply taker_table. Qed.

Definition oppositeSide : string := if o_Side o =s SideBuy then SideSell else SideBuy.

Lemma old_book : book_ok e (o_EventID o) (o_Outcome o) b.
Proof. by eapply (inv_books _ _ HI). Qed.

Lemma opp_ok : side_ok e (o_EventID o) (o_Outcome o) oppositeSide l.
Proof.
  pose proof (proj1 (book_ok_sides _ _ _ _) old_book) as (Hbid & Hask & _).
  unfold oppositeSide, l, oppSide. by destruct (_ =s _).
Qed.

Lemma own_ok : side_ok e (o_EventID o) (o_Outcome o) (o_Side o) (ownSide o b).
Proof.
  pose proof (proj1 (book_ok_sides _ _ _ _) old_book) as (Hbid & Hask & _).
  unfold ownSide. destruct taker_side as [-> | ->]; done.
Qed.

Lemma opp_not_own : oppositeSide ≠ o_Side o.
Proof. unfold oppositeSide. destruct taker_side as [-> | ->]; done. Qed.

Lemma taker_not_opp : p ∉ l.
Proof.
  destruct (pd_unbooked _ _ HP _ _ _ _ Hm Hb). unfold l, oppSide. by destruct (_ =s _).
Qed.

Lemma taker_not_own : p ∉ ownSide o b.
Proof.
  destruct (pd_unbooked _ _ HP _ _ _ _ Hm Hb). unfold ownSide. by destruct (_ =s _).
Qed.

Lemma maker_table q : q ∈ l → (q < length (heap e))%nat ∧ order_wf (deref (heap e) q) ∧
  rests e (o_EventID o) (o_Outcome o) oppositeSide q.
Proof.
  intros Hq. pose proof (so_rests _ _ _ _ _ opp_ok q Hq) as Hr.
  destruct (inv_table _ _ HI _ _ (rs_table _ _ _ _ _ Hr)) as (?&_&?). done.
Qed.

Lemma match_sweepable : sweepable p (heap e) l.
Proof.
  destruct taker_table as [Hlen Hwf]. split; [done|apply Hwf|apply taker_not_opp|apply opp_ok| |].
  - intros q Hq. by apply maker_table.
  - intros q Hq. destruct (maker_table q Hq) as (_ & Hw & Hr).
    split_and!; [apply Hw|apply Hr|apply Hr].
Qed.

(** Ids tell the orders of the table apart. *)
Lemma id_inj q r : orders e !! o_ID (deref (heap e) q) = Some q →
  orders e !! o_ID (deref (heap e) r) = Some r → o_ID (deref (heap e) q) = o_ID (deref (heap e) r) → q = r.
Proof. congruence. Qed.

Lemma maker_ids_nodup : NoDup ((λ r, o_ID (deref (heap e) r)) <$> l).
Proof.
  apply NoDup_fmap_2_strong; [|apply opp_ok]. intros q r Hq Hr.
  apply id_inj; by eapply rs_table, (so_rests _ _ _ _ _ opp_ok).
Qed.

Lemma maker_id_ne q : q ∈ l → o_ID (deref (heap e) q) ≠ o_ID o.
Proof.
  intros Hq Heq. apply taker_not_opp.
  rewrite <- (id_inj q p); [done| |apply (pd_table _ _ HP)|done].
  apply (rs_table _ _ _ _ _ (so_rests _ _ _ _ _ opp_ok _ Hq)).
Qed.

(** ** After the sweep *)

Context (h' : list Order) (keep : list nat) (trs : list Trade) (t' : nat).
Hypothesis Hsw : sweep p (heap e) l t = (h', keep, trs, t').

Let h2 : list Order := matchedHeap p h'.

Lemma sweep_length : length h' = length (heap e).
Proof. by apply (sweep_frame p l (heap e) t h' keep trs t' match_sweepable Hsw). Qed.

Lemma h2_length : length h2 = length (heap e).
Proof. unfold h2, matchedHeap. by rewrite length_store, sweep_length. Qed.

Lemma h2_taker : deref h2 p = set_Status (finalStatus (deref h' p)) (deref h' p).
Proof. unfold h2, matchedHeap. apply deref_store_eq. rewrite sweep_length. apply taker_table. Qed.

Lemma h2_ne q : q ≠ p → deref h2 q = deref h' q.
Proof. intros. unfold h2, matchedHeap. by rewrite deref_store_ne. Qed.

Lemma h2_static q : static (deref h2 q) = static (deref (heap e) q).
Proof.
  destruct (sweep_frame p l (heap e) t h' keep trs t' match_sweepable Hsw) as (_ & Hs & _).
  rewrite <- Hs. destruct (decide (q = p)) as [->|]; [by rewrite h2_taker|by rewrite h2_ne].
Qed.

Lemma h2_other q : q ≠ p → q ∉ l → deref h2 q = deref (heap e) q.
Proof.
  intros. rewrite h2_ne by done.
  by apply (sweep_frame p l (heap e) t h' keep trs t' match_sweepable Hsw).
Qed.

Lemma h2_keep q : q ∈ keep → resting_ok (deref h2 q) ∧ q ∈ l.
Proof.
  intros Hq. destruct (sweep_keep p l (heap e) t h' keep trs t' match_sweepable Hsw) as (Hsub & Hk & _).
  assert (q ∈ l) by (by eapply elem_of_sublist). split; [|done].
  rewrite h2_ne by (intros ->; by apply taker_not_opp). by apply Hk.
Qed.

(** A maker is still in good shape: live, or filled. *)
Lemma h2_maker q : q ∈ l → qty_ok (deref h2 q) ∧
  (o_Status (deref h2 q) =s StatusCanceled) = false ∧ (o_Status (deref h2 q) =s StatusRejected) = false.
Proof.
  intros Hq. destruct (sweep_keep p l (heap e) t h' keep trs t' match_sweepable Hsw) as (Hsub & Hk & Hg).
  destruct (decide (q ∈ keep)) as [Hin|Hnin].
  - destruct (proj1 (h2_keep q Hin)) as (Hqty & _ & Hl). split; [done|].
    unfold live_status in Hl. apply orb_true_iff in Hl as [E|E]; apply seqb_eq in E; by rewrite E.
  - rewrite h2_ne by (intros ->; by apply taker_not_opp).
    destruct (Hg q Hq Hnin) as (_ & Es & Hqty). by rewrite Es.
Qed.

Lemma h2_taker_qty : qty_ok (deref h2 p).
Proof.
  rewrite h2_taker.
  by destruct (sweep_frame p l (heap e) t h' keep trs t' match_sweepable Hsw) as (_ & _ & _ & _ & Hq).
Qed.

Lemma h2_wf id q : orders e !! id = Some q → order_wf (deref h2 q).
Proof.
  intros Hid. destruct (inv_table _ _ HI _ _ Hid) as (_ & _ & Hw).
  eapply order_wf_static; [apply h2_static| |done].
  destruct (decide (q = p)) as [->|]; [apply h2_taker_qty|].
  destruct (decide (q ∈ l)); [by apply h2_maker|]. rewrite h2_other by done. apply Hw.
Qed.

(** ** What the trades take *)

Lemma trade_facts tr : tr ∈ trs → ∃ r n t0, r ∈ l ∧ 0 < n ∧
  eligible o (deref (heap e) r) = true ∧ tr = buildTrade o (deref (heap e) r) n t0.
Proof.
  pose proof (sweep_trades p l (heap e) t h' keep trs t' match_sweepable Hsw) as Htr.
  rewrite Forall_forall in Htr. intros Hin. destruct (Htr tr Hin) as (r & n & t0 & ? & ? & ? & ? & ?).
  exists r, n, t0. split_and!; [done|lia|done|done].
Qed.

Lemma dues_taker : dues trs (deref h2 p) = sumZ (amount (o_Side o)) trs.
Proof.
  rewrite (dues_static _ _ _ (h2_static p)). fold o. apply sumZ_ext. intros tr Hin.
  destruct (trade_facts tr Hin) as (r & n & t0 & Hr & _ & _ & ->).
  unfold due; simpl. rewrite seqb_refl, seqb_ne by (by apply maker_id_ne). lia.
Qed.

(** What one share costs the maker [q]. *)
Definition unitOf (q : nat) : Z :=
  if oppositeSide =s SideBuy then o_Price (deref (heap e) q) else 1.

Lemma dues_maker q : q ∈ l →
  dues trs (deref h2 q) = unitOf q * sumZ (makerQty (o_ID (deref (heap e) q))) trs.
Proof.
  intros Hq. rewrite (dues_static _ _ _ (h2_static q)), <- sumZ_mul_l. apply sumZ_ext. intros tr Hin.
  destruct (trade_facts tr Hin) as (r & n & t0 & Hr & _ & _ & ->).
  destruct (maker_table q Hq) as (_ & _ & Hrq). unfold due, makerQty; simpl.
  rewrite (seqb_ne (o_ID o)) by (apply not_eq_sym; by apply maker_id_ne).
  destruct (seqb_spec (o_ID (deref (heap e) r)) (o_ID (deref (heap e) q))) as [Eid|]; [|lia].
  assert (r = q) as ->.
  { apply id_inj; [by apply (maker_table r Hr)|apply Hrq|done]. }
  unfold amount, unitOf. rewrite (rs_side _ _ _ _ _ Hrq). destruct (_ =s _); simpl; lia.
Qed.

Lemma dues_other id q : orders e !! id = Some q → q ≠ p → q ∉ l → dues trs (deref h2 q) = 0.
Proof.
  intros Hid Hqp Hql. destruct (inv_table _ _ HI _ _ Hid) as (_ & Eid & _).
  rewrite (dues_static _ _ _ (h2_static q)). apply sumZ_zero. intros tr Hin.
  destruct (trade_facts tr Hin) as (r & n & t0 & Hr & _ & _ & ->). unfold due; simpl.
  rewrite !seqb_ne; [done| |]; rewrite Eid; intros E.
  - destruct (maker_table r Hr) as (_ & _ & Hrr). rewrite <- E, (rs_table _ _ _ _ _ Hrr) in Hid.
    simplify_eq.
  - rewrite <- E in Hid. unfold o in Hid. rewrite (pd_table _ _ HP) in Hid. simplify_eq.
Qed.

Lemma lock_static q : o_LockedFunds (deref h2 q) = o_LockedFunds (deref (heap e) q).
Proof. by apply static_inv, h2_static. Qed.

(** ** The makers' locks cover their trades *)

Lemma maker_cover q : q ∈ l → dues trs (deref h2 q) + need (deref h2 q) ≤ o_LockedFunds (deref h2 q).
Proof.
  intros Hq. rewrite lock_static, dues_maker by done. destruct (maker_table q Hq) as (Hlen & Hwf & Hr).
  pose proof (inv_locks _ _ HI _ _ (rs_table _ _ _ _ _ Hr)) as HL.
  change (dues [] (deref (heap e) q)) with 0 in HL.
  pose proof (sweep_maker_qty p l (heap e) t h' keep trs t' match_sweepable Hsw maker_ids_nodup q Hq) as Hqty.
  destruct (h2_maker q Hq) as (_ & Hc & Hrj).
  destruct (static_inv _ _ (h2_static q)) as (_&_&_&Et&_&Es&_&Ep&_).
  pose proof (rs_live _ _ _ _ _ Hr) as Hlive.
  assert ((o_Status (deref (heap e) q) =s StatusCanceled) || (o_Status (deref (heap e) q) =s StatusRejected) = false) as Hns.
  { unfold live_status in Hlive. apply orb_true_iff in Hlive as [E|E]; apply seqb_eq in E; by rewrite E. }
  unfold need in *. rewrite Hc, Hrj, Es, Et, Ep. rewrite Hns in HL. simpl in *.
  rewrite (rs_side _ _ _ _ _ Hr), (rs_type _ _ _ _ _ Hr) in *. unfold unitOf.
  rewrite h2_ne by (intros ->; by apply taker_not_opp).
  simpl in HL. change (OrderTypeLimit =s OrderTypeLimit) with true in *. cbv iota in *.
  destruct (oppositeSide =s SideBuy); lia.
Qed.

(** ** The book after the sweep *)

Let b1 : OrderBook := withOpp o keep b.
Let b2 : OrderBook := matchedBook p h' b1.
Let e1 : Engine := matchedEngine p m h' b1 e.

Lemma h'_static : static (deref h' p) = static o.
Proof. by apply (sweep_frame p l (heap e) t h' keep trs t' match_sweepable Hsw). Qed.

Lemma e1_markets : markets e1 = <[o_EventID o := set_Book (o_Outcome o) b2 m]> (markets e).
Proof.
  destruct (static_inv _ _ h'_static) as (_&Ee&_&_&Eo&_).
  unfold e1, matchedEngine; simpl. by rewrite Ee, Eo.
Qed.

Lemma sides_withOpp : ownSide o b1 = ownSide o b ∧ oppSide o b1 = keep.
Proof. unfold b1, withOpp, ownSide, oppSide. by destruct (_ =s _). Qed.

Lemma own_unchanged q : q ∈ ownSide o b → deref h2 q = deref (heap e) q.
Proof.
  intros Hq. apply h2_other.
  - intros ->. by apply taker_not_own.
  - intros Hl. destruct (maker_table q Hl) as (_ & _ & Hr). apply opp_not_own.
    rewrite <- (rs_side _ _ _ _ _ Hr). apply (so_rests _ _ _ _ _ own_ok _ Hq).
Qed.

Lemma rests_resting ev oc s q : rests e ev oc s q → resting_ok (deref (heap e) q).
Proof.
  intros Hr. destruct (inv_table _ _ HI _ _ (rs_table _ _ _ _ _ Hr)) as (_ & _ & Hw).
  split_and!; [apply Hw|apply Hr|apply Hr].
Qed.

Lemma own_after : side_ok e1 (o_EventID o) (o_Outcome o) (o_Side o) (ownSide o b).
Proof.
  eapply side_ok_keep; [apply own_ok|reflexivity| |done]. intros q Hq. split; [apply h2_static|].
  change (heap e1) with h2. rewrite own_unchanged by done.
  by eapply rests_resting, (so_rests _ _ _ _ _ own_ok).
Qed.

Lemma opp_after : side_ok e1 (o_EventID o) (o_Outcome o) oppositeSide keep.
Proof.
  eapply side_ok_keep; [apply opp_ok| | |done].
  - by apply (sweep_keep p l (heap e) t h' keep trs t' match_sweepable Hsw).
  - intros q Hq. split; [apply h2_static|by apply h2_keep].
Qed.

(** Whoever is left on the other side does not meet the taker. *)
Lemma left_uncrossed q : q ∈ keep → enters (deref h' p) = true →
  o_UserID (deref (heap e) q) ≠ o_UserID o →
  if o_Side o =s SideBuy then o_Price o < o_Price (deref (heap e) q)
  else o_Price (deref (heap e) q) < o_Price o.
Proof.
  intros Hq [Hr Ht]%andb_true_iff Hu.
  destruct (static_inv _ _ h'_static) as (_&_&_&Et&_). rewrite Et in Ht. apply seqb_eq in Ht.
  pose proof h2_taker_qty as (_ & Hr0 & _). rewrite h2_taker in Hr0. simpl in Hr0.
  assert (0 < o_RemainingQuantity (deref h' p)) as Hpos by lia.
  pose proof (sweep_uncrossed p l (heap e) t h' keep trs t' match_sweepable Hsw Hpos q Hq) as He. fold o in He.
  destruct (maker_table q (proj2 (h2_keep q Hq))) as (_ & _ & Hrq).
  unfold eligible, canMatch in He. rewrite (seqb_ne _ _ Hu), Ht, (rs_outcome _ _ _ _ _ Hrq), seqb_refl in He.
  simpl in He. destruct taker_side as [Es|Es]; rewrite Es in *; simpl in He; simpl; lia.
Qed.

Lemma h2_price_user q : o_Price (deref h2 q) = o_Price (deref (heap e) q) ∧
  o_UserID (deref h2 q) = o_UserID (deref (heap e) q).
Proof. destruct (static_inv _ _ (h2_static q)) as (_&_&Eu&_&_&_&_&Ep&_). done. Qed.

Lemma b1_uncrossed : uncrossed h2 b1.
Proof.
  pose proof (bk_uncrossed _ _ _ _ old_book) as Hu.
  assert (∀ q, q ∈ keep → q ∈ l) as Hk by (intros q Hq; by apply h2_keep).
  intros q r. unfold b1, withOpp, l, oppSide in *.
  destruct (h2_price_user q) as [-> ->]. destruct (h2_price_user r) as [-> ->].
  destruct (_ =s _); simpl; intros; apply Hu; auto.
Qed.

Lemma taker_rests : enters (deref h' p) = true → rests e1 (o_EventID o) (o_Outcome o) (o_Side o) p.
Proof.
  intros He. pose proof He as [Hr Ht]%andb_true_iff.
  pose proof h2_taker_qty as (_ & Hr0 & _).
  assert (o_RemainingQuantity (deref h2 p) = o_RemainingQuantity (deref h' p)) as Er by (by rewrite h2_taker).
  destruct (static_inv _ _ (h2_static p)) as (Ei&Ee&_&Et&Eo&Es&_). fold o in Ei, Ee, Et, Eo, Es.
  destruct (static_inv _ _ h'_static) as (_&_&_&Et'&_). 
  split; change (heap e1) with h2.
  - rewrite Ei. apply HP.
  - done.
  - done.
  - done.
  - rewrite Et, <- Et'. by apply seqb_eq.
  - rewrite h2_taker. simpl. unfold finalStatus. rewrite (proj1 (negb_true_iff _) Hr), Ht.
    by destruct (0 <? _).
  - lia.
Qed.

Lemma b2_ok : book_ok e1 (o_EventID o) (o_Outcome o) b2.
Proof.
  pose proof own_after as Hown. pose proof opp_after as Hopp. pose proof b1_uncrossed as Hun.
  destruct sides_withOpp as [E1 E2]. unfold b2, matchedBook.
  destruct (enters (deref h' p)) eqn:He.
  - pose proof (taker_rests He) as Hrest. fold h2.
    assert (o_Side (deref h2 p) = o_Side o) as Es by (by apply static_inv, h2_static).
    rewrite addToBook_eq by (rewrite Es; apply taker_side). rewrite Es.
    pose proof (side_ok_add _ _ _ _ _ _ Hown Hrest taker_not_own) as Hadd. change (heap e1) with h2 in Hadd.
    apply book_ok_sides. unfold b1, withOpp, ownSide, oppositeSide, uncrossed in *. change (heap e1) with h2.
    destruct taker_side as [Hs|Hs]; rewrite Hs in Hown, Hopp, Hadd, Hun |- *; simpl in *; (split_and!; [done|done|]);
      intros q r; rewrite sideSort_Permutation, elem_of_app, list_elem_of_singleton.
    + intros [Hq| ->] Hr Hne; [by apply Hun|]. pose proof (left_uncrossed r Hr He) as Hl.
      rewrite Hs in Hl. destruct (h2_price_user r) as [-> Er]. rewrite Er in Hne.
      destruct (h2_price_user p) as [-> Ep]. rewrite Ep in Hne. apply Hl. fold o in Hne. congruence.
    + intros Hq [Hr| ->] Hne; [by apply Hun|]. pose proof (left_uncrossed q Hq He) as Hl.
      rewrite Hs in Hl. destruct (h2_price_user q) as [-> Er]. rewrite Er in Hne.
      destruct (h2_price_user p) as [-> Ep]. rewrite Ep in Hne. apply Hl. fold o in Hne. congruence.
  - apply book_ok_sides. unfold b1, withOpp, ownSide, oppositeSide in *.
    change (heap e1) with h2. destruct taker_side as [Hs|Hs]; rewrite Hs in Hown, Hopp, Hun |- *; simpl in *; done.
Qed.

Lemma e1_Books : Books e1.
Proof.
  intros ev m' oc bk. rewrite e1_markets.
  assert (∀ ev m' oc bk, markets e !! ev = Some m' → Book m' oc = Some bk →
    ev ≠ o_EventID o ∨ oc ≠ o_Outcome o → book_ok e1 ev oc bk) as Hold.
  { intros ev0 m0 oc0 bk0 Hm0 Hb0 Hne. pose proof (inv_books _ _ HI _ _ _ _ Hm0 Hb0) as Hbk.
    eapply book_ok_unlocked; [|exact Hbk]. intros q Hq.
    destruct (book_alloc _ _ _ _ _ (inv_table _ _ HI) Hbk Hq) as [_ Hid]. split; [|done].
    change (heap e1) with h2. rewrite h2_other; [done| |].
    - intros ->. destruct (pd_unbooked _ _ HP _ _ _ _ Hm0 Hb0). set_solver.
    - intros Hl. destruct (maker_table q Hl) as (_ & _ & [_ Ev Oc _ _ _ _]).
      apply elem_of_app in Hq as [Hq|Hq];
        [destruct (bk_bids _ _ _ _ Hbk q Hq)|destruct (bk_asks _ _ _ _ Hbk q Hq)]; destruct Hne; congruence. }
  intros [[<- <-]|[Hne Hm0]]%lookup_insert_Some Hbk; [|eapply Hold; eauto].
  destruct (decide (o_Outcome o = oc)) as [<-|Hne].
  - rewrite Book_set_same in Hbk by (by rewrite Hb). apply (inj Some) in Hbk. rewrite <- Hbk. apply b2_ok.
  - rewrite Book_set_other in Hbk by done. eapply Hold; eauto.
Qed.

(** ** The taker's lock covers its trades *)

Hypothesis Hbudget : o_Side o = SideBuy → o_OrderType o = OrderTypeMarket →
  sumZ (amount SideBuy) trs ≤ o_LockedFunds o.

Lemma eligible_price r : eligible o (deref (heap e) r) = true → o_OrderType o = OrderTypeLimit →
  o_Side o = SideBuy → o_Price (deref (heap e) r) ≤ o_Price o.
Proof.
  unfold eligible, canMatch. intros He Hl Hs. rewrite Hl, Hs in He. simpl in He.
  apply andb_true_iff in He as [_ He]. destruct (negb _); [done|]. lia.
Qed.

Lemma taker_cover : dues trs (deref h2 p) + need (deref h2 p) ≤ o_LockedFunds (deref h2 p).
Proof.
  rewrite lock_static, dues_taker. fold o. destruct taker_table as [_ Hwf].
  pose proof (inv_locks _ _ HI _ _ (pd_table _ _ HP)) as HL. fold o in HL.
  change (dues [] o) with 0 in HL.
  pose proof (sweep_taker_qty p l (heap e) t h' keep trs t' match_sweepable Hsw) as Hqty. fold o in Hqty.
  assert (o_RemainingQuantity (deref h2 p) = o_RemainingQuantity (deref h' p)) as Er by (by rewrite h2_taker).
  pose proof h2_taker_qty as (_ & Hr0 & _). rewrite Er in Hr0.
  destruct (static_inv _ _ (h2_static p)) as (_&_&_&Et&_&Es&_&Ep&_). fold o in Et, Es, Ep.
  unfold need in *. rewrite Hst in HL. simpl in HL. rewrite Et, Es, Ep, Er.
  destruct (wf_side _ Hwf) as [Hs|Hs]; rewrite Hs in *.
  - simpl in *. destruct (wf_type _ Hwf) as [Ht|Ht]; rewrite Ht in *; simpl in *.
    + pose proof (wf_limit _ Hwf Ht).
      assert (sumZ (amount SideBuy) trs ≤ o_Price o * sumZ t_Quantity trs).
      { rewrite <- sumZ_mul_l. apply sumZ_le. intros tr Hin.
        destruct (trade_facts tr Hin) as (r & n & t0 & Hr & Hn & He & ->).
        pose proof (eligible_price r He Ht Hs). unfold amount; simpl. nia. }
      destruct (_ || _); nia.
    + specialize (Hbudget eq_refl eq_refl). destruct (_ || _); lia.
  - change (amount SideSell) with t_Quantity. simpl in HL. simpl. destruct (_ || _); lia.
Qed.

Lemma e1_Inv : Inv trs e1.
Proof.
  split.
  - eapply (Accounts_view e); [done|done| |apply HI].
    apply fmap_deref; [symmetry; apply h2_length|]. intros q. change (heap e1) with h2.
    destruct (static_inv _ _ (h2_static q)) as (_&Ee&Eu&_&Eo&Es&_&_&El&_).
    unfold lockview. by rewrite Ee, Eu, Eo, Es, El.
  - intros id q Hid. change (orders e1) with (orders e) in Hid. change (heap e1) with h2.
    destruct (inv_table _ _ HI _ _ Hid) as (Hlen & Hi & _). rewrite h2_length. split_and!; [done| |].
    + by rewrite (proj1 (static_inv _ _ (h2_static q))).
    + by eapply h2_wf.
  - intros id q Hid. change (orders e1) with (orders e) in Hid. change (heap e1) with h2.
    destruct (decide (q = p)) as [->|Hqp]; [apply taker_cover|].
    destruct (decide (q ∈ l)) as [Hq|Hq]; [by apply maker_cover|].
    rewrite (dues_other id), h2_other by done. by apply (inv_locks _ _ HI _ _ Hid).
  - apply e1_Books.
Qed.

Lemma e1_trades : Forall (trade_ok e1) trs.
Proof.
  apply Forall_forall. intros tr Hin. destruct (trade_facts tr Hin) as (r & n & t0 & Hr & Hn & He & ->).
  destruct (maker_table r Hr) as (_ & Hw & Hrr).
  assert (o_UserID (deref (heap e) r) ≠ o_UserID o) as Hu.
  { intros E. unfold eligible in He. by rewrite E, seqb_refl in He. }
  destruct (static_inv _ _ (h2_static p)) as (_&Ee&Eu&_&Eo&Es&_).
  destruct (static_inv _ _ (h2_static r)) as (_&Ee'&Eu'&_&Eo'&Es'&_). fold o in Ee, Eu, Eo, Es.
  pose proof (wf_limit _ Hw (rs_type _ _ _ _ _ Hrr)).
  pose proof (rs_side _ _ _ _ _ Hrr) as Hsr. pose proof (pd_table _ _ HP) as Hidp. fold o in Hidp.
  pose proof (rs_table _ _ _ _ _ Hrr) as Hidr.
  unfold oppositeSide in Hsr.
  destruct taker_side as [Hs|Hs]; rewrite Hs in *; simpl in Hsr; [exists p, r|exists r, p];
    split; change (heap e1) with h2; change (orders e1) with (orders e); simpl;
    rewrite ?Ee, ?Eu, ?Eo, ?Es, ?Ee', ?Eu', ?Eo', ?Es', ?Hs; simpl;
    rewrite ?(rs_event _ _ _ _ _ Hrr), ?(rs_outcome _ _ _ _ _ Hrr); try done; try lia; auto.
Qed.
End matched.
