(* ===== verification/Sections.v ===== *)
(** The critical sections of the engine keep its invariant.

    [e.mu] is released and taken again between the sections of one command, and
    partitions run concurrently, so each section is stated for an arbitrary
    state that satisfies the invariant and for an arbitrary set of other pending
    orders; file Concurrency interleaves them. *)

From S2P Require Import Prelude Json Types Router State Ledger Matching Sweep Invariant Settle.
From S2P Require Import Events Outbox Depth Commands Handlers Register Match.
Local Open Scope Z_scope.
Local Open Scope i64_scope.

(** ** Final states of orders outside the books *)

Lemma set_Status_Inv e p s :
  Inv [] e → unbooked e p → (p < length (heap e))%nat → s = StatusRejected ∨ s = StatusCanceled →
  Inv [] (with_heap (store p (set_Status s)) e).
Proof.
  intros [HA HT HL HB] Hub Hp Hs.
  assert (∀ q, static (deref (store p (set_Status s) (heap e)) q) = static (deref (heap e) q) ∧
    qty_ok (deref (store p (set_Status s) (heap e)) q) = qty_ok (deref (heap e) q)) as Hst.
  { intros q. destruct (decide (p = q)) as [<-|]; [by rewrite deref_store_eq|by rewrite deref_store_ne]. }
  split.
  - eapply (Accounts_view e); [done|done| |done].
    apply fmap_deref; [simpl; by rewrite length_store|]. intros q. simpl.
    destruct (static_inv _ _ (proj1 (Hst q))) as (_&Ee&Eu&_&Eo&Es&_&_&El&_).
    unfold lockview. by rewrite Ee, Eu, Eo, Es, El.
  - intros id q Hid; simpl in *. destruct (HT _ _ Hid) as (H1 & H2 & H3). rewrite length_store.
    destruct (Hst q) as [E1 E2]. split_and!; [done| |].
    + by rewrite (proj1 (static_inv _ _ E1)).
    + eapply order_wf_static; [done| |done]. rewrite E2. apply H3.
  - intros id q Hid; simpl in *. specialize (HL _ _ Hid).
    destruct (decide (p = q)) as [<-|]; [|by rewrite deref_store_ne].
    rewrite deref_store_eq by done. change (dues [] ?o) with 0 in *. unfold need at 1. simpl.
    destruct (HT _ _ Hid) as (_ & _ & Hw). pose proof (need_nonneg _ Hw).
    assert ((s =s StatusCanceled) || (s =s StatusRejected) = true) as -> by (by destruct Hs as [-> | ->]).
    lia.
  - intros ev m oc b Hm Hb. simpl in Hm. specialize (HB _ _ _ _ Hm Hb).
    eapply book_ok_unlocked; [|exact HB]. intros q Hq. simpl.
    destruct (book_alloc _ _ _ _ _ HT HB Hq) as [_ Hid]. split; [|done].
    rewrite deref_store_ne; [done|]. intros ->. destruct (Hub _ _ _ _ Hm Hb). set_solver.
Qed.

(** The invariant is about the five maps only. *)
Lemma core_inv e e' : core e' = core e →
  heap e' = heap e ∧ markets e' = markets e ∧ orders e' = orders e ∧
  balances e' = balances e ∧ positions e' = positions e.
Proof. unfold core. intros Heq. by injection Heq as -> -> -> -> ->. Qed.

Lemma same_ledger_core e e' : core e' = core e → same_ledger e e'.
Proof.
  intros (Hh & Hm & Ho & Hb & Hp)%core_inv.
  split; intros; unfold balanceOf, positionOf, cash, shares; by rewrite ?Hb, ?Hp.
Qed.

(** ** Pending orders of others *)

(** [e'] leaves every pending order but [p] alone. *)
Definition spares (p : nat) (e e' : Engine) : Prop := ∀ q, q ≠ p → pending e q → pending e' q.

Lemma pending_transport e e' q :
  unlocked (deref (heap e') q) = unlocked (deref (heap e) q) →
  orders e' !! o_ID (deref (heap e) q) = Some q →
  unbooked e' q → pending e q → pending e' q.
Proof.
  intros (Ei&_&_&_&_&_&_&Ef&_&_&Es&_)%unlocked_inv Ho Hu [_ _ Hs Hf].
  split; rewrite ?Ei, ?Es, ?Ef; done.
Qed.

Lemma pending_relocked e e' q : relocked e e' → pending e q → pending e' q.
Proof.
  intros [_ Hh Hm Ho] HP. eapply pending_transport; [apply Hh| | |done].
  - rewrite Ho. apply HP.
  - intros ev m oc b. rewrite Hm. apply HP.
Qed.

Section sections.
Context `{Environment}.

(** ** Matching *)

(** The trades of a market buy cost no more than what was locked for it. *)
Definition within_budget (e : Engine) (p t : nat) : Prop :=
  let o := deref (heap e) p in
  o_Side o = SideBuy → o_OrderType o = OrderTypeMarket →
  ∀ m b, markets e !! o_EventID o = Some m → Book m (o_Outcome o) = Some b →
  sumZ (amount SideBuy) (sweep p (heap e) (oppSide o b) t).1.2 ≤ o_LockedFunds o.

Lemma releaseDone_Inv e p :
  Inv [] e → (p < length (heap e))%nat →
  (o_Status (deref (heap e) p) = StatusFilled → o_RemainingQuantity (deref (heap e) p) = 0) →
  Inv [] (releaseDone p e) ∧ cash (releaseDone p e) = cash e ∧ shares (releaseDone p e) = shares e ∧
  relocked e (releaseDone p e).
Proof.
  intros HI Hp Hf. unfold releaseDone. destruct (_ || _) eqn:E; [|done].
  pose proof (inv_accounts _ _ HI) as HA.
  destruct (release_totals e p HA Hp). split_and!; [|done|done|by apply release_relocked].
  apply release_Inv; [done|done|]. left. unfold need.
  apply orb_true_iff in E as [E|E]; apply seqb_eq in E; rewrite E; simpl; [|done].
  rewrite (Hf E). repeat case_match; lia.
Qed.

Lemma match_pending e p t m b h' keep trs t' :
  let o := deref (heap e) p in
  Inv [] e → pending e p → o_Status o = StatusPending →
  markets e !! o_EventID o = Some m → Book m (o_Outcome o) = Some b →
  sweep p (heap e) (oppSide o b) t = (h', keep, trs, t') →
  spares p e (matchedEngine p m h' (withOpp o keep b) e).
Proof.
  intros o HI HP Hst Hm Hb Hsw q Hqp HPq.
  assert (q ∉ oppSide o b) as Hql.
  { destruct (pd_unbooked _ _ HPq _ _ _ _ Hm Hb). unfold oppSide. by destruct (_ =s _). }
  eapply pending_transport; [| |  |done].
  - change (heap (matchedEngine p m h' (withOpp o keep b) e)) with (matchedHeap p h').
    by erewrite h2_other.
  - apply HPq.
  - intros ev m' oc bk. pose proof (e1_markets e p m b t HI HP Hm Hb h' keep trs t' Hsw) as Em.
    fold o in Em. rewrite Em.
    intros [[<- <-]|[Hne Hm0]]%lookup_insert_Some Hbk; [|by eapply (pd_unbooked _ _ HPq)].
    destruct (decide (o_Outcome o = oc)) as [<-|Hne].
    2:{ rewrite Book_set_other in Hbk by done. by eapply (pd_unbooked _ _ HPq). }
    rewrite Book_set_same in Hbk by (by rewrite Hb). apply (inj Some) in Hbk. subst bk.
    destruct (pd_unbooked _ _ HPq _ _ _ _ Hm Hb) as [Hn1 Hn2].
    assert (q ∉ keep).
    { intros Hk. apply Hql. eapply elem_of_sublist; [done|].
      by apply (sweep_keep p _ _ _ _ _ _ _ (match_sweepable e p m b HI HP Hm Hb) Hsw). }
    unfold matchedBook, addToBook, withOpp. fold o.
    destruct (enters _), (o_Side o =s SideBuy), (o_Side (deref (matchedHeap p h') p) =s SideBuy); simpl;
      rewrite ?stable_sort_Permutation; set_solver.
Qed.

(** The section on a pending order whose book is there: the sweep of the opposite
    side, the settlement and the release. *)
Lemma matchOrderLocked_run e p t m b h' keep trs t' :
  let o := deref (heap e) p in
  Inv [] e → pending e p → o_Status o = StatusPending → markets e !! o_EventID o = Some m →
  Book m (o_Outcome o) = Some b → sweep p (heap e) (oppSide o b) t = (h', keep, trs, t') →
  matchOrderLocked p e t = Some (trs, releaseDone p (foldl (λ e trade, settleTradeLocked trade e)
    (matchedEngine p m h' (withOpp o keep b) e) trs), t').
Proof.
  intros o HI HP Hst Hm Hb Hsw.
  pose proof (match_sweepable e p m b HI HP Hm Hb) as Hswp.
  pose proof (h2_taker_qty e p m b t HI HP Hm Hb h' keep trs t' Hsw) as Hq2.
  rewrite (h2_taker e p m b t HI HP Hm Hb h' keep trs t' Hsw) in Hq2.
  destruct (static_inv _ _ (h'_static e p m b t HI HP Hm Hb h' keep trs t' Hsw)) as (_&_&_&Et&_).
  eapply matchOrderLocked_eq; [done|done|done|done|done| |apply Hq2].
  rewrite Et. by destruct (taker_table e p HI HP) as [_ []].
Qed.

(** The two ways through the section: nothing to match, or the run above. *)
Lemma matchOrderLocked_cases e p t :
  let o := deref (heap e) p in
  Inv [] e → pending e p →
  (∃ e', matchOrderLocked p e t = Some ([], e', t) ∧
     (e' = e ∨ e' = with_heap (store p (set_Status StatusRejected)) e)) ∨
  ∃ m b h' keep trs t',
    o_Status o = StatusPending ∧ markets e !! o_EventID o = Some m ∧ Book m (o_Outcome o) = Some b ∧
    sweep p (heap e) (oppSide o b) t = (h', keep, trs, t') ∧
    matchOrderLocked p e t = Some (trs, releaseDone p (foldl (λ e trade, settleTradeLocked trade e)
      (matchedEngine p m h' (withOpp o keep b) e) trs), t').
Proof.
  intros o HI HP. destruct (pd_status _ _ HP) as [Hst|Hst]; fold o in Hst.
  2:{ left. unfold matchOrderLocked. fold o. rewrite Hst. eauto. }
  destruct (markets e !! o_EventID o) as [m|] eqn:Hm.
  2:{ left. unfold matchOrderLocked. fold o. rewrite Hst, Hm. eauto. }
  destruct (Book m (o_Outcome o)) as [b|] eqn:Hb.
  2:{ left. unfold matchOrderLocked. fold o. rewrite Hst, Hm, Hb. eauto. }
  destruct (sweep p (heap e) (oppSide o b) t) as [[[h' keep] trs] t'] eqn:Hsw.
  right. exists m, b, h', keep, trs, t'. split_and!; [done..|]. by apply matchOrderLocked_run.
Qed.

(** The trades of the sweep wait for their settlement in a state of the
    invariant. *)
Lemma matched_Inv e p t m b h' keep trs t' :
  let o := deref (heap e) p in
  Inv [] e → pending e p → within_budget e p t →
  o_Status o = StatusPending → markets e !! o_EventID o = Some m → Book m (o_Outcome o) = Some b →
  sweep p (heap e) (oppSide o b) t = (h', keep, trs, t') →
  let e1 := matchedEngine p m h' (withOpp o keep b) e in
  Inv trs e1 ∧ Forall (trade_ok e1) trs ∧ length (heap e1) = length (heap e).
Proof.
  intros o HI HP Hbud Hst Hm Hb Hsw.
  assert (o_Side o = SideBuy → o_OrderType o = OrderTypeMarket →
    sumZ (amount SideBuy) trs ≤ o_LockedFunds o) as Hb'.
  { intros Hs Ht. specialize (Hbud Hs Ht m b Hm Hb). fold o in Hbud. by rewrite Hsw in Hbud. }
  split_and!.
  - by apply (e1_Inv e p m b t HI HP Hst Hm Hb h' keep trs t' Hsw Hb').
  - by apply (e1_trades e p m b t HI HP Hm Hb h' keep trs t' Hsw Hb').
  - by apply (h2_length e p m b t HI HP Hm Hb h' keep trs t' Hsw).
Qed.

(** A taker that ends FILLED has nothing left. *)
Lemma matched_filled e p t m b h' keep trs t' :
  let o := deref (heap e) p in
  Inv [] e → pending e p → markets e !! o_EventID o = Some m → Book m (o_Outcome o) = Some b →
  sweep p (heap e) (oppSide o b) t = (h', keep, trs, t') →
  let o1 := deref (heap (matchedEngine p m h' (withOpp o keep b) e)) p in
  o_Status o1 = StatusFilled → o_RemainingQuantity o1 = 0.
Proof.
  intros o HI HP Hm Hb Hsw. cbv zeta.
  change (heap (matchedEngine p m h' (withOpp o keep b) e)) with (matchedHeap p h').
  rewrite (h2_taker e p m b t HI HP Hm Hb h' keep trs t' Hsw). simpl. unfold finalStatus.
  destruct (o_RemainingQuantity (deref h' p) =? 0) eqn:E0; [lia|].
  destruct (_ =s OrderTypeLimit); [destruct (0 <? _)|]; done.
Qed.

(** Matching a pending order ends, keeps the invariant and the totals. *)
Lemma matchOrderLocked_Inv e p t :
  Inv [] e → pending e p → within_budget e p t →
  ∃ trs e' t', matchOrderLocked p e t = Some (trs, e', t') ∧
    Inv [] e' ∧ cash e' = cash e ∧ shares e' = shares e ∧ spares p e e' ∧
    length (heap e') = length (heap e) ∧ orders e' = orders e.
Proof.
  intros HI HP Hbud. destruct (taker_table e p HI HP) as [Hp _].
  destruct (matchOrderLocked_cases e p t HI HP)
    as [(e' & -> & [-> | ->])|(m & b & h' & keep & trs & t' & Hst & Hm & Hb & Hsw & ->)].
  - eexists _, _, _. split_and!; try done. by intros ??.
  - eexists _, _, _. split_and!; [done| |done|done| |apply length_store|done].
    + apply set_Status_Inv; [done|apply HP|done|by left].
    + intros q Hq HPq. eapply pending_transport; [|apply HPq|apply HPq|done].
      simpl. by rewrite deref_store_ne.
  - destruct (matched_Inv e p t m b h' keep trs t' HI HP Hbud Hst Hm Hb Hsw) as (HI1 & Htr & Hl1).
    pose proof (matched_filled e p t m b h' keep trs t' HI HP Hm Hb Hsw) as Hfill.
    set (e1 := matchedEngine p m h' (withOpp (deref (heap e) p) keep b) e) in *.
    destruct (settle_batch trs _ HI1 Htr) as (HI2 & Hc2 & Hs2 & Hr2).
    set (e2 := foldl (λ e trade, settleTradeLocked trade e) e1 trs) in *.
    destruct (releaseDone_Inv e2 p HI2) as (HI3 & Hc3 & Hs3 & Hr3).
    { by rewrite (rl_length _ _ Hr2), Hl1. }
    { destruct (unlocked_inv _ _ (rl_heap _ _ Hr2 p)) as (_&_&_&_&_&_&_&_&Er&_&Es&_). by rewrite Er, Es. }
    eexists _, _, _. split; [done|]. split_and!; [done|by rewrite Hc3, Hc2|by rewrite Hs3, Hs2| | |].
    + intros q Hq HPq. eapply pending_relocked; [exact Hr3|]. eapply pending_relocked; [exact Hr2|].
      eapply match_pending; eauto.
    + by rewrite (rl_length _ _ Hr3), (rl_length _ _ Hr2).
    + by rewrite (rl_orders _ _ Hr3), (rl_orders _ _ Hr2).
Qed.
End sections.

(** ** Registration and its undoing *)

Lemma pending_same_ledger e e' q : same_ledger e e' → pending e q → pending e' q.
Proof.
  intros Hs HP. eapply pending_transport; [by rewrite (sl_heap _ _ Hs)| | |done].
  - rewrite (sl_orders _ _ Hs). apply HP.
  - intros ev m oc b. rewrite (sl_markets _ _ Hs). apply HP.
Qed.

Lemma registered_spares e o q :
  Inv [] e → orders e !! o_ID o = None → pending e q → pending (registered e o) q.
Proof.
  intros HI Hnew HP. destruct (registered_frame e o) as (Hh & Hm & Ho & _).
  destruct (taker_table e q HI HP) as [Hq _].
  eapply pending_transport; [by rewrite Hh, deref_app_l| | |done].
  - rewrite Ho, lookup_insert_ne; [apply HP|]. intros E.
    pose proof (pd_table _ _ HP) as Ht. rewrite <- E in Ht. congruence.
  - intros ev m oc b. rewrite Hm. apply HP.
Qed.

Lemma delete_order_Inv e p :
  Inv [] e → unbooked e p → orders e !! o_ID (deref (heap e) p) = Some p →
  Inv [] (with_orders (delete (o_ID (deref (heap e) p))) e).
Proof.
  intros [HA HT HL HB] Hub Hp. split.
  - eapply (Accounts_view e); done.
  - intros id q; simpl. intros [_ Hid]%lookup_delete_Some. by apply HT.
  - intros id q; simpl. intros [_ Hid]%lookup_delete_Some. by apply (HL id).
  - intros ev m oc b Hm Hb. specialize (HB _ _ _ _ Hm Hb).
    eapply book_ok_unlocked; [|exact HB]. intros q Hq. split; [done|]. simpl.
    destruct (book_alloc _ _ _ _ _ HT HB Hq) as [_ Hid]. rewrite lookup_delete_ne; [done|].
    intros E. rewrite <- E, Hp in Hid. simplify_eq. destruct (Hub _ _ _ _ Hm Hb). set_solver.
Qed.

Lemma abortOrder_Inv e p :
  Inv [] e → pending e p →
  Inv [] (abortOrder p e) ∧ cash (abortOrder p e) = cash e ∧ shares (abortOrder p e) = shares e ∧
  spares p e (abortOrder p e).
Proof.
  intros HI HP. destruct (taker_table e p HI HP) as [Hp _]. split_and!; [|done|done|].
  - apply set_Status_Inv; [|apply HP|done|by left].
    apply delete_order_Inv; [done|apply HP|apply HP].
  - intros q Hq HPq. eapply pending_transport; [| |apply HPq|done]; simpl.
    + by rewrite deref_store_ne.
    + rewrite lookup_delete_ne; [apply HPq|]. intros E.
      pose proof (pd_table _ _ HPq) as Ht. rewrite <- E, (pd_table _ _ HP) in Ht. simplify_eq.
Qed.

(** ** Cancellation *)

Lemma removeOrderFromSlice_sublist h l id : sublist (fst (removeOrderFromSlice h l id)) l.
Proof.
  induction l as [|q l IH]; simpl; [done|]. destruct (_ =s _); simpl; [by constructor|].
  destruct (removeOrderFromSlice h l id); simpl in *. by constructor.
Qed.

Lemma removeOrderFromSlice_gone h l p :
  NoDup l → p ∉ fst (removeOrderFromSlice h l (o_ID (deref h p))) ∨
  ∃ q, q ∈ l ∧ q ≠ p ∧ o_ID (deref h q) = o_ID (deref h p).
Proof.
  induction l as [|q l IH]; simpl; [left; set_solver|]. intros [Hq Hn]%NoDup_cons.
  destruct (seqb_spec (o_ID (deref h q)) (o_ID (deref h p))) as [E|E]; simpl.
  - destruct (decide (q = p)) as [->|]; [by left|]. right. exists q. by split_and!; [left| |].
  - destruct (removeOrderFromSlice h l _) as [l' f]; simpl in *.
    destruct (IH Hn) as [Hg|(r & ? & ? & ?)].
    + left. intros [->|]%elem_of_cons; done.
    + right. exists r. by split_and!; [right| |].
Qed.

Section cancel.
Context (e : Engine) (p : nat) (m : Market) (b : OrderBook).
Let o : Order := deref (heap e) p.
Hypothesis HI : Inv [] e.
Hypothesis Ht : orders e !! o_ID o = Some p.
Hypothesis Hm : markets e !! o_EventID o = Some m.
Hypothesis Hb : Book m (o_Outcome o) = Some b.

(** The book without the order. *)
Definition withoutOrder : OrderBook :=
  if o_Side o =s SideBuy then mkBook (fst (removeOrderFromSlice (heap e) (Bids b) (o_ID o))) (Asks b)
  else mkBook (Bids b) (fst (removeOrderFromSlice (heap e) (Asks b) (o_ID o))).

Let e1 : Engine := with_markets (<[o_EventID o := set_Book (o_Outcome o) withoutOrder m]>) e.

Lemma withoutOrder_sub : sublist (Bids withoutOrder) (Bids b) ∧ sublist (Asks withoutOrder) (Asks b).
Proof.
  unfold withoutOrder. destruct (_ =s _); simpl; split; try done; apply removeOrderFromSlice_sublist.
Qed.

Lemma cancel_books ev m' oc bk :
  markets e1 !! ev = Some m' → Book m' oc = Some bk →
  (ev = o_EventID o ∧ oc = o_Outcome o ∧ bk = withoutOrder) ∨
  ((ev ≠ o_EventID o ∨ oc ≠ o_Outcome o) ∧ ∃ m0, markets e !! ev = Some m0 ∧ Book m0 oc = Some bk).
Proof.
  unfold e1; simpl.
  intros [[<- <-]|[Hne Hm0]]%lookup_insert_Some Hbk; [|right; split; [auto|by exists m']].
  destruct (decide (o_Outcome o = oc)) as [<-|Hne].
  - left. rewrite Book_set_same in Hbk by (by rewrite Hb). apply (inj Some) in Hbk. done.
  - right. rewrite Book_set_other in Hbk by done. split; [auto|by exists m].
Qed.

Lemma book_ok_sub bk bk' ev oc :
  sublist (Bids bk') (Bids bk) → sublist (Asks bk') (Asks bk) → book_ok e ev oc bk → book_ok e1 ev oc bk'.
Proof.
  intros S1 S2 Hbk.
  assert (book_ok e ev oc bk') as Hbk'.
  { destruct Hbk as [B1 B2 B3 B4 B5 B6 B7].
    split; eauto using elem_of_sublist, sublist_NoDup, StronglySorted_sublist.
    intros q r Hq Hr. apply B7; by eapply elem_of_sublist. }
  eapply book_ok_unlocked; [|exact Hbk']. intros q Hq. split; [done|].
  by destruct (book_alloc _ _ _ _ _ (inv_table _ _ HI) Hbk' Hq).
Qed.

Lemma cancel_Inv : Inv [] e1.
Proof.
  destruct HI as [HA HT HL HB]. split.
  - eapply (Accounts_view e); done.
  - exact HT.
  - exact HL.
  - intros ev m' oc bk Hm' Hbk. destruct (cancel_books _ _ _ _ Hm' Hbk) as [(-> & -> & ->)|(_ & m0 & Hm0 & Hb0)].
    + destruct withoutOrder_sub. eapply book_ok_sub; [done|done|]. by eapply HB.
    + eapply book_ok_sub; [reflexivity|reflexivity|]. by eapply HB.
Qed.

Lemma cancel_unbooked : unbooked e1 p.
Proof.
  intros ev m' oc bk Hm' Hbk. pose proof (inv_books _ _ HI) as HB.
  destruct (cancel_books _ _ _ _ Hm' Hbk) as [(-> & -> & ->)|(Hne & m0 & Hm0 & Hb0)].
  - pose proof (HB _ _ _ _ Hm Hb) as Hbk0.
    assert (∀ l, NoDup l → (∀ q, q ∈ l → orders e !! o_ID (deref (heap e) q) = Some q) →
      p ∉ fst (removeOrderFromSlice (heap e) l (o_ID o))) as Hgone.
    { intros l Hn Hl. destruct (removeOrderFromSlice_gone (heap e) l p Hn) as [|(q & Hq & Hqp & Eid)]; [done|].
      apply Hl in Hq. rewrite Eid in Hq. fold o in Hq. congruence. }
    unfold withoutOrder. destruct (seqb_spec (o_Side o) SideBuy) as [Es|Es]; simpl; split.
    + apply Hgone; [apply Hbk0|]. intros q Hq. apply (bk_bids _ _ _ _ Hbk0 q Hq).
    + intros Hin. pose proof (rs_side _ _ _ _ _ (bk_asks _ _ _ _ Hbk0 p Hin)) as E. fold o in E. by rewrite E in Es.
    + intros Hin. by apply Es, (rs_side _ _ _ _ _ (bk_bids _ _ _ _ Hbk0 p Hin)).
    + apply Hgone; [apply Hbk0|]. intros q Hq. apply (bk_asks _ _ _ _ Hbk0 q Hq).
  - pose proof (HB _ _ _ _ Hm0 Hb0) as Hbk0. split; intros Hin.
    + destruct (bk_bids _ _ _ _ Hbk0 p Hin) as [_ Ev Oc _ _ _ _]. fold o in Ev, Oc. destruct Hne; congruence.
    + destruct (bk_asks _ _ _ _ Hbk0 p Hin) as [_ Ev Oc _ _ _ _]. fold o in Ev, Oc. destruct Hne; congruence.
Qed.

Let e2 : Engine := with_heap (store p (set_Status StatusCanceled)) e1.

Lemma cancel_alloc : (p < length (heap e))%nat.
Proof. by destruct (inv_table _ _ HI _ _ Ht). Qed.

Lemma cancel_status_Inv : Inv [] e2.
Proof.
  apply set_Status_Inv; [apply cancel_Inv|apply cancel_unbooked|apply cancel_alloc|by right].
Qed.

Lemma cancel_pending q : pending e q → pending e2 q.
Proof.
  intros HP. pose proof cancel_alloc as Hp. split.
  - assert (o_ID (deref (heap e2) q) = o_ID (deref (heap e) q)) as ->; [|apply HP].
    unfold e2; simpl. destruct (decide (p = q)) as [<-|]; [by rewrite deref_store_eq|by rewrite deref_store_ne].
  - destruct (decide (q = p)) as [->|Hne]; [exact cancel_unbooked|].
    intros ev m' oc bk Hm' Hbk.
    destruct (cancel_books _ _ _ _ Hm' Hbk) as [(-> & -> & ->)|(_ & m0 & Hm0 & Hb0)].
    + destruct withoutOrder_sub. destruct (pd_unbooked _ _ HP _ _ _ _ Hm Hb).
      split; intros ?; [destruct (pd_unbooked _ _ HP _ _ _ _ Hm Hb) as [Hx _]|
                        destruct (pd_unbooked _ _ HP _ _ _ _ Hm Hb) as [_ Hx]]; by eapply Hx, elem_of_sublist.
    + by eapply (pd_unbooked _ _ HP).
  - unfold e2; simpl. destruct (decide (p = q)) as [<-|].
    + rewrite deref_store_eq by done. by right.
    + rewrite deref_store_ne by done. apply HP.
  - unfold e2; simpl. destruct (decide (p = q)) as [<-|].
    + rewrite deref_store_eq by done. apply HP.
    + rewrite deref_store_ne by done. apply HP.
Qed.
End cancel.

(** The whole section: refused without effect, or done. *)
Lemma cancelOrderLocked_Inv e id ev :
  Inv [] e →
  let '(res, e') := cancelOrderLocked id ev e in
  res ≠ CancelPanics ∧ Inv [] e' ∧ cash e' = cash e ∧ shares e' = shares e ∧
  (∀ q, pending e q → pending e' q).
Proof.
  intros HI. unfold cancelOrderLocked.
  destruct (orders e !! id) as [p|] eqn:Hid; [|by split_and!].
  destruct (inv_table _ _ HI _ _ Hid) as (Hp & Eid & Hw).
  destruct (_ && _); [by split_and!|]. destruct (final_status _); [by split_and!|].
  destruct (markets e !! _) as [m|] eqn:Hm; [|by split_and!].
  destruct (Book m _) as [b|] eqn:Hb.
  2:{ exfalso. unfold Book in Hb. by destruct (wf_outcome _ Hw) as [E|E]; rewrite E in Hb. }
  rewrite <- Eid in Hid. fold (withoutOrder e p b). cbv zeta.
  pose proof (cancel_status_Inv e p m b HI Hid Hm Hb) as HI2.
  set (e2 := with_heap _ _) in *.
  assert (p < length (heap e2))%nat as Hp2 by (unfold e2; simpl; by rewrite length_store).
  assert (o_Status (deref (heap e2) p) = StatusCanceled) as Hst.
  { unfold e2; simpl. by rewrite deref_store_eq. }
  destruct (release_totals e2 p (inv_accounts _ _ HI2) Hp2) as [Hc Hs].
  split_and!; [done| |by rewrite Hc|by rewrite Hs|].
  - apply release_Inv; [done|done|]. left. unfold need. by rewrite Hst.
  - intros q HP. eapply pending_relocked; [by apply release_relocked, Hp2; apply HI2|].
    by eapply cancel_pending.
Qed.

(** ** Users and events *)

Lemma createUserLocked_Inv e u :
  Inv [] e → cash e + DefaultStartingBalance ≤ max_int64 →
  Inv [] (createUserLocked u e) ∧ shares (createUserLocked u e) = shares e ∧
  cash (createUserLocked u e) =
    cash e + (if decide (balances e !! u = None) then DefaultStartingBalance else 0) ∧
  (∀ q, pending e q → pending (createUserLocked u e) q).
Proof.
  intros HI Hc. unfold createUserLocked.
  destruct (balances e !! u) as [bal|] eqn:Hu.
  { rewrite decide_False by done. split_and!; [done|done|lia|done]. }
  rewrite decide_True by done. fold (putBalance u (mkBalance DefaultStartingBalance 0) e).
  assert (balanceOf e u = zeroBalance) as Hz by (unfold balanceOf; by rewrite Hu).
  assert (cash (putBalance u (mkBalance DefaultStartingBalance 0) e) = cash e + DefaultStartingBalance) as Ec.
  { rewrite cash_put, Hz. simpl. lia. }
  destruct HI as [[A1 A2 A3 A4 A5] HT HL HB]. split_and!; [|done|done|].
  - split; [split|exact HT|exact HL|].
    + intros v. rewrite balanceOf_put. case_decide as E; [|apply A1]. subst v.
      destruct (A1 u) as [_ Hr]. rewrite Hz in Hr. simpl in *. split; [done|]. lia.
    + exact A2.
    + rewrite Ec. done.
    + exact A4.
    + exact A5.
    + intros ev m oc b Hm Hb. specialize (HB _ _ _ _ Hm Hb).
      eapply book_ok_unlocked; [|exact HB]. intros q Hq. split; [done|].
      by destruct (book_alloc _ _ _ _ _ HT HB Hq).
  - intros q HP. eapply (pending_transport e); [done|apply HP|apply HP|done].
Qed.

Lemma createEventLocked_Inv e ev :
  Inv [] e →
  let e' := snd (createEventLocked ev e) in
  Inv [] e' ∧ shares e' = shares e ∧ cash e' = cash e ∧ (∀ q, pending e q → pending e' q).
Proof.
  intros HI. unfold createEventLocked. destruct (markets e !! ev) as [m|] eqn:Hev; simpl; [by split_and!|].
  assert (∀ oc b, Book NewMarket oc = Some b → b = mkBook [] []) as Hnew.
  { intros oc b. unfold Book. repeat case_match; naive_solver. }
  destruct HI as [HA HT HL HB]. split_and!; [|done|done|].
  - split; [by eapply (Accounts_view e)|exact HT|exact HL|].
    intros ev' m oc b; simpl. intros [[<- <-]|[Hne Hm]]%lookup_insert_Some Hb.
    + apply Hnew in Hb as ->. split; simpl; try apply NoDup_nil_2; try apply SSorted_nil;
        intros q; [..|intros r]; by intros ?%elem_of_nil.
    + specialize (HB _ _ _ _ Hm Hb). eapply book_ok_unlocked; [|exact HB]. intros q Hq. split; [done|].
      by destruct (book_alloc _ _ _ _ _ HT HB Hq).
  - intros q HP. eapply (pending_transport e); [done|apply HP| |done].
    intros ev' m oc b; simpl. intros [[<- <-]|[Hne Hm]]%lookup_insert_Some Hb; [|by eapply (pd_unbooked _ _ HP)].
    apply Hnew in Hb as ->. simpl. split; apply not_elem_of_nil.
Qed.
