(* ===== verification/Concurrency.v ===== *)
(** Any interleaving of critical sections keeps the engine invariant.

    Every partition consumes its stream in a goroutine of its own, and all of
    them share one [Engine]; [e.mu] makes each critical section atomic but is
    released between the registration of an order and its matching.  A state
    here is the engine with the orders that are registered and not yet matched
    or withdrawn; a step is one critical section of one of the goroutines. *)

From S2P Require Import Prelude Json Types Router State Ledger Matching Sweep Invariant Settle.
From S2P Require Import Events Outbox Depth Commands Handlers Register Match Sections.
Local Open Scope Z_scope.

(** An engine and its orders in flight. *)
Record Snapshot := mkSnap { sn_eng : Engine; sn_flight : list nat }.

Definition land (p : nat) (ps : list nat) : list nat := filter (λ q, q ≠ p) ps.

(** The orders in flight after a registration. *)
Definition takeoff (reg : Registration) (ps : list nat) : list nat :=
  match reg with RegOK p => p :: ps | _ => ps end.

Section interleaving.
Context `{Environment}.

(** The second index is the money a step brings into the engine. *)
Inductive step : Snapshot → Z → Snapshot → Prop :=
| step_register o e ps reg e' :
    placeable o → cost_in_range o → registerOrder o e = (reg, e') →
    step (mkSnap e ps) 0 (mkSnap e' (takeoff reg ps))
| step_abort p e ps :
    p ∈ ps → step (mkSnap e ps) 0 (mkSnap (abortOrder p e) (land p ps))
| step_match p e ps t trs e' t' :
    p ∈ ps → within_budget e p t → matchOrderLocked p e t = Some (trs, e', t') →
    step (mkSnap e ps) 0 (mkSnap e' (land p ps))
| step_cancel id ev e ps res e' :
    cancelOrderLocked id ev e = (res, e') → step (mkSnap e ps) 0 (mkSnap e' ps)
| step_user u e ps :
    cash e + DefaultStartingBalance ≤ max_int64 →
    step (mkSnap e ps)
      (if decide (balances e !! u = None) then DefaultStartingBalance else 0)
      (mkSnap (createUserLocked u e) ps)
| step_event ev e ps :
    step (mkSnap e ps) 0 (mkSnap (snd (createEventLocked ev e)) ps)
| step_setup e e' ps :
    core e' = core e → step (mkSnap e ps) 0 (mkSnap e' ps).

Inductive steps : Snapshot → Z → Snapshot → Prop :=
| steps_refl s : steps s 0 s
| steps_step s1 d s2 d' s3 : steps s1 d s2 → step s2 d' s3 → steps s1 (d + d') s3.

(** The state invariant of the interleaving. *)
Record Flying (s : Snapshot) : Prop := {
  fl_inv : Inv [] (sn_eng s);
  fl_pending : ∀ p, p ∈ sn_flight s → pending (sn_eng s) p;
  fl_nodup : NoDup (sn_flight s)
}.

Lemma elem_of_land p q ps : q ∈ land p ps ↔ q ≠ p ∧ q ∈ ps.
Proof. unfold land. by rewrite list_elem_of_filter. Qed.

Lemma land_nodup p ps : NoDup ps → NoDup (land p ps).
Proof. apply NoDup_filter. Qed.

Lemma step_Flying s d s' :
  step s d s' → Flying s →
  Flying s' ∧ cash (sn_eng s') = cash (sn_eng s) + d ∧ shares (sn_eng s') = shares (sn_eng s).
Proof.
  intros Hst [HI HP HN].
  destruct Hst as [o e ps reg e' Hpl Hc Hreg|p e ps Hp|p e ps t trs e' t' Hp Hbud Hmatch
                  |id ev e ps res e' Hcan|u e ps Hcash|ev e ps|e e' ps Hcore]; simpl in *.
  - destruct (registerOrder_cases e o HI Hpl Hc) as [(p & _ & Eq)|[(_ & err & e1 & Eq & Hs)|(Hnew & Hav & _ & Eq)]];
      rewrite Eq in Hreg; injection Hreg as <- <-; simpl.
    + split_and!; [by split|lia|done].
    + split_and!; [split|rewrite (sl_cash _ _ Hs); lia|by rewrite (sl_shares _ _ Hs)]; simpl.
      * by eapply Inv_same_ledger.
      * intros p Hp. eapply pending_same_ledger; [done|]. by apply HP.
      * done.
    + destruct (registered_Inv e o HI Hpl Hc Hnew Hav) as [HI' Hpend].
      destruct (registered_frame e o) as (_ & _ & _ & Ec & Es).
      split_and!; [split|rewrite Ec; lia|by rewrite Es]; simpl; [done| |].
      * intros p [->|Hp]%elem_of_cons; [done|]. apply registered_spares; auto.
      * apply NoDup_cons. split; [|done]. intros Hin. destruct (taker_table _ _ HI (HP _ Hin)). lia.
  - destruct (abortOrder_Inv e p HI (HP _ Hp)) as (HI' & Ec & Es & Hsp).
    split_and!; [split|rewrite Ec; lia|done]; simpl; [done| |by apply land_nodup].
    intros q [Hq Hin]%elem_of_land. apply Hsp; auto.
  - destruct (matchOrderLocked_Inv e p t HI (HP _ Hp) Hbud) as (trs1 & e1 & t1 & Eq & HI' & Ec & Es & Hsp & _).
    rewrite Eq in Hmatch. injection Hmatch as <- <- <-.
    split_and!; [split|rewrite Ec; lia|done]; simpl; [done| |by apply land_nodup].
    intros q [Hq Hin]%elem_of_land. apply Hsp; auto.
  - pose proof (cancelOrderLocked_Inv e id ev HI) as Hc. rewrite Hcan in Hc.
    destruct Hc as (_ & HI' & Ec & Es & Hsp). split_and!; [split|rewrite Ec; lia|done]; simpl; auto.
  - destruct (createUserLocked_Inv e u HI Hcash) as (HI' & Es & Ec & Hsp).
    split_and!; [split|done|done]; simpl; auto.
  - destruct (createEventLocked_Inv e ev HI) as (HI' & Es & Ec & Hsp).
    split_and!; [split|rewrite Ec; lia|done]; simpl; auto.
  - pose proof (same_ledger_core _ _ Hcore) as Hs.
    split_and!; [split|rewrite (sl_cash _ _ Hs); lia|by rewrite (sl_shares _ _ Hs)]; simpl; [| |done].
    + by eapply Inv_same_ledger.
    + intros p Hp. eapply pending_same_ledger; [done|]. by apply HP.
Qed.

Lemma steps_Flying s d s' :
  steps s d s' → Flying s →
  Flying s' ∧ cash (sn_eng s') = cash (sn_eng s) + d ∧ shares (sn_eng s') = shares (sn_eng s).
Proof.
  induction 1 as [s|s1 d s2 d' s3 _ IH Hst]; intros HF; [split_and!; [done|lia|done]|].
  destruct (IH HF) as (HF2 & Ec & Es). destruct (step_Flying _ _ _ Hst HF2) as (HF3 & Ec' & Es').
  split_and!; [done|lia|congruence].
Qed.

(** An engine with money and shares but no order and no market yet. *)
Record funded (e : Engine) : Prop := {
  fd_heap : heap e = [];
  fd_markets : markets e = ∅;
  fd_orders : orders e = ∅;
  fd_balances : map_Forall (λ _ b, 0 ≤ bal_Available b ∧ bal_Reserved b = 0) (balances e);
  fd_positions : map_Forall (λ _ s, 0 ≤ pos_Available s ∧ pos_Reserved s = 0) (positions e);
  fd_cash : cash e ≤ max_int64;
  fd_shares : shares e ≤ max_int64
}.

Lemma funded_Flying e : funded e → Flying (mkSnap e []).
Proof.
  intros [Hh Hm Ho Hb Hp Hc Hs]. split; [split| |]; simpl.
  - split; rewrite ?Hh; simpl; try done.
    + intros u. unfold balanceOf. destruct (balances e !! u) as [b|] eqn:E; [by apply (Hb u)|done].
    + intros k. unfold positionOf. destruct (positions e !! k) as [b|] eqn:E; [by apply (Hp k)|done].
    + by intros o ?%elem_of_nil.
  - intros id p. by rewrite Ho.
  - intros id p. by rewrite Ho.
  - intros ev m oc b. by rewrite Hm.
  - by intros p ?%elem_of_nil.
  - constructor.
Qed.

Lemma newEngine_funded rm e : newEngine rm = Some e → funded e ∧ cash e = 0 ∧ shares e = 0.
Proof. unfold newEngine. destruct rm; [|done]. intros [= <-]. by split; [split|]. Qed.
End interleaving.
