(* ===== verification/Commanding.v ===== *)
(** Whole commands: [handleMessage] keeps the engine invariant, always answers,
    and moves money only as its command says. *)

From S2P Require Import Prelude Json Types Router State Ledger Matching Sweep Invariant Settle.
From S2P Require Import Events Outbox Depth Commands Handlers Register Match Sections.
Local Open Scope Z_scope.

Section commanding.
Context `{Environment}.

(** ** What a command may rely on and what it guarantees *)

(** Between commands: the invariant holds and the partition can number its
    events. *)
Definition ready (pid : Z) (w : World) : Prop := Inv [] (eng w) ∧ seq_slot (eng w) pid.

(** [w'] is a state a command that created [d] units of money may leave. *)
Record served (pid : Z) (d : Z) (w w' : World) : Prop := {
  sv_inv : Inv [] (eng w');
  sv_setup : same_setup (eng w) (eng w');
  sv_cash : cash (eng w') = cash (eng w) + d;
  sv_shares : shares (eng w') = shares (eng w)
}.

Lemma seq_slot_setup e e' pid : same_setup e e' → seq_slot e pid → seq_slot e' pid.
Proof. intros (_&_&_&_&_&_&_&_&_&_&Hl) [H0 H1]. split; [done|]. by rewrite Hl. Qed.

Lemma served_ready pid d w w' : served pid d w w' → ready pid w → ready pid w'.
Proof. intros [] []. split; [done|]. by eapply seq_slot_setup. Qed.

Lemma served_refl pid w : ready pid w → served pid 0 w w.
Proof. intros []. split; [done|reflexivity|lia|done]. Qed.

Lemma served_trans pid d d' w1 w2 w3 :
  served pid d w1 w2 → served pid d' w2 w3 → served pid (d + d') w1 w3.
Proof. intros [] []. split; [done|by etrans|lia|congruence]. Qed.

(** A part of a handler that leaves the five maps alone. *)
Lemma served_core pid w w' :
  ready pid w → core (eng w') = core (eng w) → same_setup (eng w) (eng w') → served pid 0 w w'.
Proof.
  intros [HI _] Hc Hs. pose proof (same_ledger_core _ _ Hc) as Hl. split; [|done| |].
  - by eapply Inv_same_ledger.
  - rewrite (sl_cash _ _ Hl). lia.
  - apply (sl_shares _ _ Hl).
Qed.

Lemma served_eng pid w w' : ready pid w → eng w' = eng w → served pid 0 w w'.
Proof. intros Hr He. apply served_core; [done| |]; by rewrite He. Qed.

(** The state that results from a critical section. *)
Lemma served_section pid d w e' :
  ready pid w → Inv [] e' → same_setup (eng w) e' → cash e' = cash (eng w) + d →
  shares e' = shares (eng w) → served pid d w (with_eng (λ _, e') w).
Proof. intros. by split. Qed.

(** ** Sections do not touch the setup *)

Lemma setup_getOrCreateBalance u e : same_setup e (snd (getOrCreateBalance u e)).
Proof. unfold getOrCreateBalance. destruct (_ !! _); by repeat split. Qed.
Lemma setup_getOrCreatePosition u ev oc e : same_setup e (snd (getOrCreatePosition u ev oc e)).
Proof. unfold getOrCreatePosition. destruct (_ !! _); by repeat split. Qed.

Lemma setup_reserve o e : same_setup e (snd (reserveOrderLocked o e)).
Proof.
  unfold reserveOrderLocked. destruct (_ =s _).
  - rewrite getOrCreateBalance_spec. cbv zeta. pose proof (setup_getOrCreateBalance (o_UserID o) e) as Hs.
    destruct (_ <? _); simpl; [done|]. etrans; [exact Hs|]. by repeat split.
  - rewrite getOrCreatePosition_spec. cbv zeta.
    pose proof (setup_getOrCreatePosition (o_UserID o) (o_EventID o) (o_Outcome o) e) as Hs.
    destruct (_ <? _); simpl; [done|]. etrans; [exact Hs|]. by repeat split.
Qed.

Lemma setup_register o e : same_setup e (snd (registerOrder o e)).
Proof.
  unfold registerOrder. destruct (orders e !! _); [done|]. destruct (markets e !! _); [|done].
  pose proof (setup_reserve o e) as Hs. destruct (reserveOrderLocked o e) as [[err o'] e']; simpl in *.
  destruct err; simpl; [done|]. etrans; [exact Hs|]. by repeat split.
Qed.

Lemma setup_settle t e : same_setup e (settleTradeLocked t e).
Proof.
  unfold settleTradeLocked.
  rewrite (getOrCreateBalance_spec (t_BuyerID t)), putBalance_getOrCreate.
  rewrite (getOrCreatePosition_spec (t_BuyerID t)), putPosition_getOrCreate.
  rewrite (getOrCreateBalance_spec (t_SellerID t)), putBalance_getOrCreate.
  rewrite (getOrCreatePosition_spec (t_SellerID t)), putPosition_getOrCreate.
  unfold unlockFill. repeat case_match; by repeat split.
Qed.

Lemma setup_settle_all ts e : same_setup e (foldl (λ e trade, settleTradeLocked trade e) e ts).
Proof.
  revert e. induction ts as [|t ts IH]; intros e; simpl; [done|].
  etrans; [apply setup_settle|apply IH].
Qed.

Lemma setup_release p e : same_setup e (releaseOrderLocked p e).
Proof.
  unfold releaseOrderLocked. destruct (_ <=? _); [done|]. destruct (_ =s _).
  - rewrite getOrCreateBalance_spec, putBalance_getOrCreate. by repeat split.
  - rewrite getOrCreatePosition_spec, putPosition_getOrCreate. by repeat split.
Qed.

Lemma setup_match p e t trs e' t' : matchOrderLocked p e t = Some (trs, e', t') → same_setup e e'.
Proof.
  unfold matchOrderLocked. destruct (_ =s _); [by intros [= <- <- <-]|].
  destruct (markets e !! _); [|intros [= <- <- <-]; by repeat split].
  destruct (Book _ _); [|intros [= <- <- <-]; by repeat split].
  destruct (matchAgainstBook _ _ _ _) as [[[[h bk] trs1] t1]|]; [|done]. cbv zeta.
  destruct (if _ =? _ then _ else _) as [h2 b2]. intros [= <- <- <-].
  match goal with |- same_setup e (if _ then releaseOrderLocked p ?e2 else _) =>
    assert (same_setup e e2) as Hs end.
  { etrans; [|apply setup_settle_all]. by repeat split. }
  destruct (_ || _); [|done]. etrans; [exact Hs|apply setup_release].
Qed.

Lemma setup_cancel id ev e : same_setup e (snd (cancelOrderLocked id ev e)).
Proof.
  unfold cancelOrderLocked. destruct (orders e !! id); [|done].
  destruct (_ && _); [done|]. destruct (final_status _); [done|].
  destruct (markets e !! _); [|done]. destruct (Book _ _); [|done]. simpl.
  etrans; [|apply setup_release]. by repeat split.
Qed.

(** ** Emission inside a command *)

(** [frames m]: [m] returns and leaves the five maps and the setup alone. *)
Definition frames {A} (pid : Z) (m : M A) : Prop := ∀ w, seq_slot (eng w) pid →
  ∃ a w', m w = Some (a, w') ∧ core (eng w') = core (eng w) ∧ same_setup (eng w) (eng w').

Lemma frames_bind {A B} pid (m : M A) (k : A → M B) :
  frames pid m → (∀ a, frames pid (k a)) → frames pid (bind m k).
Proof.
  intros Hm Hk w Hw. destruct (Hm w Hw) as (a & w1 & E1 & C1 & S1).
  destruct (Hk a w1 (seq_slot_setup _ _ _ S1 Hw)) as (c & w2 & E2 & C2 & S2).
  exists c, w2. rewrite (bind_eq _ _ _ _ _ E1). split_and!; [done|congruence|by etrans].
Qed.

Lemma frames_emit pid ty d b : frames pid (emitEventP pid ty d b).
Proof.
  intros w Hw. destruct (emitEventP_frame pid ty d b w Hw) as (err & w' & E & C & S & _).
  by exists err, w'.
Qed.

Lemma frames_ret {A} pid (a : A) : frames pid (ret a).
Proof. intros w _. exists a, w. by split_and!. Qed.

Lemma frames_metrics pid f : frames pid (modify (with_metrics f)).
Proof. intros w _. eexists _, _. by split_and!. Qed.

Lemma frames_if {A} pid (c : bool) (m m' : M A) : frames pid m → frames pid m' → frames pid (if c then m else m').
Proof. by destruct c. Qed.

Hint Resolve frames_emit frames_ret frames_metrics frames_bind frames_if : predix.

Lemma frames_publishTrades pid trs : frames pid (publishTrades pid trs).
Proof.
  induction trs as [|tr trs IH]; simpl; [apply frames_ret|].
  apply frames_bind; [apply frames_metrics|intros _]. apply frames_bind; [apply frames_emit|by intros _].
Qed.

Lemma frames_get_eng pid {A} (k : Engine → M A) : (∀ e, frames pid (k e)) → frames pid (bind get_eng k).
Proof. intros Hk w Hw. by apply (Hk (eng w) w). Qed.

Lemma frames_served {A} pid (m : M A) w :
  frames pid m → ready pid w → ∃ a w', m w = Some (a, w') ∧ served pid 0 w w'.
Proof.
  intros Hf Hr. destruct (Hf w (proj2 Hr)) as (a & w' & E & C & S).
  exists a, w'. split; [done|]. by apply served_core.
Qed.

(** Doing [m] and then something that leaves the maps alone. *)
Lemma served_then {A B} pid d (m : M A) (k : A → M B) w a w1 :
  m w = Some (a, w1) → served pid d w w1 → ready pid w → frames pid (k a) →
  ∃ c w', bind m k w = Some (c, w') ∧ served pid d w w'.
Proof.
  intros E Hs Hr Hk. pose proof (served_ready _ _ _ _ Hs Hr) as Hr1.
  destruct (frames_served pid (k a) w1 Hk Hr1) as (c & w2 & E2 & Hs2).
  exists c, w2. rewrite (bind_eq _ _ _ _ _ E). split; [done|].
  rewrite <- (Z.add_0_r d). by eapply served_trans.
Qed.

(** ** CREATE_ORDER *)

Lemma within_budget_core e e' p t : core e' = core e → within_budget e p t → within_budget e' p t.
Proof. intros (Hh & Hm & _)%core_inv. unfold within_budget. by rewrite Hh, Hm. Qed.

Lemma runMatch_served pid p w :
  ready pid w → pending (eng w) p → (∀ t, within_budget (eng w) p t) →
  ∃ trs w', runMatch p w = Some (trs, w') ∧ served pid 0 w w'.
Proof.
  intros [HI Hslot] HP Hbud.
  destruct (matchOrderLocked_Inv (eng w) p (tick w) HI HP (Hbud _)) as (trs & e' & t' & E & HI' & Ec & Es & _).
  exists trs, (with_tick t' (with_eng (λ _, e') w)). unfold runMatch. rewrite E. split; [done|].
  split; simpl; [done|by eapply setup_match|lia|done].
Qed.

Lemma matchOrder_served pid p w :
  ready pid w → pending (eng w) p → (∀ t, within_budget (eng w) p t) →
  ∃ trs w', matchOrder p pid w = Some (trs, w') ∧ served pid 0 w w'.
Proof.
  intros Hr HP Hbud. destruct (runMatch_served pid p w Hr HP Hbud) as (trs & w1 & E & Hs).
  eapply served_then; [exact E|done|done|]. apply frames_get_eng. intros e.
  apply frames_if; [apply frames_ret|]. apply frames_bind; [auto with predix|intros _].
  apply frames_bind; [apply frames_publishTrades|auto with predix].
Qed.

Lemma emitAndMatch_served pid p w :
  ready pid w → pending (eng w) p → (∀ t, within_budget (eng w) p t) →
  ∃ r w', emitAndMatch pid p w = Some (r, w') ∧ served pid 0 w w'.
Proof.
  intros Hr HP Hbud. unfold emitAndMatch. rewrite (bind_eq get_eng _ w (eng w) w) by done.
  destruct (emitEventP_frame pid EventOrderCreated (JText (order_json (deref (heap (eng w)) p))) false w
    (proj2 Hr)) as (err & w1 & E & C & S & _).
  rewrite (bind_eq _ _ _ _ _ E). pose proof (served_core pid w w1 Hr C S) as Hs1.
  pose proof (served_ready _ _ _ _ Hs1 Hr) as Hr1.
  assert (pending (eng w1) p) as HP1 by (eapply pending_same_ledger; [by apply same_ledger_core|done]).
  destruct err as [err|].
  - destruct (abortOrder_Inv (eng w1) p (proj1 Hr1) HP1) as (HI2 & Ec & Es & _).
    eexists _, _. split; [done|]. rewrite <- (Z.add_0_r 0). eapply served_trans; [exact Hs1|].
    split; simpl; [done|by repeat split|lia|done].
  - destruct (matchOrder_served pid p w1 Hr1 HP1) as (trs & w2 & E2 & Hs2).
    { intros t. by eapply within_budget_core. }
    destruct (served_then pid 0 (matchOrder p pid) (λ _, modify (with_metrics inc_Processed) ;;;
      e <- get_eng ;; let order := deref (heap e) p in
      ret (successJSON (JObj [
        ("filledQuantity", JInt (o_FilledQuantity order)); ("orderId", JStr (o_ID order));
        ("remainingQuantity", JInt (o_RemainingQuantity order)); ("status", JStr (o_Status order))])))
      w1 trs w2 E2 Hs2 Hr1) as (r & w3 & E3 & Hs3).
    { apply frames_bind; [apply frames_metrics|intros _]. apply frames_get_eng. intros e. apply frames_ret. }
    exists r, w3. split; [done|]. rewrite <- (Z.add_0_r 0). by eapply served_trans.
Qed.

(** A request the ledger can serve: the cost of a limit buy fits an [int64],
    and a market buy does not outrun what is locked for it. *)
Definition servable (e : Engine) (req : CreateOrderReq) : Prop :=
  (r_Side req = SideBuy → r_OrderType req = OrderTypeLimit → r_Quantity req * r_Price req ≤ max_int64) ∧
  (∀ id now t, within_budget (registered e (newOrder req id now)) (length (heap e)) t).

(** For limit orders only the cost matters. *)
Lemma servable_limit e req :
  r_OrderType req = OrderTypeLimit → (r_Side req = SideBuy → r_Quantity req * r_Price req ≤ max_int64) →
  servable e req.
Proof.
  intros Ht Hc. split; [auto|]. intros id now t _ Hm. exfalso. revert Hm.
  rewrite (proj1 (registered_frame e (newOrder req id now))), deref_app_r. simpl. by rewrite Ht.
Qed.

Lemma placeOrder_served pid req id now w :
  ready pid w → req_in_range req → servable (eng w) req →
  ∃ r w', placeOrder pid (newOrder req id now) w = Some (r, w') ∧ served pid 0 w w'.
Proof.
  intros Hr Hin [Hcost Hbud]. unfold placeOrder.
  destruct (validateOrder (newOrder req id now)) as [err|] eqn:Hv.
  { eexists _, _. split; [done|]. by apply served_refl. }
  pose proof (validate_placeable req id now Hin Hv) as Hpl.
  assert (cost_in_range (newOrder req id now)) as Hc by exact Hcost.
  rewrite (bind_eq get_eng _ w (eng w) w) by done.
  pose proof (setup_register (newOrder req id now) (eng w)) as Hset.
  destruct Hr as [HI Hslot].
  destruct (registerOrder_cases (eng w) _ HI Hpl Hc) as
    [(p & _ & Eq)|[(_ & err & e1 & Eq & Hs)|(Hnew & Hav & _ & Eq)]]; rewrite Eq in Hset |- *; simpl in Hset.
  - eexists _, _. split; [done|]. by apply served_eng.
  - eexists _, _. split; [done|]. apply served_section; [done| |done| |].
    + by eapply Inv_same_ledger.
    + rewrite (sl_cash _ _ Hs). lia.
    + apply (sl_shares _ _ Hs).
  - destruct (registered_Inv (eng w) _ HI Hpl Hc Hnew Hav) as [HI' HP].
    destruct (registered_frame (eng w) (newOrder req id now)) as (_ & _ & _ & Ec & Es).
    set (w1 := with_eng (λ _, registered (eng w) (newOrder req id now)) w).
    assert (served pid 0 w w1) as Hs1 by (apply served_section; [done|done|done|lia|done]).
    destruct (emitAndMatch_served pid (length (heap (eng w))) w1) as (r & w2 & E2 & Hs2); [|done| |].
    { by eapply served_ready. }
    { intros t. apply Hbud. }
    exists r, w2. split; [exact E2|]. rewrite <- (Z.add_0_r 0). by eapply served_trans.
Qed.

Lemma served_quiet {A} pid (m : M A) w :
  quiet m → ready pid w → ∃ a w', m w = Some (a, w') ∧ eng w' = eng w ∧ served pid 0 w w'.
Proof.
  intros Hq Hr. destruct (Hq w) as (a & w' & E & He & _). exists a, w'.
  split_and!; [done|done|by apply served_eng].
Qed.

Lemma handleCreateOrderCore_served pid payload w :
  ready pid w →
  (∀ req, unmarshal_createOrder payload = Some req → servable (eng w) req) →
  ∃ r w', handleCreateOrderCore pid payload w = Some (r, w') ∧ served pid 0 w w'.
Proof.
  intros Hr Hsv. unfold handleCreateOrderCore.
  destruct (unmarshal_createOrder payload) as [req|] eqn:Hu.
  2:{ eexists _, _. split; [done|]. by apply served_refl. }
  specialize (Hsv req eq_refl). apply unmarshal_createOrder_range in Hu.
  assert (quiet (if r_OrderID req =s "" then next_uuid else ret (r_OrderID req))) as Hq1.
  { destruct (_ =s _); [apply quiet_next_uuid|apply quiet_ret]. }
  destruct (served_quiet pid _ w Hq1 Hr) as (id & w1 & E1 & He1 & Hs1). rewrite (bind_eq _ _ _ _ _ E1).
  destruct (_ <=? 0); [by eexists _, _|].
  pose proof (served_ready _ _ _ _ Hs1 Hr) as Hr1.
  destruct (served_quiet pid next_time w1 quiet_next_time Hr1) as (now & w2 & E2 & He2 & Hs2).
  rewrite (bind_eq _ _ _ _ _ E2). pose proof (served_ready _ _ _ _ Hs2 Hr1) as Hr2.
  destruct (placeOrder_served pid req id now w2 Hr2 Hu) as (r & w3 & E3 & Hs3).
  { by rewrite He2, He1. }
  exists r, w3. split; [done|]. rewrite <- (Z.add_0_r 0). eapply served_trans; [exact Hs1|].
  rewrite <- (Z.add_0_r 0). by eapply served_trans.
Qed.

Lemma handleCreateOrderP_served pid payload w :
  ready pid w →
  (∀ req, unmarshal_createOrder payload = Some req → servable (eng w) req) →
  ∃ r w', handleCreateOrderP pid payload w = Some (r, w') ∧ served pid 0 w w'.
Proof.
  intros Hr Hsv. destruct (handleCreateOrderCore_served pid payload w Hr Hsv) as (r & w1 & E & Hs).
  eapply served_then; [exact E|done|done|]. apply frames_get_eng. intros e. auto 6 with predix.
Qed.

(** ** CANCEL_ORDER *)

Lemma handleCancelOrderP_served pid payload w :
  ready pid w → ∃ r w', handleCancelOrderP pid payload w = Some (r, w') ∧ served pid 0 w w'.
Proof.
  intros Hr. unfold handleCancelOrderP.
  assert (∀ msg, ∃ r w', ret (failure msg) w = Some (r, w') ∧ served pid 0 w w') as Hfail.
  { intros msg. eexists _, _. split; [done|]. by apply served_refl. }
  destruct (unmarshal_strings _ payload) as [[|id [|ev [|]]]|]; try apply Hfail.
  destruct (id =s ""); [apply Hfail|]. rewrite (bind_eq get_eng _ w (eng w) w) by done.
  pose proof (cancelOrderLocked_Inv (eng w) id ev (proj1 Hr)) as Hc.
  pose proof (setup_cancel id ev (eng w)) as Hset.
  destruct (cancelOrderLocked id ev (eng w)) as [res e1]. destruct Hc as (Hnp & HI & Ec & Es & _). simpl in Hset.
  assert (served pid 0 w (with_eng (λ _, e1) w)) as Hs1 by (apply served_section; [done|done|done|lia|done]).
  eapply (served_then pid 0 (put_eng e1)); [done|done|done|].
  destruct res as [err| |p]; [apply frames_ret|done|].
  apply frames_bind; [auto with predix|intros _]. apply frames_bind; auto with predix.
Qed.

(** ** The other commands *)

Lemma handleUserCreated_served pid payload w :
  ready pid w → cash (eng w) + DefaultStartingBalance ≤ max_int64 →
  ∃ r w' d, handleUserCreated payload w = Some (r, w') ∧ served pid d w w' ∧
    (d = 0 ∨ d = DefaultStartingBalance).
Proof.
  intros Hr Hc. unfold handleUserCreated.
  assert (∀ msg, ∃ r w' d, ret (failure msg) w = Some (r, w') ∧ served pid d w w' ∧
    (d = 0 ∨ d = DefaultStartingBalance)) as Hfail.
  { intros msg. eexists _, _, 0. split_and!; [done|by apply served_refl|by left]. }
  destruct (unmarshal_strings _ payload) as [[|u [|]]|]; try apply Hfail.
  destruct (u =s ""); [apply Hfail|].
  destruct (createUserLocked_Inv (eng w) u (proj1 Hr) Hc) as (HI & Es & Ec & _).
  eexists _, _, _. split_and!; [done|apply served_section; [done|done| |exact Ec|done]|].
  - unfold createUserLocked. destruct (_ !! _); by repeat split.
  - case_decide; auto.
Qed.

Lemma handleCreateEvent_served pid payload w :
  ready pid w → ∃ r w', handleCreateEvent payload w = Some (r, w') ∧ served pid 0 w w'.
Proof.
  intros Hr. unfold handleCreateEvent.
  assert (∀ msg, ∃ r w', ret (failure msg) w = Some (r, w') ∧ served pid 0 w w') as Hfail.
  { intros msg. eexists _, _. split; [done|]. by apply served_refl. }
  destruct (unmarshal_strings _ payload) as [[|ev [|]]|]; try apply Hfail.
  destruct (ev =s ""); [apply Hfail|]. rewrite (bind_eq get_eng _ w (eng w) w) by done.
  destruct (createEventLocked_Inv (eng w) ev (proj1 Hr)) as (HI & Es & Ec & _).
  assert (same_setup (eng w) (snd (createEventLocked ev (eng w)))) as Hset.
  { unfold createEventLocked. destruct (_ !! _); by repeat split. }
  destruct (createEventLocked ev (eng w)) as [st e1]; simpl in *.
  eexists _, _. split; [done|]. apply served_section; [done|done|done|lia|done].
Qed.

Lemma handleGetDepth_eng payload w :
  ∃ r w', handleGetDepth payload w = Some (r, w') ∧ eng w' = eng w ∧ metrics w' = metrics w ∧
    xlog w' = xlog w ∧ published w' = published w ∧ journal w' = journal w.
Proof.
  unfold handleGetDepth. destruct (unmarshal_strings _ payload) as [[|ev [|]]|]; try by eexists _, _.
  rewrite (bind_eq get_eng _ w (eng w) w) by done. destruct (markets (eng w) !! ev); by eexists _, _.
Qed.

Lemma handleGetOpenOrders_eng payload w :
  ∃ r w', handleGetOpenOrders payload w = Some (r, w') ∧ eng w' = eng w ∧ metrics w' = metrics w ∧
    xlog w' = xlog w ∧ published w' = published w ∧ journal w' = journal w.
Proof.
  unfold handleGetOpenOrders.
  destruct (unmarshal_strings _ payload) as [[|ev [|us [|]]]|]; try by eexists _, _.
Qed.

(** ** Dispatch *)

(** The conditions under which a command is served exactly. *)
Definition admissible (w : World) (msg : MessageToEngine) : Prop :=
  (msg_Type msg = CreateOrderCommand → ∀ req,
     unmarshal_createOrder (msg_Payload msg) = Some req → servable (eng w) req) ∧
  (msg_Type msg = UserCreatedCommand → cash (eng w) + DefaultStartingBalance ≤ max_int64).

Lemma handleMessage_served pid msg w :
  ready pid w → admissible w msg →
  ∃ r w' d, handleMessage pid msg w = Some (r, w') ∧ served pid d w w' ∧
    (d = 0 ∨ msg_Type msg = UserCreatedCommand ∧ d = DefaultStartingBalance).
Proof.
  intros Hr [Hcr Hus]. unfold handleMessage.
  assert (∀ m : M EngineResponse, (∃ r w', m w = Some (r, w') ∧ served pid 0 w w') →
    ∃ r w' d, m w = Some (r, w') ∧ served pid d w w' ∧
    (d = 0 ∨ msg_Type msg = UserCreatedCommand ∧ d = DefaultStartingBalance)) as Hz.
  { intros m (r & w' & E & Hs). exists r, w', 0. auto. }
  seq_case; [apply Hz, handleCreateOrderP_served; auto|].
  seq_case; [apply Hz, handleCancelOrderP_served; auto|].
  seq_case. { apply Hz. destruct (handleGetDepth_eng (msg_Payload msg) w) as (r & w' & E & He & _).
              exists r, w'. split; [done|]. by apply served_eng. }
  seq_case. { apply Hz. destruct (handleGetOpenOrders_eng (msg_Payload msg) w) as (r & w' & E & He & _).
              exists r, w'. split; [done|]. by apply served_eng. }
  seq_case; [apply Hz, handleCreateEvent_served; auto|].
  seq_case.
  - destruct (handleUserCreated_served pid (msg_Payload msg) w Hr) as (r & w' & d & E & Hs & Hd); [auto|].
    exists r, w', d. split_and!; [done|done|]. naive_solver.
  - apply Hz. eexists _, _. split; [done|]. by apply served_refl.
Qed.
End commanding.
