(* ===== verification/Determinism.v ===== *)
(** The engine as a deterministic state machine over its command log.

    The books, the order table and the ledger depend on the commands alone, up
    to the time stamps of orders: [apply] is that machine, as a pure function,
    and a live run without I/O failures and a replay both implement it.  So
    replaying the log reconstructs the state.

    [norm] forgets what the machine does not determine: the time stamps and the
    configuration of the process. *)

From S2P Require Import Prelude Json Types Router State Ledger Matching Sweep.
From S2P Require Import Events Outbox Depth Commands Handlers Replay.
Local Open Scope Z_scope.
Local Open Scope i64_scope.

(** ** Forgetting time *)

Definition scrubO (o : Order) : Order :=
  mkOrder (o_ID o) (o_EventID o) (o_UserID o) (o_OrderType o) (o_Outcome o) (o_Side o)
    (o_Quantity o) (o_FilledQuantity o) (o_RemainingQuantity o) (o_Price o) (o_Status o)
    (o_LockedFunds o) 0.

Definition scrubT (t : Trade) : Trade :=
  mkTrade "" (t_OrderID t) (t_MatchOrderID t) (t_EventID t) (t_Outcome t) (t_BuyerID t)
    (t_SellerID t) (t_TakerSide t) (t_Quantity t) (t_Price t) 0.

Definition norm (e : Engine) : Engine :=
  mkEngine (scrubO <$> heap e) (markets e) (orders e) (balances e) (positions e)
    false "" 0 0 (mkRouter 0 "") [] ∅ ∅ ∅ "" "".

Lemma scrubO_idemp o : scrubO (scrubO o) = scrubO o.
Proof. done. Qed.

Lemma norm_idemp e : norm (norm e) = norm e.
Proof.
  unfold norm; simpl. f_equal. rewrite <- list_fmap_compose. by apply list_fmap_ext.
Qed.

Lemma norm_core e e' : core e = core e' → norm e = norm e'.
Proof. unfold core, norm. intros Heq. by injection Heq as -> -> -> -> ->. Qed.

Lemma deref_scrub h p : deref (scrubO <$> h) p = scrubO (deref h p).
Proof. unfold deref. rewrite list_lookup_fmap. by destruct (h !! p). Qed.

Lemma store_scrub p f h :
  (∀ o, scrubO (f o) = f (scrubO o)) → store p f (scrubO <$> h) = scrubO <$> store p f h.
Proof.
  intros Hf. unfold store. apply list_eq. intros i. rewrite list_lookup_fmap.
  destruct (decide (p = i)) as [->|].
  - rewrite !list_lookup_alter_eq, list_lookup_fmap. destruct (h !! i); simpl; [|done]. by rewrite Hf.
  - by rewrite !list_lookup_alter_ne, list_lookup_fmap by done.
Qed.

(** ** The ledger *)

Lemma norm_getOrCreateBalance u e :
  getOrCreateBalance u (norm e) = let '(b, e') := getOrCreateBalance u e in (b, norm e').
Proof. unfold getOrCreateBalance; simpl. by destruct (balances e !! u). Qed.

Lemma norm_getOrCreatePosition u ev oc e :
  getOrCreatePosition u ev oc (norm e) =
    let '(b, e') := getOrCreatePosition u ev oc e in (b, norm e').
Proof. unfold getOrCreatePosition; simpl. by destruct (positions e !! _). Qed.

Lemma norm_reserve o e :
  reserveOrderLocked (scrubO o) (norm e) =
    let '(err, o', e') := reserveOrderLocked o e in (err, scrubO o', norm e').
Proof.
  unfold reserveOrderLocked; simpl. destruct (_ =s _).
  - rewrite norm_getOrCreateBalance. destruct (getOrCreateBalance _ e) as [b e'].
    by destruct (_ <? _).
  - rewrite norm_getOrCreatePosition. destruct (getOrCreatePosition _ _ _ e) as [b e'].
    by destruct (_ <? _).
Qed.

Lemma norm_unlockFill c q id e : unlockFill c q id (norm e) = norm (unlockFill c q id e).
Proof.
  unfold unlockFill; simpl. destruct (orders e !! id); [|done].
  unfold norm, with_heap; simpl. by rewrite store_scrub.
Qed.

Lemma norm_settle t e : settleTradeLocked t (norm e) = norm (settleTradeLocked t e).
Proof.
  unfold settleTradeLocked. rewrite norm_getOrCreateBalance.
  destruct (getOrCreateBalance (t_BuyerID t) e) as [b1 e1].
  change (putBalance ?u ?b (norm e1)) with (norm (putBalance u b e1)). rewrite norm_getOrCreatePosition.
  destruct (getOrCreatePosition (t_BuyerID t) _ _ _) as [p1 e2].
  change (putPosition ?u ?b (norm e2)) with (norm (putPosition u b e2)). rewrite norm_getOrCreateBalance.
  destruct (getOrCreateBalance (t_SellerID t) _) as [b2 e3].
  change (putBalance ?u ?b (norm e3)) with (norm (putBalance u b e3)). rewrite norm_getOrCreatePosition.
  destruct (getOrCreatePosition (t_SellerID t) _ _ _) as [p2 e4].
  change (putPosition ?u ?b (norm e4)) with (norm (putPosition u b e4)).
  by rewrite !norm_unlockFill.
Qed.

Lemma norm_settle_all ts e :
  foldl (λ e trade, settleTradeLocked trade e) (norm e) (scrubT <$> ts) =
  norm (foldl (λ e trade, settleTradeLocked trade e) e ts).
Proof.
  revert e. induction ts as [|t ts IH]; intros e; simpl; [done|].
  change (settleTradeLocked (scrubT t) ?e) with (settleTradeLocked t e). by rewrite norm_settle, IH.
Qed.

Lemma norm_release p e : releaseOrderLocked p (norm e) = norm (releaseOrderLocked p e).
Proof.
  unfold releaseOrderLocked; simpl. rewrite deref_scrub; simpl.
  destruct (_ <=? 0); [done|]. destruct (_ =s _).
  - rewrite norm_getOrCreateBalance. destruct (getOrCreateBalance _ e) as [b e1].
    unfold norm, with_heap, putBalance, with_balances; simpl. by rewrite store_scrub.
  - rewrite norm_getOrCreatePosition. destruct (getOrCreatePosition _ _ _ e) as [b e1].
    unfold norm, with_heap, putPosition, with_positions; simpl. by rewrite store_scrub.
Qed.

(** ** The books *)

Lemma stable_sort_ext {A} (f g : A → A → bool) l :
  (∀ x y, f x y = g x y) → stable_sort f l = stable_sort g l.
Proof.
  intros Hfg. induction l as [|x l IH]; simpl; [done|]. rewrite IH.
  generalize (stable_sort g l). intros k. induction k as [|y k IHk]; simpl; [done|].
  rewrite Hfg, IHk. done.
Qed.

Lemma addToBook_scrub h b p : addToBook (scrubO <$> h) b p = addToBook h b p.
Proof.
  unfold addToBook. rewrite deref_scrub; simpl. destruct (_ =s _); f_equal; apply stable_sort_ext;
    intros i j; by rewrite !deref_scrub.
Qed.

Lemma removeOrderFromSlice_scrub h l id :
  removeOrderFromSlice (scrubO <$> h) l id = removeOrderFromSlice h l id.
Proof. induction l as [|q l IH]; simpl; [done|]. by rewrite deref_scrub, IH. Qed.

Lemma findCounterparty_scrub h l o :
  findCounterparty (scrubO <$> h) l (scrubO o) = findCounterparty h l o.
Proof. induction l as [|q l IH]; simpl; [done|]. by rewrite deref_scrub, IH. Qed.

Lemma dropStale_scrub h l : dropStale (scrubO <$> h) l = dropStale h l.
Proof. induction l as [|q l IH]; simpl; [done|]. by rewrite deref_scrub, IH. Qed.

(** What of a matching state the log determines. *)
Definition viewMS (s : MatchState) : list Order * list nat * list Trade :=
  (scrubO <$> ms_heap s, ms_side s, scrubT <$> ms_trades s).

Section two_runs.
Context (E1 E2 : Environment).

Lemma executePair_view p i s1 s2 :
  viewMS s1 = viewMS s2 → viewMS (@executePair E1 p i s1) = viewMS (@executePair E2 p i s2).
Proof.
  destruct s1 as [h1 l1 ts1 n1], s2 as [h2 l2 ts2 n2]. unfold viewMS; simpl. intros Heq.
  injection Heq as Hh <- Hts. unfold executePair; simpl.
  assert (∀ r, scrubO (deref h1 r) = scrubO (deref h2 r)) as Hd.
  { intros r. by rewrite <- !deref_scrub, Hh. }
  assert (∀ r f, (∀ o, scrubO (f o) = f (scrubO o)) → ∀ k1 k2, scrubO <$> k1 = scrubO <$> k2 →
    scrubO <$> store r f k1 = scrubO <$> store r f k2) as Hst.
  { intros r f Hf k1 k2 Hk. by rewrite <- !store_scrub, Hk. }
  assert (∀ r k1 k2, scrubO <$> k1 = scrubO <$> k2 →
    o_RemainingQuantity (deref k1 r) = o_RemainingQuantity (deref k2 r)) as Hrem.
  { intros r k1 k2 Hk. assert (scrubO (deref k1 r) = scrubO (deref k2 r)) as Ek by (by rewrite <- !deref_scrub, Hk).
    by apply (f_equal o_RemainingQuantity) in Ek. }
  set (q := default 0%nat (l1 !! i)). rewrite (Hrem p h1 h2 Hh), (Hrem q h1 h2 Hh).
  destruct (_ <=? 0); simpl; [by rewrite Hh, Hts|].
  match goal with |- context [store q ?F (store p ?F h1)] => set (G := F) end.
  assert (scrubO <$> store q G (store p G h1) = scrubO <$> store q G (store p G h2)) as HG.
  { apply Hst; [done|]. by apply Hst. }
  assert (∀ n, scrubT (@buildTrade E1 (deref h1 p) (deref h1 q) n n1) =
               scrubT (@buildTrade E2 (deref h2 p) (deref h2 q) n n2)) as Htr.
  { intros n. change (scrubT (@buildTrade E1 ?a ?b n n1)) with (scrubT (@buildTrade E1 (scrubO a) (scrubO b) n n1)).
    by rewrite !Hd. }
  rewrite (Hrem q _ _ HG).
  destruct (_ <=? 0); simpl; rewrite !fmap_app, Hts; simpl; rewrite Htr;
    (erewrite Hst; [reflexivity|done|exact HG]).
Qed.

(** Orders and lists that agree up to time stamps. *)
Lemma same_deref h1 h2 r :
  scrubO <$> h1 = scrubO <$> h2 → scrubO (deref h1 r) = scrubO (deref h2 r).
Proof. intros Hh. by rewrite <- !deref_scrub, Hh. Qed.

Lemma same_find h1 h2 l p :
  scrubO <$> h1 = scrubO <$> h2 →
  findCounterparty h1 l (deref h1 p) = findCounterparty h2 l (deref h2 p).
Proof.
  intros Hh. rewrite <- (findCounterparty_scrub h1), <- (findCounterparty_scrub h2).
  by rewrite Hh, (same_deref h1 h2 p Hh).
Qed.

Lemma matchStep_view p s1 s2 :
  viewMS s1 = viewMS s2 → viewMS <$> @matchStep E1 p s1 = viewMS <$> @matchStep E2 p s2.
Proof.
  intros Hv. pose proof Hv as Hv'. unfold viewMS in Hv'. injection Hv' as Hh Hl Hts. unfold matchStep.
  rewrite Hl, (same_find _ _ _ p Hh). destruct (ms_side s2); [done|].
  destruct (findCounterparty _ _ _); [|done]. simpl. f_equal. by apply executePair_view.
Qed.

Definition viewR (r : list Order * OrderBook * list Trade * nat) : list Order * OrderBook * list Trade :=
  (scrubO <$> r.1.1.1, r.1.1.2, scrubT <$> r.1.2).

Lemma same_taker h1 h2 p : scrubO <$> h1 = scrubO <$> h2 →
  o_RemainingQuantity (deref h1 p) = o_RemainingQuantity (deref h2 p) ∧
  o_FilledQuantity (deref h1 p) = o_FilledQuantity (deref h2 p) ∧
  o_Side (deref h1 p) = o_Side (deref h2 p) ∧
  o_OrderType (deref h1 p) = o_OrderType (deref h2 p) ∧
  o_EventID (deref h1 p) = o_EventID (deref h2 p) ∧
  o_Outcome (deref h1 p) = o_Outcome (deref h2 p) ∧
  o_Status (deref h1 p) = o_Status (deref h2 p).
Proof.
  intros Hh. pose proof (same_deref h1 h2 p Hh) as Hd. unfold scrubO in Hd. by injection Hd.
Qed.

Lemma matchLoop_view fuel p : ∀ b h1 h2 ts1 ts2 n1 n2,
  scrubO <$> h1 = scrubO <$> h2 → scrubT <$> ts1 = scrubT <$> ts2 →
  viewR <$> @matchLoop E1 fuel p b h1 ts1 n1 = viewR <$> @matchLoop E2 fuel p b h2 ts2 n2.
Proof.
  induction fuel as [|fuel IH]; intros b h1 h2 ts1 ts2 n1 n2 Hh Hts; simpl; [done|].
  destruct (same_taker h1 h2 p Hh) as (-> & _ & -> & _).
  assert (∀ l, dropStale h1 l = dropStale h2 l) as Hds.
  { intros l. by rewrite <- dropStale_scrub, Hh, dropStale_scrub. }
  destruct (0 <? _); [|unfold viewR; simpl; by rewrite Hh, Hts].
  unfold removeInvalidAsks, removeInvalidBids. rewrite !Hds.
  assert (∀ l, viewMS (mkMS h1 l ts1 n1) = viewMS (mkMS h2 l ts2 n2)) as Hv.
  { intros l. unfold viewMS; simpl. by rewrite Hh, Hts. }
  destruct (_ =s _); simpl.
  - pose proof (matchStep_view p _ _ (Hv (dropStale h2 (Asks b)))) as Hm.
    destruct (@matchStep E1 p _) as [s1|], (@matchStep E2 p _) as [s2|]; simpl in Hm; try done.
    + injection Hm as H1 H2 H3. rewrite H2. by apply IH.
    + unfold viewR; simpl. by rewrite Hh, Hts.
  - pose proof (matchStep_view p _ _ (Hv (dropStale h2 (Bids b)))) as Hm.
    destruct (@matchStep E1 p _) as [s1|], (@matchStep E2 p _) as [s2|]; simpl in Hm; try done.
    + injection Hm as H1 H2 H3. rewrite H2. by apply IH.
    + unfold viewR; simpl. by rewrite Hh, Hts.
Qed.

(** The critical sections, run in two processes. *)
Definition viewM (r : list Trade * Engine * nat) : list Trade * Engine := (scrubT <$> r.1.1, norm r.1.2).

Lemma norm_inv e1 e2 : norm e1 = norm e2 →
  scrubO <$> heap e1 = scrubO <$> heap e2 ∧ markets e1 = markets e2 ∧ orders e1 = orders e2 ∧
  balances e1 = balances e2 ∧ positions e1 = positions e2.
Proof. unfold norm. intros Heq. by injection Heq. Qed.

Lemma norm_with_heap e1 e2 h1 h2 :
  norm e1 = norm e2 → scrubO <$> h1 = scrubO <$> h2 →
  norm (with_heap (λ _, h1) e1) = norm (with_heap (λ _, h2) e2).
Proof. intros (_&Hm&Ho&Hb&Hp)%norm_inv Hh. unfold norm; simpl. by rewrite Hh, Hm, Ho, Hb, Hp. Qed.

Lemma norm_store e1 e2 p f :
  norm e1 = norm e2 → (∀ o, scrubO (f o) = f (scrubO o)) →
  norm (with_heap (store p f) e1) = norm (with_heap (store p f) e2).
Proof.
  intros He Hf. pose proof (norm_inv _ _ He) as (Hh & Hm & Ho & Hb & Hp).
  unfold norm; simpl. by rewrite <- !store_scrub, Hh, Hm, Ho, Hb, Hp.
Qed.

Lemma norm_markets e1 e2 ev m :
  norm e1 = norm e2 → norm (with_markets (<[ev := m]>) e1) = norm (with_markets (<[ev := m]>) e2).
Proof. intros (Hh&Hm&Ho&Hb&Hp)%norm_inv. unfold norm; simpl. by rewrite Hh, Hm, Ho, Hb, Hp. Qed.

(** The end of [matchOrderLocked]: final status and entry into the book. *)
Definition finish (p : nat) (h : list Order) (book : OrderBook) : list Order * OrderBook :=
  let order := deref h p in
  if o_RemainingQuantity order =? 0 then (store p (set_Status StatusFilled) h, book)
  else if 0 <? o_FilledQuantity order then
    if o_OrderType order =s OrderTypeLimit then
      let h := store p (set_Status StatusPartial) h in (h, addToBook h book p)
    else (store p (set_Status StatusCanceled) h, book)
  else if o_OrderType order =s OrderTypeMarket then (store p (set_Status StatusCanceled) h, book)
  else let h := store p (set_Status StatusPending) h in (h, addToBook h book p).

Lemma finish_view p h1 h2 b :
  scrubO <$> h1 = scrubO <$> h2 →
  scrubO <$> (finish p h1 b).1 = scrubO <$> (finish p h2 b).1 ∧ (finish p h1 b).2 = (finish p h2 b).2.
Proof.
  intros Hh. unfold finish. destruct (same_taker h1 h2 p Hh) as (-> & -> & _ & -> & _).
  assert (∀ s, scrubO <$> store p (set_Status s) h1 = scrubO <$> store p (set_Status s) h2) as Hs.
  { intros s. by rewrite <- !store_scrub, Hh by done. }
  assert (∀ s, addToBook (store p (set_Status s) h1) b p = addToBook (store p (set_Status s) h2) b p) as Ha.
  { intros s. rewrite <- (addToBook_scrub (store _ _ h1)), <- (addToBook_scrub (store _ _ h2)). by rewrite Hs. }
  repeat case_match; simpl; auto.
Qed.

Lemma matchOrderLocked_view p e1 e2 n1 n2 :
  norm e1 = norm e2 →
  viewM <$> @matchOrderLocked E1 p e1 n1 = viewM <$> @matchOrderLocked E2 p e2 n2.
Proof.
  intros He. pose proof (norm_inv _ _ He) as (Hh & Hm & Ho & Hb & Hp). unfold matchOrderLocked.
  destruct (same_taker _ _ p Hh) as (_ & _ & _ & _ & -> & -> & ->).
  destruct (_ =s StatusCanceled); [unfold viewM; simpl; by rewrite He|]. rewrite Hm.
  assert (norm (with_heap (store p (set_Status StatusRejected)) e1) =
          norm (with_heap (store p (set_Status StatusRejected)) e2)) as Hrej by (by apply norm_store).
  destruct (markets e2 !! _) as [m|]; [|unfold viewM; simpl; by rewrite Hrej].
  destruct (Book m _) as [b|]; [|unfold viewM; simpl; by rewrite Hrej].
  pose proof (matchLoop_view (matchFuel b) p b _ _ [] [] n1 n2 Hh eq_refl) as Hl. unfold matchAgainstBook.
  destruct (@matchLoop E1 _ _ _ _ _ _) as [[[[h1 b1] ts1] t1]|], (@matchLoop E2 _ _ _ _ _ _) as [[[[h2 b2] ts2] t2]|];
    simpl in Hl; try done. unfold viewR in Hl; simpl in Hl. injection Hl as Hh' <- Hts.
  cbv zeta. fold (finish p h1 b1) (finish p h2 b1).
  destruct (finish_view p h1 h2 b1 Hh') as [Hf1 Hf2].
  destruct (finish p h1 b1) as [k1 c1], (finish p h2 b1) as [k2 c2]. simpl in Hf1, Hf2. subst c2.
  destruct (same_taker h1 h2 p Hh') as (_ & _ & _ & _ & -> & -> & _).
  set (f1 := with_markets _ (with_heap (λ _, k1) e1)). set (f2 := with_markets _ (with_heap (λ _, k2) e2)).
  assert (norm f1 = norm f2) as Hf by (by apply norm_markets, norm_with_heap).
  assert (norm (foldl (λ e trade, settleTradeLocked trade e) f1 ts1) =
          norm (foldl (λ e trade, settleTradeLocked trade e) f2 ts2)) as Hg.
  { by rewrite <- !norm_settle_all, Hf, Hts. }
  set (g1 := foldl _ f1 ts1) in *. set (g2 := foldl _ f2 ts2) in *.
  destruct (same_taker _ _ p (proj1 (norm_inv _ _ Hg))) as (_ & _ & _ & _ & _ & _ & ->).
  destruct (_ || _); simpl; unfold viewM; simpl; rewrite Hts, <- ?norm_release, Hg; done.
Qed.
End two_runs.
