(* ===== verification/StateMachine.v ===== *)
(** The command log as the specification of the engine's state.

    [apply] is the engine as a deterministic machine: one command in, one state
    out, no clock, no ids, no I/O.  [handleMessage] implements it in every mode
    in which events are emitted without an error ([EmissionMode]): a partition
    that replays its log emits nothing, and a live partition whose outbox and
    Redis work emits everything. *)

From S2P Require Import Prelude Json Types Router State Ledger Matching Sweep.
From S2P Require Import Events Outbox Depth Commands Handlers Replay.
From S2P Require Import Invariant Settle Register Match Sections Commanding Determinism.
Local Open Scope Z_scope.

(** ** The machine *)

(** It asks the environment nothing that matters. *)
Definition logEnv : Environment := {|
  uuid_NewString _ := "";
  time_Now _ := 0;
  io_ok _ := true; io_lost _ := 0%nat;
  map_range A _ l := l
|}.

Definition applyMatch (p : nat) (e : Engine) : option Engine :=
  (λ r, norm r.1.2) <$> @matchOrderLocked logEnv p e 0.

Definition applyPlace (order : Order) (e : Engine) : option Engine :=
  match validateOrder order with
  | Some _ => Some e
  | None =>
      match registerOrder order e with
      | (RegOK p, e) => applyMatch p e
      | (_, e) => Some e
      end
  end.

Definition applyCreateOrder (payload : json_text) (e : Engine) : option Engine :=
  match unmarshal_createOrder payload with
  | None => Some e
  | Some req =>
      if r_Quantity req <=? 0 then Some e else applyPlace (newOrder req (r_OrderID req) 0) e
  end.

Definition applyCancelOrder (payload : json_text) (e : Engine) : option Engine :=
  match unmarshal_strings ["orderId"; "eventId"] payload with
  | Some [orderID; eventID] =>
      if orderID =s "" then Some e
      else match cancelOrderLocked orderID eventID e with
           | (CancelPanics, _) => None
           | (_, e) => Some e
           end
  | _ => Some e
  end.

Definition applyCreateEvent (payload : json_text) (e : Engine) : option Engine :=
  match unmarshal_strings ["eventId"] payload with
  | Some [eventID] => Some (if eventID =s "" then e else snd (createEventLocked eventID e))
  | _ => Some e
  end.

Definition applyUserCreated (payload : json_text) (e : Engine) : option Engine :=
  match unmarshal_strings ["userId"] payload with
  | Some [userID] => Some (if userID =s "" then e else createUserLocked userID e)
  | _ => Some e
  end.

Definition apply (msg : MessageToEngine) (e : Engine) : option Engine :=
  if msg_Type msg =s CreateOrderCommand then applyCreateOrder (msg_Payload msg) e
  else if msg_Type msg =s CancelOrderCommand then applyCancelOrder (msg_Payload msg) e
  else if msg_Type msg =s GetDepthCommand then Some e
  else if msg_Type msg =s GetOpenOrdersCommand then Some e
  else if msg_Type msg =s CreateEventCommand then applyCreateEvent (msg_Payload msg) e
  else if msg_Type msg =s UserCreatedCommand then applyUserCreated (msg_Payload msg) e
  else Some e.

(** A whole log. *)
Fixpoint applyAll (msgs : list MessageToEngine) (e : Engine) : option Engine :=
  match msgs with
  | [] => Some e
  | msg :: msgs =>
      match apply msg e with
      | None => None
      | Some e => applyAll msgs e
      end
  end.

(** The gateway always chooses the order id: an order command without one would
    get a fresh id from the engine, another one at every replay. *)
Definition identified (msg : MessageToEngine) : Prop :=
  msg_Type msg = CreateOrderCommand →
  ∀ req, unmarshal_createOrder (msg_Payload msg) = Some req → r_OrderID req ≠ "".

(** ** Sections in normal form *)

Lemma registerOrder_norm o e :
  let '(r, e') := registerOrder o e in
  ∃ r', registerOrder (scrubO o) (norm e) = (r', norm e') ∧
    match r, r' with
    | RegOK p, RegOK p' => p = p'
    | RegFailed x, RegFailed x' => x = x'
    | RegExisting a, RegExisting a' => scrubO a = scrubO a'
    | _, _ => False
    end.
Proof.
  unfold registerOrder; simpl. destruct (orders e !! o_ID o) as [p|].
  { eexists. split; [done|]. by rewrite deref_scrub, scrubO_idemp. }
  destruct (markets e !! o_EventID o); [|by eexists].
  rewrite norm_reserve. destruct (reserveOrderLocked o e) as [[err o'] e'].
  destruct err as [err|]; [by eexists|]. simpl. rewrite length_fmap.
  exists (RegOK (length (heap e'))). split; [|done].
  f_equal. unfold norm, with_orders, with_heap; simpl. by rewrite fmap_app.
Qed.

Lemma cancelOrderLocked_norm id ev e :
  cancelOrderLocked id ev (norm e) = let '(r, e') := cancelOrderLocked id ev e in (r, norm e').
Proof.
  unfold cancelOrderLocked; simpl. destruct (orders e !! id) as [p|]; [|done].
  rewrite deref_scrub; simpl. destruct (_ && _); [done|]. destruct (final_status _); [done|].
  destruct (markets e !! _) as [m|]; [|done]. destruct (Book m _) as [b|]; [|done].
  rewrite !removeOrderFromSlice_scrub. f_equal. rewrite <- norm_release. f_equal.
  unfold norm, with_heap, with_markets; simpl. by rewrite store_scrub.
Qed.

(** ** Modes of emission *)

Section machine.
Context `{Environment} (pid : Z).

Class EmissionMode (mode : World → Prop) : Prop := {
  mode_emit : ∀ w ty d b, mode w → ∃ w', emitEventP pid ty d b w = Some (None, w') ∧
    core (eng w') = core (eng w) ∧ mode w';
  mode_section : ∀ w e', mode w → same_setup (eng w) e' → mode (with_eng (λ _, e') w);
  mode_quiet : ∀ w w', eng w' = eng w → outboxOpen w' = outboxOpen w → journal w' = journal w →
    xlog w' = xlog w → published w' = published w → acked w' = acked w → mode w → mode w'
}.

(** A mode that also survives replies and acknowledgements. *)
Class ReplyMode (mode : World → Prop) : Prop := {
  mode_outside : ∀ w w', eng w' = eng w → outboxOpen w' = outboxOpen w → mode w → mode w'
}.

Section handlers.
Context (mode : World → Prop) `{!EmissionMode mode}.

(** [m] computes [f] on the normal form of the engine. *)
Definition implements {A} (m : M A) (f : Engine → option Engine) : Prop := ∀ w, mode w →
  match m w with
  | Some (_, w') => f (norm (eng w)) = Some (norm (eng w')) ∧ mode w'
  | None => f (norm (eng w)) = None
  end.

(** [m] returns and does nothing to the state. *)
Definition idle {A} (m : M A) : Prop := ∀ w, mode w →
  ∃ a w', m w = Some (a, w') ∧ core (eng w') = core (eng w) ∧ mode w'.

Lemma idle_ret {A} (a : A) : idle (ret a).
Proof. intros w Hw. by exists a, w. Qed.

Lemma idle_bind {A B} (m : M A) (k : A → M B) : idle m → (∀ a, idle (k a)) → idle (bind m k).
Proof.
  intros Hm Hk w Hw. destruct (Hm w Hw) as (a & w1 & E1 & C1 & M1).
  destruct (Hk a w1 M1) as (b & w2 & E2 & C2 & M2).
  exists b, w2. rewrite (bind_eq _ _ _ _ _ E1). split_and!; [done|congruence|done].
Qed.

Lemma idle_emit ty d b : idle (emitEventP pid ty d b).
Proof. intros w Hw. destruct (mode_emit w ty d b Hw) as (w' & E & C & M'). by exists None, w'. Qed.

Lemma idle_metrics f : idle (modify (with_metrics f)).
Proof. intros w Hw. eexists _, _. split_and!; [done|done|by apply (mode_quiet w)]. Qed.

Lemma idle_get_eng {A} (k : Engine → M A) : (∀ e, idle (k e)) → idle (bind get_eng k).
Proof. intros Hk w Hw. by apply (Hk (eng w) w). Qed.

Lemma idle_uuid : idle next_uuid.
Proof. intros w Hw. eexists _, _. split_and!; [done|done|by apply (mode_quiet w)]. Qed.
Lemma idle_time : idle next_time.
Proof. intros w Hw. eexists _, _. split_and!; [done|done|by apply (mode_quiet w)]. Qed.

Lemma idle_if {A} (c : bool) (m m' : M A) : idle m → idle m' → idle (if c then m else m').
Proof. by destruct c. Qed.

Lemma idle_publishTrades trs : idle (publishTrades pid trs).
Proof.
  induction trs as [|tr trs IH]; simpl; [apply idle_ret|].
  apply idle_bind; [apply idle_metrics|intros _]. apply idle_bind; [apply idle_emit|by intros _].
Qed.

Hint Resolve idle_ret idle_bind idle_emit idle_metrics idle_if idle_publishTrades idle_uuid idle_time : predix.

Lemma implements_idle {A} (m : M A) : idle m → implements m Some.
Proof.
  intros Hm w Hw. destruct (Hm w Hw) as (a & w' & -> & C & M'). split; [|done].
  f_equal. symmetry. by apply norm_core.
Qed.

Lemma implements_after {A B} (m : M A) (k : A → M B) f :
  idle m → (∀ a, implements (k a) f) → implements (bind m k) f.
Proof.
  intros Hm Hk w Hw. destruct (Hm w Hw) as (a & w1 & E1 & C1 & M1). rewrite (bind_eq _ _ _ _ _ E1).
  rewrite <- (norm_core _ _ C1). by apply Hk.
Qed.

Lemma implements_then {A B} (m : M A) (k : A → M B) f :
  implements m f → (∀ a, idle (k a)) → implements (bind m k) f.
Proof.
  intros Hm Hk w Hw. specialize (Hm w Hw). unfold bind. destruct (m w) as [[a w1]|]; [|done].
  destruct Hm as [Hf M1]. destruct (Hk a w1 M1) as (b & w2 & -> & C2 & M2). split; [|done].
  by rewrite (norm_core _ _ C2).
Qed.

(** ** The handlers *)

Lemma runMatch_implements p : implements (runMatch p) (applyMatch p).
Proof.
  intros w Hw. unfold runMatch, applyMatch.
  pose proof (matchOrderLocked_view _ logEnv p (eng w) (norm (eng w)) (tick w) 0 (eq_sym (norm_idemp _))) as Hv.
  destruct (matchOrderLocked p (eng w) (tick w)) as [[[trs e'] t']|] eqn:E,
    (@matchOrderLocked logEnv p (norm (eng w)) 0) as [[[trs2 e2] t2]|]; simpl in *; try done.
  apply (inj Some), (f_equal snd) in Hv. unfold viewM in Hv; cbn [fst snd] in Hv. split; [by rewrite Hv|].
  apply (mode_quiet (with_eng (λ _, e') w)); [done..|]. apply mode_section; [done|by eapply setup_match].
Qed.

Lemma matchOrder_implements p : implements (matchOrder p pid) (applyMatch p).
Proof.
  apply implements_then; [apply runMatch_implements|]. intros trs. apply idle_get_eng. intros e. auto 8 with predix.
Qed.

Lemma emitAndMatch_implements p : implements (emitAndMatch pid p) (applyMatch p).
Proof.
  intros w Hw. unfold emitAndMatch. rewrite (bind_eq get_eng _ w (eng w) w) by done.
  destruct (mode_emit w EventOrderCreated (JText (order_json (deref (heap (eng w)) p))) false Hw) as (w1 & E & C & M1).
  rewrite (bind_eq _ _ _ _ _ E), <- (norm_core _ _ C). revert w1 E C M1.
  enough (implements (matchOrder p pid ;;; modify (with_metrics inc_Processed) ;;;
      e <- get_eng ;; let order := deref (heap e) p in
      ret (successJSON (JObj [
        ("filledQuantity", JInt (o_FilledQuantity order)); ("orderId", JStr (o_ID order));
        ("remainingQuantity", JInt (o_RemainingQuantity order)); ("status", JStr (o_Status order))])))
      (applyMatch p)) as Hi by (intros w1 _ _ M1; by apply Hi).
  apply implements_then; [apply matchOrder_implements|]. intros _.
  apply idle_bind; [apply idle_metrics|intros _]. apply idle_get_eng. intros e. apply idle_ret.
Qed.

Lemma placeOrder_implements req id now :
  implements (placeOrder pid (newOrder req id now)) (applyPlace (newOrder req id 0)).
Proof.
  intros w Hw. unfold placeOrder, applyPlace.
  change (validateOrder (newOrder req id now)) with (validateOrder (newOrder req id 0)).
  destruct (validateOrder _); [done|]. rewrite (bind_eq get_eng _ w (eng w) w) by done.
  pose proof (registerOrder_norm (newOrder req id now) (eng w)) as Hn.
  change (scrubO (newOrder req id now)) with (newOrder req id 0) in Hn.
  pose proof (setup_register (newOrder req id now) (eng w)) as Hs.
  destruct (registerOrder (newOrder req id now) (eng w)) as [r e']. simpl in Hs.
  destruct Hn as (r' & -> & Hr). pose proof (mode_section w e' Hw Hs) as M1.
  rewrite (bind_eq (put_eng e') _ w () (with_eng (λ _, e') w)) by done.
  destruct r, r'; try done. subst. by apply (emitAndMatch_implements _ _ M1).
Qed.

Lemma handleCreateOrderP_implements payload :
  (∀ req, unmarshal_createOrder payload = Some req → r_OrderID req ≠ "") →
  implements (handleCreateOrderP pid payload) (applyCreateOrder payload).
Proof.
  intros Hid. apply implements_then; [|intros r; apply idle_get_eng; intros e; auto 6 with predix].
  unfold handleCreateOrderCore, applyCreateOrder.
  destruct (unmarshal_createOrder payload) as [req|]; [|apply implements_idle, idle_ret].
  rewrite (seqb_ne _ _ (Hid req eq_refl)). intros w Hw.
  rewrite (bind_eq (ret (r_OrderID req)) _ w (r_OrderID req) w) by done.
  destruct (_ <=? 0); [done|]. revert w Hw.
  change (implements (now <- next_time ;; placeOrder pid (newOrder req (r_OrderID req) now))
    (applyPlace (newOrder req (r_OrderID req) 0))).
  apply implements_after; [apply idle_time|]. intros now. apply placeOrder_implements.
Qed.

Lemma handleCancelOrderP_implements payload :
  implements (handleCancelOrderP pid payload) (applyCancelOrder payload).
Proof.
  unfold handleCancelOrderP, applyCancelOrder.
  destruct (unmarshal_strings _ payload) as [[|id [|ev [|]]]|]; try apply implements_idle, idle_ret.
  destruct (id =s ""); [apply implements_idle, idle_ret|]. intros w Hw.
  rewrite (bind_eq get_eng _ w (eng w) w) by done. rewrite cancelOrderLocked_norm.
  pose proof (setup_cancel id ev (eng w)) as Hs.
  destruct (cancelOrderLocked id ev (eng w)) as [r e']. simpl in Hs.
  pose proof (mode_section w e' Hw Hs) as M1.
  rewrite (bind_eq (put_eng e') _ w () (with_eng (λ _, e') w)) by done.
  destruct r as [err| |p]; [done|done|].
  match goal with |- match ?m ?w1 with _ => _ end => assert (idle m) as Hi end.
  { apply idle_bind; [auto with predix|intros _]. apply idle_bind; auto with predix. }
  destruct (Hi _ M1) as (a & w2 & -> & C2 & M2). split; [|done]. by rewrite (norm_core _ _ C2).
Qed.

Lemma implements_section {A} (g : Engine → Engine) (a : A) f :
  (∀ e, same_setup e (g e)) → (∀ e, f (norm e) = Some (norm (g e))) →
  implements (modify_eng g ;;; ret a) f.
Proof.
  intros Hs Hg w Hw. simpl. split; [apply Hg|]. by apply (mode_section w (g (eng w))).
Qed.

Lemma norm_createEvent ev e :
  createEventLocked ev (norm e) = let '(s, e') := createEventLocked ev e in (s, norm e').
Proof. unfold createEventLocked; simpl. by destruct (markets e !! ev). Qed.

Lemma norm_createUser u e : createUserLocked u (norm e) = norm (createUserLocked u e).
Proof. unfold createUserLocked; simpl. by destruct (balances e !! u). Qed.

Lemma handleCreateEvent_implements payload :
  implements (handleCreateEvent payload) (applyCreateEvent payload).
Proof.
  unfold handleCreateEvent, applyCreateEvent.
  destruct (unmarshal_strings _ payload) as [[|ev [|]]|]; try apply implements_idle, idle_ret.
  destruct (ev =s ""); [apply implements_idle, idle_ret|]. intros w Hw.
  rewrite (bind_eq get_eng _ w (eng w) w) by done. rewrite norm_createEvent.
  assert (same_setup (eng w) (snd (createEventLocked ev (eng w)))) as Hs.
  { unfold createEventLocked. destruct (_ !! _); by repeat split. }
  destruct (createEventLocked ev (eng w)) as [st e']. simpl in *. split; [done|]. by apply mode_section.
Qed.

Lemma handleUserCreated_implements payload :
  implements (handleUserCreated payload) (applyUserCreated payload).
Proof.
  unfold handleUserCreated, applyUserCreated.
  destruct (unmarshal_strings _ payload) as [[|u [|]]|]; try apply implements_idle, idle_ret.
  destruct (u =s ""); [apply implements_idle, idle_ret|]. apply implements_section.
  - intros e. unfold createUserLocked. destruct (_ !! _); by repeat split.
  - intros e. by rewrite norm_createUser.
Qed.

Lemma query_implements (m : M EngineResponse) :
  (∀ w, mode w → ∃ r w', m w = Some (r, w') ∧ eng w' = eng w ∧ mode w') → implements m Some.
Proof. intros Hm. apply implements_idle. intros w Hw. destruct (Hm w Hw) as (r & w' & E & He & M'). exists r, w'. by rewrite He. Qed.

Lemma handleGetDepth_implements payload : implements (handleGetDepth payload) Some.
Proof.
  apply query_implements. intros w Hw. unfold handleGetDepth.
  destruct (unmarshal_strings _ payload) as [[|ev [|]]|]; try by eexists _, _.
  rewrite (bind_eq get_eng _ w (eng w) w) by done.
  destruct (markets (eng w) !! ev); [|by eexists _, _].
  eexists _, _. split_and!; [done|done|by apply (mode_quiet w)].
Qed.

Lemma handleGetOpenOrders_implements payload : implements (handleGetOpenOrders payload) Some.
Proof.
  apply query_implements. intros w Hw. unfold handleGetOpenOrders.
  destruct (unmarshal_strings _ payload) as [[|ev [|us [|]]]|]; try by eexists _, _.
  eexists _, _. split_and!; [done|done|by apply (mode_quiet w)].
Qed.

Lemma handleMessage_implements msg : identified msg → implements (handleMessage pid msg) (apply msg).
Proof.
  intros Hid. unfold handleMessage, apply.
  seq_case; [apply handleCreateOrderP_implements; by apply Hid|].
  seq_case; [apply handleCancelOrderP_implements|].
  seq_case; [apply handleGetDepth_implements|].
  seq_case; [apply handleGetOpenOrders_implements|].
  seq_case; [apply handleCreateEvent_implements|].
  seq_case; [apply handleUserCreated_implements|]. apply implements_idle, idle_ret.
Qed.

(** ** Streams of entries *)

Definition applyEntry (msg : StreamEntry) (e : Engine) : option Engine :=
  match entryMessage msg with Some m => apply m e | None => Some e end.

Definition entry_identified (msg : StreamEntry) : Prop := ∀ m, entryMessage msg = Some m → identified m.

Lemma replayEntry_implements msg :
  entry_identified msg → implements (replayEntry pid msg) (applyEntry msg).
Proof.
  unfold entry_identified, replayEntry, applyCommand, applyEntry, entryMessage. intros Hid.
  destruct (text_empty _); [apply implements_idle, idle_ret|].
  destruct (unmarshal_command _) as [env|]; [|apply implements_idle, idle_ret].
  destruct (c_Type env =s ""); [apply implements_idle, idle_ret|].
  apply implements_then; [apply handleMessage_implements; by apply Hid|]. intros r. apply idle_ret.
Qed.

Fixpoint applyEntries (msgs : list StreamEntry) (e : Engine) : option Engine :=
  match msgs with
  | [] => Some e
  | msg :: msgs =>
      match applyEntry msg e with
      | None => None
      | Some e => applyEntries msgs e
      end
  end.

Lemma implements_seq {A B} (m : M A) (m' : M B) f g :
  implements m f → implements m' g →
  implements (m ;;; m') (λ e, match f e with Some e => g e | None => None end).
Proof.
  intros Hm Hm' w Hw. specialize (Hm w Hw). unfold bind. destruct (m w) as [[a w1]|]; [|by rewrite Hm].
  destruct Hm as [-> M1]. by apply Hm'.
Qed.

Lemma replayEntries_implements msgs :
  Forall entry_identified msgs → implements (replayEntries pid msgs) (applyEntries msgs).
Proof.
  induction 1 as [|msg msgs Hid _ IH]; simpl; [apply implements_idle, idle_ret|].
  apply implements_seq; [|done]. by apply replayEntry_implements.
Qed.

(** A consumer also replies and acknowledges. *)
Section consumer.
Context `{!ReplyMode mode}.

Lemma idle_reply cl env r : idle (reply cl env r).
Proof.
  intros w Hw. unfold reply. destruct (cl =s ""); [by exists tt, w|].
  unfold bind, publish, bind, next_call, modify, ret.
  eexists _, _; (split_and!; [done|done|by apply (mode_outside w)]).
Qed.

Lemma idle_ack id : idle (ack pid id).
Proof.
  intros w Hw. unfold ack, bind, get_eng, next_call, modify. simpl.
  eexists _, _; (split_and!; [done|done|by apply (mode_outside w)]).
Qed.

Lemma handleEntry_implements msg :
  entry_identified msg → implements (handleEntry pid msg) (applyEntry msg).
Proof.
  unfold entry_identified, handleEntry, applyEntry, entryMessage. intros Hid.
  destruct (text_empty _); [apply implements_idle, idle_ret|].
  destruct (unmarshal_command _) as [env|]; [|apply implements_idle, idle_ret].
  destruct (c_Type env =s ""); [apply implements_idle, idle_ret|].
  apply implements_then; [apply handleMessage_implements; by apply Hid|]. intros r. apply idle_reply.
Qed.

Lemma processEntries_implements msgs :
  Forall entry_identified msgs → implements (processEntries pid msgs) (applyEntries msgs).
Proof.
  induction 1 as [|msg msgs Hid _ IH]; simpl; [apply implements_idle, idle_ret|].
  apply implements_seq; [|done]. apply implements_then; [by apply handleEntry_implements|].
  intros _. apply idle_ack.
Qed.
End consumer.
End handlers.

(** ** The modes *)

(** A partition that replays its command log, with what it has sent so far. *)
Definition replayMode (out : list json_text * list (string * json_text) * list (string * json_text)
    * list (string * string * string)) (w : World) : Prop :=
  isReplaying (eng w) pid = true ∧ (journal w, xlog w, published w, acked w) = out.

#[export] Instance replayMode_emission out : EmissionMode (replayMode out).
Proof.
  unfold replayMode. split.
  - intros w ty d b [Hw Ho]. exists w. by rewrite emitEventP_replaying.
  - intros w e' [Hw Ho] (_&_&_&_&_&_&_&Hr&_). split; [|done]. unfold isReplaying in *; simpl. by rewrite Hr.
  - intros w w' -> _ -> -> -> ->. done.
Qed.

(** A live partition with an open outbox. *)
Definition liveMode (w : World) : Prop :=
  isReplaying (eng w) pid = false ∧ seq_slot (eng w) pid ∧ outboxOpen w = true.

#[export] Instance liveMode_reply : ReplyMode liveMode.
Proof. unfold liveMode. split. intros w w' He Ho (?&?&?). by rewrite He, Ho. Qed.

Lemma liveMode_emission : (∀ n, io_ok n = true) → EmissionMode liveMode.
Proof.
  intros Hio. unfold liveMode. split.
  - intros w ty d b (Hr & [H0 Hl] & Ho). destruct (redisManager (eng w)) eqn:Hrm.
    + apply lookup_lt_is_Some_2 in Hl as [n Hn].
      destruct (emitEventP_reliable Hio pid ty d b w n Hr Hrm Ho H0 Hn) as (t' & k & k' & _ & _ & _ & ->). eexists. split; [done|].
      split; [done|]. split; [exact Hr|]. split; [|done].
      split; [done|]. simpl. rewrite length_insert. by apply lookup_lt_Some in Hn.
    + exists w. split; [|by split_and!]. unfold emitEventP. rewrite (bind_eq get_eng _ w (eng w) w) by done.
      by rewrite Hr, Hrm.
  - intros w e' (Hr & Hs & Ho) Hset. split_and!; [|by eapply seq_slot_setup|done].
    destruct Hset as (_&_&_&_&_&_&_&Hrep&_). unfold isReplaying in *; simpl. by rewrite Hrep.
  - intros w w' He Ho _ _ _ _ (?&?&?). by rewrite He, Ho.
Qed.
End machine.
