(* ===== verification/Fixtures.v ===== *)
(** A concrete market to evaluate the development on.

    Alice and Bob hold cash, Bob holds shares of the outcome YES of event "ev".
    Bob rests two asks, Carol a third; Alice sends a buy order that crosses. *)

From S2P Require Import Prelude Json Types Router State Ledger Matching Sweep Invariant Settle.
From S2P Require Import Events Outbox Depth Commands Handlers Register Match Sections Concurrency.
Local Open Scope Z_scope.

(** Answers of a well-behaved outside: fresh ids, a running clock, working I/O;
    [range] over a map goes forwards or backwards. *)
Definition testEnv : Environment := {|
  uuid_NewString n := "uuid-" +:+ pretty (Z.of_nat n);
  time_Now n := 1000 + Z.of_nat n;
  io_ok _ := true; io_lost _ := 0%nat;
  map_range A n l := if Nat.even n then l else reverse l
|}.

(** The same with an outside whose [n]-th answer to an I/O call is an error. *)
Definition faultyEnv (n : nat) : Environment := {|
  uuid_NewString n := "uuid-" +:+ pretty (Z.of_nat n);
  time_Now n := 1000 + Z.of_nat n;
  io_ok m := negb (n =? m)%nat; io_lost _ := 0%nat;
  map_range A n l := l
|}.

#[export] Instance testEnv_laws : @EnvironmentLaws testEnv.
Proof.
  split. intros A n l. simpl. destruct (Nat.even n); [done|]. apply reverse_Permutation.
Qed.

#[local] Existing Instance testEnv.

Definition seeded : Engine :=
  match newEngine true with
  | Some e =>
      with_positions (λ _, <["bob:ev:YES" := mkPosition 100 0]> (<["carol:ev:YES" := mkPosition 50 0]> ∅))
        (with_balances (λ _, <["alice" := mkBalance 1000000 0]> (<["bob" := mkBalance 500000 0]> ∅)) e)
  | None => mkEngine [] ∅ ∅ ∅ ∅ false "" 0 0 (NewRouter 1 "") [] ∅ ∅ ∅ "" ""
  end.

Lemma seeded_funded : funded seeded.
Proof.
  split; [reflexivity|reflexivity|reflexivity| | |by vm_compute|by vm_compute].
  - repeat (apply map_Forall_insert_2; [simpl; lia|]). apply map_Forall_empty.
  - repeat (apply map_Forall_insert_2; [simpl; lia|]). apply map_Forall_empty.
Qed.

Definition limit (id user side : string) (qty price : Z) : Order :=
  newOrder (mkCreateOrder id "ev" user OrderTypeLimit OutcomeYes side qty price) id 7.

Lemma limit_placeable id user side qty price :
  user ≠ "" → 0 < qty ≤ max_int64 → 0 < price ≤ max_int64 → side = SideBuy ∨ side = SideSell →
  placeable (limit id user side qty price).
Proof.
  intros Hu Hq Hp Hs. apply validate_placeable; [unfold req_in_range; simpl; i64|].
  unfold validateOrder; simpl. rewrite (seqb_ne _ _ Hu).
  rewrite (proj2 (Z.leb_gt qty 0)), (proj2 (Z.leb_gt price 0)) by lia.
  by destruct Hs as [-> | ->].
Qed.

(** Register and match, as one snapshot to the next. *)
Definition enter (o : Order) (e : Engine) : Engine := snd (registerOrder o e).
Definition settleIn (p : nat) (e : Engine) : Engine :=
  match matchOrderLocked p e 0 with Some (_, e', _) => e' | None => e end.

Definition market0 : Engine := snd (createEventLocked "ev" seeded).
Definition ask1 : Order := limit "s1" "bob" SideSell 10 60.
Definition ask2 : Order := limit "s2" "carol" SideSell 5 50.
Definition ask3 : Order := limit "s3" "bob" SideSell 7 60.
Definition bid1 : Order := limit "b1" "alice" SideBuy 12 60.

Definition market1 : Engine := settleIn 0 (enter ask1 market0).
Definition market2 : Engine := settleIn 1 (enter ask2 market1).
Definition market3 : Engine := settleIn 2 (enter ask3 market2).
(** Alice's order is registered and waits to be matched. *)
Definition market4 : Engine := enter bid1 market3.
Definition market5 : Engine := settleIn 3 market4.

(** One order from registration to matching is two steps. *)
Lemma fly_enter o e ps :
  Flying (mkSnap e ps) → placeable o → cost_in_range o →
  Flying (mkSnap (enter o e) (takeoff (fst (registerOrder o e)) ps)).
Proof.
  intros HF Hp Hc. unfold enter. destruct (registerOrder o e) as [reg e'] eqn:E.
  by destruct (step_Flying _ _ _ (step_register o e ps reg e' Hp Hc E) HF).
Qed.

Lemma fly_settle p e ps :
  Flying (mkSnap e ps) → p ∈ ps → o_OrderType (deref (heap e) p) = OrderTypeLimit →
  Flying (mkSnap (settleIn p e) (land p ps)).
Proof.
  intros HF Hp Ht. assert (within_budget e p 0) as Hb by (intros _ Hm; by rewrite Ht in Hm).
  pose proof (fl_pending _ HF p Hp) as HP.
  destruct (matchOrderLocked_Inv e p 0 (fl_inv _ HF) HP Hb) as (trs & e' & t' & E & _).
  unfold settleIn. rewrite E.
  by destruct (step_Flying _ _ _ (step_match p e ps 0 trs e' t' Hp Hb E) HF).
Qed.

Lemma market0_Flying : Flying (mkSnap market0 []).
Proof.
  by destruct (step_Flying _ _ _ (step_event "ev" seeded []) (funded_Flying _ seeded_funded)).
Qed.

(** [fly] discharges one order of the fixture. *)
Ltac fly H p :=
  lazymatch goal with
  | |- Flying (mkSnap (settleIn p (enter ?o ?e)) []) =>
      change [] with (land p (takeoff (fst (registerOrder o e)) []));
      apply fly_settle; [apply fly_enter; [exact H|apply limit_placeable; vm_compute; auto; done|vm_compute; done]
                        |vm_compute; constructor|vm_compute; reflexivity]
  end.

Lemma market1_Flying : Flying (mkSnap market1 []).
Proof. unfold market1. fly market0_Flying 0%nat. Qed.
Lemma market2_Flying : Flying (mkSnap market2 []).
Proof. unfold market2. fly market1_Flying 1%nat. Qed.
Lemma market3_Flying : Flying (mkSnap market3 []).
Proof. unfold market3. fly market2_Flying 2%nat. Qed.

Lemma market4_Flying : Flying (mkSnap market4 [3%nat]).
Proof.
  change [3%nat] with (takeoff (fst (registerOrder bid1 market3)) []). apply fly_enter.
  - apply market3_Flying.
  - apply limit_placeable; vm_compute; auto; done.
  - by vm_compute.
Qed.
