(* ===== verification/Priority.v ===== *)
(** Theorems about matching: the loop of [matchAgainstBook] is the single pass
    [sweep], trades follow price-time priority, execute at the resting price,
    account for every share, and leave a book that does not cross the taker. *)

From S2P Require Import Prelude Json Types Router State Ledger Matching Sweep Invariant Settle.
From S2P Require Import Events Outbox Depth Commands Handlers Register Match Sections Concurrency Fixtures.
Local Open Scope Z_scope.

Section lemmas.
Context `{Environment}.

(** What a run of [matchAgainstBook] on a well-formed problem is. *)
Lemma matchAgainstBook_inv p b h t h' b' trs t' :
  sweepable p h (oppSide (deref h p) b) → matchAgainstBook p b h t = Some (h', b', trs, t') →
  ∃ keep, sweep p h (oppSide (deref h p) b) t = (h', keep, trs, t') ∧ b' = withOpp (deref h p) keep b.
Proof.
  intros Hs. rewrite matchAgainstBook_eq by done.
  destruct (sweep _ _ _ _) as [[[h1 keep] trs1] t1]. intros [= <- <- <- <-]. by exists keep.
Qed.

(** Ids of a list of orders. *)
Definition idsOf (h : list Order) (l : list nat) : list string := (λ r, o_ID (deref h r)) <$> l.

Lemma idsOf_fillPair h p q l :
  (p < length h)%nat → (q < length h)%nat → p ≠ q → idsOf (fillPair h p q) l = idsOf h l.
Proof.
  intros. apply list_fmap_ext. intros i r _. by apply static_inv, fillPair_static.
Qed.

Definition behind (h : list Order) (l : list nat) (trs : list Trade) : Prop :=
  ∃ tr, tr ∈ trs ∧ t_MatchOrderID tr ∈ idsOf h l.

Lemma sweep_priority p l h t h' keep trs t' :
  sweepable p h l → sweep p h l t = (h', keep, trs, t') → NoDup (idsOf h l) →
  ∀ pre q post, l = pre ++ q :: post → eligible (deref h p) (deref h q) = true →
  behind h post trs → o_RemainingQuantity (deref h' q) = 0.
Proof.
  intros Hs0 Hsw. enough ((∀ r, r ≠ p → r ∉ l → deref h' r = deref h r) ∧ (NoDup (idsOf h l) →
    ∀ pre q post, l = pre ++ q :: post → eligible (deref h p) (deref h q) = true →
    behind h post trs → o_RemainingQuantity (deref h' q) = 0)) by tauto.
  revert Hs0 Hsw. revert l h t h' keep trs t'. apply sweep_ind.
  - intros h l Hs _. split; [done|]. intros _ pre q post _ _ (tr & Hin & _). by apply elem_of_nil in Hin.
  - intros h q0 l t h' keep trs Hs Hr He (IHo & IH) Hsv.
    destruct (sweepable_head _ _ _ _ Hs) as (Hp & Hq & Hpq & Hpl & Hql & _). split.
    { intros r Hrp [Hrq Hrl]%not_elem_of_cons. rewrite IHo by done. by apply fillPair_other. }
    rewrite idsOf_fillPair in IH by done. simpl. intros [Hid Hnd]%NoDup_cons pre q post Hl Hel (tr & Hin & Htr).
    apply elem_of_cons in Hin as [->|Hin].
    { exfalso. destruct pre as [|r pre]; simplify_eq/=; try done.
      apply Hid. unfold idsOf. rewrite fmap_app, fmap_cons, elem_of_app. right. by right. }
    destruct pre as [|r pre]; simplify_eq/=.
    + destruct (survives h p q) eqn:Es.
      { destruct (Hsv eq_refl) as (_ & _ & ->). by apply elem_of_nil in Hin. }
      rewrite IHo by done. by eapply fillPair_exhausted.
    + eapply IH; [done|done| |by exists tr; rewrite idsOf_fillPair].
      rewrite <- Hel. apply eligible_static; by apply fillPair_static.
  - intros h q0 l h' keep trs Hs Hr He (IHo & IH). split.
    { intros r Hrp [Hrq Hrl]%not_elem_of_cons. by apply IHo. }
    simpl. intros [Hid Hnd]%NoDup_cons [|r pre] q post Hl Hel Hb; simplify_eq/=; [congruence|].
    by eapply IH.
Qed.

Lemma idsOf_nodup h l :
  NoDup l → (∀ q r, q ∈ l → r ∈ l → o_ID (deref h q) = o_ID (deref h r) → q = r) → NoDup (idsOf h l).
Proof. intros Hn Hinj. by apply NoDup_fmap_2_strong. Qed.
End lemmas.

(** ** The fixture's problem: Alice's bid against three asks *)

Definition book4 : OrderBook :=
  match markets market4 !! "ev" with Some m => YES m | None => mkBook [] [] end.

#[local] Existing Instance testEnv.

Lemma book4_sweepable : sweepable 3 (heap market4) (oppSide (deref (heap market4) 3) book4).
Proof.
  unfold book4. destruct (markets market4 !! "ev") as [m|] eqn:E; [|by vm_compute in E].
  apply match_sweepable with (m := m).
  - apply (fl_inv _ market4_Flying).
  - apply (fl_pending _ market4_Flying). by left.
  - rewrite <- E. by vm_compute.
  - by vm_compute.
Qed.

(** ** Theorems *)

Section theorems.
Context `{Environment}.

(** C13: the matching loop refines the single front-to-back pass [sweep] over the
    opposite side, and in particular it always ends: on every well-formed
    matching problem it returns exactly the heap, the book, the trades and the
    number of environment answers of the sweep. *)
Theorem matchAgainstBook_refines_sweep p b h t :
  sweepable p h (oppSide (deref h p) b) →
  matchAgainstBook p b h t =
    let '(h', keep, trs, t') := sweep p h (oppSide (deref h p) b) t in
    Some (h', withOpp (deref h p) keep b, trs, t').
Proof. apply matchAgainstBook_eq. Qed.

(** C5: price-time priority.  If the taker traded with an order that stands
    behind [q] in the book, and it could have traded with [q], then [q] was
    filled completely. *)
Theorem matchAgainstBook_priority p b h t h' b' trs t' pre q post :
  sweepable p h (oppSide (deref h p) b) →
  NoDup (idsOf h (oppSide (deref h p) b)) →
  matchAgainstBook p b h t = Some (h', b', trs, t') →
  oppSide (deref h p) b = pre ++ q :: post →
  eligible (deref h p) (deref h q) = true →
  behind h post trs →
  o_RemainingQuantity (deref h' q) = 0.
Proof.
  intros Hs Hn Hm Hl He Hb. destruct (matchAgainstBook_inv _ _ _ _ _ _ _ _ Hs Hm) as (keep & Hsw & _).
  by eapply sweep_priority.
Qed.

(** C19: every trade is between the taker and an order of the opposite side owned
    by somebody else, for a positive quantity, at the price of the resting
    order, which satisfies the limit of the taker; buyer and seller follow the
    taker's side. *)
Theorem matchAgainstBook_trades p b h t h' b' trs t' :
  sweepable p h (oppSide (deref h p) b) →
  matchAgainstBook p b h t = Some (h', b', trs, t') →
  ∀ tr, tr ∈ trs → ∃ q, q ∈ oppSide (deref h p) b ∧
    t_OrderID tr = o_ID (deref h p) ∧ t_MatchOrderID tr = o_ID (deref h q) ∧
    t_Price tr = o_Price (deref h q) ∧ 0 < t_Quantity tr ≤ o_RemainingQuantity (deref h q) ∧
    o_UserID (deref h q) ≠ o_UserID (deref h p) ∧
    (t_BuyerID tr, t_SellerID tr) =
      (if o_Side (deref h p) =s SideBuy then (o_UserID (deref h p), o_UserID (deref h q))
       else (o_UserID (deref h q), o_UserID (deref h p))) ∧
    (o_OrderType (deref h p) ≠ OrderTypeMarket →
       if o_Side (deref h p) =s SideBuy then t_Price tr ≤ o_Price (deref h p)
       else o_Price (deref h p) ≤ t_Price tr).
Proof.
  intros Hs Hm tr Hin. destruct (matchAgainstBook_inv _ _ _ _ _ _ _ _ Hs Hm) as (keep & Hsw & _).
  pose proof (sweep_trades _ _ _ _ _ _ _ _ Hs Hsw) as Htr. rewrite Forall_forall in Htr.
  destruct (Htr tr Hin) as (q & n & t0 & Hq & Hn & _ & He & ->).
  apply andb_true_iff in He as [Hu Hc]. apply negb_true_iff, seqb_neq in Hu.
  exists q. simpl. split_and!; [done|done|done|done|lia|lia|done|by destruct (_ =s _)|].
  intros Ht. unfold canMatch in Hc. rewrite (seqb_ne _ _ Ht) in Hc. destruct (negb _); [done|].
  destruct (_ =s SideBuy); [lia|]. destruct (_ =s SideSell); [lia|done].
Qed.

(** C18: fill accounting.  The taker's executed quantity is the sum of its trades;
    each resting order's executed quantity is the sum of the trades against it;
    filled plus remaining stays the quantity of the taker. *)
Theorem matchAgainstBook_accounting p b h t h' b' trs t' :
  sweepable p h (oppSide (deref h p) b) →
  NoDup (idsOf h (oppSide (deref h p) b)) →
  matchAgainstBook p b h t = Some (h', b', trs, t') →
  o_RemainingQuantity (deref h p) = o_RemainingQuantity (deref h' p) + sumZ t_Quantity trs ∧
  qty_ok (deref h' p) ∧
  ∀ q, q ∈ oppSide (deref h p) b →
    o_RemainingQuantity (deref h q) =
      o_RemainingQuantity (deref h' q) + sumZ (makerQty (o_ID (deref h q))) trs.
Proof.
  intros Hs Hn Hm. destruct (matchAgainstBook_inv _ _ _ _ _ _ _ _ Hs Hm) as (keep & Hsw & _).
  split_and!.
  - by eapply sweep_taker_qty.
  - by destruct (sweep_frame _ _ _ _ _ _ _ _ Hs Hsw) as (_ & _ & _ & _ & Hq).
  - by eapply sweep_maker_qty.
Qed.

(** C17: the book after matching.  The orders left on the side are the ones of
    before, in the same order, still live; an order that left it is FILLED with
    nothing remaining; and while the taker has quantity left, nobody left on the
    side could still trade with it. *)
Theorem matchAgainstBook_leftover p b h t h' b' trs t' :
  sweepable p h (oppSide (deref h p) b) →
  matchAgainstBook p b h t = Some (h', b', trs, t') →
  let l := oppSide (deref h p) b in
  let l' := oppSide (deref h p) b' in
  sublist l' l ∧
  (∀ q, q ∈ l' → resting_ok (deref h' q)) ∧
  (∀ q, q ∈ l → q ∉ l' →
     o_RemainingQuantity (deref h' q) = 0 ∧ o_Status (deref h' q) = StatusFilled) ∧
  (0 < o_RemainingQuantity (deref h' p) → ∀ q, q ∈ l' → eligible (deref h p) (deref h q) = false).
Proof.
  intros Hs Hm. destruct (matchAgainstBook_inv _ _ _ _ _ _ _ _ Hs Hm) as (keep & Hsw & ->).
  assert (oppSide (deref h p) (withOpp (deref h p) keep b) = keep) as ->.
  { unfold oppSide, withOpp. by destruct (_ =s _). }
  destruct (sweep_keep _ _ _ _ _ _ _ _ Hs Hsw) as (H1 & H2 & H3). split_and!; [done|done| |].
  - intros q Hq Hn. by destruct (H3 q Hq Hn) as (? & ? & _).
  - by eapply sweep_uncrossed.
Qed.
End theorems.

(** [addToBook] keeps a side sorted by price and FIFO within a price: the new
    order is inserted behind every order at its price or better, in front of
    every worse one, and nobody else moves. *)
Lemma addToBook_price_time h b p s l :
  o_Side (deref h p) = s → s = SideBuy ∨ s = SideSell →
  l = (if s =s SideBuy then Bids b else Asks b) →
  StronglySorted (priceOrder s h) l →
  ∃ pre post, l = pre ++ post ∧
    addToBook h b p = (if s =s SideBuy then mkBook (pre ++ p :: post) (Asks b)
                       else mkBook (Bids b) (pre ++ p :: post)) ∧
    StronglySorted (priceOrder s h) (pre ++ p :: post) ∧
    Forall (λ q, priceOrder s h q p) pre ∧
    Forall (λ q, ¬ priceOrder s h q p) post.
Proof.
  intros Hs Hside -> Hsort. rewrite addToBook_eq by (by rewrite Hs). rewrite Hs.
  pose proof (sideSort_sorted s h) as Hsorted. unfold priceOrder in *.
  destruct Hside as [-> | ->]; simpl in *; unfold sideSort in *; simpl in *.
  - destruct (stable_sort_snoc (λ i j, o_Price (deref h j) <? o_Price (deref h i))
      ltac:(cbv beta; intros; lia) (Bids b) p) as (pre & post & E & El & Hpre & Hpost).
    { eapply StronglySorted_elem; [|exact Hsort]. unfold bidOrder, not_after. cbv beta. intros; lia. }
    exists pre, post. specialize (Hsorted (Bids b ++ [p])). rewrite E in *. split_and!; [done|done|done| |].
    + eapply Forall_impl; [exact Hpre|]. unfold bidOrder. simpl. intros; lia.
    + eapply Forall_impl; [exact Hpost|]. unfold bidOrder. simpl. intros; lia.
  - destruct (stable_sort_snoc (λ i j, o_Price (deref h i) <? o_Price (deref h j))
      ltac:(cbv beta; intros; lia) (Asks b) p) as (pre & post & E & El & Hpre & Hpost).
    { eapply StronglySorted_elem; [|exact Hsort]. unfold askOrder, not_after. cbv beta. intros; lia. }
    exists pre, post. specialize (Hsorted (Asks b ++ [p])). rewrite E in *. split_and!; [done|done|done| |].
    + eapply Forall_impl; [exact Hpre|]. unfold askOrder. simpl. intros; lia.
    + eapply Forall_impl; [exact Hpost|]. unfold askOrder. simpl. intros; lia.
Qed.

(** ** Witnesses *)

(** Carol's ask at 50 goes first, Bob's first ask at 60 second; Bob's second ask
    at 60 is not reached. *)
Lemma matchAgainstBook_refines_sweep_witness :
  sweepable 3 (heap market4) (oppSide (deref (heap market4) 3) book4) ∧
  (λ r : list Order * OrderBook * list Trade * nat, (Asks r.1.1.2, (λ tr, (t_MatchOrderID tr, t_Quantity tr, t_Price tr)) <$> r.1.2))
    <$> matchAgainstBook 3 book4 (heap market4) 0 =
  Some ([0%nat; 2%nat], [("s2", 5, 50); ("s1", 7, 60)]).
Proof.
  split; [apply book4_sweepable|].
  rewrite (matchAgainstBook_refines_sweep 3 book4 (heap market4) 0 book4_sweepable).
  vm_compute. reflexivity.
Defined.

Definition matched4 : list Order * OrderBook * list Trade * nat :=
  default ([], mkBook [] [], [], 0%nat) (matchAgainstBook 3 book4 (heap market4) 0).

Lemma matched4_run :
  matchAgainstBook 3 book4 (heap market4) 0 = Some (matched4.1.1.1, matched4.1.1.2, matched4.1.2, matched4.2).
Proof. vm_compute. reflexivity. Qed.

Lemma book4_ids : NoDup (idsOf (heap market4) (oppSide (deref (heap market4) 3) book4)).
Proof. apply (bool_decide_unpack _). vm_compute. exact I. Qed.

Lemma matchAgainstBook_priority_witness :
  o_RemainingQuantity (deref matched4.1.1.1 1) = 0.
Proof.
  apply (matchAgainstBook_priority 3 book4 (heap market4) 0 matched4.1.1.1 matched4.1.1.2 matched4.1.2
    matched4.2 [] 1 [0%nat; 2%nat] book4_sweepable book4_ids matched4_run).
  - vm_compute. reflexivity.
  - vm_compute. reflexivity.
  - eexists. split; [vm_compute; right; left|vm_compute; left].
Defined.

Lemma matchAgainstBook_trades_witness :
  ∃ tr q, tr ∈ matched4.1.2 ∧ t_MatchOrderID tr = o_ID (deref (heap market4) q) ∧
    t_Price tr = o_Price (deref (heap market4) q).
Proof.
  eassert (_ ∈ matched4.1.2) as Hin by (vm_compute; left).
  destruct (matchAgainstBook_trades 3 book4 (heap market4) 0 matched4.1.1.1 matched4.1.1.2 matched4.1.2
    matched4.2 book4_sweepable matched4_run _ Hin) as (q & _ & _ & Hid & Hp & _).
  eexists _, q. split; [exact Hin|]. split; [exact Hid|exact Hp].
Defined.

Lemma matchAgainstBook_accounting_witness :
  12 = o_RemainingQuantity (deref matched4.1.1.1 3) + sumZ t_Quantity matched4.1.2.
Proof.
  apply (matchAgainstBook_accounting 3 book4 (heap market4) 0 matched4.1.1.1 matched4.1.1.2 matched4.1.2
    matched4.2 book4_sweepable book4_ids matched4_run).
Defined.

Lemma matchAgainstBook_leftover_witness :
  sublist (Asks matched4.1.1.2) (Asks book4).
Proof.
  apply (matchAgainstBook_leftover 3 book4 (heap market4) 0 matched4.1.1.1 matched4.1.1.2 matched4.1.2
    matched4.2 book4_sweepable matched4_run).
Defined.

(** Bob's second ask at 60 goes behind his first, in front of an ask at 70. *)
