(* ===== verification/Accounting.v ===== *)
(** Theorems about the ledger: reservation, settlement and release do exactly
    the transfers they stand for, on every branch. *)

From S2P Require Import Prelude Json Types Router State Ledger Matching Sweep Invariant Settle.
From S2P Require Import Events Outbox Depth Commands Handlers Register Match Sections Concurrency Fixtures.
Local Open Scope Z_scope.

(** ** Cancelling a registered order *)

Lemma removeOrderFromSlice_absent h l id :
  (∀ q, q ∈ l → o_ID (deref h q) ≠ id) → fst (removeOrderFromSlice h l id) = l.
Proof.
  induction l as [|q l IH]; intros Hl; simpl; [done|].
  rewrite seqb_ne by (apply Hl; by left). simpl.
  destruct (removeOrderFromSlice h l id) as [l' f]; simpl in *. f_equal. apply IH. intros r Hr. apply Hl. by right.
Qed.

Lemma set_Book_same oc b m : Book m oc = Some b → set_Book oc b m = m.
Proof. unfold Book, set_Book. destruct m. repeat case_match; naive_solver. Qed.

Lemma Book_Some m oc : oc = OutcomeYes ∨ oc = OutcomeNo → ∃ b, Book m oc = Some b.
Proof. intros [-> | ->]; by eexists. Qed.

Section cancel_fresh.
Context (e : Engine) (o : Order) (m : Market) (b : OrderBook).
Hypothesis HI : Inv [] e.
Hypothesis Ho : placeable o.
Hypothesis Hcost : cost_in_range o.
Hypothesis Hnew : orders e !! o_ID o = None.
Hypothesis Hav : lockFor e o ≤ availableFor e o.
Hypothesis Hm : markets e !! o_EventID o = Some m.
Hypothesis Hb : Book m (o_Outcome o) = Some b.

Let p : nat := length (heap e).
Let e1 : Engine := registered e o.
Let lk : Z := lockFor e o.
Let o1 : Order := set_LockedFunds lk o.

Lemma fresh_deref : deref (heap e1) p = o1.
Proof. unfold e1. rewrite (proj1 (registered_frame e o)). apply deref_app_r. Qed.

Lemma fresh_markets : markets e1 = markets e.
Proof. apply (registered_frame e o). Qed.

(** Nobody in the book has the new id. *)
Lemma fresh_absent l : l = Bids b ∨ l = Asks b → fst (removeOrderFromSlice (heap e1) l (o_ID o)) = l.
Proof.
  intros Hl. apply removeOrderFromSlice_absent. intros q Hq Hid.
  pose proof (inv_books _ _ HI _ _ _ _ Hm Hb) as Hbk.
  destruct (book_alloc _ _ _ _ q (inv_table _ _ HI) Hbk) as [Hlt Ht]; [set_solver|].
  unfold e1 in Hid. rewrite (proj1 (registered_frame e o)), deref_app_l in Hid by done. congruence.
Qed.

Let e2 : Engine := with_heap (store p (set_Status StatusCanceled)) e1.

Lemma with_markets_same : with_markets (<[o_EventID o := m]>) e1 = e1.
Proof.
  assert (<[o_EventID o := m]> (markets e1) = markets e1) as E.
  { apply insert_id. by rewrite fresh_markets. }
  unfold with_markets. rewrite E. by destruct e1.
Qed.

Lemma cancel_fresh_eq :
  cancelOrderLocked (o_ID o) "" e1 = (CancelDone p, releaseOrderLocked p e2).
Proof.
  unfold cancelOrderLocked.
  assert (orders e1 !! o_ID o = Some p) as ->.
  { destruct (registered_frame e o) as (_ & _ & Eo & _). unfold e1. rewrite Eo. apply lookup_insert_eq. }
  rewrite fresh_deref. change (o_Status o1) with (o_Status o). change (o_EventID o1) with (o_EventID o).
  change (o_Outcome o1) with (o_Outcome o). change (o_Side o1) with (o_Side o).
  change (o_ID o1) with (o_ID o).
  rewrite (pl_status _ Ho), fresh_markets, Hm, Hb. simpl.
  rewrite !fresh_absent by auto.
  assert ((if o_Side o =s SideBuy then mkBook (Bids b) (Asks b) else mkBook (Bids b) (Asks b)) = b) as ->.
  { destruct b. by destruct (_ =s _). }
  rewrite (set_Book_same _ _ _ Hb), with_markets_same. done.
Qed.

Lemma cancel_fresh_inv : Inv [] e1 ∧ Accounts e2 ∧ (p < length (heap e2))%nat ∧
  deref (heap e2) p = set_Status StatusCanceled o1.
Proof.
  destruct (registered_Inv e o HI Ho Hcost Hnew Hav) as [HI1 HP1]. fold e1 p in HI1, HP1.
  destruct (taker_table e1 p HI1 HP1) as [Hp _].
  assert (Inv [] e2) as HI2.
  { apply set_Status_Inv; [done|apply HP1|done|by right]. }
  split_and!; [done|apply HI2| |].
  - unfold e2; simpl. by rewrite length_store.
  - change (heap e2) with (store p (set_Status StatusCanceled) (heap e1)).
    rewrite deref_store_eq by done. by rewrite fresh_deref.
Qed.

Lemma cancel_fresh_accounts :
  (∀ u, balanceOf (releaseOrderLocked p e2) u = balanceOf e u) ∧
  (∀ k, positionOf (releaseOrderLocked p e2) k = positionOf e k).
Proof.
  destruct cancel_fresh_inv as (_ & HA & Hp & Hd).
  pose proof (lockFor_range e o (inv_accounts _ _ HI) Ho Hcost) as [[Hl _] _]. fold lk in Hl.
  assert (∀ u, balanceOf e2 u = balanceOf (set_aside o lk e) u) as Eb by done.
  assert (∀ k, positionOf e2 k = positionOf (set_aside o lk e) k) as Ep by done.
  destruct (decide (lk = 0)) as [Hz|Hz].
  - rewrite release_nothing by (rewrite Hd; simpl; lia).
    split; intros x; [rewrite Eb|rewrite Ep]; unfold set_aside; destruct (_ =s SideBuy); cbv zeta; try done.
    + rewrite balanceOf_put. case_decide as E; [|done]. rewrite <- E. rewrite Hz.
      destruct (balanceOf e (o_UserID o)); simpl. f_equal; lia.
    + rewrite positionOf_put. case_decide as E; [|done]. rewrite <- E. rewrite Hz.
      destruct (positionOf e (pkey o)); simpl. f_equal; lia.
  - rewrite (release_eq e2 p HA Hp) by (rewrite Hd; simpl; lia).
    unfold release_accounts. rewrite Hd. change (o_Side (set_Status StatusCanceled o1)) with (o_Side o).
    change (o_UserID (set_Status StatusCanceled o1)) with (o_UserID o).
    change (pkey (set_Status StatusCanceled o1)) with (pkey o).
    change (o_LockedFunds (set_Status StatusCanceled o1)) with lk.
    split; intros x;
      [change (balanceOf (with_heap ?f ?e) x) with (balanceOf e x)|
       change (positionOf (with_heap ?f ?e) x) with (positionOf e x)];
      destruct (o_Side o =s SideBuy) eqn:Es; cbv zeta.
    + rewrite balanceOf_put, !Eb. unfold set_aside. rewrite Es. cbv zeta. rewrite !balanceOf_put.
      case_decide as E; [|done]. rewrite <- E, decide_True by done. simpl.
      destruct (balanceOf e (o_UserID o)); simpl. f_equal; lia.
    + change (balanceOf (putPosition ?k ?q ?e) x) with (balanceOf e x). rewrite Eb.
      unfold set_aside. rewrite Es. done.
    + change (positionOf (putBalance ?k ?q ?e) x) with (positionOf e x). rewrite Ep.
      unfold set_aside. rewrite Es. done.
    + rewrite positionOf_put, !Ep. unfold set_aside. rewrite Es. cbv zeta. rewrite !positionOf_put.
      case_decide as E; [|done]. rewrite <- E, decide_True by done. simpl.
      destruct (positionOf e (pkey o)); simpl. f_equal; lia.
Qed.
End cancel_fresh.

(** ** Theorems *)

(** Reservation on every branch.  An order the owner cannot pay for is refused
    with the error of its side and changes no account; any other order moves
    exactly the lock (the cost of a limit buy, all available cash of a market
    buy, the shares of a sell) from available to reserved. *)
Lemma reserveOrderLocked_spec e o :
  Accounts e → placeable o → cost_in_range o →
  (availableFor e o < lockFor e o → ∃ e',
     reserveOrderLocked o e =
       (Some (if o_Side o =s SideBuy then ErrInsufficientFunds else ErrInsufficientShares), o, e') ∧
     same_ledger e e') ∧
  (lockFor e o ≤ availableFor e o →
     reserveOrderLocked o e =
       (None, set_LockedFunds (lockFor e o) o, set_aside o (lockFor e o) e)) ∧
  0 ≤ lockFor e o ≤ max_int64.
Proof.
  intros HA Ho Hc. destruct (lockFor_range e o HA Ho Hc) as [Hl _].
  destruct (reserve_cases e o HA Ho Hc) as [[Hlt Hr]|[Hle Hr]];
    (split_and!; [intros|intros|lia|lia]; first [done|lia]).
Qed.

(** C36: round trip.  In a state of the invariant, cancelling a valid order that was
    registered and has not traded gives every account back exactly what it held before
    the order, leaves the books as they were, and marks the order CANCELED with no
    lock, provided that the order, if it is a limit buy, has a cost (quantity times
    price) that fits an int64. *)
Theorem register_cancel_roundtrip e o p e1 res e2 :
  Inv [] e → placeable o → cost_in_range o →
  registerOrder o e = (RegOK p, e1) → cancelOrderLocked (o_ID o) "" e1 = (res, e2) →
  res = CancelDone p ∧
  (∀ u, balanceOf e2 u = balanceOf e u) ∧ (∀ k, positionOf e2 k = positionOf e k) ∧
  markets e2 = markets e ∧
  o_Status (deref (heap e2) p) = StatusCanceled ∧ o_LockedFunds (deref (heap e2) p) = 0.
Proof.
  intros HI Ho Hc Hreg Hcan.
  destruct (registerOrder_cases e o HI Ho Hc) as [(p' & _ & Eq)|[(_ & err & e' & Eq & _)|(Hnew & Hav & [m Hm] & Eq)]];
    rewrite Eq in Hreg; simplify_eq.
  destruct (Book_Some m (o_Outcome o)) as [b Hb]; [apply Ho|].
  rewrite (cancel_fresh_eq e o m b) in Hcan by done. simplify_eq.
  destruct (cancel_fresh_accounts e o HI Ho Hc Hnew Hav) as [Eb Ep].
  destruct (cancel_fresh_inv e o HI Ho Hc Hnew Hav) as (_ & HA & Hp & Hd).
  destruct (release_frame _ _ HA Hp) as [Em _].
  split_and!; [done|done|done| | |].
  - rewrite Em. apply (fresh_markets e o).
  - rewrite release_heap, deref_store_eq by done. by rewrite Hd.
  - rewrite release_heap, deref_store_eq by done. done.
Qed.


(** Release.  The whole lock of an order goes back from reserved to available
    of its owner (cash for a buy, shares for a sell), the order holds nothing
    afterwards, and no other account changes. *)
Lemma releaseOrderLocked_refund e p :
  Accounts e → (p < length (heap e))%nat →
  let o := deref (heap e) p in
  let e' := releaseOrderLocked p e in
  Accounts e' ∧ cash e' = cash e ∧ shares e' = shares e ∧
  o_LockedFunds (deref (heap e') p) = 0 ∧
  (∀ u, let d := if (o_Side o =s SideBuy) && (o_UserID o =s u) then o_LockedFunds o else 0 in
     balanceOf e' u = mkBalance (bal_Available (balanceOf e u) + d) (bal_Reserved (balanceOf e u) - d)) ∧
  (∀ k, let d := if negb (o_Side o =s SideBuy) && (pkey o =s k) then o_LockedFunds o else 0 in
     positionOf e' k = mkPosition (pos_Available (positionOf e k) + d) (pos_Reserved (positionOf e k) - d)).
Proof.
  intros HA Hp o e'. destruct (release_totals e p HA Hp) as [Ec Es].
  destruct (release_ranges e p HA Hp) as (H0 & _). fold o in H0.
  split_and!; [by apply release_Accounts|done|done| | |].
  - unfold e'. rewrite release_heap, deref_store_eq by done. done.
  - intros u. cbv zeta. unfold e'. destruct (decide (o_LockedFunds o = 0)) as [Hz|Hz].
    + rewrite release_nothing by (fold o; lia). rewrite Hz.
      destruct (balanceOf e u); simpl. destruct (_ && _); f_equal; lia.
    + rewrite (release_eq e p HA Hp) by (fold o; lia). change (balanceOf (with_heap ?f ?x) u) with (balanceOf x u).
      unfold release_accounts. fold o. destruct (o_Side o =s SideBuy); cbv zeta; simpl.
      * rewrite balanceOf_put. destruct (seqb_spec (o_UserID o) u) as [<-|]; [by rewrite decide_True|].
        rewrite decide_False by done. destruct (balanceOf e u); simpl. f_equal; lia.
      * change (balanceOf (putPosition ?k ?q ?x) u) with (balanceOf x u). destruct (balanceOf e u); simpl. f_equal; lia.
  - intros k. cbv zeta. unfold e'. destruct (decide (o_LockedFunds o = 0)) as [Hz|Hz].
    + rewrite release_nothing by (fold o; lia). rewrite Hz.
      destruct (positionOf e k); simpl. destruct (_ && _); f_equal; lia.
    + rewrite (release_eq e p HA Hp) by (fold o; lia). change (positionOf (with_heap ?f ?x) k) with (positionOf x k).
      unfold release_accounts. fold o. destruct (o_Side o =s SideBuy); cbv zeta; simpl.
      * change (positionOf (putBalance ?u ?q ?x) k) with (positionOf x k). destruct (positionOf e k); simpl. f_equal; lia.
      * rewrite positionOf_put. destruct (seqb_spec (pkey o) k) as [<-|]; [by rewrite decide_True|].
        rewrite decide_False by done. destruct (positionOf e k); simpl. f_equal; lia.
Qed.

(** ** Witnesses *)

#[local] Existing Instance testEnv.

Lemma bid1_placeable : placeable bid1.
Proof. apply limit_placeable; [by vm_compute|by vm_compute|by vm_compute|by left]. Qed.

Lemma register_cancel_roundtrip_witness :
  balanceOf (snd (cancelOrderLocked "b1" "" market4)) "alice" = balanceOf market3 "alice" ∧
  bal_Reserved (balanceOf market4 "alice") = 720.
Proof.
  split; [|vm_compute; reflexivity].
  apply (register_cancel_roundtrip market3 bid1 3 market4 (fst (cancelOrderLocked "b1" "" market4))
    (snd (cancelOrderLocked "b1" "" market4)) (fl_inv _ market3_Flying) bid1_placeable
    ltac:(vm_compute; discriminate)).
  - vm_compute. reflexivity.
  - change (o_ID bid1) with "b1". destruct (cancelOrderLocked "b1" "" market4). reflexivity.
Defined.

(** Alice's order has swept Bob's and Carol's asks; two trades wait for
    settlement. *)
Definition m4 : Market := default NewMarket (markets market4 !! "ev").
Definition sw4 : list Order * list nat * list Trade * nat :=
  sweep 3 (heap market4) (oppSide (deref (heap market4) 3) (YES m4)) 0.
Definition swept4 : Engine :=
  matchedEngine 3 m4 sw4.1.1.1 (withOpp (deref (heap market4) 3) sw4.1.1.2 (YES m4)) market4.

Lemma swept4_Inv : Inv sw4.1.2 swept4 ∧ Forall (trade_ok swept4) sw4.1.2.
Proof.
  pose proof (fl_inv _ market4_Flying) as HI.
  pose proof (fl_pending _ market4_Flying 3%nat ltac:(by left)) as HP.
  assert (markets market4 !! o_EventID (deref (heap market4) 3) = Some m4) as Hm by (by vm_compute).
  assert (Book m4 (o_Outcome (deref (heap market4) 3)) = Some (YES m4)) as Hb by (by vm_compute).
  assert (o_Status (deref (heap market4) 3) = StatusPending) as Hst by (by vm_compute).
  assert (sweep 3 (heap market4) (oppSide (deref (heap market4) 3) (YES m4)) 0 =
    (sw4.1.1.1, sw4.1.1.2, sw4.1.2, sw4.2)) as Hsw.
  { unfold sw4. by destruct (sweep _ _ _ _) as [[[? ?] ?] ?]. }
  assert (o_OrderType (deref (heap market4) 3) = OrderTypeLimit) as Ht by (by vm_compute).
  assert (o_Side (deref (heap market4) 3) = SideBuy → o_OrderType (deref (heap market4) 3) = OrderTypeMarket →
    sumZ (amount SideBuy) sw4.1.2 ≤ o_LockedFunds (deref (heap market4) 3)) as Hbud.
  { intros _ Hmk. rewrite Ht in Hmk. discriminate Hmk. }
  split.
  - exact (e1_Inv market4 3 m4 (YES m4) 0 HI HP Hst Hm Hb _ _ _ _ Hsw Hbud).
  - exact (e1_trades market4 3 m4 (YES m4) 0 HI HP Hm Hb _ _ _ _ Hsw Hbud).
Qed.


