(* ===== verification/Lifecycle.v ===== *)
(** Theorems about whole commands and their interleaving: the engine invariant,
    conservation of cash and shares, idempotence of resubmitted commands, and
    what a cancellation and a query do. *)

From S2P Require Import Prelude Json Types Router State Ledger Matching Sweep Invariant Settle.
From S2P Require Import Events Outbox Depth Commands Handlers Replay Register Match Sections Concurrency.
From S2P Require Import Commanding Fixtures.
Local Open Scope Z_scope.

(** ** Cancellation *)

Section cancel.
Context (e : Engine) (id ev : string) (p : nat).
Hypothesis HI : Inv [] e.
Hypothesis Hid : orders e !! id = Some p.

Let o : Order := deref (heap e) p.

Lemma cancel_done_state m b :
  markets e !! o_EventID o = Some m → Book m (o_Outcome o) = Some b →
  let e2 := with_heap (store p (set_Status StatusCanceled))
    (with_markets (<[o_EventID o := set_Book (o_Outcome o) (withoutOrder e p b) m]>) e) in
  let e' := releaseOrderLocked p e2 in
  deref (heap e') p = set_LockedFunds 0 (set_Status StatusCanceled o) ∧
  (∀ q, q ≠ p → deref (heap e') q = deref (heap e) q) ∧
  unbooked e' p ∧ orders e' = orders e.
Proof.
  intros Hm Hb e2 e'. destruct (inv_table _ _ HI _ _ Hid) as (Hp & Eid & _).
  assert (orders e !! o_ID (deref (heap e) p) = Some p) as Ht by (by rewrite Eid).
  pose proof (cancel_status_Inv e p m b HI Ht Hm Hb) as HI2. fold o e2 in HI2.
  assert (p < length (heap e2))%nat as Hp2 by (unfold e2; simpl; by rewrite length_store).
  destruct (release_frame e2 p (inv_accounts _ _ HI2) Hp2) as [Em Eo].
  pose proof (release_heap e2 p (inv_accounts _ _ HI2) Hp2) as Eh.
  split_and!.
  - unfold e'. rewrite Eh, deref_store_eq by done. unfold e2; simpl. by rewrite deref_store_eq.
  - intros q Hq. unfold e'. rewrite Eh, deref_store_ne by done. unfold e2; simpl. by rewrite deref_store_ne.
  - intros ev' m' oc bk. unfold e'. rewrite Em. intros Hm' Hbk.
    by eapply (cancel_unbooked e p m b HI Ht Hm Hb).
  - done.
Qed.
End cancel.

(** ** Accounts and markets are never removed *)

Definition grows (e e' : Engine) : Prop :=
  (∀ u, is_Some (balances e !! u) → is_Some (balances e' !! u)) ∧
  (∀ ev, is_Some (markets e !! ev) → is_Some (markets e' !! ev)).

#[export] Instance grows_refl : Reflexive grows.
Proof. by split. Qed.
#[export] Instance grows_trans : Transitive grows.
Proof. intros a b c [] []. split; auto. Qed.

Lemma grows_eq e e' : balances e' = balances e → markets e' = markets e → grows e e'.
Proof. intros Hb Hm. split; intros x; by rewrite ?Hb, ?Hm. Qed.

Lemma grows_putBalance u b e : grows e (putBalance u b e).
Proof. split; [|done]. intros v Hv. apply lookup_insert_is_Some'. by right. Qed.

Lemma grows_with_markets ev m e : grows e (with_markets (<[ev := m]>) e).
Proof. split; [done|]. intros v Hv. apply lookup_insert_is_Some'. by right. Qed.

Lemma grows_getOrCreateBalance u e : grows e (snd (getOrCreateBalance u e)).
Proof. unfold getOrCreateBalance. destruct (_ !! _); [done|apply grows_putBalance]. Qed.
Lemma grows_getOrCreatePosition u ev oc e : grows e (snd (getOrCreatePosition u ev oc e)).
Proof. unfold getOrCreatePosition. destruct (_ !! _); [done|by apply grows_eq]. Qed.

Lemma grows_reserve o e : grows e (snd (reserveOrderLocked o e)).
Proof.
  unfold reserveOrderLocked. destruct (_ =s _).
  - rewrite getOrCreateBalance_spec. cbv zeta. pose proof (grows_getOrCreateBalance (o_UserID o) e).
    destruct (_ <? _); simpl; [done|]. etrans; [done|apply grows_putBalance].
  - rewrite getOrCreatePosition_spec. cbv zeta.
    pose proof (grows_getOrCreatePosition (o_UserID o) (o_EventID o) (o_Outcome o) e).
    destruct (_ <? _); simpl; [done|]. etrans; [done|by apply grows_eq].
Qed.

Lemma grows_register o e : grows e (snd (registerOrder o e)).
Proof.
  unfold registerOrder. destruct (orders e !! _); [done|]. destruct (markets e !! _); [|done].
  pose proof (grows_reserve o e). destruct (reserveOrderLocked o e) as [[err o'] e']; simpl in *.
  destruct err; simpl; [done|]. etrans; [done|by apply grows_eq].
Qed.

Lemma grows_settle t e : grows e (settleTradeLocked t e).
Proof.
  unfold settleTradeLocked.
  rewrite (getOrCreateBalance_spec (t_BuyerID t)), putBalance_getOrCreate.
  rewrite (getOrCreatePosition_spec (t_BuyerID t)), putPosition_getOrCreate.
  rewrite (getOrCreateBalance_spec (t_SellerID t)), putBalance_getOrCreate.
  rewrite (getOrCreatePosition_spec (t_SellerID t)), putPosition_getOrCreate.
  etrans; [apply (grows_putBalance (t_BuyerID t))|]. etrans; [apply grows_eq; done|].
  etrans; [apply (grows_putBalance (t_SellerID t))|].
  unfold unlockFill. repeat case_match; by apply grows_eq.
Qed.

Lemma grows_settle_all ts : ∀ e, grows e (foldl (λ e trade, settleTradeLocked trade e) e ts).
Proof. induction ts as [|t ts IH]; intros e; simpl; [done|]. etrans; [apply grows_settle|apply IH]. Qed.

Lemma grows_release p e : grows e (releaseOrderLocked p e).
Proof.
  unfold releaseOrderLocked. destruct (_ <=? _); [done|]. destruct (_ =s _).
  - rewrite getOrCreateBalance_spec, putBalance_getOrCreate.
    etrans; [apply grows_putBalance|]. by apply grows_eq.
  - rewrite getOrCreatePosition_spec, putPosition_getOrCreate. by apply grows_eq.
Qed.

Lemma grows_match `{Environment} p e t trs e' t' :
  matchOrderLocked p e t = Some (trs, e', t') → grows e e'.
Proof.
  unfold matchOrderLocked. destruct (_ =s _); [by intros [= <- <- <-]|].
  destruct (markets e !! _); [|intros [= <- <- <-]; by apply grows_eq].
  destruct (Book _ _); [|intros [= <- <- <-]; by apply grows_eq].
  destruct (matchAgainstBook _ _ _ _) as [[[[h bk] trs1] t1]|]; [|done]. cbv zeta.
  destruct (if _ =? _ then _ else _) as [h2 b2]. intros [= <- <- <-].
  match goal with |- grows e (if _ then releaseOrderLocked p ?e2 else _) => assert (grows e e2) as Hs end.
  { etrans; [|apply grows_settle_all]. etrans; [|apply grows_with_markets]. by apply grows_eq. }
  destruct (_ || _); [|done]. etrans; [exact Hs|apply grows_release].
Qed.

Lemma grows_cancel id ev e : grows e (snd (cancelOrderLocked id ev e)).
Proof.
  unfold cancelOrderLocked. destruct (orders e !! id); [|done].
  destruct (_ && _); [done|]. destruct (final_status _); [done|].
  destruct (markets e !! _); [|done]. destruct (Book _ _); [|done]. simpl.
  etrans; [|apply grows_release]. etrans; [apply grows_with_markets|by apply grows_eq].
Qed.

Lemma step_grows `{Environment} s d s' : step s d s' → grows (sn_eng s) (sn_eng s').
Proof.
  destruct 1 as [o e ps reg e' _ _ Hreg|p e ps _|p e ps t trs e' t' _ _ Hm
                |id ev e ps res e' Hc|u e ps _|ev e ps|e e' ps Hc]; simpl.
  - pose proof (grows_register o e) as Hg. by rewrite Hreg in Hg.
  - by apply grows_eq.
  - by eapply grows_match.
  - pose proof (grows_cancel id ev e) as Hg. by rewrite Hc in Hg.
  - unfold createUserLocked. destruct (_ !! _); [done|]. apply grows_putBalance.
  - unfold createEventLocked. destruct (_ !! _); [done|]. apply grows_with_markets.
  - apply core_inv in Hc as (_ & Hm & _ & Hb & _). by apply grows_eq.
Qed.

Lemma steps_grows `{Environment} s d s' : steps s d s' → grows (sn_eng s) (sn_eng s').
Proof. induction 1 as [|s1 d s2 d' s3 _ IH Hst]; [done|]. etrans; [exact IH|by eapply step_grows]. Qed.

(** ** Streams of commands *)

Section streams.
Context `{Environment}.

Definition entry_admissible (w : World) (msg : StreamEntry) : Prop :=
  ∀ m, entryMessage msg = Some m → admissible w m.

Fixpoint stream_admissible (pid : Z) (w : World) (msgs : list StreamEntry) : Prop :=
  match msgs with
  | [] => True
  | msg :: msgs => entry_admissible w msg ∧
      ∀ w', processStreamEntry pid msg w = Some ((), w') → stream_admissible pid w' msgs
  end.

Lemma frames_reply pid cl env r : frames pid (reply cl env r).
Proof.
  intros w Hw. unfold reply. destruct (cl =s ""); [by exists tt, w|].
  unfold bind, publish, bind, next_call, modify, ret. by eexists _, _.
Qed.

Lemma frames_ack pid id : frames pid (ack pid id).
Proof.
  intros w Hw. unfold ack, bind, get_eng, next_call, modify. simpl. by eexists _, _.
Qed.

Lemma handleEntry_served pid msg w :
  ready pid w → entry_admissible w msg →
  ∃ w' d, handleEntry pid msg w = Some ((), w') ∧ served pid d w w' ∧ (d = 0 ∨ d = DefaultStartingBalance).
Proof.
  intros Hr Ha. unfold entry_admissible, entryMessage in Ha. unfold handleEntry.
  assert (∃ w' d, ret () w = Some ((), w') ∧ served pid d w w' ∧ (d = 0 ∨ d = DefaultStartingBalance)) as Hz.
  { exists w, 0. split_and!; [done|by apply served_refl|by left]. }
  destruct (text_empty _); [done|]. destruct (unmarshal_command _) as [env|]; [|done].
  destruct (c_Type env =s ""); [done|]. specialize (Ha _ eq_refl).
  destruct (handleMessage_served pid _ w Hr Ha) as (r & w1 & d & E & Hs & Hd).
  destruct (served_then pid d _ (reply (se_clientId msg) env) w r w1 E Hs Hr (frames_reply _ _ _ _))
    as ([] & w2 & E2 & Hs2).
  exists w2, d. split_and!; [done|done|]. naive_solver.
Qed.

Lemma processStreamEntry_served pid msg w :
  ready pid w → entry_admissible w msg →
  ∃ w' d, processStreamEntry pid msg w = Some ((), w') ∧ served pid d w w' ∧
    (d = 0 ∨ d = DefaultStartingBalance).
Proof.
  intros Hr Ha. destruct (handleEntry_served pid msg w Hr Ha) as (w1 & d & E & Hs & Hd).
  destruct (served_then pid d _ (λ _, ack pid (se_ID msg)) w () w1 E Hs Hr (frames_ack _ _)) as ([] & w2 & E2 & Hs2).
  exists w2, d. by split_and!.
Qed.

Lemma processEntries_served pid msgs : ∀ w,
  ready pid w → stream_admissible pid w msgs →
  ∃ w' d, processEntries pid msgs w = Some ((), w') ∧ served pid d w w' ∧
    0 ≤ d ≤ DefaultStartingBalance * Z.of_nat (length msgs).
Proof.
  induction msgs as [|msg msgs IH]; intros w Hr; simpl.
  { intros _. exists w, 0. split_and!; [done|by apply served_refl|done|lia]. }
  intros [Ha Hrest]. destruct (processStreamEntry_served pid msg w Hr Ha) as (w1 & d & E & Hs & Hd).
  destruct (IH w1 (served_ready _ _ _ _ Hs Hr) (Hrest _ E)) as (w2 & d2 & E2 & Hs2 & Hd2).
  exists w2, (d + d2). rewrite (bind_eq _ _ _ _ _ E). split; [done|]. split; [by eapply served_trans|].
  unfold DefaultStartingBalance, PriceScale in *. lia.
Qed.

(** ** Theorems *)


(** C37: a command never gets stuck.  In every state of the invariant the second
    half of a pending order, its matching, is possible, provided that the order, if it
    is a market buy, finds trades for no more than it locked: the loop ends, the
    section keeps the invariant and the totals of cash and shares, and everybody else's
    pending orders are still pending. *)
Theorem pending_order_can_match e p t :
  Inv [] e → pending e p → within_budget e p t →
  ∃ trs e' t', matchOrderLocked p e t = Some (trs, e', t') ∧ Inv [] e' ∧
    cash e' = cash e ∧ shares e' = shares e ∧ ∀ q, q ≠ p → pending e q → pending e' q.
Proof.
  intros HI HP Hb. destruct (matchOrderLocked_Inv e p t HI HP Hb) as (trs & e' & t' & E & HI' & Hc & Hs & Hsp & _).
  exists trs, e', t'. by split_and!.
Qed.

(** C4: [handleMessage] answers (it neither panics nor loops) in every state of the
    invariant, for a partition with a sequence counter, whatever the I/O failures on
    the way and whatever the command and its payload, as long as amounts stay in
    range: the cost of a limit buy fits an int64, a market buy finds trades for no
    more than it locks, and the starting balance of a new user keeps the engine's cash
    within an int64.  It then keeps the engine invariant and the configuration,
    conserves shares, and creates money only for USER_CREATED. *)
Theorem handleMessage_safe pid msg w :
  ready pid w → admissible w msg →
  ∃ resp w' d, handleMessage pid msg w = Some (resp, w') ∧
    Inv [] (eng w') ∧ same_setup (eng w) (eng w') ∧
    cash (eng w') = cash (eng w) + d ∧ shares (eng w') = shares (eng w) ∧
    (d = 0 ∨ msg_Type msg = UserCreatedCommand ∧ d = DefaultStartingBalance).
Proof.
  intros Hr Ha. destruct (handleMessage_served pid msg w Hr Ha) as (r & w' & d & E & [] & Hd).
  exists r, w', d. by split_and!.
Qed.

(** Resubmission is idempotent.  CREATE_ORDER with the id of an order already
    in the table succeeds with that order's status and changes nothing: not the
    engine, not the journal, nothing sent. *)
Lemma createOrder_duplicate pid payload req p w :
  unmarshal_createOrder payload = Some req → r_OrderID req ≠ "" → 0 < r_Quantity req →
  orders (eng w) !! r_OrderID req = Some p →
  validateOrder (newOrder req (r_OrderID req) 0) = None →
  ∃ w', handleCreateOrderCore pid payload w =
      Some (successJSON (JObj [("orderId", JStr (o_ID (deref (heap (eng w)) p)));
                               ("status", JStr (o_Status (deref (heap (eng w)) p)))]), w') ∧
    eng w' = eng w ∧ metrics w' = metrics w ∧ journal w' = journal w ∧ xlog w' = xlog w ∧
    published w' = published w.
Proof.
  intros Hu Hid Hq Ho Hv. unfold handleCreateOrderCore. rewrite Hu, (seqb_ne _ _ Hid).
  rewrite (bind_eq (ret (r_OrderID req)) _ w (r_OrderID req) w) by done.
  rewrite (proj2 (Z.leb_gt _ 0)) by lia.
  rewrite (bind_eq next_time _ w (time_Now (tick w)) (with_tick (S (tick w)) w)) by done.
  unfold placeOrder. change (validateOrder (newOrder req (r_OrderID req) (time_Now (tick w))))
    with (validateOrder (newOrder req (r_OrderID req) 0)). rewrite Hv.
  rewrite (bind_eq get_eng _ (with_tick (S (tick w)) w) (eng w) (with_tick (S (tick w)) w)) by done.
  unfold registerOrder. change (o_ID (newOrder req (r_OrderID req) (time_Now (tick w)))) with (r_OrderID req).
  rewrite Ho. eexists. by split_and!.
Qed.
End streams.


(** USER_CREATED and CREATE_EVENT take effect once.  After the command has run,
    no interleaving of sections removes the account or the market, so a
    resubmitted or replayed command changes nothing at any later time: no user is
    funded twice and no book is reset. *)
Lemma onboarding_once `{Environment} u ev e ps d s :
  (steps (mkSnap (createUserLocked u e) ps) d s → createUserLocked u (sn_eng s) = sn_eng s) ∧
  (steps (mkSnap (snd (createEventLocked ev e)) ps) d s →
     createEventLocked ev (sn_eng s) = ("already_exists", sn_eng s)).
Proof.
  split; intros Hst; apply steps_grows in Hst as [Hb Hm]; simpl in *.
  - destruct (Hb u) as [b Eb].
    { unfold createUserLocked. destruct (balances e !! u) eqn:E; [by rewrite E|]. simpl. by rewrite lookup_insert_eq. }
    unfold createUserLocked at 1. by rewrite Eb.
  - destruct (Hm ev) as [m Em].
    { unfold createEventLocked. destruct (markets e !! ev) eqn:E; simpl; [by rewrite E|]. by rewrite lookup_insert_eq. }
    unfold createEventLocked at 1. by rewrite Em.
Qed.

(** ** Queries *)

Section queries.
Context `{EnvironmentLaws}.

(** GET_DEPTH and GET_OPEN_ORDERS are read-only: they always answer, leave the
    engine and its counters alone and send nothing. *)
Lemma queries_read_only pid payload ty w :
  ty = GetDepthCommand ∨ ty = GetOpenOrdersCommand →
  ∃ resp w', handleMessage pid (mkMessage ty payload) w = Some (resp, w') ∧
    eng w' = eng w ∧ metrics w' = metrics w ∧ xlog w' = xlog w ∧ published w' = published w ∧
    journal w' = journal w.
Proof.
  intros [-> | ->]; unfold handleMessage; simpl.
  - apply handleGetDepth_eng.
  - apply handleGetOpenOrders_eng.
Qed.

Lemma created_trans : ∀ x y z : Order, (o_CreatedAt y <? o_CreatedAt x) = false →
  (o_CreatedAt z <? o_CreatedAt y) = false → (o_CreatedAt z <? o_CreatedAt x) = false.
Proof. intros. lia. Qed.
Lemma created_asym : ∀ x y : Order, (o_CreatedAt x <? o_CreatedAt y) = true → (o_CreatedAt y <? o_CreatedAt x) = false.
Proof. intros. lia. Qed.

(** GET_OPEN_ORDERS answers with exactly the live orders of the user in the
    event that are in the order table, each once, oldest first, in whatever order
    the map is visited. *)
Lemma openOrders_exact eventID userID e t :
  let l := openOrders eventID userID e (map_range t ((map_to_list (orders e)).*2)) in
  (∀ o, o ∈ l ↔ ∃ id p, orders e !! id = Some p ∧ o = deref (heap e) p ∧
                  o_EventID o = eventID ∧ o_UserID o = userID ∧ live_status (o_Status o) = true) ∧
  StronglySorted (λ a b, o_CreatedAt a ≤ o_CreatedAt b) l ∧
  l ≡ₚ filter (λ o, is_open eventID userID o = true) (deref (heap e) <$> (map_to_list (orders e)).*2).
Proof.
  intros l. unfold l, openOrders. split_and!.
  - intros o. rewrite stable_sort_Permutation, list_elem_of_filter, list_elem_of_fmap. unfold is_open.
    rewrite !andb_true_iff, !seqb_eq. split.
    + intros (((He & Hu) & Hl) & p & -> & Hp). rewrite map_range_perm in Hp.
      apply list_elem_of_fmap in Hp as ([id q] & -> & Hin). apply elem_of_map_to_list in Hin.
      exists id, q. by split_and!.
    + intros (id & p & Hid & -> & He & Hu & Hl). split_and!; [done..|]. exists p. split; [done|].
      rewrite map_range_perm. apply list_elem_of_fmap. exists (id, p). split; [done|].
      by apply elem_of_map_to_list.
  - eapply StronglySorted_elem; [|apply stable_sort_sorted; [apply created_trans|apply created_asym]].
    unfold not_after. intros; lia.
  - by rewrite stable_sort_Permutation, map_range_perm.
Qed.
End queries.

(** ** Witnesses *)

#[local] Existing Instance testEnv.

Lemma seeded_steps : steps (mkSnap seeded []) 0 (mkSnap market1 []).
Proof.
  apply (steps_step _ 0 (mkSnap (enter ask1 market0) [0%nat]) 0).
  - apply (steps_step _ 0 (mkSnap market0 []) 0).
    + apply (steps_step _ 0 (mkSnap seeded []) 0); [apply steps_refl|apply step_event].
    + apply (step_register ask1 market0 [] (RegOK 0) (enter ask1 market0)).
      * apply limit_placeable; vm_compute; auto; done.
      * by vm_compute.
      * by vm_compute.
  - destruct (matchOrderLocked 0 (enter ask1 market0) 0) as [[[trs e'] t']|] eqn:E; [|by vm_compute in E].
    assert (market1 = e') as -> by (unfold market1, settleIn; by rewrite E).
    apply (step_match 0 (enter ask1 market0) [0%nat] 0 trs e' t'); [by left| |done].
    intros Hs. by vm_compute in Hs.
Qed.


Lemma pending_order_can_match_witness :
  ∃ trs e' t', matchOrderLocked 3 market4 0 = Some (trs, e', t') ∧ cash e' = cash market4.
Proof.
  destruct (pending_order_can_match market4 3 0 (fl_inv _ market4_Flying)
    (fl_pending _ market4_Flying 3%nat ltac:(left))) as (trs & e' & t' & E & _ & Hc & _).
  - intros _ Hm. vm_compute in Hm. discriminate Hm.
  - exists trs, e', t'. split; [exact E|exact Hc].
Defined.

Definition order_message (r : CreateOrderReq) : MessageToEngine :=
  mkMessage CreateOrderCommand (JText (createOrder_json r)).

Definition bid_request : CreateOrderReq :=
  mkCreateOrder "b1" "ev" "alice" OrderTypeLimit OutcomeYes SideBuy 12 60.

Lemma market3_ready : ready 0 (initWorld market3).
Proof. split; [apply (fl_inv _ market3_Flying)|]. vm_compute. split; [done|lia]. Qed.

Lemma handleMessage_safe_witness :
  ∃ resp w' d, handleMessage 0 (order_message bid_request) (initWorld market3) = Some (resp, w') ∧
    cash (eng w') = cash market3 + d ∧ d = 0 ∧ Success resp = true ∧ length (xlog w') = 3%nat.
Proof.
  destruct (handleMessage_safe 0 (order_message bid_request) (initWorld market3) market3_ready)
    as (resp & w' & d & E & _ & _ & Hc & _ & Hd).
  - split.
    + intros _ req Hreq. vm_compute in Hreq. injection Hreq as <-.
      apply servable_limit; [reflexivity|]. intros _. vm_compute. discriminate.
    + intros Hu. discriminate Hu.
  - exists resp, w', d. split; [exact E|]. split; [exact Hc|].
    assert (handleMessage 0 (order_message bid_request) (initWorld market3) = Some (resp, w')) as E2 by exact E.
    vm_compute in E2. injection E2 as <- <-. split; [|split; vm_compute; reflexivity].
    destruct Hd as [->|[Hd _]]; [reflexivity|discriminate Hd].
Defined.

(** A stream with a new user and a query. *)
Definition command_text (ty : string) (payload : json) : json_text :=
  JText (JObj [("commandId", JStr "c"); ("type", JStr ty); ("payload", payload)]).

Definition dave_stream : list StreamEntry := [
  mkEntryOf "1-0" "" (command_text UserCreatedCommand (JObj [("userId", JStr "dave")]));
  mkEntryOf "2-0" "client" (command_text GetDepthCommand (JObj [("eventId", JStr "ev")]))].

Lemma createOrder_duplicate_witness :
  ∃ w', handleCreateOrderCore 0
      (JText (createOrder_json (mkCreateOrder "s1" "ev" "bob" OrderTypeLimit OutcomeYes SideSell 10 60)))
      (initWorld market3) =
    Some (successJSON (JObj [("orderId", JStr "s1"); ("status", JStr StatusPending)]), w') ∧
    eng w' = market3.
Proof.
  destruct (createOrder_duplicate 0
    (JText (createOrder_json (mkCreateOrder "s1" "ev" "bob" OrderTypeLimit OutcomeYes SideSell 10 60)))
    (mkCreateOrder "s1" "ev" "bob" OrderTypeLimit OutcomeYes SideSell 10 60) 0 (initWorld market3))
    as (w' & E & He & _).
  - vm_compute. reflexivity.
  - simpl. discriminate.
  - simpl. lia.
  - vm_compute. reflexivity.
  - vm_compute. reflexivity.
  - exists w'. split; [|exact He]. rewrite E. vm_compute. reflexivity.
Defined.


(** A user funded by USER_CREATED is not funded again. *)
Lemma onboarding_once_witness :
  createUserLocked "alice" (createUserLocked "alice" market3) = createUserLocked "alice" market3.
Proof.
  apply (proj1 (onboarding_once "alice" "ev" market3 [] 0 (mkSnap (createUserLocked "alice" market3) []))).
  apply steps_refl.
Defined.

