(* ===== verification/Recovery.v ===== *)
(** Theorems about replay: the live engine and the replaying engine implement
    the same machine, so replaying the command log reconstructs the state, and
    it does so without sending anything. *)

From S2P Require Import Prelude Json Types Router State Ledger Matching Sweep.
From S2P Require Import Events Outbox Depth Commands Handlers Replay.
From S2P Require Import Invariant Settle Register Match Sections Concurrency Commanding Determinism StateMachine Fixtures.
Local Open Scope Z_scope.

Lemma norm_replaying f e : norm (with_replaying f e) = norm e.
Proof. done. Qed.

Section replay_log.
Context `{Environment}.

Lemma replayCommandLog_run pid msgs w :
  redisManager (eng w) = true → Forall entry_identified msgs →
  match replayCommandLog pid (Some msgs) w with
  | Some (r, w') => r = None ∧ applyEntries msgs (norm (eng w)) = Some (norm (eng w')) ∧
      (journal w', xlog w', published w', acked w') = (journal w, xlog w, published w, acked w) ∧
      pid ∉ replaying (eng w')
  | None => applyEntries msgs (norm (eng w)) = None
  end.
Proof.
  intros Hrm Hid. unfold replayCommandLog. rewrite (bind_eq get_eng _ w (eng w) w) by done.
  rewrite Hrm. cbv beta iota delta [negb].
  set (w1 := with_eng (with_replaying (λ s, {[pid]} ∪ s)) w).
  rewrite (bind_eq (modify_eng _) _ w () w1) by done.
  assert (replayMode pid (journal w, xlog w, published w, acked w) w1) as M1.
  { split; [|done]. unfold isReplaying; simpl. apply bool_decide_eq_true. set_solver. }
  pose proof (replayEntries_implements pid _ msgs Hid w1 M1) as Hi.
  change (norm (eng w1)) with (norm (eng w)) in Hi. unfold bind at 1.
  destruct (replayEntries pid msgs w1) as [[[] w2]|]; [|done].
  destruct Hi as [Ha [_ Hout]]. split_and!; [done|done|exact Hout|]. simpl. set_solver.
Qed.
End replay_log.

(** ** Theorems *)

(** C14: the engine is a state machine over its commands.  In a live partition whose
    outbox and Redis work, every command that names its order takes the state
    exactly where the pure machine [apply] takes it, whatever ids and time stamps
    the environment hands out; and it fails to return exactly when the machine
    does. *)
Theorem live_command_refines_machine `{Environment} pid msg w :
  (∀ n, io_ok n = true) → liveMode pid w → identified msg →
  match handleMessage pid msg w with
  | Some (_, w') => apply msg (norm (eng w)) = Some (norm (eng w'))
  | None => apply msg (norm (eng w)) = None
  end.
Proof.
  intros Hio Hl Hid. pose proof (liveMode_emission pid Hio) as Hm.
  pose proof (handleMessage_implements pid (liveMode pid) msg Hid w Hl) as Hi.
  destruct (handleMessage pid msg w) as [[r w']|]; [by destruct Hi|done].
Qed.

(** C1: replay reconstructs the state, if nothing went wrong live.  One process works
    through a command log live, in a partition with a sequence counter and an open
    outbox; every file and Redis call it makes succeeds, and every order command of
    the log names its order id.  Another process, with a Redis manager, starts from
    the same state and replays the same log.  It ends in the state of the first
    (books, orders, balances, positions; up to the orders' time stamps), although its
    clock, its ids, its configuration and the answers to its own calls differ.  (After
    a failed live emission it does not: [failed_emission_strands_and_diverges].) *)
Theorem replay_reconstructs_state (E1 E2 : Environment) pid msgs w1 w1' w2 :
  (∀ n, @io_ok E1 n = true) → liveMode pid w1 → Forall entry_identified msgs →
  norm (eng w1) = norm (eng w2) → redisManager (eng w2) = true →
  @processEntries E1 pid msgs w1 = Some ((), w1') →
  ∃ w2', @replayCommandLog E2 pid (Some msgs) w2 = Some (None, w2') ∧
    norm (eng w2') = norm (eng w1').
Proof.
  intros Hio Hl Hid Heq Hrm Hrun. pose proof (@liveMode_emission E1 pid Hio) as Hm.
  pose proof (@processEntries_implements E1 pid (liveMode pid) Hm _ msgs Hid w1 Hl) as Hi.
  rewrite Hrun in Hi. destruct Hi as [Ha _].
  pose proof (@replayCommandLog_run E2 pid msgs w2 Hrm Hid) as Hr. rewrite <- Heq, Ha in Hr.
  destruct (@replayCommandLog E2 pid (Some msgs) w2) as [[r w2']|]; [|done].
  destruct Hr as (-> & He & _). exists w2'. split; [done|]. by apply (inj Some) in He.
Qed.

(** Replay is silent.  Whatever the log, replaying it appends nothing to the
    journal, adds nothing to the event stream, publishes nothing, acknowledges
    nothing, and ends with the partition out of replay. *)
Lemma replay_is_silent `{Environment} pid msgs w r w' :
  redisManager (eng w) = true → Forall entry_identified msgs →
  replayCommandLog pid (Some msgs) w = Some (r, w') →
  r = None ∧ journal w' = journal w ∧ xlog w' = xlog w ∧ published w' = published w ∧
  acked w' = acked w ∧ pid ∉ replaying (eng w').
Proof.
  intros Hrm Hid Hrun. pose proof (replayCommandLog_run pid msgs w Hrm Hid) as Hr. rewrite Hrun in Hr.
  destruct Hr as (-> & _ & Hout & Hnin). injection Hout as -> -> -> ->. by split_and!.
Qed.

(** ** Witnesses *)

(** A log with two asks, a crossing bid and a cancellation. *)
Definition entry_of_command (id ty : string) (payload : json) : StreamEntry :=
  mkEntryOf id "client" (JText (JObj [("commandId", JStr id); ("type", JStr ty); ("payload", payload)])).

Definition log1 : list StreamEntry := [
  entry_of_command "1" CreateEventCommand (JObj [("eventId", JStr "ev")]);
  entry_of_command "2" CreateOrderCommand
    (createOrder_json (mkCreateOrder "s1" "ev" "bob" OrderTypeLimit OutcomeYes SideSell 10 60));
  entry_of_command "3" CreateOrderCommand
    (createOrder_json (mkCreateOrder "s2" "ev" "carol" OrderTypeLimit OutcomeYes SideSell 5 50));
  entry_of_command "4" CreateOrderCommand
    (createOrder_json (mkCreateOrder "b1" "ev" "alice" OrderTypeLimit OutcomeYes SideBuy 12 60));
  entry_of_command "5" CancelOrderCommand (JObj [("orderId", JStr "s1"); ("eventId", JStr "ev")])].

Lemma log1_identified : Forall entry_identified log1.
Proof.
  repeat (constructor; [intros m Hm; vm_compute in Hm; injection Hm as <-; intros Ht req Hreq;
    first [discriminate Ht|vm_compute in Hreq; injection Hreq as <-; discriminate]|]).
  constructor.
Qed.

Lemma seeded_live : liveMode 0 (initWorld seeded).
Proof. vm_compute. split; [reflexivity|]. split; [|reflexivity]. split; [discriminate|lia]. Qed.

(** The other process: different ids and clock, its own configuration. *)
Definition otherEnv : Environment := {|
  uuid_NewString n := "other-" +:+ pretty (Z.of_nat n);
  time_Now n := 5000 + 3 * Z.of_nat n;
  io_ok n := Nat.even n; io_lost _ := 0%nat;
  map_range A n l := l
|}.

Definition other0 : World :=
  initWorld (SetLeaseSettings "engine-1" 30 10 (SetRouter (NewRouter 4 "commands") seeded)).

Definition bid_message : MessageToEngine :=
  mkMessage CreateOrderCommand (JText (createOrder_json
    (mkCreateOrder "b1" "ev" "alice" OrderTypeLimit OutcomeYes SideBuy 12 60))).

Lemma live_command_refines_machine_witness :
  match @handleMessage testEnv 0 bid_message (initWorld market3) with
  | Some (_, w') => apply bid_message (norm market3) = Some (norm (eng w')) ∧
      Z.of_nat (length (xlog w')) = 3
  | None => False
  end.
Proof.
  pose proof (@live_command_refines_machine testEnv 0 bid_message (initWorld market3)) as Ht.
  destruct (@handleMessage testEnv 0 bid_message (initWorld market3)) as [[r w']|] eqn:E.
  - split.
    + apply Ht.
      * intros n. reflexivity.
      * vm_compute. split; [reflexivity|]. split; [|reflexivity]. split; [discriminate|lia].
      * intros _ req Hreq. vm_compute in Hreq. injection Hreq as <-. discriminate.
    + vm_compute in E. injection E as _ <-. reflexivity.
  - vm_compute in E. discriminate E.
Defined.

Lemma replay_reconstructs_state_witness :
  ∃ w1' w2', @processEntries testEnv 0 log1 (initWorld seeded) = Some ((), w1') ∧
    @replayCommandLog otherEnv 0 (Some log1) other0 = Some (None, w2') ∧
    norm (eng w2') = norm (eng w1') ∧
    GetBalances "alice" (eng w1') = (999330, 0, true).
Proof.
  destruct (@processEntries testEnv 0 log1 (initWorld seeded)) as [[[] w1']|] eqn:E; [|vm_compute in E; discriminate E].
  destruct (replay_reconstructs_state testEnv otherEnv 0 log1 (initWorld seeded) w1' other0) as (w2' & E2 & He).
  - intros n. reflexivity.
  - exact seeded_live.
  - exact log1_identified.
  - reflexivity.
  - reflexivity.
  - exact E.
  - exists w1', w2'. split; [reflexivity|]. split; [exact E2|]. split; [exact He|].
    vm_compute in E. injection E as <-. vm_compute. reflexivity.
Defined.

