(* ===== verification/Durability.v ===== *)
(** Theorems about event emission and the outbox journal. *)

From S2P Require Import Prelude Json Types Router State Events Outbox.
From S2P Require Import Ledger Matching Sweep Invariant Settle Depth Commands Handlers Register Match Sections Concurrency Fixtures.
Local Open Scope Z_scope.

Section emission.
Context `{Environment}.

(** ** One emission, whatever the I/O does *)

Definition appended {A} (l l' : list A) (x : A) : Prop := l' = l ∨ l' = l ++ [x].

Lemma Append_spec d w :
  ∃ err w', Append d w = Some (err, w') ∧ xlog w' = xlog w ∧ published w' = published w ∧
    eng w' = eng w ∧ appended (journal w) (journal w') d ∧ (err = None → journal w' = journal w ++ [d]).
Proof.
  unfold Append, ifOpen. destruct (outboxOpen w); [|eexists _, _; by split_and!; [..|left|]].
  unfold bind, next_io. destruct (io_ok (tick w)); simpl.
  - destruct (io_ok _); simpl; eexists _, _; split_and!; try done; by right.
  - eexists _, _; split_and!; try done. by left.
Qed.

Lemma Reset_spec w :
  ∃ err w', Reset w = Some (err, w') ∧ xlog w' = xlog w ∧ published w' = published w ∧
    eng w' = eng w ∧ (journal w' = journal w ∨ journal w' = []).
Proof.
  unfold Reset, ifOpen. destruct (outboxOpen w); [|eexists _, _; by split_and!; [..|left]].
  unfold bind, next_io. destruct (io_ok (tick w)); simpl.
  - destruct (io_ok _); simpl; eexists _, _; split_and!; try done; by right.
  - eexists _, _; split_and!; try done. by left.
Qed.

(** [xadd] and [publish] leave copies of what they send, at least one if they
    report success. *)
Definition sent {A} (ok : bool) (l l' : list A) (x : A) (n : nat) : Prop :=
  l' = l ++ replicate n x ∧ (n ≤ S MaxRetries)%nat ∧ (ok = true → (0 < n)%nat).

Lemma executed_sent k {A} (l : list A) x : sent (io_ok k) l (l ++ replicate (executed k) x) x (executed k).
Proof.
  split_and!; [done|apply executed_bound|]. intros (n & -> & _)%executed_ok. lia.
Qed.

Lemma xadd_spec s d w :
  ∃ ok n w', xadd s d w = Some (ok, w') ∧ journal w' = journal w ∧ published w' = published w ∧
    eng w' = eng w ∧ outboxOpen w' = outboxOpen w ∧ sent ok (xlog w) (xlog w') (s, d) n.
Proof. eexists _, _, _. split_and!; [reflexivity|done..|]. apply executed_sent. Qed.

Lemma publish_spec s d w :
  ∃ ok n w', publish s d w = Some (ok, w') ∧ journal w' = journal w ∧ xlog w' = xlog w ∧
    eng w' = eng w ∧ outboxOpen w' = outboxOpen w ∧ sent ok (published w) (published w') (s, d) n.
Proof. eexists _, _, _. split_and!; [reflexivity|done..|]. apply executed_sent. Qed.

(** What an emission that returned [err] did: [i] copies of the event reached the
    stream, [j] the channel. *)
Record emitted (b : bool) (env : json_text) (w w' : World) (err : option string) (i j : nat) : Prop := {
  em_xlog : xlog w' = xlog w ++ replicate i (eventStream (eng w), env);
  em_published : published w' = published w ++ replicate j (wsChannel (eng w), env);
  em_bound : (i ≤ S MaxRetries)%nat ∧ (j ≤ S MaxRetries)%nat;
  em_order : (b = false → j = 0%nat) ∧ ((0 < j)%nat → (0 < i)%nat);
  em_nil : err = None → (0 < i)%nat ∧ (b = true → (0 < j)%nat);
  em_journal : journal w' = journal w ++ [env] ∨
    match err with Some _ => journal w' = journal w ∧ i = 0%nat | None => journal w' = [] end
}.

(** C34: what an emission reports is what happened, for any pattern of failed calls,
    lost replies and repeated attempts of the Redis client.  In a live partition that
    has a sequence counter, of an engine with a Redis manager: the stream grows by [i]
    and the broadcast channel by [j] copies of this event and by nothing else, at most
    four each; nothing is published before the stream has the event, and nothing at
    all if the event is not broadcast.  Nil means that at least one copy is in the
    stream (and, if it is broadcast, at least one was published) and that the journal
    is empty or still holds the event.  An error means that the event is in the
    journal, or that no copy of it got out; the journal lost nothing.  Either way the
    sequence counter of the partition moved by one and the rest of the engine is
    unchanged. *)
Theorem emitEventP_outcome pid ty d b w n :
  isReplaying (eng w) pid = false → redisManager (eng w) = true →
  0 ≤ pid → partitionSeq (eng w) !! Z.to_nat pid = Some n →
  let env := JText (envelope_json (envelopeOf pid ty d n w)) in
  ∃ err w' i j, emitEventP pid ty d b w = Some (err, w') ∧
    eng w' = with_partitionSeq (<[Z.to_nat pid := wrapu64 (n + 1)]>) (eng w) ∧
    emitted b env w w' err i j.
Proof.
  intros Hrep Hrm Hpid Hn env. unfold emitEventP.
  rewrite (bind_eq get_eng _ w (eng w) w) by done. rewrite Hrep, Hrm. cbv iota beta zeta delta [negb].
  set (w1 := with_eng (with_partitionSeq (<[Z.to_nat pid := wrapu64 (n + 1)]>)) w).
  rewrite (bind_eq (nextSequence pid) _ w (wrapu64 (n + 1)) w1).
  2:{ unfold nextSequence. by rewrite (proj2 (Z.ltb_ge _ _) Hpid), Hn. }
  set (w2 := with_tick (S (S (tick w))) w1).
  rewrite (bind_eq (NewEnvelope _) _ w1 (envelopeOf pid ty d n w) w2) by done. fold env.
  destruct (Append_spec env w2) as (err & w3 & E3 & X3 & P3 & G3 & J3 & JN3). rewrite (bind_eq _ _ _ _ _ E3).
  destruct err as [err|].
  { eexists _, _, 0%nat, 0%nat. split_and!; [done|by rewrite G3|].
    split; [by rewrite X3, app_nil_r|by rewrite P3, app_nil_r|split; lia|split; [done|lia]|done|]. destruct J3 as [-> | ->]; [by right|by left]. }
  specialize (JN3 eq_refl). change (journal w2) with (journal w) in JN3.
  destruct (xadd_spec (eventStream (eng w)) env w3) as (ok & i & w4 & E4 & J4 & P4 & G4 & _ & X4 & Bi & Ki).
  rewrite (bind_eq _ _ _ _ _ E4). rewrite X3 in X4. rewrite P3 in P4. rewrite G3 in G4. rewrite JN3 in J4.
  destruct ok; cbv iota delta [negb].
  2:{ eexists _, _, i, 0%nat. split_and!; [done|done|].
      split; [done|by rewrite P4, app_nil_r|split; lia|split; [done|lia]|done|by left]. }
  specialize (Ki eq_refl). destruct b.
  - destruct (publish_spec (wsChannel (eng w)) env w4) as (ok & j & w5 & E5 & J5 & X5 & G5 & _ & P5 & Bj & Kj).
    rewrite (bind_eq _ _ _ _ _ E5). rewrite X4 in X5. rewrite P4 in P5. rewrite G4 in G5. rewrite J4 in J5.
    destruct ok; cbv iota delta [negb].
    2:{ eexists _, _, i, j. split_and!; [done|done|]. split; [done..|by left]. }
    destruct (Reset_spec w5) as (err & w6 & E6 & X6 & P6 & G6 & J6). rewrite (bind_eq _ _ _ _ _ E6).
    eexists _, _, i, j. split_and!; [done|by rewrite G6, G5|]. split; [by rewrite X6|by rewrite P6|done|done|by auto|].
    destruct J6 as [-> | ->]; [by left|by right].
  - rewrite (bind_eq (ret true) _ w4 true w4) by done. cbv iota delta [negb].
    destruct (Reset_spec w4) as (err & w6 & E6 & X6 & P6 & G6 & J6). rewrite (bind_eq _ _ _ _ _ E6).
    eexists _, _, i, 0%nat. split_and!; [done|by rewrite G6, G4|].
    split; [by rewrite X6|by rewrite P6, P4, app_nil_r|split; lia|split; [done|lia]|done|].
    destruct J6 as [-> | ->]; [by left|by right].
Qed.

(** ** Recovery of the journal *)

(** What one journal line becomes in the stream. *)
Definition resent (line : json_text) : option json_text :=
  (λ env, JText (envelope_json env)) <$> unmarshal_envelope line.

Lemma republishEnvelope_spec line s c w :
  ∃ err ys w', republishEnvelope line s c w = Some (err, w') ∧ journal w' = journal w ∧ outboxOpen w' = outboxOpen w ∧
    xlog w' = xlog w ++ ys ∧ (err = None → copied ((s,.) <$> option_list (resent line)) ys).
Proof.
  unfold republishEnvelope, resent. destruct (unmarshal_envelope line) as [env|]; simpl.
  2:{ eexists _, [], _. rewrite app_nil_r. split_and!; [done..|]. constructor. }
  unfold publishEnvelope.
  destruct (xadd_spec s (JText (envelope_json env)) w) as (ok & n & w1 & E1 & J1 & P1 & G1 & O1 & X1 & Bn & Kn).
  rewrite (bind_eq _ _ _ _ _ E1). destruct ok; [|by eexists _, _, _].
  assert (copied [(s, JText (envelope_json env))] (replicate n (s, JText (envelope_json env)))) as Hc.
  { specialize (Kn eq_refl). destruct n as [|n]; [lia|]. apply copied_one. lia. }
  destruct (_ =s _); [|by eexists _, _, _].
  destruct (publish_spec c (JText (envelope_json env)) w1) as (ok & m & w2 & E2 & J2 & X2 & G2 & O2 & P2).
  rewrite (bind_eq _ _ _ _ _ E2). eexists _, _, _. split_and!; [done|congruence|congruence|by rewrite X2|done].
Qed.

Lemma republishAll_spec lines s c : ∀ w,
  ∃ err ys w', republishAll lines s c w = Some (err, w') ∧ journal w' = journal w ∧ outboxOpen w' = outboxOpen w ∧
    xlog w' = xlog w ++ ys ∧ (err = None → copied ((s,.) <$> omap resent lines) ys).
Proof.
  induction lines as [|line lines IH]; intros w; simpl.
  { eexists _, [], _. rewrite app_nil_r. split_and!; [done..|]. constructor. }
  destruct (republishEnvelope_spec line s c w) as (err & ys & w1 & E1 & J1 & O1 & X1 & C1). rewrite (bind_eq _ _ _ _ _ E1).
  destruct err as [err|]; [by eexists _, _, _|]. specialize (C1 eq_refl).
  destruct (IH w1) as (err & zs & w2 & E2 & J2 & O2 & X2 & C2). exists err, (ys ++ zs), w2.
  split_and!; [done|congruence|congruence|by rewrite X2, X1, app_assoc|]. intros He.
  pose proof (copied_app _ _ _ _ C1 (C2 He)) as Hc. destruct (resent line); exact Hc.
Qed.

(** C35: [Recover] never loses a journaled event.  For any pattern of I/O failures,
    lost replies and repeated attempts: the journal is left as it was unless
    every decodable line was first appended to the event stream, in order; if
    [Recover] reports success, all decodable lines have been sent.  Each line is
    appended once, or up to four times in a row when replies of the XADD were
    lost. *)
Theorem Recover_no_loss s c w :
  let lines := filter (λ l, text_empty l = false) (journal w) in
  ∃ err ys w', Recover s c w = Some (err, w') ∧ xlog w' = xlog w ++ ys ∧
    (journal w' = journal w ∨ journal w' = [] ∧ copied ((s,.) <$> omap resent lines) ys) ∧
    (err = None → copied ((s,.) <$> omap resent lines) ys).
Proof.
  intros lines. unfold Recover, ReadAll, bind at 1 2, next_io. destruct (io_ok (tick w)); simpl.
  2:{ eexists _, [], _. rewrite app_nil_r. split; [done|]. by split_and!; [|left|]. }
  change (journal (with_tick (S (tick w)) w)) with (journal w). fold lines.
  set (w1 := with_tick (S (tick w)) w).
  destruct lines as [|line rest] eqn:El.
  { eexists _, [], _. rewrite app_nil_r. split; [done|]. split_and!; [done|by left|constructor]. }
  rewrite <- El. destruct (republishAll_spec lines s c w1) as (err & ys & w2 & E2 & J2 & O2 & X2 & C2).
  rewrite (bind_eq _ _ _ _ _ E2). destruct err as [err|].
  { eexists _, ys, _. split; [done|]. by split_and!; [|left|]. }
  specialize (C2 eq_refl). destruct (Reset_spec w2) as (err & w3 & E3 & X3 & _ & _ & J3).
  exists err, ys, w3. split; [done|]. rewrite X3, X2. split_and!; [done| |done].
  destruct J3 as [-> | ->]; [by left|by right].
Qed.
End emission.

(** ** Witnesses *)

(** The reply of two attempts of the XADD is lost, the other two attempts do not
    reach the server: an error, two copies in the stream, the event in the
    journal. *)
Definition lossyEnv : Environment := {|
  uuid_NewString := @uuid_NewString testEnv; time_Now := @time_Now testEnv;
  io_ok k := negb (k =? 4)%nat; io_lost k := if (k =? 4)%nat then 2%nat else 0%nat; map_range A n l := l |}.

Lemma emitEventP_outcome_witness :
  ∃ err w', @emitEventP lossyEnv 0 EventOrderCreated (JText (JObj [])) false (initWorld seeded) = Some (err, w') ∧
    err ≠ None ∧ length (xlog w') = 2%nat ∧ partitionSeq (eng w') = [1] ∧ length (journal w') = 1%nat.
Proof.
  destruct (@emitEventP_outcome lossyEnv 0 EventOrderCreated (JText (JObj [])) false (initWorld seeded) 0)
    as (err & w' & i & j & E & He & Hem).
  - vm_compute. reflexivity.
  - vm_compute. reflexivity.
  - lia.
  - vm_compute. reflexivity.
  - exists err, w'. split; [exact E|]. rewrite (em_xlog _ _ _ _ _ _ _ Hem).
    assert (i = 2%nat) as ->.
    { pose proof (em_xlog _ _ _ _ _ _ _ Hem) as Hx. apply (f_equal length) in Hx. vm_compute in E.
      injection E as _ <-. rewrite length_app, length_replicate in Hx. vm_compute in Hx. congruence. }
    vm_compute in E. injection E as <- <-. split_and!; [discriminate|vm_compute; reflexivity..].
Defined.
