(* ===== verification/MarketData.v ===== *)
(** Theorems about market depth. *)

From S2P Require Import Prelude Json Types State Depth.
Local Open Scope Z_scope.
Local Open Scope i64_scope.

Lemma sorted_perm_unique (less : OrderBookEntry → OrderBookEntry → bool) (l k : list OrderBookEntry) :
  (∀ x y, less x y = true → less y x = false) →
  StronglySorted (λ x y, less x y = true) l → StronglySorted (λ x y, less x y = true) k → l ≡ₚ k → l = k.
Proof.
  intros Ha. apply strict_sorted_unique. intros x y H1 H2. rewrite (Ha _ _ H1) in H2. done.
Qed.

(** ** Theorems *)


(** The depth snapshot is deterministic: the order in which the language visits
    the entries of the level map does not show in the result. *)
Lemma depth_range_irrelevant (r r' : list (Z * level) → list (Z * level)) os :
  (∀ l, r l ≡ₚ l) → (∀ l, r' l ≡ₚ l) →
  aggregateBids r os = aggregateBids r' os ∧ aggregateAsks r os = aggregateAsks r' os.
Proof.
  intros Hr Hr'. split.
  - apply (sorted_perm_unique higher); [apply higher_asym|..].
    + by apply aggregate_strict; [|apply higher_trans_neg|apply higher_asym|apply higher_total].
    + by apply aggregate_strict; [|apply higher_trans_neg|apply higher_asym|apply higher_total].
    + unfold aggregateBids. by rewrite !stable_sort_Permutation, Hr, Hr'.
  - apply (sorted_perm_unique lower_price); [apply lower_asym|..].
    + by apply aggregate_strict; [|apply lower_trans_neg|apply lower_asym|apply lower_total].
    + by apply aggregate_strict; [|apply lower_trans_neg|apply lower_asym|apply lower_total].
    + unfold aggregateAsks. by rewrite !stable_sort_Permutation, Hr, Hr'.
Qed.

(** ** Witnesses *)

Definition resting (price qty : Z) : Order :=
  mkOrder "o" "ev" "u" OrderTypeLimit OutcomeYes SideBuy qty 0 qty price StatusPending 0 0.

Definition bids1 : list Order := [resting 60 5; resting 50 2; resting 60 7; set_Status StatusFilled (resting 70 1)].

Lemma bids1_in_range : depth_in_range bids1.
Proof.
  split; [|vm_compute; discriminate]. intros pr. unfold bids1, sumZ, shownQty. simpl.
  unfold max_int64. repeat case_match; lia.
Qed.

