(* ===== verification/Routing.v ===== *)
(** Theorems about partition routing and account keys. *)

From S2P Require Import Prelude Types Router State Ledger Settle.
From Stdlib Require Import Ascii.
Local Open Scope Z_scope.

(** ** Names are injective *)

Lemma pretty_inj (a b : Z) : pretty a = pretty b → a = b.
Proof. apply (inj pretty). Qed.

Lemma Stream_inj r a b : Stream r a = Stream r b → a = b.
Proof.
  unfold Stream. intros Heq%string_app_inj_l%string_app_inj_l. by apply pretty_inj.
Qed.

Lemma elem_of_partitions n p : p ∈ (Z.of_nat <$> seq 0 n) ↔ 0 ≤ p < Z.of_nat n.
Proof.
  rewrite list_elem_of_fmap. split.
  - intros (i & -> & Hi). apply elem_of_seq in Hi. lia.
  - intros Hp. exists (Z.to_nat p). split; [lia|]. apply elem_of_seq. lia.
Qed.

(** No [':'] in a name. *)
Fixpoint colon_free (s : string) : bool :=
  match s with
  | EmptyString => true
  | String a s => negb (bool_decide (a = ":"%char)) && colon_free s
  end.

Lemma colon_split a b x y :
  colon_free a = true → colon_free b = true → a +:+ ":" +:+ x = b +:+ ":" +:+ y → a = b ∧ x = y.
Proof.
  revert b. induction a as [|c a IH]; intros [|d b]; simpl.
  - intros _ _ Heq. by injection Heq.
  - intros _ [Hd%negb_true_iff%bool_decide_eq_false _]%andb_true_iff Heq. injection Heq as <- _. done.
  - intros [Hd%negb_true_iff%bool_decide_eq_false _]%andb_true_iff _ Heq. injection Heq as -> _. done.
  - intros [_ Ha]%andb_true_iff [_ Hb]%andb_true_iff Heq. injection Heq as -> Heq.
    destruct (IH b Ha Hb Heq) as [-> ->]. done.
Qed.

(** ** Theorems *)

(** C39: every event is routed to one of the router's partitions, which are numbered from
    0 to its count less one (at least one partition, whatever the configured number);
    its stream is in the list [PartitionStreams] makes, these streams are as
    many as there are partitions, and no two partitions share a stream, group,
    lease or fencing key. *)
Theorem routing_covers n prefix eventID :
  n ≤ max_int64 →
  let r := NewRouter n prefix in
  (0 ≤ Partition r eventID < Partitions r) ∧
  StreamForEvent r eventID ∈ PartitionStreams r ∧
  NoDup (PartitionStreams r) ∧ Z.of_nat (length (PartitionStreams r)) = Partitions r ∧
  ∀ a b, Stream r a = Stream r b ∨ LeaseKey a = LeaseKey b ∨ FencingKey a = FencingKey b ∨
         Group r a = Group r b → a = b.
Proof.
  intros Hn r. pose proof (NewRouter_Partitions n prefix) as Hpos. fold r in Hpos.
  assert (Partitions r ≤ max_int64) as Hmax.
  { unfold r, NewRouter; simpl. destruct (n <? 1); [vm_compute; discriminate|done]. }
  assert (0 ≤ Partition r eventID < Partitions r) as Hp.
  { unfold Partition. unfold wrapu64. rewrite (Z.mod_small (Partitions r)) by (unfold max_int64 in *; lia).
    pose proof (Z.mod_pos_bound (hash64 eventID) (Partitions r)). rewrite wrap64_id by i64. lia. }
  assert (Z.of_nat (Z.to_nat (Partitions r)) = Partitions r) as En by lia.
  split_and!; [lia|lia| | | |].
  - unfold StreamForEvent, PartitionStreams. apply list_elem_of_fmap. exists (Partition r eventID).
    split; [done|]. apply elem_of_partitions. lia.
  - unfold PartitionStreams. apply NoDup_fmap_2; [intros a b; apply Stream_inj|].
    apply NoDup_fmap_2; [intros a b; apply Nat2Z.inj|apply NoDup_seq].
  - unfold PartitionStreams. rewrite !length_fmap, length_seq. done.
  - intros a b [Heq|[Heq|[Heq|Heq]]]; [by eapply Stream_inj| | |]; by apply string_app_inj_l, pretty_inj in Heq.
Qed.

(** Position keys identify user, event and outcome as long as user and event ids
    contain no colon (the ids the services generate are UUIDs). *)
Lemma positionKey_injective u ev oc u' ev' oc' :
  colon_free u = true → colon_free u' = true → colon_free ev = true → colon_free ev' = true →
  positionKey u ev oc = positionKey u' ev' oc' → u = u' ∧ ev = ev' ∧ oc = oc'.
Proof.
  unfold positionKey. intros Hu Hu' He He' Heq.
  apply colon_split in Heq as [-> Heq]; [|done|done]. by apply colon_split in Heq as [-> ->].
Qed.

(** ** Witnesses *)

Lemma routing_covers_witness :
  0 ≤ Partition (NewRouter 8 "") "3f2a" < 8 ∧ NoDup (PartitionStreams (NewRouter 8 "")).
Proof.
  destruct (routing_covers 8 "" "3f2a") as (Hp & _ & Hn & _); [vm_compute; discriminate|].
  split; [exact Hp|exact Hn].
Defined.
