(* ===== verification/Lease.v ===== *)
(** Partition ownership: internal/partition/lease.go, internal/partition/fencing.go,
    the ownership steps of [runPartition] and [renewLease]
    (internal/engine/worker.go), and the fencing rule of the DB worker
    (internal/dbworker/worker.go).

    Redis is a service: the class [RedisServer] lists the commands the code
    issues, [RedisLaws] what the Redis documentation says of them.  [Net] is what
    the network does to one call: it is served, or it fails before or after
    taking effect.  [kvRedis] is a concrete server that satisfies the laws. *)

From S2P Require Import Prelude Json Types Router State Events.
Local Open Scope Z_scope.

(** ** The service *)

Class RedisServer := {
  rstate : Type;
  r_get : string → rstate → option string;
  r_setnx : string → string → Z → rstate → bool * rstate;   (** SET k v NX PX ttl *)
  r_pexpire : string → Z → rstate → rstate;
  r_del : string → rstate → rstate;
  r_counter : string → rstate → option Z;                   (** GET of a counter *)
  r_incr : string → rstate → Z * rstate;
  r_elapse : rstate → rstate                                (** time passes *)
}.

(** SET NX writes exactly when the key is absent; DEL removes one key; PEXPIRE
    with a positive time changes no value; INCR counts from zero; a key with a
    time to live may disappear, a counter (which has none) does not; and the
    commands touch no other key. *)
Class RedisLaws `{RedisServer} : Prop := {
  setnx_absent k v ttl s : r_get k s = None →
    (r_setnx k v ttl s).1 = true ∧ r_get k (r_setnx k v ttl s).2 = Some v;
  setnx_present k v w ttl s : r_get k s = Some w → r_setnx k v ttl s = (false, s);
  setnx_counter k v ttl s k' : k ≠ k' → r_counter k' (r_setnx k v ttl s).2 = r_counter k' s;
  pexpire_get k ms s k' : 0 < ms → r_get k' (r_pexpire k ms s) = r_get k' s;
  pexpire_counter k ms s k' : k ≠ k' → r_counter k' (r_pexpire k ms s) = r_counter k' s;
  del_get k s : r_get k (r_del k s) = None;
  del_counter k s k' : k ≠ k' → r_counter k' (r_del k s) = r_counter k' s;
  incr_value k s : (r_incr k s).1 = default 0 (r_counter k s) + 1;
  incr_counter k s : r_counter k (r_incr k s).2 = Some ((r_incr k s).1);
  incr_get k s k' : k ≠ k' → r_get k' (r_incr k s).2 = r_get k' s;
  elapse_get k s : r_get k (r_elapse s) = r_get k s ∨ r_get k (r_elapse s) = None;
  elapse_counter k s : r_counter k (r_elapse s) = r_counter k s
}.

(** ** Leases *)

Record Lease := mkLease { l_key : string; l_instanceID : string; l_ttl : Z }.

Definition NewLease (key instanceID : string) (ttl : Z) : Lease := mkLease key instanceID ttl.

Inductive Net := Served | RequestLost | ReplyLost.

(** The outcome of the [n]-th call. *)
Class Network := { net : nat → Net }.

Definition net_error : string := "redis: connection lost".

Section lease.
Context `{RedisServer}.

(** One call: the state it leaves and what the caller sees. *)
Definition call {A} (n : Net) (op : rstate → A * rstate) (s : rstate) : (string + A) * rstate :=
  match n with
  | Served => let '(a, s) := op s in (inr a, s)
  | RequestLost => (inl net_error, s)
  | ReplyLost => (inl net_error, snd (op s))
  end.

Definition Acquire (l : Lease) (n : Net) : rstate → (string + bool) * rstate :=
  call n (r_setnx (l_key l) (l_instanceID l) (l_ttl l)).

(** [l.ttl.Milliseconds()] *)
Definition milliseconds (ttl : Z) : Z := Z.quot ttl 1000000.

(** The Lua scripts run atomically. *)
Definition compareAndRenew (key arg : string) (ms : Z) (s : rstate) : Z * rstate :=
  if bool_decide (r_get key s = Some arg) then (1, r_pexpire key ms s) else (0, s).

Definition compareAndRelease (key arg : string) (s : rstate) : Z * rstate :=
  if bool_decide (r_get key s = Some arg) then (1, r_del key s) else (0, s).

Definition Renew (l : Lease) (n : Net) (s : rstate) : (string + bool) * rstate :=
  let '(r, s) := call n (compareAndRenew (l_key l) (l_instanceID l) (milliseconds (l_ttl l))) s in
  match r with
  | inl err => (inl err, s)
  | inr k => (inr (k =? 1), s)
  end.

Definition Release (l : Lease) (n : Net) (s : rstate) : option string * rstate :=
  let '(r, s) := call n (compareAndRelease (l_key l) (l_instanceID l)) s in
  match r with
  | inl err => (Some err, s)
  | inr _ => (None, s)
  end.

(** ** Fencing tokens *)

Definition Next (key : string) (n : Net) : rstate → (string + Z) * rstate := call n (r_incr key).

Definition Current (key : string) (n : Net) (s : rstate) : (string + Z) * rstate :=
  call n (λ s, (default 0 (r_counter key s), s)) s.

(** ** The ownership loop of a partition *)

Inductive Claim :=
| Claimed (token : Z)
| NotOwner
| ClaimFailed.

(** One pass of the loop of [runPartition] up to the replay: acquire the lease,
    obtain a token, note it. *)
Definition claimPartition (pid : Z) (n1 n2 n3 : Net) (e : Engine) (s : rstate)
    : Claim * Engine * rstate :=
  let lease := NewLease (LeaseKey pid) (engineID e) (leaseTTL e) in
  let '(ok, s) := Acquire lease n1 s in
  match ok with
  | inl _ => (ClaimFailed, e, s)
  | inr false => (NotOwner, e, s)
  | inr true =>
      let '(token, s) := Next (FencingKey pid) n2 s in
      match token with
      | inl _ => let '(_, s) := Release lease n3 s in (ClaimFailed, e, s)
      | inr token => (Claimed token, with_partitionToken (<[pid := token]>) e, s)
      end
  end.

(** The end of the pass, after the consumer has stopped. *)
Definition yieldPartition (pid : Z) (n : Net) (e : Engine) (s : rstate) : Engine * rstate :=
  let lease := NewLease (LeaseKey pid) (engineID e) (leaseTTL e) in
  let '(_, s) := Release lease n s in
  (with_partitionToken (delete pid) e, s).

(** One tick of [renewLease]: [true] keeps the partition, [false] cancels it. *)
Definition renewTick (lease : Lease) (n : Net) (s : rstate) : bool * rstate :=
  let '(ok, s) := Renew lease n s in
  match ok with
  | inl _ => (true, s)
  | inr ok => (ok, s)
  end.

(** ** The fence of the DB worker *)

Inductive fencingDecision := fencingAccept | fencingStale.

Definition fencingDecisionForToken (token current : Z) : fencingDecision :=
  if token =? 0 then fencingAccept
  else if token <? current then fencingStale
  else fencingAccept.

(** [fencingDecision] of an envelope; [None] is a Redis error. *)
Definition decideEnvelope (env : EventEnvelope) (n : Net) (s : rstate) : option fencingDecision :=
  match n with
  | Served =>
      match r_counter (FencingKey (ev_PartitionID env)) s with
      | None => Some fencingAccept
      | Some current => Some (fencingDecisionForToken (ev_FencingToken env) current)
      end
  | _ => None
  end.

(** ** Runs of several engines on one partition *)

(** Redis, and the engines that have the lease and not yet a token: [runPartition] makes
    two calls, and anything may happen between them. *)
Record Contest := mkContest { ct_redis : rstate; ct_claiming : gset string }.

(** One attempt of one command by one engine, or time passing; the label is the token
    the engine was handed.  A client that repeats a failed attempt makes several of these
    steps. *)
Inductive own_step (pid : Z) : Contest → option (string * Z) → Contest → Prop :=
| own_acquire id ttl n r s s' cl :
    id ∉ cl → Acquire (NewLease (LeaseKey pid) id ttl) n s = (r, s') →
    own_step pid (mkContest s cl) None (mkContest s' (match r with inr true => {[id]} ∪ cl | _ => cl end))
| own_draw id n token s s' cl :
    id ∈ cl → Next (FencingKey pid) n s = (inr token, s') →
    own_step pid (mkContest s cl) (Some (id, token)) (mkContest s' (cl ∖ {[id]}))
| own_nodraw id n err again s s' cl :         (** the engine tries again, or gives up *)
    id ∈ cl → Next (FencingKey pid) n s = (inl err, s') →
    own_step pid (mkContest s cl) None (mkContest s' (if again : bool then cl else cl ∖ {[id]}))
| own_renew id ttl n b s s' cl :
    renewTick (NewLease (LeaseKey pid) id ttl) n s = (b, s') →
    own_step pid (mkContest s cl) None (mkContest s' cl)
| own_release id ttl n r s s' cl :
    Release (NewLease (LeaseKey pid) id ttl) n s = (r, s') →
    own_step pid (mkContest s cl) None (mkContest s' cl)
| own_elapse s cl : own_step pid (mkContest s cl) None (mkContest (r_elapse s) cl).

(** The tokens handed out in a run, the latest first. *)
Inductive own_run (pid : Z) : Contest → list (string * Z) → Contest → Prop :=
| own_refl s : own_run pid s [] s
| own_more s gs s1 g s2 :
    own_run pid s gs s1 → own_step pid s1 g s2 →
    own_run pid s (match g with Some g => g :: gs | None => gs end) s2.
End lease.

(** ** Facts *)

Section facts.
Context `{RedisLaws}.

Definition tokenNow (pid : Z) (s : rstate) : Z := default 0 (r_counter (FencingKey pid) s).

Lemma call_counter {A} n (op : rstate → A * rstate) k s :
  (∀ s, r_counter k (op s).2 = r_counter k s) → r_counter k (call n op s).2 = r_counter k s.
Proof. intros Hop. destruct n; simpl; [|done|apply Hop]. rewrite <- (Hop s). by destruct (op s). Qed.

Lemma keys_distinct a b : LeaseKey a ≠ FencingKey b.
Proof. unfold LeaseKey, FencingKey. simpl. intros Heq. discriminate Heq. Qed.

(** The lease commands leave the counter alone. *)
Section counters.
Context (l : Lease) (n : Net) (k : string) (s : rstate).
Hypothesis Hk : l_key l ≠ k.

Lemma Acquire_counter : r_counter k (Acquire l n s).2 = r_counter k s.
Proof. apply call_counter. intros. by apply setnx_counter. Qed.

Lemma Release_counter : r_counter k (Release l n s).2 = r_counter k s.
Proof.
  unfold Release. pose proof (call_counter n (compareAndRelease (l_key l) (l_instanceID l)) k s) as Hc.
  destruct (call _ _ s) as [[?|?] s']; simpl in *; apply Hc; intros s1; unfold compareAndRelease;
    case_bool_decide; simpl; try done; by apply del_counter.
Qed.

Lemma renewTick_counter : r_counter k (renewTick l n s).2 = r_counter k s.
Proof.
  unfold renewTick, Renew.
  pose proof (call_counter n (compareAndRenew (l_key l) (l_instanceID l) (milliseconds (l_ttl l))) k s) as Hc.
  destruct (call _ _ s) as [[?|?] s']; simpl in *; apply Hc; intros s1; unfold compareAndRenew;
    case_bool_decide; simpl; try done; by apply pexpire_counter.
Qed.
End counters.

(** A token is one more than the counter was, and the counter never goes back. *)
Lemma Next_spec pid n s r s' :
  Next (FencingKey pid) n s = (r, s') →
  tokenNow pid s ≤ tokenNow pid s' ∧
  (∀ t, r = inr t → t = tokenNow pid s + 1 ∧ tokenNow pid s' = t).
Proof.
  unfold Next, call, tokenNow.
  pose proof (incr_value (FencingKey pid) s) as Hv. pose proof (incr_counter (FencingKey pid) s) as Hc.
  destruct n; [destruct (r_incr (FencingKey pid) s) as [t s1]| |]; intros Heq; simplify_eq/=.
  - rewrite Hc; simpl. split; [lia|]. intros t' [= <-]. lia.
  - done.
  - rewrite Hc; simpl. split; [lia|done].
Qed.

Lemma claim_spec pid n1 n2 n3 e s c e' s' :
  claimPartition pid n1 n2 n3 e s = (c, e', s') →
  tokenNow pid s ≤ tokenNow pid s' ∧
  (∀ t, c = Claimed t → t = tokenNow pid s + 1 ∧ tokenNow pid s' = t ∧ partitionToken e' !! pid = Some t).
Proof.
  unfold claimPartition. set (l := NewLease _ _ _).
  pose proof (Acquire_counter l n1 (FencingKey pid) s (keys_distinct _ _)) as Ha.
  destruct (Acquire l n1 s) as [[err|[]] s1]; simpl in Ha.
  - intros Heq; simplify_eq. unfold tokenNow. rewrite Ha. split; [lia|done].
  - destruct (Next (FencingKey pid) n2 s1) as [[err|t] s2] eqn:En;
      destruct (Next_spec _ _ _ _ _ En) as [Hle Hn].
    + pose proof (Release_counter l n3 (FencingKey pid) s2 (keys_distinct _ _)) as Hr.
      destruct (Release l n3 s2) as [? s3]; simpl in Hr. intros Heq; simplify_eq.
      unfold tokenNow in *. rewrite Hr. rewrite Ha in Hle. split; [lia|done].
    + intros Heq; simplify_eq. destruct (Hn t eq_refl) as [Ht Hs]. unfold tokenNow in *. rewrite Ha in *.
      split; [lia|]. intros t' [= <-]. split_and!; [lia|lia|]. simpl. apply lookup_insert_eq.
  - intros Heq; simplify_eq. unfold tokenNow. rewrite Ha. split; [lia|done].
Qed.

Lemma own_run_app pid s1 gs s2 gs' s3 : own_run pid s1 gs s2 → own_run pid s2 gs' s3 → own_run pid s1 (gs' ++ gs) s3.
Proof.
  intros H1 H2. revert H1. induction H2 as [|s gs' s2 g s3 _ IH Hst]; intros H1; [done|].
  pose proof (own_more _ _ _ _ _ _ (IH H1) Hst) as H3. by destruct g.
Qed.

(** A pass of the ownership loop that nobody interrupts is a run of these steps. *)
Lemma claim_is_run pid n1 n2 n3 e s cl c e' s' :
  engineID e ∉ cl → claimPartition pid n1 n2 n3 e s = (c, e', s') →
  own_run pid (mkContest s cl) (match c with Claimed t => [(engineID e, t)] | _ => [] end) (mkContest s' cl).
Proof.
  intros Hid. unfold claimPartition. set (l := NewLease _ _ _).
  assert (({[engineID e]} ∪ cl) ∖ {[engineID e]} = cl) as Hcl by set_solver.
  destruct (Acquire l n1 s) as [[err|ok] s1] eqn:Ea.
  { intros Heq; simplify_eq. apply (own_more pid _ [] _ None _ (own_refl _ _)).
    exact (own_acquire pid _ _ _ _ _ _ _ Hid Ea). }
  pose proof (own_more pid _ [] _ None _ (own_refl _ _) (own_acquire pid _ _ _ _ _ _ _ Hid Ea)) as H1.
  destruct ok; [|intros Heq; simplify_eq; exact H1].
  destruct (Next (FencingKey pid) n2 s1) as [[err|t] s2] eqn:En.
  - destruct (Release l n3 s2) as [r s3] eqn:Er. intros Heq; simplify_eq.
    assert (engineID e' ∈ {[engineID e']} ∪ cl) as Hin by set_solver.
    pose proof (own_more pid _ _ _ None _ H1 (own_nodraw pid _ _ _ false _ _ _ Hin En)) as H2. rewrite Hcl in H2.
    exact (own_more pid _ _ _ None _ H2 (own_release pid _ _ _ _ _ _ _ Er)).
  - intros Heq; simplify_eq. assert (engineID e ∈ {[engineID e]} ∪ cl) as Hin by set_solver.
    pose proof (own_more pid _ _ _ (Some (engineID e, t)) _ H1 (own_draw pid _ _ _ _ _ _ Hin En)) as H2.
    by rewrite Hcl in H2.
Qed.

Lemma own_step_token pid s g s' :
  own_step pid s g s' →
  tokenNow pid (ct_redis s) ≤ tokenNow pid (ct_redis s') ∧
  (∀ id t, g = Some (id, t) → t = tokenNow pid (ct_redis s) + 1 ∧ tokenNow pid (ct_redis s') = t).
Proof.
  assert (∀ s s', r_counter (FencingKey pid) s' = r_counter (FencingKey pid) s →
    tokenNow pid s ≤ tokenNow pid s' ∧
    (∀ (id : string) t, None = Some (id, t) → t = tokenNow pid s + 1 ∧ tokenNow pid s' = t)) as Hsame.
  { unfold tokenNow. intros s0 s0' ->. by split; [lia|]. }
  destruct 1 as [id ttl n r s s' cl _ Ha|id n t s s' cl _ Hn|id n err again s s' cl _ Hn|id ttl n b s s' cl Hr|id ttl n r s s' cl Hr|s cl];
    cbn [ct_redis].
  - apply Hsame. pose proof (Acquire_counter (NewLease (LeaseKey pid) id ttl) n (FencingKey pid) s (keys_distinct _ _)) as Hk.
    by rewrite Ha in Hk.
  - destruct (Next_spec _ _ _ _ _ Hn) as [Hle Ht]. split; [done|]. intros id' t' [= <- <-]. by apply Ht.
  - destruct (Next_spec _ _ _ _ _ Hn) as [Hle _]. by split.
  - apply Hsame. pose proof (renewTick_counter (NewLease (LeaseKey pid) id ttl) n (FencingKey pid) s (keys_distinct _ _)) as Hk.
    by rewrite Hr in Hk.
  - apply Hsame. pose proof (Release_counter (NewLease (LeaseKey pid) id ttl) n (FencingKey pid) s (keys_distinct _ _)) as Hk.
    by rewrite Hr in Hk.
  - apply Hsame. apply elapse_counter.
Qed.

Lemma own_run_tokens pid s gs s' :
  own_run pid s gs s' →
  tokenNow pid (ct_redis s) ≤ tokenNow pid (ct_redis s') ∧ StronglySorted Z.gt (snd <$> gs) ∧
  Forall (λ g, tokenNow pid (ct_redis s) < snd g ≤ tokenNow pid (ct_redis s')) gs.
Proof.
  induction 1 as [s|s gs s1 g s2 _ (Hle & Hs & Hf) Hst]; [by split_and!; [lia|constructor|constructor]|].
  destruct (own_step_token _ _ _ _ Hst) as [Hle2 Ht].
  assert (Forall (λ g, tokenNow pid (ct_redis s) < snd g ≤ tokenNow pid (ct_redis s2)) gs) as Hf2.
  { eapply Forall_impl; [exact Hf|]. simpl. lia. }
  destruct g as [[id t]|]; [|split_and!; [lia|done|done]].
  destruct (Ht id t eq_refl) as [E1 E2]. split_and!; [lia| |].
  - simpl. constructor; [done|]. apply Forall_fmap. eapply Forall_impl; [exact Hf|]. simpl. lia.
  - constructor; [simpl; lia|done].
Qed.

(** What the fence decides of a token that is not zero. *)
Lemma decide_token pid s env t : 0 < t → ev_PartitionID env = pid → ev_FencingToken env = t →
  decideEnvelope env Served s = Some (if t <? tokenNow pid s then fencingStale else fencingAccept).
Proof.
  intros Hz <- <-. simpl. unfold tokenNow, fencingDecisionForToken.
  destruct (r_counter _ s) as [c|]; simpl; [by rewrite (proj2 (Z.eqb_neq _ _)) by lia|].
  by rewrite (proj2 (Z.ltb_ge _ _)) by lia.
Qed.

(** ** Exclusion *)

Definition holder (pid : Z) (s : rstate) : option string := r_get (LeaseKey pid) s.

Lemma compareAndRelease_other k a b s : a ≠ b → r_get k s = Some a → compareAndRelease k b s = (0, s).
Proof. intros Hne Hg. unfold compareAndRelease. rewrite bool_decide_false; [done|]. congruence. Qed.
Lemma compareAndRenew_other k a b ms s : a ≠ b → r_get k s = Some a → compareAndRenew k b ms s = (0, s).
Proof. intros Hne Hg. unfold compareAndRenew. rewrite bool_decide_false; [done|]. congruence. Qed.

Lemma held_Acquire pid a id ttl n s :
  holder pid s = Some a →
  (Acquire (NewLease (LeaseKey pid) id ttl) n s).2 = s ∧
  (Acquire (NewLease (LeaseKey pid) id ttl) n s).1 ≠ inr true.
Proof.
  intros Hh. unfold Acquire, call. simpl. rewrite (setnx_present _ _ _ _ _ Hh). by destruct n.
Qed.

Lemma held_Release pid a id ttl n s :
  holder pid s = Some a → a ≠ id → (Release (NewLease (LeaseKey pid) id ttl) n s).2 = s.
Proof.
  intros Hh Hne. unfold Release, call. simpl. rewrite (compareAndRelease_other _ a id) by done. by destruct n.
Qed.

Lemma held_renewTick pid a id ttl n s :
  holder pid s = Some a → a ≠ id →
  (renewTick (NewLease (LeaseKey pid) id ttl) n s).2 = s ∧
  (n = Served → (renewTick (NewLease (LeaseKey pid) id ttl) n s).1 = false).
Proof.
  intros Hh Hne. unfold renewTick, Renew, call. simpl. rewrite (compareAndRenew_other _ a id) by done.
  by destruct n.
Qed.


(** ** Theorems *)

(** C31: a partition has one owner at a time.  A claim succeeds only when nobody holds
    the lease, and then the claimant holds it.  While an engine holds it, no
    engine can claim the partition, and no other engine's renewal or release has
    any effect; a former owner that renews learns that it lost the partition. *)
Theorem lease_mutual_exclusion pid s :
  (∀ e n1 n2 n3 t e' s', claimPartition pid n1 n2 n3 e s = (Claimed t, e', s') →
     holder pid s = None ∧ holder pid s' = Some (engineID e) ∧ partitionToken e' !! pid = Some t) ∧
  (∀ a, holder pid s = Some a →
     (∀ e n1 n2 n3, let '(c, e', s') := claimPartition pid n1 n2 n3 e s in
        s' = s ∧ e' = e ∧ ∀ t, c ≠ Claimed t) ∧
     (∀ e n, engineID e ≠ a → snd (yieldPartition pid n e s) = s) ∧
     (∀ id ttl n, id ≠ a → let '(keep, s') := renewTick (NewLease (LeaseKey pid) id ttl) n s in
        s' = s ∧ (n = Served → keep = false))).
Proof.
  split.
  - intros e n1 n2 n3 t e' s' Hc. destruct (claim_spec _ _ _ _ _ _ _ _ _ Hc) as [_ Ht].
    destruct (Ht t eq_refl) as (_ & _ & Hp). unfold claimPartition in Hc.
    destruct (holder pid s) as [a|] eqn:Eh.
    + destruct (held_Acquire pid a (engineID e) (leaseTTL e) n1 s Eh) as [_ Hne].
      destruct (Acquire _ n1 s) as [[err|[]] s1]; simplify_eq/=.
    + split; [done|]. split; [|done]. unfold holder in Eh.
      destruct (setnx_absent (LeaseKey pid) (engineID e) (leaseTTL e) s Eh) as [_ Hg].
      destruct (Acquire _ n1 s) as [[err|[]] s1] eqn:Ea; try by simplify_eq.
      unfold Acquire, call in Ea; simpl in Ea.
      destruct n1; try by simplify_eq. destruct (r_setnx _ _ _ s) as [b s2] eqn:Es. simpl in Hg.
      simplify_eq. destruct (Next (FencingKey pid) n2 s1) as [[err|t'] s3] eqn:En.
      { destruct (Release _ n3 s3). simplify_eq. }
      simplify_eq. unfold holder. unfold Next, call in En.
      pose proof (incr_get (FencingKey pid) s1 (LeaseKey pid) (not_eq_sym (keys_distinct _ _))) as Hi.
      destruct n2; [|by simplify_eq..]. destruct (r_incr _ s1) as [t1 s4]. simplify_eq/=. by rewrite Hi.
  - intros a Hh. split_and!.
    + intros e n1 n2 n3. unfold claimPartition.
      destruct (held_Acquire pid a (engineID e) (leaseTTL e) n1 s Hh) as [Es Hne].
      destruct (Acquire _ n1 s) as [[err|[]] s1]; simpl in *; by subst.
    + intros e n Hne. unfold yieldPartition.
      pose proof (held_Release pid a (engineID e) (leaseTTL e) n s Hh (not_eq_sym Hne)) as Es.
      by destruct (Release _ n s).
    + intros id ttl n Hne. pose proof (held_renewTick pid a id ttl n s Hh (not_eq_sym Hne)) as Es.
      by destruct (renewTick _ n s).
Qed.

(** C32: fencing, by the order in which tokens are drawn.  Take any run of
    acquisitions, draws, renewals, releases, failed and repeated attempts and expiries
    by any number of engines from a counter that is not negative, with a lease
    possibly expiring between the SETNX and the INCR of its owner.  The tokens handed
    out for a partition strictly increase in the order in which they were drawn; the
    DB worker drops every event that carries a token drawn before the last one, and an
    event that carries the last one exactly if the counter has moved on since (a draw
    whose reply was lost); so it accepts the events of at most one draw.  This is
    about the order of draws: the engine that drew last need not be the one that holds
    the lease ([holder_may_be_fenced_off]). *)
Theorem fencing_rejects_former_owners pid s gs s' id t :
  0 ≤ tokenNow pid (ct_redis s) → own_run pid s ((id, t) :: gs) s' →
  StronglySorted Z.gt (snd <$> (id, t) :: gs) ∧
  (∀ g env, g ∈ gs → ev_PartitionID env = pid → ev_FencingToken env = snd g →
     decideEnvelope env Served (ct_redis s') = Some fencingStale) ∧
  (∀ env, ev_PartitionID env = pid → ev_FencingToken env = t →
     decideEnvelope env Served (ct_redis s') =
       Some (if t <? tokenNow pid (ct_redis s') then fencingStale else fencingAccept)).
Proof.
  intros Hz Hrun. destruct (own_run_tokens _ _ _ _ Hrun) as (Hle & Hs & Hf). split; [done|].
  apply Forall_cons in Hf as [Hft Hf]. simpl in Hft. split.
  - intros g env Hg Hp Htok. rewrite Forall_forall in Hf. specialize (Hf g Hg).
    rewrite (decide_token pid _ env (snd g)) by (try done; lia).
    simpl in Hs. apply StronglySorted_inv in Hs as [_ Hall]. rewrite Forall_fmap, Forall_forall in Hall.
    specialize (Hall g Hg). simpl in Hall. by rewrite (proj2 (Z.ltb_lt _ _)) by lia.
  - intros env Hp Htok. apply decide_token; [lia|done|done].
Qed.
End facts.

(** ** A server that satisfies the laws *)

(** Leases and counters in two maps; when time passes every lease expires. *)
Definition kvRedis : RedisServer := {|
  rstate := gmap string string * gmap string Z;
  r_get k s := s.1 !! k;
  r_setnx k v _ s := match s.1 !! k with None => (true, (<[k := v]> s.1, s.2)) | Some _ => (false, s) end;
  r_pexpire k ms s := if 0 <? ms then s else (delete k s.1, s.2);
  r_del k s := (delete k s.1, s.2);
  r_counter k s := s.2 !! k;
  r_incr k s := let n := default 0 (s.2 !! k) + 1 in (n, (s.1, <[k := n]> s.2));
  r_elapse s := (∅, s.2)
|}.

#[export] Instance kvRedis_laws : @RedisLaws kvRedis.
Proof.
  split; simpl.
  - intros k v ttl s E. rewrite E. simpl. split; [done|]. apply lookup_insert_eq.
  - intros k v w ttl s E. by rewrite E.
  - intros k v ttl s k'. by destruct (s.1 !! k).
  - intros k ms s k' Hms. by rewrite (proj2 (Z.ltb_lt _ _) Hms).
  - intros k ms s k'. by destruct (0 <? ms).
  - intros k s. apply lookup_delete_eq.
  - done.
  - done.
  - intros k s. apply lookup_insert_eq.
  - done.
  - intros k s. right. apply lookup_empty.
  - done.
Qed.

(** ** Witnesses *)

Definition engineNamed (id : string) : Engine :=
  match newEngine true with
  | Some e => SetLeaseSettings id 0 0 e
  | None => mkEngine [] ∅ ∅ ∅ ∅ false "" 0 0 (NewRouter 1 "") [] ∅ ∅ ∅ "" ""
  end.

Definition kv0 : @rstate kvRedis := (∅, ∅).
Definition kv1 : @rstate kvRedis := (@claimPartition kvRedis 0 Served Served Served (engineNamed "a") kv0).2.
Definition kv2 : @rstate kvRedis :=
  (@claimPartition kvRedis 0 Served Served Served (engineNamed "b") (@r_elapse kvRedis kv1)).2.

Lemma lease_mutual_exclusion_witness :
  @holder kvRedis 0 kv1 = Some "a" ∧
  ∀ n1 n2 n3 t, (@claimPartition kvRedis 0 n1 n2 n3 (engineNamed "b") kv1).1.1 ≠ Claimed t.
Proof.
  split; [vm_compute; reflexivity|]. intros n1 n2 n3 t.
  destruct (@lease_mutual_exclusion kvRedis kvRedis_laws 0 kv1) as [_ Hx].
  destruct (Hx "a" ltac:(vm_compute; reflexivity)) as [Hc _]. specialize (Hc (engineNamed "b") n1 n2 n3).
  destruct (@claimPartition kvRedis 0 n1 n2 n3 (engineNamed "b") kv1) as [[c e'] s'].
  destruct Hc as (_ & _ & Hn). apply Hn.
Defined.

(** An event stamped with the first token. *)
Definition lateEnvelope : EventEnvelope :=
  mkEnvelope "late" EventOrderCanceled 0 1 9 0 raw_nil.

(** Engine a owns the partition, its lease expires, engine b takes over: what a
    still sends is dropped. *)
Lemma fencing_rejects_former_owners_witness :
  @decideEnvelope kvRedis lateEnvelope Served kv2 = Some fencingStale.
Proof.
  destruct (@fencing_rejects_former_owners kvRedis kvRedis_laws 0 (mkContest kv0 ∅) [("a", 1)] (mkContest kv2 ∅) "b" 2)
    as (_ & Hst & _).
  - vm_compute. discriminate.
  - apply (own_run_app 0 _ [("a", 1)] (mkContest (@r_elapse kvRedis kv1) ∅) [("b", 2)]).
    + apply (own_more 0 _ [("a", 1)] (mkContest kv1 ∅) None); [|apply own_elapse].
      apply (claim_is_run 0 Served Served Served (engineNamed "a") kv0 ∅ (Claimed 1)
        (with_partitionToken (<[0 := 1]>) (engineNamed "a"))); [apply not_elem_of_empty|vm_compute; reflexivity].
    + apply (claim_is_run 0 Served Served Served (engineNamed "b") (@r_elapse kvRedis kv1) ∅ (Claimed 2)
        (with_partitionToken (<[0 := 2]>) (engineNamed "b"))); [apply not_elem_of_empty|vm_compute; reflexivity].
  - apply (Hst ("a", 1)); [left|reflexivity|reflexivity].
Defined.

(** The lease of engine a expires before it has drawn its token; engine b acquires the
    lease and draws 1, then a draws 2.  Now b holds the lease and a does not; but the
    worker drops what b announces, and would accept what a announces. *)
Definition raced1 : @rstate kvRedis := (@r_elapse kvRedis (@Acquire kvRedis (NewLease (LeaseKey 0) "a" 1) Served kv0).2).
Definition raced2 : @rstate kvRedis := (@Acquire kvRedis (NewLease (LeaseKey 0) "b" 1) Served raced1).2.
Definition raced3 : @rstate kvRedis := (@Next kvRedis (FencingKey 0) Served raced2).2.
Definition raced4 : @rstate kvRedis := (@Next kvRedis (FencingKey 0) Served raced3).2.

Definition stampedBy (token : Z) : EventEnvelope := mkEnvelope "" EventOrderCreated 0 token 1 0 (JText JNull).

Lemma holder_may_be_fenced_off :
  ∃ cl, own_run 0 (mkContest kv0 ∅) [("a", 2); ("b", 1)] (mkContest raced4 cl) ∧
  @holder kvRedis 0 raced4 = Some "b" ∧
  @decideEnvelope kvRedis (stampedBy 1) Served raced4 = Some fencingStale ∧
  @decideEnvelope kvRedis (stampedBy 2) Served raced4 = Some fencingAccept.
Proof.
  exists (({[ "b" ]} ∪ ({[ "a" ]} ∪ ∅)) ∖ {[ "b" ]} ∖ {[ "a" ]}). split; [|split_and!; vm_compute; reflexivity].
  assert (∀ s id n t s' cl, id ∈ cl → @Next kvRedis (FencingKey 0) n s = (inr t, s') → ∀ gs c, own_run 0 c gs (mkContest s cl) →
    own_run 0 c ((id, t) :: gs) (mkContest s' (cl ∖ {[id]}))) as Hdraw.
  { intros s id n t s' cl Hin En gs c Hr. exact (own_more 0 c gs _ (Some (id, t)) _ Hr (own_draw 0 id n t s s' cl Hin En)). }
  apply (Hdraw raced3 "a" Served 2); [set_solver|vm_compute; reflexivity|].
  apply (Hdraw raced2 "b" Served 1); [set_solver|vm_compute; reflexivity|].
  apply (own_more 0 _ [] (mkContest raced1 ({["a"]} ∪ ∅)) None).
  2:{ apply (own_acquire 0 "b" 1 Served (inr true)); [set_solver|vm_compute; reflexivity]. }
  apply (own_more 0 _ [] (mkContest (@Acquire kvRedis (NewLease (LeaseKey 0) "a" 1) Served kv0).2 ({["a"]} ∪ ∅)) None).
  2:{ apply own_elapse. }
  apply (own_more 0 _ [] (mkContest kv0 ∅) None (mkContest _ _) (own_refl _ _)).
  apply (own_acquire 0 "a" 1 Served (inr true)); [set_solver|vm_compute; reflexivity].
Qed.
