(* ===== verification/Repository.v ===== *)
(** The database: the schema of db/migrations and the statements of
    internal/repository.

    A table is a finite map from its primary key; [transactions], whose key is
    drawn by the server, is a list.  A statement either fails with an error and
    no effect, or yields its result and the next database.  Within a statement
    PostgreSQL first coerces values to the column types, then evaluates CHECK
    constraints, then unique keys, then foreign keys; the error codes below
    follow that order.  The columns [created_at] and [updated_at] are left out:
    no statement modelled here reads them.

    [DECIMAL(20,8)] is a [Z] in units of 10^-8, below 10^20 in absolute value. *)

From S2P Require Import Prelude.
Local Open Scope Z_scope.

(** ** Errors and numbers *)

Inductive PgError :=
| SqlState (code : string)           (** [pgconn.PgError] *)
| ErrNoRows                          (** [pgx.ErrNoRows] *)
| ConnLost.                          (** the connection failed *)

Definition not_null_violation : PgError := SqlState "23502".
Definition foreign_key_violation : PgError := SqlState "23503".
Definition unique_violation : PgError := SqlState "23505".
Definition check_violation : PgError := SqlState "23514".
Definition string_truncation : PgError := SqlState "22001".
Definition numeric_overflow : PgError := SqlState "22003".

(** [uuid.UUID], by its canonical text. *)
Definition UUID := string.

(** [pgtype.Numeric]: [Int * 10^Exp], or NULL. *)
Record Numeric := mkNumeric { n_Int : Z; n_Exp : Z; n_Valid : bool }.

Definition decimal_limit : Z := 100000000000000000000.
Definition decimal_ok (v : Z) : bool := Z.abs v <? decimal_limit.

(** Rounding half away from zero. *)
Definition round_div (a b : Z) : Z := Z.sgn a * ((2 * Z.abs a + b) / (2 * b)).

(** The value in units of 10^-8. *)
Definition decimal_units (n : Numeric) : Z :=
  if 0 <=? n_Exp n + 8 then n_Int n * 10 ^ (n_Exp n + 8)
  else round_div (n_Int n) (10 ^ (- (n_Exp n + 8))).

(** What PostgreSQL leaves to the server: the quotient of two numerics, stored
    in a DECIMAL(20,8) column. *)
Class Postgres := { numeric_quotient : Z → Z → Z }.

(** ** Statements *)

Record UserRow := mkUserRow { u_Email : string; u_PasswordHash : string; u_Balance : Z }.

Record EventRow := mkEventRow {
  er_Title : string; er_Description : string; er_Question : string; er_Thumbnail : string;
  er_IsActive : bool; er_ExpiresAt : Z; er_Volume : Z
}.

Record OrderRow := mkOrderRow {
  or_EventID : UUID; or_UserID : UUID; or_OrderType : string; or_Outcome : string; or_Side : string;
  or_Quantity : Z; or_Price : option Z; or_Status : string;
  or_FilledQuantity : Z; or_RemainingQuantity : Z
}.

Record TradeRow := mkTradeRow {
  tr_EventID : UUID; tr_Outcome : string; tr_TakerOrderID : UUID; tr_MakerOrderID : UUID;
  tr_BuyerID : UUID; tr_SellerID : UUID; tr_TakerSide : string; tr_Quantity : Z; tr_Price : Z
}.

Record PositionRow := mkPositionRow { pr_Shares : Z; pr_AvgPrice : Z }.

Record TransactionRow := mkTransactionRow {
  tx_UserID : UUID; tx_OrderID : UUID; tx_TradeID : UUID; tx_Type : string;
  tx_Quantity : option Z; tx_Price : option Z; tx_Amount : Z; tx_Outcome : string
}.

Record DB := mkDB {
  db_users : gmap UUID UserRow;
  db_events : gmap UUID EventRow;
  db_orders : gmap UUID OrderRow;
  db_trades : gmap UUID TradeRow;
  db_positions : gmap (UUID * UUID * string) PositionRow;
  db_transactions : list TransactionRow
}.

Definition with_users f d := mkDB (f (db_users d)) (db_events d) (db_orders d) (db_trades d) (db_positions d) (db_transactions d).
Definition with_events f d := mkDB (db_users d) (f (db_events d)) (db_orders d) (db_trades d) (db_positions d) (db_transactions d).
Definition with_dborders f d := mkDB (db_users d) (db_events d) (f (db_orders d)) (db_trades d) (db_positions d) (db_transactions d).
Definition with_trades f d := mkDB (db_users d) (db_events d) (db_orders d) (f (db_trades d)) (db_positions d) (db_transactions d).
Definition with_dbpositions f d := mkDB (db_users d) (db_events d) (db_orders d) (db_trades d) (f (db_positions d)) (db_transactions d).
Definition with_transactions f d := mkDB (db_users d) (db_events d) (db_orders d) (db_trades d) (db_positions d) (f (db_transactions d)).

Definition Stmt (A : Type) : Type := DB → PgError + A * DB.

Definition sret {A} (a : A) : Stmt A := λ d, inr (a, d).
Definition sfail {A} (e : PgError) : Stmt A := λ _, inl e.
Definition sbind {A B} (m : Stmt A) (k : A → Stmt B) : Stmt B := λ d,
  match m d with
  | inl e => inl e
  | inr (a, d) => k a d
  end.
Definition sget : Stmt DB := λ d, inr (d, d).
Definition swrite (f : DB → DB) : Stmt () := λ d, inr ((), f d).

Declare Scope sql_scope.
Delimit Scope sql_scope with sql.
Notation "x <- m ;; k" := (sbind m (λ x, k))
  (at level 100, m at next level, right associativity) : sql_scope.
Notation "m ;;; k" := (sbind m (λ _, k)) (at level 100, right associativity) : sql_scope.
Local Open Scope sql_scope.

(** [require e b] fails with [e] unless [b]. *)
Definition require (e : PgError) (b : bool) : Stmt () := if b then sret () else sfail e.

Definition in_range (v : Z) : Stmt Z := require numeric_overflow (decimal_ok v) ;;; sret v.

(** Assignment to a DECIMAL(20,8) column, NOT NULL or nullable. *)
Definition decimal_column (n : Numeric) : Stmt Z :=
  require not_null_violation (n_Valid n) ;;; in_range (decimal_units n).
Definition nullable_column (n : Numeric) : Stmt (option Z) :=
  if n_Valid n then (v <- in_range (decimal_units n) ;; sret (Some v)) else sret None.

Definition varchar (n : nat) (s : string) : Stmt () := require string_truncation (String.length s <=? n)%nat.
Definition one_of (l : list string) (s : string) : Stmt () := require check_violation (bool_decide (s ∈ l)).

(** A reference to an existing row. *)
Definition references {A} (table : DB → gmap UUID A) (id : UUID) : Stmt () :=
  d <- sget ;;
  require foreign_key_violation (bool_decide (is_Some (table d !! id))).

Definition unique_key {K A} `{Countable K} (table : DB → gmap K A) (k : K) : Stmt () :=
  d <- sget ;;
  require unique_violation (bool_decide (table d !! k = None)).

(** ** users.sql.go *)

(** The column default of [users.balance]: 100.0. *)
Definition default_balance : Z := 10000000000.

(** [id] is the server's [gen_random_uuid()]. *)
Definition CreateUser (id : UUID) (email passwordHash : string) : Stmt UUID :=
  d <- sget ;;
  require unique_violation (bool_decide (map_Forall (λ _ u, u_Email u ≠ email) (db_users d))) ;;;
  unique_key db_users id ;;;
  swrite (with_users (<[id := mkUserRow email passwordHash default_balance]>)) ;;;
  sret id.

(** [email] is UNIQUE, so at most one row qualifies. *)
Definition GetUserByEmail (email : string) : Stmt (UUID * UserRow) :=
  d <- sget ;;
  match map_to_list (filter (λ iu, u_Email iu.2 = email) (db_users d)) with
  | [] => sfail ErrNoRows
  | row :: _ => sret row
  end.

Definition GetUserBalance (id : UUID) : Stmt Z :=
  d <- sget ;;
  match db_users d !! id with
  | None => sfail ErrNoRows
  | Some u => sret (u_Balance u)
  end.

Definition set_Balance (v : Z) (u : UserRow) : UserRow := mkUserRow (u_Email u) (u_PasswordHash u) v.

Definition AddBalance (id : UUID) (balance : Numeric) : Stmt () :=
  d <- sget ;;
  match db_users d !! id with
  | None => sret ()
  | Some u =>
      require not_null_violation (n_Valid balance) ;;;
      v <- in_range (u_Balance u + decimal_units balance) ;;
      swrite (with_users (<[id := set_Balance v u]>))
  end.

(** Yields the number of rows. *)
Definition DeductBalance (id : UUID) (balance : Numeric) : Stmt Z :=
  d <- sget ;;
  match db_users d !! id with
  | None => sret 0
  | Some u =>
      if n_Valid balance && (decimal_units balance <=? u_Balance u) then
        v <- in_range (u_Balance u - decimal_units balance) ;;
        swrite (with_users (<[id := set_Balance v u]>)) ;;;
        sret 1
      else sret 0
  end.

(** ** events.sql.go *)

Definition CreateEvent (id : UUID) (title description question thumbnail : string) (expiresAt : Z) : Stmt UUID :=
  unique_key db_events id ;;;
  swrite (with_events (<[id := mkEventRow title description question thumbnail true expiresAt 0]>)) ;;;
  sret id.

Definition GetEventByID (id : UUID) : Stmt EventRow :=
  d <- sget ;;
  match db_events d !! id with
  | None => sfail ErrNoRows
  | Some ev => sret ev
  end.

(** Rows with equal expiry come in the server's order: [visit] is a permutation
    of the table. *)
Definition GetActiveEvents (visit : list (UUID * EventRow) → list (UUID * EventRow)) : Stmt (list (UUID * EventRow)) :=
  d <- sget ;;
  sret (stable_sort (λ a b, er_ExpiresAt a.2 <? er_ExpiresAt b.2)
          (filter (λ r, er_IsActive r.2 = true) (visit (map_to_list (db_events d))))).

(** Orders go with their event (ON DELETE CASCADE); trades and positions, and the
    trades and transactions that refer to those orders, prevent the deletion. *)
Definition DeleteEvent (id : UUID) : Stmt () :=
  d <- sget ;;
  let gone (o : UUID) := bool_decide (or_EventID <$> db_orders d !! o = Some id) in
  require foreign_key_violation (bool_decide
    (map_Forall (λ _ t, tr_EventID t ≠ id ∧ gone (tr_TakerOrderID t) = false ∧ gone (tr_MakerOrderID t) = false)
       (db_trades d))) ;;;
  require foreign_key_violation (bool_decide (map_Forall (λ k _, k.1.2 ≠ id) (db_positions d))) ;;;
  require foreign_key_violation (bool_decide (Forall (λ x, gone (tx_OrderID x) = false) (db_transactions d))) ;;;
  swrite (λ d, with_events (delete id) (with_dborders (filter (λ o, or_EventID o.2 ≠ id)) d)).

Definition add_Volume (v : Z) (ev : EventRow) : EventRow :=
  mkEventRow (er_Title ev) (er_Description ev) (er_Question ev) (er_Thumbnail ev)
    (er_IsActive ev) (er_ExpiresAt ev) (er_Volume ev + v).

Definition IncrementEventVolume (id : UUID) (volume : Numeric) : Stmt () :=
  d <- sget ;;
  match db_events d !! id with
  | None => sret ()
  | Some ev =>
      require not_null_violation (n_Valid volume) ;;;
      in_range (er_Volume ev + decimal_units volume) ;;;
      swrite (with_events (<[id := add_Volume (decimal_units volume) ev]>))
  end.

Definition GetOrderByID (id : UUID) : Stmt OrderRow :=
  d <- sget ;;
  match db_orders d !! id with
  | None => sfail ErrNoRows
  | Some o => sret o
  end.

(** ** orders.sql.go *)

Record InsertOrderParams := mkInsertOrder {
  io_ID : UUID; io_EventID : UUID; io_UserID : UUID; io_OrderType : string; io_Outcome : string;
  io_Side : string; io_Quantity : Numeric; io_Price : Numeric; io_Status : string;
  io_FilledQuantity : Numeric; io_RemainingQuantity : Numeric
}.

(** The CHECK on [orders.status], as of migration 004. *)
Definition order_statuses : list string := ["PENDING"; "PARTIAL"; "FILLED"; "CANCELED"; "REJECTED"].

Definition InsertOrder (p : InsertOrderParams) : Stmt () :=
  quantity <- decimal_column (io_Quantity p) ;;
  price <- nullable_column (io_Price p) ;;
  filled <- decimal_column (io_FilledQuantity p) ;;
  remaining <- decimal_column (io_RemainingQuantity p) ;;
  one_of ["LIMIT"; "MARKET"] (io_OrderType p) ;;;
  one_of ["YES"; "NO"] (io_Outcome p) ;;;
  one_of ["BUY"; "SELL"] (io_Side p) ;;;
  require check_violation (0 <? quantity) ;;;
  require check_violation (0 <=? default 0 price) ;;;
  one_of order_statuses (io_Status p) ;;;
  unique_key db_orders (io_ID p) ;;;
  references db_events (io_EventID p) ;;;
  references db_users (io_UserID p) ;;;
  swrite (with_dborders (<[io_ID p := mkOrderRow (io_EventID p) (io_UserID p) (io_OrderType p)
    (io_Outcome p) (io_Side p) quantity price (io_Status p) filled remaining]>)).

Definition set_fill (filled remaining : Z) (status : string) (o : OrderRow) : OrderRow :=
  mkOrderRow (or_EventID o) (or_UserID o) (or_OrderType o) (or_Outcome o) (or_Side o)
    (or_Quantity o) (or_Price o) status filled remaining.

Definition UpdateOrderFill (id : UUID) (fill : Numeric) (status : string) : Stmt () :=
  d <- sget ;;
  match db_orders d !! id with
  | None => sret ()
  | Some o =>
      require not_null_violation (n_Valid fill) ;;;
      filled <- in_range (or_FilledQuantity o + decimal_units fill) ;;
      remaining <- in_range (Z.max (or_Quantity o - (or_FilledQuantity o + decimal_units fill)) 0) ;;
      one_of order_statuses status ;;;
      swrite (with_dborders (<[id := set_fill filled remaining status o]>))
  end.

Definition UpdateOrderStatus (id : UUID) (status : string) : Stmt () :=
  d <- sget ;;
  match db_orders d !! id with
  | None => sret ()
  | Some o =>
      one_of order_statuses status ;;;
      swrite (with_dborders (<[id := set_fill (or_FilledQuantity o) (or_RemainingQuantity o) status o]>))
  end.

Definition GetOrdersByUserAndEvent (visit : list (UUID * OrderRow) → list (UUID * OrderRow))
    (userID eventID : UUID) : Stmt (list (UUID * OrderRow)) :=
  d <- sget ;;
  sret (filter (λ r, or_UserID r.2 = userID ∧ or_EventID r.2 = eventID) (visit (map_to_list (db_orders d)))).

(** ** trades.sql.go *)

Record InsertTradeParams := mkInsertTrade {
  it_ID : UUID; it_EventID : UUID; it_Outcome : string; it_TakerOrderID : UUID; it_MakerOrderID : UUID;
  it_BuyerID : UUID; it_SellerID : UUID; it_TakerSide : string; it_Quantity : Numeric; it_Price : Numeric
}.

Definition InsertTrade (p : InsertTradeParams) : Stmt () :=
  varchar 10 (it_Outcome p) ;;;
  varchar 10 (it_TakerSide p) ;;;
  quantity <- decimal_column (it_Quantity p) ;;
  price <- decimal_column (it_Price p) ;;
  one_of ["YES"; "NO"] (it_Outcome p) ;;;
  one_of ["BUY"; "SELL"] (it_TakerSide p) ;;;
  unique_key db_trades (it_ID p) ;;;
  references db_events (it_EventID p) ;;;
  references db_orders (it_TakerOrderID p) ;;;
  references db_orders (it_MakerOrderID p) ;;;
  references db_users (it_BuyerID p) ;;;
  references db_users (it_SellerID p) ;;;
  swrite (with_trades (<[it_ID p := mkTradeRow (it_EventID p) (it_Outcome p) (it_TakerOrderID p)
    (it_MakerOrderID p) (it_BuyerID p) (it_SellerID p) (it_TakerSide p) quantity price]>)).

(** ** postion.sql.go *)

Definition GetPositionRow (userID eventID : UUID) (outcome : string) : Stmt PositionRow :=
  d <- sget ;;
  match db_positions d !! (userID, eventID, outcome) with
  | None => sfail ErrNoRows
  | Some r => sret r
  end.

Definition DecreasePosition (userID eventID : UUID) (outcome : string) (shares : Numeric) : Stmt Z :=
  d <- sget ;;
  match db_positions d !! (userID, eventID, outcome) with
  | None => sret 0
  | Some r =>
      if n_Valid shares && (decimal_units shares <=? pr_Shares r) then
        v <- in_range (pr_Shares r - decimal_units shares) ;;
        swrite (with_dbpositions (<[(userID, eventID, outcome) := mkPositionRow v (pr_AvgPrice r)]>)) ;;;
        sret 1
      else sret 0
  end.

Definition UpsertPosition `{Postgres} (userID eventID : UUID) (outcome : string) (shares avgPrice : Numeric) : Stmt () :=
  varchar 10 outcome ;;;
  shares <- decimal_column shares ;;
  avg <- decimal_column avgPrice ;;
  one_of ["YES"; "NO"] outcome ;;;
  d <- sget ;;
  match db_positions d !! (userID, eventID, outcome) with
  | None =>
      references db_users userID ;;;
      references db_events eventID ;;;
      swrite (with_dbpositions (<[(userID, eventID, outcome) := mkPositionRow shares avg]>))
  | Some r =>
      total <- in_range (pr_Shares r + shares) ;;
      avg <- in_range (if total =? 0 then avg
                       else numeric_quotient (pr_AvgPrice r * pr_Shares r + avg * shares) total) ;;
      swrite (with_dbpositions (<[(userID, eventID, outcome) := mkPositionRow total avg]>))
  end.

(** ** transaction.sql.go *)

Record InsertTransactionParams := mkInsertTransaction {
  ix_UserID : UUID; ix_OrderID : UUID; ix_TradeID : UUID; ix_Type : string; ix_Quantity : Numeric;
  ix_Price : Numeric; ix_Amount : Numeric; ix_Outcome : string
}.

Definition InsertTransaction (p : InsertTransactionParams) : Stmt () :=
  varchar 30 (ix_Type p) ;;;
  varchar 10 (ix_Outcome p) ;;;
  quantity <- nullable_column (ix_Quantity p) ;;
  price <- nullable_column (ix_Price p) ;;
  amount <- decimal_column (ix_Amount p) ;;
  references db_users (ix_UserID p) ;;;
  references db_orders (ix_OrderID p) ;;;
  references db_trades (ix_TradeID p) ;;;
  swrite (with_transactions (λ l, l ++ [mkTransactionRow (ix_UserID p) (ix_OrderID p) (ix_TradeID p)
    (ix_Type p) quantity price amount (ix_Outcome p)])).
