(* ===== verification/History.v ===== *)
(** The trade history of an event: [GetTradesByEvent] of
    internal/repository/trades.sql.go, and reading it page by page.

    [created_at] is not part of the rows of the model: it is a function of the id.
    [visit] is the order in which the server meets the rows, which may differ from
    one query to the next. *)

From S2P Require Import Prelude Repository.
Local Open Scope Z_scope.
Local Open Scope sql_scope.

Section history.
Context (createdAt : UUID → Z).

(** [ORDER BY created_at DESC] *)
Definition newer (r r' : UUID * TradeRow) : bool := createdAt r'.1 <? createdAt r.1.

Definition GetTradesByEvent (visit : list (UUID * TradeRow) → list (UUID * TradeRow))
    (eventID : UUID) (limit offset : Z) : Stmt (list (UUID * TradeRow)) :=
  require (SqlState "2201W") (0 <=? limit) ;;;
  require (SqlState "2201X") (0 <=? offset) ;;;
  d <- sget ;;
  sret (take (Z.to_nat limit) (drop (Z.to_nat offset)
          (stable_sort newer (filter (λ r, tr_EventID r.2 = eventID) (visit (map_to_list (db_trades d))))))).

(** Pages of [n] rows, from the [from]-th on, one query each. *)
Fixpoint pages (visits : list (list (UUID * TradeRow) → list (UUID * TradeRow))) (eventID : UUID) (n : nat) (from : nat)
    : Stmt (list (UUID * TradeRow)) :=
  match visits with
  | [] => sret []
  | visit :: visits =>
      page <- GetTradesByEvent visit eventID (Z.of_nat n) (Z.of_nat (from * n)) ;;
      rest <- pages visits eventID n (S from) ;;
      sret (page ++ rest)
  end.

Lemma newer_trans_neg x y z : newer y x = false → newer z y = false → newer z x = false.
Proof. unfold newer. rewrite !Z.ltb_ge. lia. Qed.

Lemma newer_asym x y : newer x y = true → newer y x = false.
Proof. unfold newer. rewrite Z.ltb_ge, Z.ltb_lt. lia. Qed.

(** No two trades of the event have the same time. *)
Definition distinct_times (d : DB) (eventID : UUID) : Prop := ∀ i j t u,
  db_trades d !! i = Some t → db_trades d !! j = Some u → tr_EventID t = eventID → tr_EventID u = eventID →
  createdAt i = createdAt j → i = j.

(** The whole history, newest first. *)
Definition history (d : DB) (eventID : UUID) : list (UUID * TradeRow) :=
  stable_sort newer (filter (λ r, tr_EventID r.2 = eventID) (map_to_list (db_trades d))).

Lemma elem_of_history d eventID r :
  r ∈ history d eventID ↔ db_trades d !! r.1 = Some r.2 ∧ tr_EventID r.2 = eventID.
Proof.
  unfold history. rewrite (stable_sort_Permutation newer), list_elem_of_filter. destruct r as [i t].
  rewrite elem_of_map_to_list. naive_solver.
Qed.

(** The order of the rows leaves no choice. *)
Lemma history_visit d eventID visit : (∀ l, visit l ≡ₚ l) → distinct_times d eventID →
  stable_sort newer (filter (λ r, tr_EventID r.2 = eventID) (visit (map_to_list (db_trades d)))) = history d eventID.
Proof.
  intros Hv Ht. set (l1 := stable_sort newer _).
  assert (l1 ≡ₚ history d eventID) as Hperm.
  { unfold l1, history. rewrite !(stable_sort_Permutation newer). by rewrite (Hv (map_to_list (db_trades d))). }
  apply (StronglySorted_unique_strong (not_after newer)).
  - intros x y Hx Hy Hxy Hyx. rewrite Hperm in Hx. apply elem_of_history in Hx as [Hx Ex], Hy as [Hy Ey].
    unfold not_after, newer in *. apply Z.ltb_ge in Hxy, Hyx.
    assert (x.1 = y.1) as E by (eapply Ht; [exact Hx|exact Hy|done|done|lia]).
    destruct x as [i t], y as [j u]; simpl in *. congruence.
  - apply stable_sort_sorted; [apply newer_trans_neg|apply newer_asym].
  - apply stable_sort_sorted; [apply newer_trans_neg|apply newer_asym].
  - done.
Qed.

Lemma pages_spec d eventID n visits : ∀ from,
  Forall (λ visit, ∀ l, visit l ≡ₚ l) visits → distinct_times d eventID →
  pages visits eventID n from d =
    inr (take (length visits * n) (drop (from * n) (history d eventID)), d).
Proof.
  induction visits as [|visit visits IH]; intros from Hv Ht; [by rewrite take_0|].
  apply Forall_cons in Hv as [Hv Hvs]. simpl pages. unfold GetTradesByEvent, sbind, require, sget, sret.
  rewrite !(proj2 (Z.leb_le 0 _)) by lia. rewrite history_visit, !Nat2Z.id by done.
  rewrite (IH (S from) Hvs Ht). do 2 f_equal. cbn [length]. rewrite (Nat.mul_succ_l (length visits)), (Nat.add_comm _ n).
  rewrite <- take_take_drop, drop_drop. do 3 f_equal. lia.
Qed.

(** With enough pages one has read the whole history: exactly the trades of the event,
    each once, newest first, however the server orders its scans. *)
Lemma pages_read_history d eventID n visits :
  Forall (λ visit, ∀ l, visit l ≡ₚ l) visits → distinct_times d eventID →
  (length (history d eventID) ≤ length visits * n)%nat →
  ∃ rows, pages visits eventID n 0 d = inr (rows, d) ∧ NoDup rows ∧
    (∀ r, r ∈ rows ↔ db_trades d !! r.1 = Some r.2 ∧ tr_EventID r.2 = eventID) ∧
    StronglySorted (λ r r', createdAt r'.1 ≤ createdAt r.1) rows.
Proof.
  intros Hv Ht Hlen. exists (history d eventID). rewrite pages_spec by done. rewrite take_ge by done.
  split; [done|]. split_and!.
  - unfold history. rewrite (stable_sort_Permutation newer). apply NoDup_filter, NoDup_map_to_list.
  - apply elem_of_history.
  - assert (StronglySorted (not_after newer) (history d eventID)) as Hs
      by (apply stable_sort_sorted; [apply newer_trans_neg|apply newer_asym]).
    clear Hlen. induction Hs as [|r l _ IH Hall]; [constructor|].
    constructor; [exact IH|]. eapply Forall_impl; [exact Hall|]. intros r'. unfold not_after, newer. by rewrite Z.ltb_ge.
Qed.
End history.
