(* ===== verification/Statements.v ===== *)
(** What the statements of the database do when they succeed.

    A failed statement has no effect, so a statement is described by the
    relation between the database before and after its success. *)

From S2P Require Import Prelude Repository.
Local Open Scope Z_scope.

(** ** Inversion of the building blocks *)

Lemma sbind_inr {A B} (m : Stmt A) (k : A → Stmt B) d b d2 :
  sbind m k d = inr (b, d2) → ∃ a d1, m d = inr (a, d1) ∧ k a d1 = inr (b, d2).
Proof. unfold sbind. destruct (m d) as [e|[a d1]]; [intros [=]|]. eauto. Qed.

Lemma require_inr e b d a d' : require e b d = inr (a, d') → b = true ∧ d' = d.
Proof. unfold require, sret, sfail. destruct b; intros [=]. done. Qed.

Lemma in_range_inr v d a d' : in_range v d = inr (a, d') → decimal_ok v = true ∧ a = v ∧ d' = d.
Proof. by intros (? & ? & [? ->]%require_inr & [= -> ->])%sbind_inr. Qed.

Lemma decimal_column_inr n d a d' :
  decimal_column n d = inr (a, d') →
  (n_Valid n = true ∧ decimal_ok (decimal_units n) = true) ∧ a = decimal_units n ∧ d' = d.
Proof. by intros (? & ? & [? ->]%require_inr & (? & ? & ?)%in_range_inr)%sbind_inr. Qed.

Lemma nullable_column_inr n d a d' :
  nullable_column n d = inr (a, d') →
  d' = d ∧ (n_Valid n = true → a = Some (decimal_units n) ∧ decimal_ok (decimal_units n) = true).
Proof.
  unfold nullable_column. destruct (n_Valid n).
  - by intros (? & ? & (? & -> & ->)%in_range_inr & [= <- ->])%sbind_inr.
  - by intros [= <- ->].
Qed.

Lemma varchar_inr n s d a d' : varchar n s d = inr (a, d') → (String.length s <=? n)%nat = true ∧ d' = d.
Proof. apply require_inr. Qed.

Lemma one_of_inr l s d a d' : one_of l s d = inr (a, d') → s ∈ l ∧ d' = d.
Proof. intros [?%bool_decide_eq_true ?]%require_inr. done. Qed.

Lemma references_inr {A} (table : DB → gmap UUID A) k d a d' :
  references table k d = inr (a, d') → is_Some (table d !! k) ∧ d' = d.
Proof. by intros (? & ? & [= -> ->] & [?%bool_decide_eq_true ->]%require_inr)%sbind_inr. Qed.

Lemma unique_key_inr {K A} `{Countable K} (table : DB → gmap K A) k d a d' :
  unique_key table k d = inr (a, d') → table d !! k = None ∧ d' = d.
Proof. by intros (? & ? & [= -> ->] & [?%bool_decide_eq_true ->]%require_inr)%sbind_inr. Qed.

(** [sql_inv] takes the success of a statement apart. *)
Ltac sql_inv :=
  repeat match goal with
  | H : sbind _ _ _ = inr _ |- _ => apply sbind_inr in H as (? & ? & ? & ?)
  | H : require _ _ _ = inr _ |- _ => apply require_inr in H as [? ->]
  | H : in_range _ _ = inr _ |- _ => apply in_range_inr in H as (? & -> & ->)
  | H : decimal_column _ _ = inr _ |- _ => apply decimal_column_inr in H as (? & -> & ->)
  | H : nullable_column _ _ = inr _ |- _ => apply nullable_column_inr in H as [-> ?]
  | H : varchar _ _ _ = inr _ |- _ => apply varchar_inr in H as [? ->]
  | H : one_of _ _ _ = inr _ |- _ => apply one_of_inr in H as [? ->]
  | H : references _ _ _ = inr _ |- _ => apply references_inr in H as [? ->]
  | H : unique_key _ _ _ = inr _ |- _ => apply unique_key_inr in H as [? ->]
  | H : sget _ = inr _ |- _ => injection H as <- <-
  | H : sret _ _ = inr _ |- _ => injection H as <- <-
  | H : swrite _ _ = inr _ |- _ => injection H as <- <-
  | H : sfail _ _ = inr _ |- _ => discriminate H
  end.

(** ** The statements *)

Definition tradeRow (p : InsertTradeParams) : TradeRow :=
  mkTradeRow (it_EventID p) (it_Outcome p) (it_TakerOrderID p) (it_MakerOrderID p) (it_BuyerID p)
    (it_SellerID p) (it_TakerSide p) (decimal_units (it_Quantity p)) (decimal_units (it_Price p)).

(** The rows a trade refers to. *)
Record refers (d : DB) (tr : TradeRow) : Prop := {
  ref_event : is_Some (db_events d !! tr_EventID tr);
  ref_taker : is_Some (db_orders d !! tr_TakerOrderID tr);
  ref_maker : is_Some (db_orders d !! tr_MakerOrderID tr);
  ref_buyer : is_Some (db_users d !! tr_BuyerID tr);
  ref_seller : is_Some (db_users d !! tr_SellerID tr)
}.

Lemma InsertTrade_inr p d a d' :
  InsertTrade p d = inr (a, d') →
  db_trades d !! it_ID p = None ∧ refers d (tradeRow p) ∧ decimal_ok (tr_Quantity (tradeRow p)) = true ∧
  d' = with_trades (<[it_ID p := tradeRow p]>) d.
Proof. intros Hs. unfold InsertTrade in Hs. sql_inv. split_and!; [done|by constructor|naive_solver|done]. Qed.

Lemma InsertTrade_taken p d : is_Some (db_trades d !! it_ID p) → ∀ r, InsertTrade p d ≠ inr r.
Proof. intros [tr Htr] [a d'] Hs. apply InsertTrade_inr in Hs as (? & _). congruence. Qed.


(** Passing the checks that do not depend on the database. *)
Lemma sbind_require {B} e b (k : () → Stmt B) d : b = true → sbind (require e b) k d = k () d.
Proof. by intros ->. Qed.

Lemma sbind_decimal_column {B} n (k : Z → Stmt B) d :
  n_Valid n = true ∧ decimal_ok (decimal_units n) = true → sbind (decimal_column n) k d = k (decimal_units n) d.
Proof. intros [Hv Hr]. unfold sbind, decimal_column, in_range, sbind, require. by rewrite Hv, Hr. Qed.

Lemma sbind_unique_taken {K A B} `{Countable K} (table : DB → gmap K A) i (k : () → Stmt B) d :
  is_Some (table d !! i) → sbind (unique_key table i) k d = inl unique_violation.
Proof.
  intros [x Hx]. unfold sbind, unique_key, sbind, sget. rewrite bool_decide_eq_false_2 by congruence. done.
Qed.

(** An insertion that got as far as the unique key has passed the checks. *)
Lemma sbind_require_unique {B} e b (k : () → Stmt B) d :
  e ≠ unique_violation → sbind (require e b) k d = inl unique_violation →
  b = true ∧ k () d = inl unique_violation.
Proof. intros He. destruct b; [done|]. by intros [= ->]. Qed.

Lemma sbind_decimal_column_unique {B} n (k : Z → Stmt B) d :
  sbind (decimal_column n) k d = inl unique_violation →
  (n_Valid n = true ∧ decimal_ok (decimal_units n) = true) ∧ k (decimal_units n) d = inl unique_violation.
Proof.
  unfold sbind, decimal_column, in_range, sbind, require. by destruct (n_Valid n), (decimal_ok _).
Qed.

Lemma sbind_nullable_column_unique {B} n (k : option Z → Stmt B) d :
  n_Valid n = true → sbind (nullable_column n) k d = inl unique_violation →
  decimal_ok (decimal_units n) = true ∧ k (Some (decimal_units n)) d = inl unique_violation.
Proof.
  intros Hv. unfold sbind, nullable_column, in_range, sbind, require. rewrite Hv. by destruct (decimal_ok _).
Qed.

Lemma sbind_nullable_column {B} n (k : option Z → Stmt B) d :
  n_Valid n = true → decimal_ok (decimal_units n) = true →
  sbind (nullable_column n) k d = k (Some (decimal_units n)) d.
Proof. intros Hv Hr. unfold sbind, nullable_column, in_range, sbind, require. by rewrite Hv, Hr. Qed.

Lemma sbind_unique_inl {K A B} `{Countable K} (table : DB → gmap K A) i (k : () → Stmt B) d :
  sbind (unique_key table i) k d = inl unique_violation →
  is_Some (table d !! i) ∨ k () d = inl unique_violation.
Proof.
  unfold sbind, unique_key, sbind, sget, require. destruct (table d !! i) eqn:E; [by left; eauto|].
  rewrite bool_decide_eq_true_2 by done. by right.
Qed.

Lemma sbind_references_unique {A B} (table : DB → gmap UUID A) i (k : () → Stmt B) d :
  sbind (references table i) k d = inl unique_violation → k () d = inl unique_violation.
Proof. unfold sbind, references, sbind, sget, require. by destruct (bool_decide _). Qed.

Ltac pass_checks :=
  repeat match goal with
  | H : sbind (require _ _) _ _ = inl unique_violation |- _ =>
      apply sbind_require_unique in H as [? H]; [|discriminate]
  | H : sbind (decimal_column _) _ _ = inl unique_violation |- _ =>
      apply sbind_decimal_column_unique in H as [? H]
  | H : sbind (nullable_column _) _ _ = inl unique_violation |- _ =>
      apply sbind_nullable_column_unique in H as [? H]; [|done]
  end;
  repeat first [rewrite sbind_require by done | rewrite sbind_decimal_column by done
               | rewrite sbind_nullable_column by done].

(** A second insertion of the same trade is refused at its primary key. *)
Lemma InsertTrade_again p d1 d :
  (∃ r, InsertTrade p d1 = inr r) ∨ InsertTrade p d1 = inl unique_violation →
  is_Some (db_trades d !! it_ID p) → InsertTrade p d = inl unique_violation.
Proof.
  intros [[[a d1'] Hs]|Hs] Ht; unfold InsertTrade, varchar, one_of in *.
  - sql_inv. pass_checks. by apply sbind_unique_taken.
  - pass_checks. by apply sbind_unique_taken.
Qed.

Lemma InsertTrade_unique p d : InsertTrade p d = inl unique_violation → is_Some (db_trades d !! it_ID p).
Proof.
  unfold InsertTrade, varchar, one_of. intros Hs. pass_checks.
  apply sbind_unique_inl in Hs as [Hs|Hs]; [done|]. by do 5 apply sbind_references_unique in Hs.
Qed.

Definition orderRow (p : InsertOrderParams) (price : option Z) : OrderRow :=
  mkOrderRow (io_EventID p) (io_UserID p) (io_OrderType p) (io_Outcome p) (io_Side p)
    (decimal_units (io_Quantity p)) price (io_Status p)
    (decimal_units (io_FilledQuantity p)) (decimal_units (io_RemainingQuantity p)).

Lemma InsertOrder_inr p d a d' :
  InsertOrder p d = inr (a, d') →
  db_orders d !! io_ID p = None ∧ 0 < decimal_units (io_Quantity p) ∧
  decimal_ok (decimal_units (io_Quantity p)) = true ∧
  ∃ price, d' = with_dborders (<[io_ID p := orderRow p price]>) d.
Proof. intros Hs. unfold InsertOrder in Hs. sql_inv. split_and!; [done|lia|naive_solver|]. by eexists. Qed.

Lemma InsertOrder_taken p d r : is_Some (db_orders d !! io_ID p) → InsertOrder p d ≠ inr r.
Proof. destruct r as [a d']. intros [o Ho] Hs. apply InsertOrder_inr in Hs as (? & _). congruence. Qed.

Lemma InsertOrder_again p d1 d :
  n_Valid (io_Price p) = true →
  (∃ r, InsertOrder p d1 = inr r) ∨ InsertOrder p d1 = inl unique_violation →
  is_Some (db_orders d !! io_ID p) → InsertOrder p d = inl unique_violation.
Proof.
  intros Hv [[[a d1'] Hs]|Hs] Ht; unfold InsertOrder, varchar, one_of in *.
  - sql_inv. match goal with Hn : n_Valid _ = true → _ |- _ => destruct (Hn Hv) as [-> ?] end.
    pass_checks. by apply sbind_unique_taken.
  - pass_checks. by apply sbind_unique_taken.
Qed.

Lemma InsertOrder_unique p d :
  n_Valid (io_Price p) = true → InsertOrder p d = inl unique_violation → is_Some (db_orders d !! io_ID p).
Proof.
  unfold InsertOrder, one_of. intros Hv Hs. pass_checks.
  apply sbind_unique_inl in Hs as [Hs|Hs]; [done|]. by do 2 apply sbind_references_unique in Hs.
Qed.

Lemma GetOrderByID_inr i d o d' : GetOrderByID i d = inr (o, d') → db_orders d !! i = Some o ∧ d' = d.
Proof.
  unfold GetOrderByID, sbind, sget. destruct (db_orders d !! i) as [o'|]; [|intros [=]]. by intros [= -> ->].
Qed.

Lemma UpdateOrderFill_inr i fill st d a d' :
  UpdateOrderFill i fill st d = inr (a, d') →
  (db_orders d !! i = None ∧ d' = d) ∨
  ∃ o, db_orders d !! i = Some o ∧
    let filled := or_FilledQuantity o + decimal_units fill in
    decimal_ok filled = true ∧
    d' = with_dborders (<[i := set_fill filled (Z.max (or_Quantity o - filled) 0) st o]>) d.
Proof.
  intros Hs. unfold UpdateOrderFill in Hs. sql_inv.
  destruct (db_orders _ !! i) as [o|] eqn:Ho; sql_inv; [|by left].
  right. eauto 10.
Qed.

Lemma UpdateOrderStatus_inr i st d a d' :
  UpdateOrderStatus i st d = inr (a, d') →
  (db_orders d !! i = None ∧ d' = d) ∨
  ∃ o, db_orders d !! i = Some o ∧
    d' = with_dborders (<[i := set_fill (or_FilledQuantity o) (or_RemainingQuantity o) st o]>) d.
Proof.
  intros Hs. unfold UpdateOrderStatus in Hs. sql_inv.
  destruct (db_orders _ !! i) as [o|] eqn:Ho; sql_inv; [|by left]. right. eauto.
Qed.

Lemma DeductBalance_inr i n d k d' :
  DeductBalance i n d = inr (k, d') →
  (k = 0 ∧ d' = d) ∨
  (k = 1 ∧ ∃ u, db_users d !! i = Some u ∧ decimal_units n ≤ u_Balance u ∧
     d' = with_users (<[i := set_Balance (u_Balance u - decimal_units n) u]>) d).
Proof.
  intros Hs. unfold DeductBalance in Hs. sql_inv.
  destruct (db_users _ !! i) as [u|] eqn:Hu; [|sql_inv; by left].
  destruct (n_Valid n && (decimal_units n <=? u_Balance u)) eqn:E; sql_inv; [|by left].
  right. split; [done|]. exists u. split_and!; [done|lia|done].
Qed.

Lemma AddBalance_inr i n d a d' :
  AddBalance i n d = inr (a, d') →
  (db_users d !! i = None ∧ d' = d) ∨
  ∃ u, db_users d !! i = Some u ∧ d' = with_users (<[i := set_Balance (u_Balance u + decimal_units n) u]>) d.
Proof.
  intros Hs. unfold AddBalance in Hs. sql_inv.
  destruct (db_users _ !! i) as [u|] eqn:Hu; sql_inv; [|by left]. right. eauto.
Qed.

Definition sharesOf (d : DB) (k : UUID * UUID * string) : Z := default 0 (pr_Shares <$> db_positions d !! k).

Lemma UpsertPosition_inr `{Postgres} u ev oc n avg d a d' :
  UpsertPosition u ev oc n avg d = inr (a, d') →
  ∃ avg', d' = with_dbpositions (<[(u, ev, oc) := mkPositionRow (sharesOf d (u, ev, oc) + decimal_units n) avg']>) d.
Proof.
  intros Hs. unfold UpsertPosition in Hs. sql_inv. unfold sharesOf.
  destruct (db_positions _ !! (u, ev, oc)) as [r|] eqn:Hr; sql_inv; simpl; by eexists.
Qed.

Definition transactionRow (p : InsertTransactionParams) : TransactionRow :=
  mkTransactionRow (ix_UserID p) (ix_OrderID p) (ix_TradeID p) (ix_Type p)
    (Some (decimal_units (ix_Quantity p))) (Some (decimal_units (ix_Price p)))
    (decimal_units (ix_Amount p)) (ix_Outcome p).

Lemma InsertTransaction_inr p d a d' :
  n_Valid (ix_Quantity p) = true → n_Valid (ix_Price p) = true →
  InsertTransaction p d = inr (a, d') → d' = with_transactions (λ l, l ++ [transactionRow p]) d.
Proof.
  intros Hq Hp Hs. unfold InsertTransaction in Hs. sql_inv. unfold transactionRow. naive_solver.
Qed.

Lemma IncrementEventVolume_inr i n d a d' :
  IncrementEventVolume i n d = inr (a, d') →
  (db_events d !! i = None ∧ d' = d) ∨
  ∃ ev, db_events d !! i = Some ev ∧ d' = with_events (<[i := add_Volume (decimal_units n) ev]>) d.
Proof.
  intros Hs. unfold IncrementEventVolume in Hs. sql_inv.
  destruct (db_events _ !! i) as [ev|] eqn:Hev; sql_inv; [|by left]. right. eauto.
Qed.
