(* ===== verification/DbWorker.v ===== *)
(** The DB worker: internal/dbworker/worker.go.

    The worker consumes the event stream and reflects every event in the
    database.  Each call to Redis or PostgreSQL may fail before or after taking
    effect ([Net]); the statements of one settlement run in a transaction, so
    their effect is kept only by a commit.  What the worker uses of third-party
    packages is the class [Packages]: [uuid.Parse], and [Numeric.Float64Value]
    followed by the conversion to [int64]. *)

From S2P Require Import Prelude Json Types Router State Events Commands Lease Repository.
Local Open Scope Z_scope.
Local Open Scope i64_scope.

Class Packages := {
  uuid_Parse : string → option UUID;
  Float64Value : Numeric → option (option Z);    (** error, NULL, or the truncated value *)
  pgx_postgres :: Postgres
}.

(** [k] is the value of [n]. *)
Definition whole (n : Numeric) (k : Z) : Prop :=
  n_Valid n = true ∧ n_Exp n ≤ 0 ∧ n_Int n = k * 10 ^ (- n_Exp n).

(** A float64 has 53 bits of precision. *)
Class PackageLaws `{Packages} : Prop := {
  float64_exact n k : whole n k → Z.abs k ≤ 2 ^ 53 → Float64Value n = Some (Some k)
}.

Inductive WorkerError :=
| Errorf (what : string)                       (** an error of the worker's own *)
| Wrap (what : string) (cause : PgError).      (** [fmt.Errorf("what: %w", cause)] *)

Definition isUniqueViolation (err : PgError) : bool :=
  match err with
  | SqlState code => code =s "23505"
  | _ => false
  end.

(** ** Numbers *)

Definition numericFromInt (v : Z) : Numeric := mkNumeric v 0 true.
Definition numericFromScaled (v : Z) : Numeric := mkNumeric v (-4) true.

(** A DECIMAL(20,8) column as it is read. *)
Definition numericOfColumn (v : Z) : Numeric := mkNumeric v (-8) true.

Definition numericToInt64 `{Packages} (n : Numeric) : option Z :=
  if negb (n_Valid n) then Some 0
  else match Float64Value n with
       | None => None
       | Some None => Some 0
       | Some (Some f) => Some f
       end.

(** ** The body of a transaction *)

(** A computation inside a transaction: the calls made so far and the database
    as the transaction sees it. *)
Definition TX (A : Type) : Type := nat → DB → (WorkerError + A) * nat * DB.

Definition tret {A} (a : A) : TX A := λ t d, (inr a, t, d).
Definition tfail {A} (e : WorkerError) : TX A := λ t d, (inl e, t, d).
Definition tbind {A B} (m : TX A) (k : A → TX B) : TX B := λ t d,
  match m t d with
  | (inl e, t, d) => (inl e, t, d)
  | (inr a, t, d) => k a t d
  end.

Declare Scope tx_scope.
Delimit Scope tx_scope with tx.
Notation "x <- m ;; k" := (tbind m (λ x, k))
  (at level 100, m at next level, right associativity) : tx_scope.
Notation "m ;;; k" := (tbind m (λ _, k)) (at level 100, right associativity) : tx_scope.
Local Open Scope tx_scope.

Definition validateTrade (trade : Trade) : option string :=
  if t_ID trade =s "" then Some "trade id is required"
  else if t_EventID trade =s "" then Some "event id is required"
  else if t_OrderID trade =s "" then Some "taker order id is required"
  else if t_MatchOrderID trade =s "" then Some "maker order id is required"
  else if t_BuyerID trade =s "" then Some "buyer id is required"
  else if t_SellerID trade =s "" then Some "seller id is required"
  else if negb (t_Outcome trade =s "YES") && negb (t_Outcome trade =s "NO") then Some "invalid outcome"
  else if t_Quantity trade <=? 0 then Some "quantity must be greater than zero"
  else if t_Price trade <? 0 then Some "price cannot be negative"
  else None.

Section worker.
Context `{Packages} `{Network}.

(** One call to the server: the result and the database after it. *)
Definition exec {A} (stmt : Stmt A) (t : nat) (d : DB) : (PgError + A) * DB :=
  match net t with
  | Served => match stmt d with inl e => (inl e, d) | inr (a, d) => (inr a, d) end
  | RequestLost => (inl ConnLost, d)
  | ReplyLost => (inl ConnLost, match stmt d with inl _ => d | inr (_, d) => d end)
  end.

(** The same in a transaction, with the error at hand or wrapped. *)
Definition try {A} (stmt : Stmt A) : TX (PgError + A) := λ t d,
  let '(r, d) := exec stmt t d in (inr r, S t, d).

Definition query {A} (what : string) (stmt : Stmt A) : TX A :=
  r <- try stmt ;;
  match r with
  | inl e => tfail (Wrap what e)
  | inr a => tret a
  end.

Definition parse (what : string) (s : string) : TX UUID :=
  match uuid_Parse s with
  | None => tfail (Errorf what)
  | Some id => tret id
  end.

Definition toInt64 (what : string) (column : Z) : TX Z :=
  match numericToInt64 (numericOfColumn column) with
  | None => tfail (Errorf what)
  | Some v => tret v
  end.

Definition applyOrderFill (what : string) (orderID : UUID) (fillQuantity : Z) : TX () :=
  order <- query (what ++ ": load order") (GetOrderByID orderID) ;;
  current <- toInt64 (what ++ ": read order fill") (or_FilledQuantity order) ;;
  quantity <- toInt64 (what ++ ": read order quantity") (or_Quantity order) ;;
  let newFilled := current +' fillQuantity in
  let status := if quantity <=? newFilled then StatusFilled else StatusPartial in
  query what (UpdateOrderFill orderID (numericFromInt fillQuantity) status).

Definition insertTransaction (what : string) (p : InsertTransactionParams) : TX () :=
  query what (InsertTransaction p).

(** Steps 3, 4 and 5 of [settleTrade]: cash, positions, ledger entries. *)
Definition payTrade (buyerID sellerID : UUID) (total : Z) : TX () :=
  tag <- query "deduct buyer balance" (DeductBalance buyerID (numericFromScaled total)) ;;
  if tag =? 0 then tfail (Errorf "insufficient buyer balance")
  else query "credit seller balance" (AddBalance sellerID (numericFromScaled total)).

Definition movePositions (buyerID sellerID eventID : UUID) (trade : Trade) : TX () :=
  query "update buyer position"
    (UpsertPosition buyerID eventID (t_Outcome trade) (numericFromInt (t_Quantity trade))
       (numericFromScaled (t_Price trade))) ;;;
  query "update seller position"
    (UpsertPosition sellerID eventID (t_Outcome trade) (numericFromInt (- t_Quantity trade))
       (numericFromScaled (t_Price trade))).

Definition enterLedger (tradeID buyerID sellerID takerOrderID makerOrderID : UUID) (trade : Trade)
    (total : Z) : TX () :=
  insertTransaction "insert buyer transaction" (mkInsertTransaction buyerID takerOrderID tradeID
    "BUY" (numericFromInt (t_Quantity trade)) (numericFromScaled (t_Price trade))
    (numericFromScaled total) (t_Outcome trade)) ;;;
  insertTransaction "insert seller transaction" (mkInsertTransaction sellerID makerOrderID tradeID
    "SELL" (numericFromInt (t_Quantity trade)) (numericFromScaled (t_Price trade))
    (numericFromScaled total) (t_Outcome trade)).

(** The body of [settleTrade] between Begin and Commit; [false] is the early
    [return nil] that leaves the rest to the deferred Rollback. *)
Definition settleBody (trade : Trade) : TX bool :=
  tradeID <- parse "invalid trade id" (t_ID trade) ;;
  eventID <- parse "invalid event id" (t_EventID trade) ;;
  buyerID <- parse "invalid buyer id" (t_BuyerID trade) ;;
  sellerID <- parse "invalid seller id" (t_SellerID trade) ;;
  takerOrderID <- parse "invalid taker order id" (t_OrderID trade) ;;
  makerOrderID <- parse "invalid maker order id" (t_MatchOrderID trade) ;;
  inserted <- try (InsertTrade (mkInsertTrade tradeID eventID (t_Outcome trade) takerOrderID
    makerOrderID buyerID sellerID (t_TakerSide trade) (numericFromInt (t_Quantity trade))
    (numericFromScaled (t_Price trade)))) ;;
  match inserted with
  | inl e => if isUniqueViolation e then tret false else tfail (Wrap "insert trade" e)
  | inr _ =>
      applyOrderFill "update taker order" takerOrderID (t_Quantity trade) ;;;
      applyOrderFill "update maker order" makerOrderID (t_Quantity trade) ;;;
      let total := t_Quantity trade *' t_Price trade in
      payTrade buyerID sellerID total ;;;
      movePositions buyerID sellerID eventID trade ;;;
      enterLedger tradeID buyerID sellerID takerOrderID makerOrderID trade total ;;;
      query "update event volume" (IncrementEventVolume eventID (numericFromScaled total)) ;;;
      tret true
  end.

(** ** The worker *)

Context `{RedisServer}.

Record Worker := mkWorker {
  wk_db : DB;
  wk_redis : rstate;
  wk_acked : list string;
  wk_calls : nat
}.

Definition Job : Type := Worker → option WorkerError * Worker.

(** [settleTrade]: Begin, the body, Commit.  An error or an early return rolls
    back; a commit whose reply is lost has taken effect. *)
Definition settleTrade (trade : Trade) : Job := λ w,
  let t := wk_calls w in
  match net t with
  | Served =>
      let '(r, t, d) := settleBody trade (S t) (wk_db w) in
      match r with
      | inl e => (Some e, mkWorker (wk_db w) (wk_redis w) (wk_acked w) (S t))
      | inr false => (None, mkWorker (wk_db w) (wk_redis w) (wk_acked w) (S t))
      | inr true =>
          match net t with
          | Served => (None, mkWorker d (wk_redis w) (wk_acked w) (S t))
          | RequestLost => (Some (Wrap "commit settlement" ConnLost),
                            mkWorker (wk_db w) (wk_redis w) (wk_acked w) (S t))
          | ReplyLost => (Some (Wrap "commit settlement" ConnLost),
                          mkWorker d (wk_redis w) (wk_acked w) (S t))
          end
      end
  | _ => (Some (Wrap "begin transaction" ConnLost),
          mkWorker (wk_db w) (wk_redis w) (wk_acked w) (S t))
  end.

(** A single statement, which commits on its own. *)
Definition autocommit {A} (stmt : Stmt A) (k : PgError + A → option WorkerError) : Job := λ w,
  let '(r, d) := exec stmt (wk_calls w) (wk_db w) in
  (k r, mkWorker d (wk_redis w) (wk_acked w) (S (wk_calls w))).

Definition fail (err : WorkerError) : Job := λ w, (Some err, w).
Definition done : Job := λ w, (None, w).

Definition handleTradeExecuted (envelope : EventEnvelope) : Job :=
  match unmarshal_trade (ev_Data envelope) with
  | None => fail (Errorf "decode trade")
  | Some trade =>
      match validateTrade trade with
      | Some err => fail (Errorf err)
      | None => settleTrade trade
      end
  end.

Definition handleOrderCreated (envelope : EventEnvelope) : Job :=
  match unmarshal_order (ev_Data envelope) with
  | None => fail (Errorf "decode order")
  | Some order =>
      match uuid_Parse (o_ID order) with
      | None => fail (Errorf "invalid order id")
      | Some oid =>
          match uuid_Parse (o_EventID order) with
          | None => fail (Errorf "invalid event id")
          | Some eid =>
              match uuid_Parse (o_UserID order) with
              | None => fail (Errorf "invalid user id")
              | Some uid =>
                  autocommit (InsertOrder (mkInsertOrder oid eid uid (o_OrderType order) (o_Outcome order)
                    (o_Side order) (numericFromInt (o_Quantity order)) (numericFromScaled (o_Price order))
                    (o_Status order) (numericFromInt (o_FilledQuantity order))
                    (numericFromInt (o_RemainingQuantity order))))
                    (λ r, match r with
                          | inl e => if isUniqueViolation e then None else Some (Wrap "insert order" e)
                          | inr _ => None
                          end)
              end
          end
      end
  end.

Definition handleOrderCanceled (envelope : EventEnvelope) : Job :=
  match unmarshal_strings ["orderId"] (ev_Data envelope) with
  | Some [orderID] =>
      match uuid_Parse orderID with
      | None => fail (Errorf "invalid order id")
      | Some oid =>
          autocommit (UpdateOrderStatus oid StatusCanceled)
            (λ r, match r with inl e => Some (Wrap "update order status" e) | inr _ => None end)
      end
  | _ => fail (Errorf "decode cancel payload")
  end.

Definition handleEnvelope (envelope : EventEnvelope) : Job := λ w,
  let decision := decideEnvelope envelope (net (wk_calls w)) (wk_redis w) in
  let w := mkWorker (wk_db w) (wk_redis w) (wk_acked w) (S (wk_calls w)) in
  match decision with
  | None => (Some (Errorf "read fencing token"), w)
  | Some fencingStale => (None, w)
  | Some fencingAccept =>
      if ev_Type envelope =s EventTradeExecuted then handleTradeExecuted envelope w
      else if ev_Type envelope =s EventOrderCreated then handleOrderCreated envelope w
      else if ev_Type envelope =s EventOrderCanceled then handleOrderCanceled envelope w
      else (None, w)
  end.

(** [processStreamEntry] of the worker; [rawEvent] is the entry's "event" value. *)
Definition processEvent (entryID : string) (rawEvent : json_text) : Job := λ w,
  match unmarshal_envelope rawEvent with
  | None => (Some (Errorf "decode event envelope"), w)
  | Some envelope =>
      match handleEnvelope envelope w with
      | (Some err, w) => (Some err, w)
      | (None, w) =>
          let acked := mkWorker (wk_db w) (wk_redis w) (wk_acked w ++ [entryID]) (S (wk_calls w)) in
          match net (wk_calls w) with
          | Served => (None, acked)
          | RequestLost => (Some (Errorf net_error), mkWorker (wk_db w) (wk_redis w) (wk_acked w) (S (wk_calls w)))
          | ReplyLost => (Some (Errorf net_error), acked)
          end
      end
  end.

(** The entries one read of [Run] hands out; the first error ends the worker. *)
Fixpoint processEvents (entries : list (string * json_text)) : Job := λ w,
  match entries with
  | [] => (None, w)
  | (entryID, rawEvent) :: entries =>
      match processEvent entryID rawEvent w with
      | (Some err, w) => (Some err, w)
      | (None, w) => processEvents entries w
      end
  end.

(** [ensureGroup]; [err] is the error of XGROUP CREATE. *)
Definition ensureGroup (err : option string) : option string :=
  match err with
  | None => None
  | Some err => match String.index 0 "BUSYGROUP" err with Some _ => None | None => Some err end
  end.

(** What one XREADGROUP of the loop of [Run] yields; after an error other than the
    cancellation the loop waits, unless the context is done. *)
Inductive Read :=
| Entries (entries : list (string * json_text))
| Canceled
| ReadError (done_ : bool).

(** The loop of [Run] over its reads: [None] is a return of nil, or no return yet. *)
Fixpoint readLoop (reads : list Read) : Job := λ w,
  match reads with
  | [] | Canceled :: _ | ReadError true :: _ => (None, w)
  | ReadError false :: reads => readLoop reads w
  | Entries entries :: reads =>
      match processEvents entries w with
      | (Some err, w) => (Some err, w)
      | (None, w) => readLoop reads w
      end
  end.

(** [Run]: the group, the entries a crashed worker left pending, then the loop.  An
    error of XAUTOCLAIM is only logged ([claimed] is then empty). *)
Definition Run (groupErr : option string) (claimed : list (string * json_text)) (reads : list Read) : Job := λ w,
  match ensureGroup groupErr with
  | Some err => (Some (Errorf ("ensure event group: " +:+ err)), w)
  | None =>
      match processEvents claimed w with
      | (Some err, w) => (Some err, w)
      | (None, w) => readLoop reads w
      end
  end.
End worker.
