(* ===== verification/Projection.v ===== *)
(** The database as a projection of the trades it records.

    [Projection] says that every aggregate of the database (fills of orders,
    balances, positions, event volumes, ledger rows) is exactly what the trades
    table implies.  A settlement either has no effect or adds one trade with all
    its consequences ([Settled]), so every run of the worker keeps it. *)

From S2P Require Import Prelude Json Types Router State Events Commands Lease Repository Statements DbWorker.
Local Open Scope Z_scope.

(** ** Numbers *)

Definition share : Z := 100000000.     (** one share, in units of 10^-8 *)
Definition tick4 : Z := 10000.         (** 10^-4, in units of 10^-8 *)

Lemma units_int v : decimal_units (numericFromInt v) = v * share.
Proof. done. Qed.
Lemma units_scaled v : decimal_units (numericFromScaled v) = v * tick4.
Proof. done. Qed.

Definition costOf (tr : TradeRow) : Z := tr_Quantity tr * tr_Price tr / share.

Lemma costOf_exact tr q p : tr_Quantity tr = q * share → tr_Price tr = p * tick4 → costOf tr = q * p * tick4.
Proof.
  intros Hq Hp. unfold costOf. rewrite Hq, Hp. unfold share, tick4.
  replace (q * 100000000 * (p * 10000)) with (q * p * 10000 * 100000000) by ring. by rewrite Z.div_mul.
Qed.

(** ** What the trades imply *)

Definition fillOf (i : UUID) (tr : TradeRow) : Z :=
  (if tr_TakerOrderID tr =s i then tr_Quantity tr else 0) + (if tr_MakerOrderID tr =s i then tr_Quantity tr else 0).
Definition cashOf (i : UUID) (tr : TradeRow) : Z :=
  (if tr_SellerID tr =s i then costOf tr else 0) - (if tr_BuyerID tr =s i then costOf tr else 0).
Definition shareOf (k : UUID * UUID * string) (tr : TradeRow) : Z :=
  (if decide (k = (tr_BuyerID tr, tr_EventID tr, tr_Outcome tr)) then tr_Quantity tr else 0) -
  (if decide (k = (tr_SellerID tr, tr_EventID tr, tr_Outcome tr)) then tr_Quantity tr else 0).
Definition volumeOf (i : UUID) (tr : TradeRow) : Z := if tr_EventID tr =s i then costOf tr else 0.

Definition ledgerRows (i : UUID) (tr : TradeRow) : list TransactionRow :=
  [mkTransactionRow (tr_BuyerID tr) (tr_TakerOrderID tr) i "BUY" (Some (tr_Quantity tr)) (Some (tr_Price tr))
     (costOf tr) (tr_Outcome tr);
   mkTransactionRow (tr_SellerID tr) (tr_MakerOrderID tr) i "SELL" (Some (tr_Quantity tr)) (Some (tr_Price tr))
     (costOf tr) (tr_Outcome tr)].

Definition status_of (quantity filled : Z) : string :=
  if filled =? 0 then StatusPending else if quantity <=? filled then StatusFilled else StatusPartial.

(** An order row: whole shares, and the other columns follow from the fill. *)
Record row_ok (o : OrderRow) : Prop := {
  ro_quantity : ∃ k, or_Quantity o = k * share ∧ 0 < k < 1000000000000;
  ro_filled : ∃ k, or_FilledQuantity o = k * share ∧ 0 ≤ k < 1000000000000;
  ro_remaining : or_RemainingQuantity o = Z.max (or_Quantity o - or_FilledQuantity o) 0;
  ro_status : or_Status o = StatusCanceled ∨ or_Status o = status_of (or_Quantity o) (or_FilledQuantity o)
}.

Record Projection (d : DB) : Prop := {
  pj_refs : ∀ i tr, db_trades d !! i = Some tr → refers d tr;
  pj_rows : ∀ i o, db_orders d !! i = Some o → row_ok o;
  pj_fills : ∀ i o, db_orders d !! i = Some o → or_FilledQuantity o = map_sumZ (fillOf i) (db_trades d);
  pj_balances : ∀ i u, db_users d !! i = Some u →
    u_Balance u = default_balance + map_sumZ (cashOf i) (db_trades d) ∧ 0 ≤ u_Balance u;
  pj_shares : ∀ k, sharesOf d k = map_sumZ (shareOf k) (db_trades d);
  pj_volumes : ∀ i ev, db_events d !! i = Some ev → er_Volume ev = map_sumZ (volumeOf i) (db_trades d);
  pj_ledger : ∀ i, filter (λ x, tx_TradeID x = i) (db_transactions d) =
    match db_trades d !! i with Some tr => ledgerRows i tr | None => [] end
}.

(** ** Settlement *)

Definition fillRow (q : Z) (o : OrderRow) : OrderRow :=
  let filled := or_FilledQuantity o + q in
  set_fill filled (Z.max (or_Quantity o - filled) 0) (status_of (or_Quantity o) filled) o.

(** [d'] is [d] with the trade [tr] and all its consequences. *)
Record Settled (i : UUID) (tr : TradeRow) (d d' : DB) : Prop := {
  se_new : db_trades d !! i = None;
  se_refs : refers d tr;
  se_trades : db_trades d' = <[i := tr]> (db_trades d);
  se_orders : ∃ ot om, db_orders d !! tr_TakerOrderID tr = Some ot ∧
    let m := <[tr_TakerOrderID tr := fillRow (tr_Quantity tr) ot]> (db_orders d) in
    m !! tr_MakerOrderID tr = Some om ∧
    db_orders d' = <[tr_MakerOrderID tr := fillRow (tr_Quantity tr) om]> m;
  se_rows : ∀ j o, db_orders d' !! j = Some o → row_ok o;
  se_users : ∃ ub us, db_users d !! tr_BuyerID tr = Some ub ∧ costOf tr ≤ u_Balance ub ∧
    let m := <[tr_BuyerID tr := set_Balance (u_Balance ub - costOf tr) ub]> (db_users d) in
    m !! tr_SellerID tr = Some us ∧
    db_users d' = <[tr_SellerID tr := set_Balance (u_Balance us + costOf tr) us]> m;
  se_shares : ∀ k, sharesOf d' k = sharesOf d k + shareOf k tr;
  se_events : ∃ ev, db_events d !! tr_EventID tr = Some ev ∧
    db_events d' = <[tr_EventID tr := add_Volume (costOf tr) ev]> (db_events d);
  se_ledger : db_transactions d' = db_transactions d ++ ledgerRows i tr
}.

(** ** Success of a transaction body *)

Section body.
Context `{Packages} `{Network}.

Lemma tbind_inr {A B} (m : TX A) (k : A → TX B) t d b t2 d2 :
  tbind m k t d = (inr b, t2, d2) → ∃ a t1 d1, m t d = (inr a, t1, d1) ∧ k a t1 d1 = (inr b, t2, d2).
Proof. unfold tbind. destruct (m t d) as [[[e|a] t1] d1]; [intros [=]|]. eauto 6. Qed.

Lemma exec_inr {A} (s : Stmt A) t d a d' : exec s t d = (inr a, d') → s d = inr (a, d').
Proof. unfold exec. destruct (net t); [|intros [=]..]. destruct (s d) as [|[? ?]]; [intros [=]|]. by intros [= -> ->]. Qed.

Lemma query_inr {A} what (s : Stmt A) t d a t' d' :
  query what s t d = (inr a, t', d') → s d = inr (a, d').
Proof.
  intros (r & t1 & d1 & Hr & Hk)%tbind_inr. unfold try in Hr. destruct (exec s t d) as [x dx] eqn:E.
  injection Hr as -> _ ->. destruct r as [e|a']; [discriminate Hk|]. injection Hk as -> _ ->. by apply exec_inr in E.
Qed.

Lemma parse_inr what s t d a t' d' : parse what s t d = (inr a, t', d') → uuid_Parse s = Some a ∧ t' = t ∧ d' = d.
Proof. unfold parse. destruct (uuid_Parse s); [|intros [=]]. by intros [= -> -> ->]. Qed.

Context `{!PackageLaws}.

Lemma toInt64_inr what k t d a t' d' :
  0 ≤ k < 1000000000000 → toInt64 what (k * share) t d = (inr a, t', d') → a = k ∧ t' = t ∧ d' = d.
Proof.
  intros Hk. unfold toInt64, numericToInt64. simpl.
  rewrite (float64_exact (numericOfColumn (k * share)) k).
  - by intros [= -> -> ->].
  - by repeat split.
  - lia.
Qed.

Lemma status_fill kq kf q :
  0 ≤ kf → 0 < q →
  status_of (kq * share) (kf * share + q * share) = if kq <=? kf + q then StatusFilled else StatusPartial.
Proof.
  intros Hf Hq. unfold status_of. rewrite (proj2 (Z.eqb_neq _ _)) by (unfold share; lia).
  destruct (Z.leb_spec kq (kf + q)) as [Hle|Hgt].
  - rewrite (proj2 (Z.leb_le _ _)); [done|unfold share; lia].
  - rewrite (proj2 (Z.leb_gt _ _)); [done|unfold share; lia].
Qed.

Lemma row_ok_fill o q :
  row_ok o → 0 < q → decimal_ok (or_FilledQuantity o + q * share) = true → row_ok (fillRow (q * share) o).
Proof.
  intros [(kq & Eq & Hkq) (kf & Ef & Hkf) Hrem Hst] Hq Hok.
  apply Z.ltb_lt in Hok. rewrite Ef in Hok. unfold decimal_limit, share in Hok.
  assert (kf + q < 1000000000000) as Hlt by lia.
  constructor.
  - by exists kq.
  - exists (kf + q). split; [|lia]. unfold fillRow, set_fill, or_FilledQuantity at 1. rewrite Ef. ring.
  - done.
  - by right.
Qed.

(** One order of a trade: the row is the filled row. *)
Lemma applyOrderFill_inr what i q t d a t' d' o :
  (∀ i o, db_orders d !! i = Some o → row_ok o) → db_orders d !! i = Some o → 0 < q < 1000000000000 →
  applyOrderFill what i q t d = (inr a, t', d') →
  d' = with_dborders (<[i := fillRow (q * share) o]>) d ∧
  ∀ i o, db_orders d' !! i = Some o → row_ok o.
Proof.
  intros Hrows Ho Hq Hrun. unfold applyOrderFill in Hrun.
  apply tbind_inr in Hrun as (o' & t1 & d1 & [Ho' ->]%query_inr%GetOrderByID_inr & Hrun). simplify_eq.
  destruct (Hrows i o Ho) as [(kq & Eq & Hkq) (kf & Ef & Hkf) Hrem Hst].
  apply tbind_inr in Hrun as (c & t2 & d2 & Hc & Hrun). rewrite Ef in Hc.
  apply toInt64_inr in Hc as (-> & -> & ->); [|done].
  apply tbind_inr in Hrun as (n & t3 & d3 & Hn & Hrun). rewrite Eq in Hn.
  apply toInt64_inr in Hn as (-> & -> & ->); [|lia].
  rewrite add64_id in Hrun by (unfold in64, min_int64, max_int64; lia).
  apply query_inr, UpdateOrderFill_inr in Hrun as [[? _]|(o' & Ho2 & Hok & ->)]; [congruence|]. simplify_eq.
  rewrite units_int in Hok |- *.
  assert (set_fill (or_FilledQuantity o + q * share) (Z.max (or_Quantity o - (or_FilledQuantity o + q * share)) 0)
    (if kq <=? kf + q then StatusFilled else StatusPartial) o = fillRow (q * share) o) as ->.
  { unfold fillRow. f_equal. rewrite Eq, Ef. symmetry. apply status_fill; lia. }
  split; [done|]. simpl. intros j oj [[<- <-]|[Hne Hj]]%lookup_insert_Some; [|by eapply Hrows].
  apply row_ok_fill; [by eapply Hrows|lia|done].
Qed.

(** The row of a trade, once its ids are parsed. *)
Record parsed (trade : Trade) (i : UUID) (tr : TradeRow) : Prop := {
  pa_id : uuid_Parse (t_ID trade) = Some i;
  pa_event : uuid_Parse (t_EventID trade) = Some (tr_EventID tr);
  pa_buyer : uuid_Parse (t_BuyerID trade) = Some (tr_BuyerID tr);
  pa_seller : uuid_Parse (t_SellerID trade) = Some (tr_SellerID tr);
  pa_taker : uuid_Parse (t_OrderID trade) = Some (tr_TakerOrderID tr);
  pa_maker : uuid_Parse (t_MatchOrderID trade) = Some (tr_MakerOrderID tr);
  pa_outcome : tr_Outcome tr = t_Outcome trade;
  pa_side : tr_TakerSide tr = t_TakerSide trade;
  pa_quantity : tr_Quantity tr = t_Quantity trade * share;
  pa_price : tr_Price tr = t_Price trade * tick4
}.

Lemma sharesOf_insert d k r k' :
  sharesOf (with_dbpositions (<[k := r]>) d) k' = if decide (k' = k) then pr_Shares r else sharesOf d k'.
Proof.
  unfold sharesOf. simpl. destruct (decide (k' = k)) as [->|Hne]; [by rewrite lookup_insert_eq|].
  by rewrite lookup_insert_ne.
Qed.

Lemma payTrade_inr b s total t d a t' d' :
  is_Some (db_users d !! s) → payTrade b s total t d = (inr a, t', d') →
  ∃ ub us, db_users d !! b = Some ub ∧ total * tick4 ≤ u_Balance ub ∧
    let m := <[b := set_Balance (u_Balance ub - total * tick4) ub]> (db_users d) in
    m !! s = Some us ∧ d' = with_users (λ _, <[s := set_Balance (u_Balance us + total * tick4) us]> m) d.
Proof.
  intros Hs Hrun. apply tbind_inr in Hrun as (k & t1 & d1 & Hk & Hrun).
  apply query_inr, DeductBalance_inr in Hk as [[-> ->]|(-> & ub & Hub & Hle & ->)]; [discriminate Hrun|].
  exists ub. rewrite units_scaled in *. simpl in Hrun.
  apply query_inr, AddBalance_inr in Hrun as [[Hn _]|(us & Hus & ->)].
  - exfalso. simpl in Hn. apply lookup_insert_None in Hn as [Hn _]. rewrite Hn in Hs. by destruct Hs.
  - exists us. rewrite units_scaled. done.
Qed.

Lemma movePositions_inr b s ev trade t d a t' d' :
  movePositions b s ev trade t d = (inr a, t', d') →
  (∃ f, d' = with_dbpositions f d) ∧
  ∀ k, sharesOf d' k = sharesOf d k
    + (if decide (k = (b, ev, t_Outcome trade)) then t_Quantity trade * share else 0)
    - (if decide (k = (s, ev, t_Outcome trade)) then t_Quantity trade * share else 0).
Proof.
  intros Hrun. apply tbind_inr in Hrun as (? & t1 & d1 & Hx1 & Hx2).
  apply query_inr, UpsertPosition_inr in Hx1 as [avg1 ->].
  apply query_inr, UpsertPosition_inr in Hx2 as [avg2 ->]. split.
  - eexists (λ _, _). reflexivity.
  - intros k. rewrite !sharesOf_insert, !units_int. simpl. repeat case_decide; simplify_eq/=; lia.
Qed.

Lemma enterLedger_inr i b s tk mk trade total t d a t' d' :
  enterLedger i b s tk mk trade total t d = (inr a, t', d') →
  d' = with_transactions (λ l, l ++
    [mkTransactionRow b tk i "BUY" (Some (t_Quantity trade * share)) (Some (t_Price trade * tick4))
       (total * tick4) (t_Outcome trade);
     mkTransactionRow s mk i "SELL" (Some (t_Quantity trade * share)) (Some (t_Price trade * tick4))
       (total * tick4) (t_Outcome trade)]) d.
Proof.
  intros Hrun. apply tbind_inr in Hrun as (? & t1 & d1 & Hx1 & Hx2).
  apply query_inr, InsertTransaction_inr in Hx1 as ->; [|done..].
  apply query_inr, InsertTransaction_inr in Hx2 as ->; [|done..].
  unfold with_transactions, transactionRow. simpl. by rewrite <- app_assoc.
Qed.

(** A body that ends in a commit has settled the trade. *)
Lemma settleBody_true trade t d t' d' :
  Projection d → 0 < t_Quantity trade → in64 (t_Quantity trade * t_Price trade) →
  settleBody trade t d = (inr true, t', d') →
  ∃ i tr, parsed trade i tr ∧ Settled i tr d d'.
Proof.
  intros HP Hq Hc Hrun. unfold settleBody in Hrun.
  apply tbind_inr in Hrun as (i & ? & ? & (Hi & -> & ->)%parse_inr & Hrun).
  apply tbind_inr in Hrun as (ev & ? & ? & (Hev & -> & ->)%parse_inr & Hrun).
  apply tbind_inr in Hrun as (b & ? & ? & (Hb & -> & ->)%parse_inr & Hrun).
  apply tbind_inr in Hrun as (s & ? & ? & (Hs & -> & ->)%parse_inr & Hrun).
  apply tbind_inr in Hrun as (tk & ? & ? & (Htk & -> & ->)%parse_inr & Hrun).
  apply tbind_inr in Hrun as (mk & ? & ? & (Hmk & -> & ->)%parse_inr & Hrun).
  apply tbind_inr in Hrun as (ins & t1 & d1 & Hins & Hrun). unfold try in Hins.
  set (p := mkInsertTrade _ _ _ _ _ _ _ _ _ _) in Hins.
  destruct (exec (InsertTrade p) t d) as [r dx] eqn:E. injection Hins as -> _ ->.
  destruct ins as [e|[]]; [by destruct (isUniqueViolation e)|].
  exists i, (tradeRow p). apply exec_inr, InsertTrade_inr in E as (Hnew & Hrefs & Hok & ->).
  split; [by constructor|].
  assert (costOf (tradeRow p) = t_Quantity trade * t_Price trade * tick4) as Hcost by by apply costOf_exact.
  assert (t_Quantity trade < 1000000000000) as Hlt.
  { apply Z.ltb_lt in Hok. change (tr_Quantity (tradeRow p)) with (t_Quantity trade * share) in Hok.
    unfold decimal_limit, share in Hok. lia. }
  rewrite mul64_id in Hrun by done. destruct (ref_taker _ _ Hrefs) as [ot Hot].
  apply tbind_inr in Hrun as (? & t2 & d2 & Hx2 & Hrun).
  apply (applyOrderFill_inr _ _ _ _ _ _ _ _ ot) in Hx2 as (-> & Hrows); [|apply HP|done|done].
  assert (is_Some (<[tk := fillRow (t_Quantity trade * share) ot]> (db_orders d) !! mk)) as [om Hom].
  { destruct (ref_maker _ _ Hrefs) as [om0 Hom0]. apply lookup_insert_is_Some'. right. by exists om0. }
  apply tbind_inr in Hrun as (? & t3 & d3 & Hx3 & Hrun).
  apply (applyOrderFill_inr _ _ _ _ _ _ _ _ om) in Hx3 as (-> & Hrows'); [|done|done|done].
  apply tbind_inr in Hrun as (? & t4 & d4 & Hx4 & Hrun).
  apply payTrade_inr in Hx4 as (ub & us & Hub & Hle & Hus & ->); [|apply Hrefs].
  apply tbind_inr in Hrun as (? & t5 & d5 & Hx5 & Hrun). apply movePositions_inr in Hx5 as [[f ->] Hsh].
  apply tbind_inr in Hrun as (? & t6 & d6 & Hx6 & Hrun). apply enterLedger_inr in Hx6 as ->.
  apply tbind_inr in Hrun as (? & t7 & d7 & Hx7 & Hrun). injection Hrun as _ ->. simpl in *.
  destruct (ref_event _ _ Hrefs : is_Some (db_events d !! ev)) as [ev0 Hev0].
  apply query_inr, IncrementEventVolume_inr in Hx7 as [[Hn _]|(ev1 & Hev1 & ->)]; [simpl in Hn; congruence|].
  rewrite units_scaled in *. constructor; simpl; rewrite ?Hcost; try done; eauto 10.
  - intros k. etransitivity; [exact (Hsh k)|]. symmetry. apply Z.add_sub_assoc.
  - unfold ledgerRows. by rewrite Hcost.
Qed.
End body.

(** ** A settlement keeps the projection *)

Lemma refers_mono d d' tr :
  refers d tr →
  (∀ k, is_Some (db_events d !! k) → is_Some (db_events d' !! k)) →
  (∀ k, is_Some (db_orders d !! k) → is_Some (db_orders d' !! k)) →
  (∀ k, is_Some (db_users d !! k) → is_Some (db_users d' !! k)) → refers d' tr.
Proof. intros []. by constructor; auto. Qed.

Section settled.
Context (i : UUID) (tr : TradeRow) (d d' : DB).
Hypotheses (HP : Projection d) (HS : Settled i tr d d') (Hcost : 0 ≤ costOf tr).

Lemma settled_sum f : map_sumZ f (db_trades d') = f tr + map_sumZ f (db_trades d).
Proof. rewrite (se_trades _ _ _ _ HS). apply map_sumZ_insert_new, HS. Qed.

Lemma settled_refers tr0 : refers d tr0 → refers d' tr0.
Proof.
  destruct (se_orders _ _ _ _ HS) as (ot & om & _ & _ & Eo).
  destruct (se_users _ _ _ _ HS) as (ub & us & _ & _ & _ & Eu).
  destruct (se_events _ _ _ _ HS) as (ev & _ & Ee).
  intros Hr. eapply refers_mono; [done|..]; intros k Hk; rewrite ?Eo, ?Eu, ?Ee; rewrite !lookup_insert_is_Some'; auto.
Qed.

Lemma settled_fills j o :
  db_orders d' !! j = Some o → or_FilledQuantity o = map_sumZ (fillOf j) (db_trades d').
Proof.
  rewrite settled_sum. destruct (se_orders _ _ _ _ HS) as (ot & om & Hot & Hom & ->).
  pose proof (pj_fills _ HP) as Hf. unfold fillOf at 1.
  intros [[<- <-]|[Hmj Hj]]%lookup_insert_Some.
  - rewrite seqb_refl. simpl. apply lookup_insert_Some in Hom as [[E <-]|[Hne Hom]].
    + rewrite E, seqb_refl. simpl. rewrite (Hf _ _ Hot), E. lia.
    + rewrite (seqb_ne _ _ Hne), (Hf _ _ Hom). lia.
  - rewrite (seqb_ne _ _ Hmj). apply lookup_insert_Some in Hj as [[<- <-]|[Hne Hj]].
    + rewrite seqb_refl. simpl. rewrite (Hf _ _ Hot). lia.
    + rewrite (seqb_ne _ _ Hne), (Hf _ _ Hj). lia.
Qed.

Lemma settled_balances j u :
  db_users d' !! j = Some u →
  u_Balance u = default_balance + map_sumZ (cashOf j) (db_trades d') ∧ 0 ≤ u_Balance u.
Proof.
  rewrite settled_sum. destruct (se_users _ _ _ _ HS) as (ub & us & Hub & Hle & Hus & ->).
  pose proof (pj_balances _ HP) as Hf. unfold cashOf at 1.
  intros [[<- <-]|[Hmj Hj]]%lookup_insert_Some.
  - rewrite seqb_refl. simpl. apply lookup_insert_Some in Hus as [[E <-]|[Hne Hus]].
    + rewrite E, seqb_refl. simpl. pose proof (Hf _ _ Hub) as Hb. rewrite E in Hb. lia.
    + rewrite (seqb_ne _ _ Hne). pose proof (Hf _ _ Hus). lia.
  - rewrite (seqb_ne _ _ Hmj). apply lookup_insert_Some in Hj as [[<- <-]|[Hne Hj]].
    + rewrite seqb_refl. simpl. pose proof (Hf _ _ Hub). lia.
    + rewrite (seqb_ne _ _ Hne). pose proof (Hf _ _ Hj). lia.
Qed.

Lemma settled_volumes j ev :
  db_events d' !! j = Some ev → er_Volume ev = map_sumZ (volumeOf j) (db_trades d').
Proof.
  rewrite settled_sum. destruct (se_events _ _ _ _ HS) as (ev0 & Hev0 & ->). unfold volumeOf at 1.
  pose proof (pj_volumes _ HP) as Hf. intros [[<- <-]|[Hne Hj]]%lookup_insert_Some.
  - rewrite seqb_refl. simpl. rewrite (Hf _ _ Hev0). lia.
  - rewrite (seqb_ne _ _ Hne), (Hf _ _ Hj). lia.
Qed.

Lemma settled_ledger j :
  filter (λ x, tx_TradeID x = j) (db_transactions d') =
  match db_trades d' !! j with Some tr => ledgerRows j tr | None => [] end.
Proof.
  rewrite (se_ledger _ _ _ _ HS), (se_trades _ _ _ _ HS), filter_app, (pj_ledger _ HP).
  destruct (decide (i = j)) as [->|Hne].
  - rewrite lookup_insert_eq, (se_new _ _ _ _ HS). unfold ledgerRows.
    by rewrite !filter_cons_True, filter_nil by done.
  - rewrite lookup_insert_ne by done. unfold ledgerRows at 2.
    rewrite !filter_cons_False, filter_nil by done. apply app_nil_r.
Qed.

Lemma Settled_Projection : Projection d'.
Proof.
  constructor; eauto using settled_fills, settled_balances, settled_volumes, settled_ledger.
  - intros j tr0. rewrite (se_trades _ _ _ _ HS).
    intros [[_ <-]|[_ Hj]]%lookup_insert_Some; apply settled_refers; [apply HS|by eapply HP].
  - apply HS.
  - intros k. rewrite (se_shares _ _ _ _ HS), settled_sum, (pj_shares _ HP). lia.
Qed.

(** Money and shares only move. *)
Lemma Settled_conserves :
  map_sumZ u_Balance (db_users d') = map_sumZ u_Balance (db_users d) ∧
  size (db_users d') = size (db_users d).
Proof.
  destruct (se_users _ _ _ _ HS) as (ub & us & Hub & _ & Hus & ->). split.
  - rewrite (map_sumZ_insert _ _ _ us), (map_sumZ_insert _ _ _ ub) by done. simpl. lia.
  - by rewrite !map_size_insert_Some.
Qed.
End settled.
