(* ===== verification/Account.v ===== *)
(** The account that the engine and the database keep of the same trading, as an
    abstract machine.

    An [Account] has the cash of every user, the shares of every position, the
    row of every order and the trades that were booked.  An [Entry] is what the
    engine announces: an order, a trade, a cancellation; [post] books it.  File
    EngineAccount shows that a command of the engine changes its state as the
    entries it announces say, file DatabaseAccount that the DB worker books an
    entry exactly, and file Agreement puts the two together.

    Amounts are in units of 10^-8, as in the database. *)

From S2P Require Import Prelude Json Types Router State Ledger Matching Sweep Invariant.
From S2P Require Import Events Repository Statements DbWorker Projection.
From Stdlib Require Import Ascii.
Local Open Scope Z_scope.

(** ** Entries *)

Inductive Entry :=
| Announced (o : Order)
| Executed (t : Trade)
| Withdrawn (id : string).

(** How an entry travels: the type and the data of its envelope. *)
Definition entryType (x : Entry) : string :=
  match x with
  | Announced _ => EventOrderCreated
  | Executed _ => EventTradeExecuted
  | Withdrawn _ => EventOrderCanceled
  end.

Definition entryData (x : Entry) : json :=
  match x with
  | Announced o => order_json o
  | Executed t => trade_json t
  | Withdrawn id => JObj [("orderId", JStr id)]
  end.

Definition carries (raw : json_text) (x : Entry) : Prop :=
  ∃ env, unmarshal_envelope raw = Some env ∧ ev_Type env = entryType x ∧ ev_Data env = JText (entryData x).

(** ** Accounts *)

Record Account := mkAccount {
  a_cash : string → Z;
  a_shares : string * string * string → Z;       (** user, event, outcome *)
  a_orders : string → option OrderRow;
  a_trades : string → bool
}.

Definition costOfTrade (t : Trade) : Z := t_Quantity t * t_Price t * tick4.

Definition cashFlow (u : string) (t : Trade) : Z :=
  (if t_SellerID t =s u then costOfTrade t else 0) - (if t_BuyerID t =s u then costOfTrade t else 0).

Definition shareFlow (k : string * string * string) (t : Trade) : Z :=
  (if decide (k = (t_BuyerID t, t_EventID t, t_Outcome t)) then t_Quantity t * share else 0) -
  (if decide (k = (t_SellerID t, t_EventID t, t_Outcome t)) then t_Quantity t * share else 0).

(** The row of an order that was not withdrawn shows its fill; a market order is
    never withdrawn by its owner. *)
Definition withdrawn (o : Order) : bool := (o_Status o =s StatusCanceled) && (o_OrderType o =s OrderTypeLimit).

Definition lineOf (o : Order) : OrderRow :=
  mkOrderRow (o_EventID o) (o_UserID o) (o_OrderType o) (o_Outcome o) (o_Side o)
    (o_Quantity o * share) (Some (o_Price o * tick4))
    (if withdrawn o then StatusCanceled else status_of (o_Quantity o * share) (o_FilledQuantity o * share))
    (o_FilledQuantity o * share) (o_RemainingQuantity o * share).

Definition fillLine (id : string) (q : Z) (f : string → option OrderRow) : string → option OrderRow :=
  λ i, if id =s i then fillRow q <$> f i else f i.

Definition cancelRow (o : OrderRow) : OrderRow :=
  set_fill (or_FilledQuantity o) (or_RemainingQuantity o) StatusCanceled o.

Definition post (x : Entry) (a : Account) : Account :=
  match x with
  | Announced o =>
      mkAccount (a_cash a) (a_shares a) (λ i, if o_ID o =s i then Some (lineOf o) else a_orders a i) (a_trades a)
  | Executed t =>
      mkAccount (λ u, a_cash a u + cashFlow u t) (λ k, a_shares a k + shareFlow k t)
        (fillLine (t_MatchOrderID t) (t_Quantity t * share)
          (fillLine (t_OrderID t) (t_Quantity t * share) (a_orders a)))
        (λ i, (t_ID t =s i) || a_trades a i)
  | Withdrawn id =>
      mkAccount (a_cash a) (a_shares a) (λ i, if id =s i then cancelRow <$> a_orders a i else a_orders a i) (a_trades a)
  end.

Definition postAll (xs : list Entry) (a : Account) : Account := foldl (λ a x, post x a) a xs.

Lemma postAll_app xs ys a : postAll (xs ++ ys) a = postAll ys (postAll xs a).
Proof. apply foldl_app. Qed.

(** ** Entries that may be booked *)

(** The two orders of a trade are there, and belong to its parties. *)
Definition sides (a : Account) (t : Trade) : Prop := ∃ rt rm,
  a_orders a (t_OrderID t) = Some rt ∧ a_orders a (t_MatchOrderID t) = Some rm ∧ or_EventID rt = t_EventID t ∧
  (or_UserID rt = t_BuyerID t ∧ or_UserID rm = t_SellerID t ∨ or_UserID rt = t_SellerID t ∧ or_UserID rm = t_BuyerID t).

(** The trade is new, the buyer can pay, the orders are there. *)
Record bookable (a : Account) (t : Trade) : Prop := {
  bk_new : a_trades a (t_ID t) = false;
  bk_paid : costOfTrade t ≤ a_cash a (t_BuyerID t);
  bk_sides : sides a t
}.

Definition allowed (a : Account) (x : Entry) : Prop :=
  match x with
  | Announced o => a_orders a (o_ID o) = None
  | Executed t => bookable a t
  | Withdrawn id => is_Some (a_orders a id)
  end.

Fixpoint valid (a : Account) (xs : list Entry) : Prop :=
  match xs with
  | [] => True
  | x :: xs => allowed a x ∧ valid (post x a) xs
  end.

Lemma valid_app a xs ys : valid a (xs ++ ys) ↔ valid a xs ∧ valid (postAll xs a) ys.
Proof.
  revert a. induction xs as [|x xs IH]; intros a; simpl; [tauto|].
  rewrite IH. unfold postAll. simpl. tauto.
Qed.

(** ** Well-formed entries *)

Section named.
Context `{Packages}.

(** An id as the services write it: what uuid.Parse reads is the same text, and it
    has no colon. *)
Record canonical (s : string) : Prop := {
  cn_some : s ≠ "";
  cn_parse : uuid_Parse s = Some s;
  cn_colon : free_of ":"%char s = true
}.

Record order_entry (o : Order) : Prop := {
  oe_id : canonical (o_ID o);
  oe_event : canonical (o_EventID o);
  oe_user : canonical (o_UserID o);
  oe_wf : order_wf o;
  oe_price : 0 ≤ o_Price o;
  oe_fresh : o_FilledQuantity o = 0;
  oe_status : o_Status o = StatusPending
}.

Record trade_entry (t : Trade) : Prop := {
  te_id : canonical (t_ID t);
  te_event : canonical (t_EventID t);
  te_buyer : canonical (t_BuyerID t);
  te_seller : canonical (t_SellerID t);
  te_taker : canonical (t_OrderID t);
  te_maker : canonical (t_MatchOrderID t);
  te_outcome : t_Outcome t = OutcomeYes ∨ t_Outcome t = OutcomeNo;
  te_side : t_TakerSide t = SideBuy ∨ t_TakerSide t = SideSell;
  te_parties : t_BuyerID t ≠ t_SellerID t;
  te_orders : t_OrderID t ≠ t_MatchOrderID t;
  te_quantity : 0 < t_Quantity t ≤ max_int64;
  te_price : 0 ≤ t_Price t ≤ max_int64;
  te_cost : in64 (t_Quantity t * t_Price t)
}.

Definition entry_ok (x : Entry) : Prop :=
  match x with
  | Announced o => order_entry o
  | Executed t => trade_entry t
  | Withdrawn id => canonical id
  end.
End named.

(** ** Rows *)

Lemma status_of_scale q f : status_of (q * share) (f * share) = status_of q f.
Proof.
  unfold status_of. assert ((f * share =? 0) = (f =? 0)) as -> by (unfold share; lia).
  assert ((q * share <=? f * share) = (q <=? f)) as -> by (unfold share; lia). done.
Qed.

Lemma lineOf_unlocked o o' : unlocked o = unlocked o' → lineOf o = lineOf o'.
Proof.
  intros (_&Ee&Eu&Et&Eo&Es&Eq&Ef&Er&Ep&Est&_)%unlocked_inv. unfold lineOf, withdrawn.
  by rewrite Ee, Eu, Et, Eo, Es, Eq, Ef, Er, Ep, Est.
Qed.

(** Filling an order fills its row. *)
Lemma lineOf_fill n o o' :
  static o' = static o → o_FilledQuantity o' = o_FilledQuantity o + n →
  o_RemainingQuantity o' = o_RemainingQuantity o - n → qty_ok o' → 
  withdrawn o' = false → lineOf o' = fillRow (n * share) (lineOf o).
Proof.
  intros (_&Ee&Eu&Et&Eo&Es&Eq&Ep&_)%static_inv Ef Er (?&?&?&?) Hw. unfold lineOf, fillRow, set_fill. simpl.
  rewrite Hw, Ee, Eu, Et, Eo, Es, Eq, Ep. 
  assert (o_FilledQuantity o' * share = o_FilledQuantity o * share + n * share) as -> by lia.
  f_equal. unfold share. lia.
Qed.

Lemma lineOf_cancel o :
  o_OrderType o = OrderTypeLimit → lineOf (set_Status StatusCanceled o) = cancelRow (lineOf o).
Proof. intros Ht. unfold lineOf, withdrawn, cancelRow, set_fill. simpl. by rewrite Ht. Qed.
