(* ===== verification/Persistence.v ===== *)
(** Theorems about the DB worker: the database stays the projection of its
    trades under any failures, and the worker applies every event at most once
    although the stream delivers it at least once. *)

From S2P Require Import Prelude Json Types Router State Events Commands Lease Repository Statements DbWorker Projection.
Local Open Scope Z_scope.

Lemma map_sumZ_zero {K V} `{Countable K} (f : V → Z) (m : gmap K V) :
  (∀ k v, m !! k = Some v → f v = 0) → map_sumZ f m = 0.
Proof.
  intros Hf. unfold map_sumZ. apply sumZ_zero. intros [k v] Hin. apply elem_of_map_to_list in Hin. eauto.
Qed.

(** ** The effect of one event *)

Section effects.
Context `{Packages} `{Network} `{RedisServer}.

Definition orderParams (oid eid uid : UUID) (o : Order) : InsertOrderParams :=
  mkInsertOrder oid eid uid (o_OrderType o) (o_Outcome o) (o_Side o) (numericFromInt (o_Quantity o))
    (numericFromScaled (o_Price o)) (o_Status o) (numericFromInt (o_FilledQuantity o))
    (numericFromInt (o_RemainingQuantity o)).

(** How an event may change the database. *)
Inductive effect (env : EventEnvelope) (d : DB) : DB → Prop :=
| effect_none : effect env d d
| effect_trade trade t t' d' :
    ev_Type env = EventTradeExecuted → unmarshal_trade (ev_Data env) = Some trade →
    validateTrade trade = None → settleBody trade t d = (inr true, t', d') → effect env d d'
| effect_order oid eid uid o r d' :
    ev_Type env = EventOrderCreated → unmarshal_order (ev_Data env) = Some o → uuid_Parse (o_ID o) = Some oid →
    uuid_Parse (o_EventID o) = Some eid → uuid_Parse (o_UserID o) = Some uid →
    InsertOrder (orderParams oid eid uid o) d = inr (r, d') → effect env d d'
| effect_cancel id oid r d' :
    ev_Type env = EventOrderCanceled → unmarshal_strings ["orderId"] (ev_Data env) = Some [id] →
    uuid_Parse id = Some oid →
    UpdateOrderStatus oid StatusCanceled d = inr (r, d') → effect env d d'.

Lemma settleTrade_effect trade w err w' :
  settleTrade trade w = (err, w') →
  wk_redis w' = wk_redis w ∧ wk_acked w' = wk_acked w ∧
  (wk_db w' = wk_db w ∨ ∃ t t', settleBody trade t (wk_db w) = (inr true, t', wk_db w')).
Proof.
  unfold settleTrade. destruct (net (wk_calls w)); [|by intros [= _ <-]; auto..].
  destruct (settleBody trade (S (wk_calls w)) (wk_db w)) as [[[e|[]] t] d] eqn:E; [by intros [= _ <-]; auto| |by intros [= _ <-]; auto].
  destruct (net t); intros [= _ <-]; simpl; eauto 6.
Qed.

Lemma autocommit_effect {A} (s : Stmt A) k w err w' :
  autocommit s k w = (err, w') →
  wk_redis w' = wk_redis w ∧ wk_acked w' = wk_acked w ∧
  (wk_db w' = wk_db w ∨ ∃ r, s (wk_db w) = inr (r, wk_db w')).
Proof.
  unfold autocommit, exec. destruct (net (wk_calls w)); [|by intros [= _ <-]; auto|].
  - destruct (s (wk_db w)) as [|[r d]]; intros [= _ <-]; simpl; eauto.
  - destruct (s (wk_db w)) as [|[r d]]; intros [= _ <-]; simpl; eauto.
Qed.

Lemma handleEnvelope_effect env w err w' :
  handleEnvelope env w = (err, w') →
  wk_redis w' = wk_redis w ∧ wk_acked w' = wk_acked w ∧ effect env (wk_db w) (wk_db w').
Proof.
  unfold handleEnvelope. set (w0 := mkWorker (wk_db w) _ _ _).
  change (wk_db w) with (wk_db w0). change (wk_redis w) with (wk_redis w0). change (wk_acked w) with (wk_acked w0).
  assert (∀ e, (e, w0) = (err, w') → wk_redis w' = wk_redis w0 ∧ wk_acked w' = wk_acked w0 ∧ effect env (wk_db w0) (wk_db w'))
    as Hnone by (intros e [= _ <-]; split_and!; [done|done|constructor]).
  destruct (decideEnvelope _ _ _) as [[]|]; [|apply Hnone..].
  destruct (seqb_spec (ev_Type env) EventTradeExecuted) as [Ht|_]; [|
  destruct (seqb_spec (ev_Type env) EventOrderCreated) as [Ht|_]; [|
  destruct (seqb_spec (ev_Type env) EventOrderCanceled) as [Ht|_]; [|apply Hnone]]].
  - unfold handleTradeExecuted, fail. destruct (unmarshal_trade _) as [trade|] eqn:Eu; [|apply Hnone].
    destruct (validateTrade trade) eqn:Ev; [apply Hnone|].
    intros (? & ? & [->|(t & t' & Hs)])%settleTrade_effect; eauto using effect_none, effect_trade.
  - unfold handleOrderCreated, fail. destruct (unmarshal_order _) as [o|] eqn:Eu; [|apply Hnone].
    destruct (uuid_Parse (o_ID o)) as [oid|] eqn:Eo; [|apply Hnone]. destruct (uuid_Parse (o_EventID o)) as [eid|] eqn:Ee; [|apply Hnone].
    destruct (uuid_Parse (o_UserID o)) as [uid|] eqn:Eus; [|apply Hnone].
    intros (? & ? & [->|(r & Hs)])%autocommit_effect; eauto using effect_none, effect_order, effect_cancel.
  - unfold handleOrderCanceled, fail. destruct (unmarshal_strings _ _) as [[|oid0 [|? ?]]|] eqn:Eu; try apply Hnone.
    destruct (uuid_Parse oid0) as [oid|] eqn:Eo; [|apply Hnone].
    intros (? & ? & [->|(r & Hs)])%autocommit_effect; eauto using effect_none, effect_order, effect_cancel.
Qed.

(** ** Every effect keeps the projection *)

(** What the engine guarantees of its events: a trade's cost fits an int64, and an
    order is announced before it trades. *)
Definition event_ok (env : EventEnvelope) : Prop :=
  (∀ trade, ev_Type env = EventTradeExecuted → unmarshal_trade (ev_Data env) = Some trade →
     in64 (t_Quantity trade * t_Price trade)) ∧
  (∀ o, ev_Type env = EventOrderCreated → unmarshal_order (ev_Data env) = Some o →
     o_FilledQuantity o = 0 ∧ o_RemainingQuantity o = o_Quantity o ∧ o_Status o = StatusPending).

Lemma validateTrade_bounds trade : validateTrade trade = None → 0 < t_Quantity trade ∧ 0 ≤ t_Price trade.
Proof. unfold validateTrade. intros Hv. repeat case_match; try discriminate Hv. lia. Qed.

Lemma InsertOrder_Projection oid eid uid o d r d' :
  Projection d → o_FilledQuantity o = 0 → o_RemainingQuantity o = o_Quantity o → o_Status o = StatusPending →
  InsertOrder (orderParams oid eid uid o) d = inr (r, d') → Projection d'.
Proof.
  intros HP Hf Hr Hs (Hnew & Hpos & Hok & price & ->)%InsertOrder_inr. simpl in *. rewrite units_int in *.
  assert (0 < o_Quantity o < 1000000000000) as Hq.
  { apply Z.ltb_lt in Hok. unfold decimal_limit, share in *. lia. }
  constructor; simpl; try apply HP.
  - intros j tr Hj. eapply refers_mono; [by eapply HP|done| |done]. simpl. intros k Hk. rewrite lookup_insert_is_Some'. by right.
  - intros j oj [[<- <-]|[_ Hj]]%lookup_insert_Some; [|by eapply HP].
    unfold orderRow. simpl. rewrite !units_int, Hf, Hr, Hs.
    constructor; simpl; [by eexists|by exists 0|lia|by right].
  - intros j oj [[<- <-]|[_ Hj]]%lookup_insert_Some; [|by eapply HP].
    unfold orderRow. simpl. rewrite units_int, Hf. symmetry. apply map_sumZ_zero. intros k tr Hk.
    destruct (pj_refs _ HP _ _ Hk) as [_ [ot Hot] [om Hom] _ _]. unfold fillOf.
    rewrite !seqb_ne by congruence. done.
Qed.

Lemma UpdateOrderStatus_Projection oid r d d' :
  Projection d → UpdateOrderStatus oid StatusCanceled d = inr (r, d') → Projection d'.
Proof.
  intros HP [[_ ->]|(o & Ho & ->)]%UpdateOrderStatus_inr; [done|].
  constructor; simpl; try apply HP.
  - intros j tr Hj. eapply refers_mono; [by eapply HP|done| |done]. simpl. intros k Hk. rewrite lookup_insert_is_Some'. by right.
  - intros j oj [[<- <-]|[_ Hj]]%lookup_insert_Some; [|by eapply HP].
    destruct (pj_rows _ HP _ _ Ho). constructor; simpl; [done|done|done|by left].
  - intros j oj [[<- <-]|[_ Hj]]%lookup_insert_Some; [|by eapply HP]. simpl. by apply HP.
Qed.

(** Total cash. *)
Definition money (d : DB) : Z := map_sumZ u_Balance (db_users d).

Lemma effect_Projection `{!PackageLaws} env d d' :
  Projection d → event_ok env → effect env d d' →
  Projection d' ∧ money d' = money d ∧ size (db_users d') = size (db_users d).
Proof.
  intros HP [Htr Hor] [|trade t t' d1 Ht Hu Hv Hs|oid eid uid o r d1 Ht Hu _ _ _ Hs|id oid r d1 _ _ _ Hs].
  - done.
  - apply validateTrade_bounds in Hv as [Hq Hp].
    apply settleBody_true in Hs as (i & tr & Hpa & Hse); [|done|done|by apply Htr].
    assert (0 ≤ costOf tr) as Hc.
    { rewrite (costOf_exact tr (t_Quantity trade) (t_Price trade)) by apply Hpa. unfold tick4. nia. }
    split; [by eapply Settled_Projection|by eapply Settled_conserves].
  - destruct (Hor o Ht Hu) as (? & ? & ?). split; [by eapply InsertOrder_Projection|].
    by apply InsertOrder_inr in Hs as (_ & _ & _ & price & ->).
  - split; [by eapply UpdateOrderStatus_Projection|].
    by apply UpdateOrderStatus_inr in Hs as [[_ ->]|(o & _ & ->)].
Qed.

(** ** Rows are never removed *)

Definition grows (d d' : DB) : Prop :=
  (∀ i, is_Some (db_trades d !! i) → is_Some (db_trades d' !! i)) ∧
  (∀ i, is_Some (db_orders d !! i) → is_Some (db_orders d' !! i)).

#[local] Instance grows_preorder : PreOrder grows.
Proof. split; [by intros d|]. intros d1 d2 d3 [] []. split; auto. Qed.

Lemma grows_query {A} what (s : Stmt A) t d a t' d' :
  (∀ r d', s d = inr (r, d') → grows d d') → query what s t d = (inr a, t', d') → grows d d'.
Proof. intros Hs Hrun%query_inr. by eapply Hs. Qed.

Lemma grows_orders i o d : grows d (with_dborders (<[i := o]>) d).
Proof. split; simpl; [done|]. intros j Hj. rewrite lookup_insert_is_Some'. by right. Qed.

Lemma grows_applyOrderFill what i q t d a t' d' : applyOrderFill what i q t d = (inr a, t', d') → grows d d'.
Proof.
  intros Hrun. apply tbind_inr in Hrun as (o & t1 & d1 & [_ ->]%query_inr%GetOrderByID_inr & Hrun).
  unfold toInt64 in Hrun.
  destruct (numericToInt64 (numericOfColumn (or_FilledQuantity o))); [|discriminate Hrun].
  apply tbind_inr in Hrun as (c & t2 & d2 & Hc & Hrun). injection Hc as _ _ <-.
  destruct (numericToInt64 (numericOfColumn (or_Quantity o))); [|discriminate Hrun].
  apply tbind_inr in Hrun as (n & t3 & d3 & Hn & Hrun). injection Hn as _ _ <-.
  apply query_inr, UpdateOrderFill_inr in Hrun as [[_ ->]|(o' & _ & _ & ->)]; [done|apply grows_orders].
Qed.

(** Statements on the other tables. *)
Lemma grows_same d d' : db_trades d' = db_trades d → db_orders d' = db_orders d → grows d d'.
Proof. intros E1 E2. split; by rewrite ?E1, ?E2. Qed.

Lemma grows_payTrade b s total t d a t' d' : payTrade b s total t d = (inr a, t', d') → grows d d'.
Proof.
  intros Hrun. apply tbind_inr in Hrun as (k & t1 & d1 & Hk & Hrun).
  apply query_inr, DeductBalance_inr in Hk as [[-> ->]|(-> & ub & Hub & Hle & ->)]; [discriminate Hrun|].
  apply query_inr, AddBalance_inr in Hrun as [[_ ->]|(us & _ & ->)]; by apply grows_same.
Qed.

Lemma grows_movePositions b s ev trade t d a t' d' :
  movePositions b s ev trade t d = (inr a, t', d') → grows d d'.
Proof. intros [[f ->] _]%movePositions_inr. by apply grows_same. Qed.

Lemma grows_enterLedger i b s tk mk trade total t d a t' d' :
  enterLedger i b s tk mk trade total t d = (inr a, t', d') → grows d d'.
Proof. intros ->%enterLedger_inr. by apply grows_same. Qed.

Lemma grows_volume what i n t d a t' d' :
  query what (IncrementEventVolume i n) t d = (inr a, t', d') → grows d d'.
Proof. intros [[_ ->]|(ev & _ & ->)]%query_inr%IncrementEventVolume_inr; by apply grows_same. Qed.

Lemma isUniqueViolation_true e : isUniqueViolation e = true → e = unique_violation.
Proof. destruct e; [|done|done]. by intros ->%seqb_eq. Qed.

Lemma exec_unique {A} (s : Stmt A) t d d' : exec s t d = (inl unique_violation, d') → s d = inl unique_violation ∧ d' = d.
Proof. unfold exec. destruct (net t); [|by intros [=]..]. destruct (s d) as [e|[]]; by intros [= -> ->]. Qed.

Definition tradeParams (i ev b s tk mk : UUID) (trade : Trade) : InsertTradeParams :=
  mkInsertTrade i ev (t_Outcome trade) tk mk b s (t_TakerSide trade) (numericFromInt (t_Quantity trade))
    (numericFromScaled (t_Price trade)).

(** [p] is what the worker inserts for the trade. *)
Definition insertion (trade : Trade) (p : InsertTradeParams) : Prop :=
  ∃ i ev b s tk mk, p = tradeParams i ev b s tk mk trade ∧
    uuid_Parse (t_ID trade) = Some i ∧ uuid_Parse (t_EventID trade) = Some ev ∧
    uuid_Parse (t_BuyerID trade) = Some b ∧ uuid_Parse (t_SellerID trade) = Some s ∧
    uuid_Parse (t_OrderID trade) = Some tk ∧ uuid_Parse (t_MatchOrderID trade) = Some mk.

Lemma insertion_functional trade p p' : insertion trade p → insertion trade p' → p = p'.
Proof. unfold insertion. naive_solver. Qed.

(** A body without an error: the trade was there, or it is now. *)
Lemma settleBody_inr trade t d r t' d' :
  settleBody trade t d = (inr r, t', d') → ∃ p, insertion trade p ∧
    (r = false ∧ InsertTrade p d = inl unique_violation ∨
     r = true ∧ (∃ x, InsertTrade p d = inr x) ∧ grows d d' ∧ is_Some (db_trades d' !! it_ID p)).
Proof.
  intros Hrun. unfold settleBody in Hrun.
  apply tbind_inr in Hrun as (i & ? & ? & (Hi & -> & ->)%parse_inr & Hrun).
  apply tbind_inr in Hrun as (ev & ? & ? & (Hev & -> & ->)%parse_inr & Hrun).
  apply tbind_inr in Hrun as (b & ? & ? & (Hb & -> & ->)%parse_inr & Hrun).
  apply tbind_inr in Hrun as (s & ? & ? & (Hs & -> & ->)%parse_inr & Hrun).
  apply tbind_inr in Hrun as (tk & ? & ? & (Htk & -> & ->)%parse_inr & Hrun).
  apply tbind_inr in Hrun as (mk & ? & ? & (Hmk & -> & ->)%parse_inr & Hrun).
  exists (tradeParams i ev b s tk mk trade). split; [by repeat eexists|].
  apply tbind_inr in Hrun as (ins & t1 & d1 & Hins & Hrun). unfold try in Hins.
  fold (tradeParams i ev b s tk mk trade) in Hins.
  destruct (exec (InsertTrade _) t d) as [x dx] eqn:E. injection Hins as -> _ ->. destruct ins as [e|[]].
  - left. destruct (isUniqueViolation e) eqn:Eu; [|discriminate Hrun].
    apply isUniqueViolation_true in Eu as ->. apply exec_unique in E as [-> _]. by injection Hrun as <-.
  - right. apply exec_inr in E.
    apply tbind_inr in Hrun as (? & t2 & d2 & Hx2%grows_applyOrderFill & Hrun).
    apply tbind_inr in Hrun as (? & t3 & d3 & Hx3%grows_applyOrderFill & Hrun).
    apply tbind_inr in Hrun as (? & t4 & d4 & Hx4%grows_payTrade & Hrun).
    apply tbind_inr in Hrun as (? & t5 & d5 & Hx5%grows_movePositions & Hrun).
    apply tbind_inr in Hrun as (? & t6 & d6 & Hx6%grows_enterLedger & Hrun).
    apply tbind_inr in Hrun as (? & t7 & d7 & Hx7%grows_volume & Hrun). injection Hrun as <- _ <-.
    assert (grows d1 d7) as Hg by (by do 5 (etransitivity; [eassumption|])).
    pose proof E as (_ & _ & _ & E1)%InsertTrade_inr. subst d1. split_and!; [done|by eexists| |].
    + split; [|apply Hg]. intros j Hj. apply Hg. simpl. rewrite lookup_insert_is_Some'. by right.
    + apply Hg. simpl. by rewrite lookup_insert_eq.
Qed.

Lemma effect_grows env d d' : effect env d d' → grows d d'.
Proof.
  intros [|trade t t' d1 _ _ _ Hs|oid eid uid o r d1 _ _ _ _ _ Hs|id oid r d1 _ _ _ Hs].
  - done.
  - apply settleBody_inr in Hs as (p & _ & [[? _]|(_ & _ & Hg & _)]); [discriminate|done].
  - apply InsertOrder_inr in Hs as (_ & _ & _ & price & ->). apply grows_orders.
  - apply UpdateOrderStatus_inr in Hs as [[_ ->]|(o & _ & ->)]; [done|apply grows_orders].
Qed.

(** ** Events that have been applied *)

Definition passed {A B} (s : DB → PgError + A * B) : Prop :=
  ∃ d, (∃ r, s d = inr r) ∨ s d = inl unique_violation.

(** The event's row is in the database, and its values are admissible. *)
Inductive applied (env : EventEnvelope) (d : DB) : Prop :=
| applied_trade trade p :
    ev_Type env = EventTradeExecuted → unmarshal_trade (ev_Data env) = Some trade → validateTrade trade = None →
    insertion trade p → passed (InsertTrade p) → is_Some (db_trades d !! it_ID p) → applied env d
| applied_order o oid eid uid :
    ev_Type env = EventOrderCreated → unmarshal_order (ev_Data env) = Some o →
    uuid_Parse (o_ID o) = Some oid → uuid_Parse (o_EventID o) = Some eid → uuid_Parse (o_UserID o) = Some uid →
    passed (InsertOrder (orderParams oid eid uid o)) → is_Some (db_orders d !! oid) → applied env d.

Lemma applied_grows env d d' : grows d d' → applied env d → applied env d'.
Proof. intros [Ht Ho] []; [eapply applied_trade|eapply applied_order]; eauto. Qed.

Lemma settleTrade_None trade w w' :
  settleTrade trade w = (None, w') →
  ∃ p, insertion trade p ∧ passed (InsertTrade p) ∧ is_Some (db_trades (wk_db w') !! it_ID p).
Proof.
  unfold settleTrade. destruct (net (wk_calls w)); [|by intros [=]..].
  destruct (settleBody trade (S (wk_calls w)) (wk_db w)) as [[[e|r] t] d] eqn:E; [by intros [=]|].
  apply settleBody_inr in E as (p & Hp & [(-> & Hu)|(-> & Hok & _ & Hin)]); intros Hrun; exists p; (split; [done|]).
  - injection Hrun as <-. split; [by exists (wk_db w); right|by apply InsertTrade_unique].
  - destruct (net t); [|discriminate Hrun..]. injection Hrun as <-. split; [by exists (wk_db w); left|done].
Qed.

Lemma autocommit_order oid eid uid o k w w' :
  autocommit (InsertOrder (orderParams oid eid uid o))
    (λ r, match r with inl e => if isUniqueViolation e then None else Some (k e) | inr _ => None end) w = (None, w') →
  passed (InsertOrder (orderParams oid eid uid o)) ∧ is_Some (db_orders (wk_db w') !! oid).
Proof.
  unfold autocommit. destruct (exec _ _ _) as [[e|r] d] eqn:E.
  - destruct (isUniqueViolation e) eqn:Eu; [|by intros [=]]. intros [= <-].
    apply isUniqueViolation_true in Eu as ->. apply exec_unique in E as [E ->].
    split; [by exists (wk_db w); right|]. by apply (InsertOrder_unique (orderParams oid eid uid o)).
  - intros [= <-]. apply exec_inr in E. split; [exists (wk_db w); left; by eexists|].
    apply InsertOrder_inr in E as (_ & _ & _ & price & ->). simpl. by rewrite lookup_insert_eq.
Qed.

Lemma handleEnvelope_applied env w w' :
  handleEnvelope env w = (None, w') → ev_Type env = EventTradeExecuted ∨ ev_Type env = EventOrderCreated →
  decideEnvelope env Served (wk_redis w) = Some fencingAccept → applied env (wk_db w').
Proof.
  unfold handleEnvelope. intros Hrun Hty Hd. destruct (net (wk_calls w)); [rewrite Hd in Hrun|discriminate Hrun..].
  destruct Hty as [Hty|Hty]; rewrite Hty in Hrun; simpl in Hrun.
  - unfold handleTradeExecuted, fail in Hrun. destruct (unmarshal_trade _) as [trade|] eqn:Eu; [|discriminate Hrun].
    destruct (validateTrade trade) eqn:Ev; [discriminate Hrun|].
    apply settleTrade_None in Hrun as (p & ? & ? & ?). by eapply applied_trade.
  - unfold handleOrderCreated, fail in Hrun. destruct (unmarshal_order _) as [o|] eqn:Eu; [|discriminate Hrun].
    destruct (uuid_Parse (o_ID o)) as [oid|] eqn:E1; [|discriminate Hrun].
    destruct (uuid_Parse (o_EventID o)) as [eid|] eqn:E2; [|discriminate Hrun].
    destruct (uuid_Parse (o_UserID o)) as [uid|] eqn:E3; [|discriminate Hrun].
    apply autocommit_order in Hrun as [? ?]. by eapply applied_order.
Qed.

(** Handling an applied event again changes nothing, and succeeds when the
    services answer. *)
Lemma applied_effect env d d' : applied env d → effect env d d' → d' = d.
Proof.
  intros [trade p Hty Hu Hv Hp _ Hin|o oid eid uid Hty Hu Ho _ _ _ Hin] Heff;
    destruct Heff as [|trade' t t' d' Ht Hu' _ Hs|oid' eid' uid' o' r d' Ht Hu' Ho' _ _ Hs|id' oid' r d' Ht _ _ Hs];
    [done| | | |done| | |]; rewrite Hty in Ht; try discriminate Ht; rewrite Hu in Hu'; simplify_eq.
  - exfalso. apply settleBody_inr in Hs as (p' & Hp' & [[? _]|(_ & [x Hx] & _)]); [discriminate|].
    rewrite <- (insertion_functional _ _ _ Hp Hp') in Hx. by eapply InsertTrade_taken.
  - exfalso. eapply InsertOrder_taken; [|exact Hs]. exact Hin.
Qed.

Lemma settleTrade_again trade p w :
  insertion trade p → passed (InsertTrade p) → is_Some (db_trades (wk_db w) !! it_ID p) →
  (∀ n, (wk_calls w ≤ n)%nat → net n = Served) →
  ∃ w', settleTrade trade w = (None, w') ∧ (wk_calls w ≤ wk_calls w')%nat.
Proof.
  intros (i & ev & b & s & tk & mk & -> & E1 & E2 & E3 & E4 & E5 & E6) [d0 Hpass] Hin Hnet.
  unfold settleTrade. rewrite Hnet by done.
  unfold settleBody, tbind, parse, tret. rewrite E1, E2, E3, E4, E5, E6. unfold try, exec. rewrite Hnet by lia.
  fold (tradeParams i ev b s tk mk trade). rewrite (InsertTrade_again _ d0 (wk_db w)) by done.
  simpl. eexists. split; [done|]. simpl. lia.
Qed.

Lemma applied_again env w :
  applied env (wk_db w) → decideEnvelope env Served (wk_redis w) = Some fencingAccept →
  (∀ n, (wk_calls w ≤ n)%nat → net n = Served) →
  ∃ w', handleEnvelope env w = (None, w') ∧ (wk_calls w ≤ wk_calls w')%nat.
Proof.
  intros Ha Hd Hnet. unfold handleEnvelope. rewrite Hnet, Hd by done.
  destruct Ha as [trade p Hty Hu Hv Hp Hpass Hin|o oid eid uid Hty Hu Ho He Hui [d0 Hpass] Hin]; rewrite Hty; simpl.
  - unfold handleTradeExecuted. rewrite Hu, Hv.
    destruct (settleTrade_again trade p (mkWorker (wk_db w) (wk_redis w) (wk_acked w) (S (wk_calls w)))) as (w' & E & Hc);
      [done..|simpl; intros; apply Hnet; lia|]. exists w'. split; [done|]. simpl in Hc. lia.
  - unfold handleOrderCreated. rewrite Hu, Ho, He, Hui. unfold autocommit, exec. simpl. rewrite Hnet by lia.
    fold (orderParams oid eid uid o). rewrite (InsertOrder_again _ d0 (wk_db w)) by done. simpl.
    eexists. split; [done|]. simpl. lia.
Qed.

(** ** Runs *)

Lemma processEvent_effect id raw w err w' :
  processEvent id raw w = (err, w') →
  wk_redis w' = wk_redis w ∧
  (wk_db w' = wk_db w ∨ ∃ env, unmarshal_envelope raw = Some env ∧ effect env (wk_db w) (wk_db w')).
Proof.
  unfold processEvent. destruct (unmarshal_envelope raw) as [env|]; [|intros [= _ <-]; auto].
  destruct (handleEnvelope env w) as [e w1] eqn:E. apply handleEnvelope_effect in E as (Hr & _ & Heff).
  destruct e; [intros [= _ <-]; eauto|]. destruct (net (wk_calls w1)); intros [= _ <-]; simpl; eauto.
Qed.

Lemma processEvents_grows entries w err w' :
  processEvents entries w = (err, w') → wk_redis w' = wk_redis w ∧ grows (wk_db w) (wk_db w').
Proof.
  revert w. induction entries as [|[id raw] entries IH]; simpl; intros w; [by intros [= _ <-]|].
  destruct (processEvent id raw w) as [e w1] eqn:E.
  apply processEvent_effect in E as [Hr Hdb].
  assert (grows (wk_db w) (wk_db w1)) as Hg by (destruct Hdb as [->|(env & _ & ?%effect_grows)]; done).
  destruct e; [by intros [= _ <-]|]. intros [Hr' Hg']%IH. split; [congruence|]. by etransitivity.
Qed.

(** An entry is acknowledged only after its event was handled without an error. *)
Lemma processEvent_acked id raw w err w' :
  processEvent id raw w = (err, w') → wk_acked w' ≠ wk_acked w →
  ∃ env w1, unmarshal_envelope raw = Some env ∧ handleEnvelope env w = (None, w1) ∧ wk_db w' = wk_db w1.
Proof.
  unfold processEvent. destruct (unmarshal_envelope raw) as [env|]; [|by intros [= _ <-]].
  destruct (handleEnvelope env w) as [e w1] eqn:E. pose proof E as (_ & Ha & _)%handleEnvelope_effect.
  destruct e; [by intros [= _ <-]|]. destruct (net (wk_calls w1)); intros [= _ <-]; simpl; eauto 6.
Qed.

(** ** Reachable databases *)

Definition emptyDB : DB := mkDB ∅ ∅ ∅ ∅ ∅ [].

Lemma emptyDB_Projection : Projection emptyDB.
Proof. constructor; simpl; intros; by simplify_map_eq. Qed.

(** One change of the database: a statement of the API, or the worker at one
    entry of the event stream, whatever fails on the way. *)
Inductive db_step (d : DB) : DB → Prop :=
| step_user id email hash r d' : CreateUser id email hash d = inr (r, d') → db_step d d'
| step_event id ti de qu th ex r d' : CreateEvent id ti de qu th ex d = inr (r, d') → db_step d d'
| step_delete id r d' : DeleteEvent id d = inr (r, d') → db_step d d'
| step_worker id raw w err w' :
    wk_db w = d → (∀ env, unmarshal_envelope raw = Some env → event_ok env) →
    processEvent id raw w = (err, w') → db_step d (wk_db w').

Lemma CreateUser_Projection id email hash d r d' :
  Projection d → CreateUser id email hash d = inr (r, d') →
  Projection d' ∧ money d' = money d + default_balance ∧ size (db_users d') = S (size (db_users d)).
Proof.
  intros HP Hs. unfold CreateUser in Hs. sql_inv.
  match goal with Hn : _ !! id = None |- _ => rename Hn into Hnew end.
  split_and!.
  - constructor; simpl; try apply HP.
    + intros j tr Hj. eapply refers_mono; [by eapply HP|done|done|]. simpl. intros k Hk.
      rewrite lookup_insert_is_Some'. by right.
    + intros j u [[<- <-]|[_ Hj]]%lookup_insert_Some; [|by eapply HP]. simpl.
      rewrite map_sumZ_zero; [done|]. intros k tr Hk.
      destruct (pj_refs _ HP _ _ Hk) as [_ _ _ [ub Hub] [us Hus]]. unfold cashOf.
      rewrite !seqb_ne by congruence. done.
  - unfold money. simpl. rewrite map_sumZ_insert_new by done. simpl. lia.
  - simpl. by rewrite map_size_insert_None.
Qed.

Lemma CreateEvent_Projection id ti de qu th ex d r d' :
  Projection d → CreateEvent id ti de qu th ex d = inr (r, d') → Projection d' ∧ db_users d' = db_users d.
Proof.
  intros HP Hs. unfold CreateEvent in Hs. sql_inv.
  match goal with Hn : _ !! id = None |- _ => rename Hn into Hnew end.
  split; [|done]. constructor; simpl; try apply HP.
  - intros j tr Hj. eapply refers_mono; [by eapply HP| |done|done]. simpl. intros k Hk.
    rewrite lookup_insert_is_Some'. by right.
  - intros j ev [[<- <-]|[_ Hj]]%lookup_insert_Some; [|by eapply HP]. simpl.
    rewrite map_sumZ_zero; [done|]. intros k tr Hk.
    destruct (pj_refs _ HP _ _ Hk) as [[ev0 Hev0] _ _ _ _]. unfold volumeOf. rewrite seqb_ne by congruence. done.
Qed.

Lemma DeleteEvent_Projection id d r d' :
  Projection d → DeleteEvent id d = inr (r, d') → Projection d' ∧ db_users d' = db_users d.
Proof.
  intros HP Hs. unfold DeleteEvent in Hs. sql_inv.
  repeat match goal with Hb : bool_decide _ = true |- _ => apply bool_decide_eq_true in Hb end.
  match goal with Hb : map_Forall _ (db_trades _) |- _ => rename Hb into Htr end.
  split; [|done]. constructor; simpl; try apply HP.
  - intros j tr Hj. destruct (Htr _ _ Hj) as (Hev & Htk & Hmk). apply bool_decide_eq_false in Htk, Hmk.
    destruct (pj_refs _ HP _ _ Hj) as [He [ot Hot] [om Hom] Hb Hse]. rewrite Hot in Htk. rewrite Hom in Hmk.
    constructor; simpl; [by rewrite lookup_delete_ne| | |done|done].
    + exists ot. apply map_lookup_filter_Some. split; [done|]. simpl. intros E. apply Htk. simpl. congruence.
    + exists om. apply map_lookup_filter_Some. split; [done|]. simpl. intros E. apply Hmk. simpl. congruence.
  - intros j o [Hj _]%map_lookup_filter_Some. by eapply HP.
  - intros j o [Hj _]%map_lookup_filter_Some. by eapply HP.
  - intros j ev [_ Hj]%lookup_delete_Some. by eapply HP.
Qed.

Lemma db_step_Projection `{!PackageLaws} d d' :
  Projection d ∧ money d = default_balance * Z.of_nat (size (db_users d)) → db_step d d' →
  Projection d' ∧ money d' = default_balance * Z.of_nat (size (db_users d')).
Proof.
  intros [HP Hm] [id email hash r d1 Hs|id ti de qu th ex r d1 Hs|id r d1 Hs|id raw w err w' Hw Hok Hs].
  - apply CreateUser_Projection in Hs as (? & -> & ->); [|done]. split; [done|lia].
  - apply CreateEvent_Projection in Hs as [? E]; [|done]. unfold money. by rewrite E.
  - apply DeleteEvent_Projection in Hs as [? E]; [|done]. unfold money. by rewrite E.
  - subst d. apply processEvent_effect in Hs as [_ [->|(env & He & Heff)]]; [done|].
    apply effect_Projection in Heff as (? & -> & ->); [done|done|by apply Hok].
Qed.

Lemma reachable_Projection `{!PackageLaws} d :
  rtc db_step emptyDB d → Projection d ∧ money d = default_balance * Z.of_nat (size (db_users d)).
Proof.
  intros Hr. assert (Projection emptyDB ∧ money emptyDB = default_balance * Z.of_nat (size (db_users emptyDB))) as Hi
    by (split; [apply emptyDB_Projection|done]).
  induction Hr as [|d1 d2 d3 Hs Hr IH]; [done|]. apply IH. by eapply db_step_Projection.
Qed.
End effects.

(** The condition on events, as a test. *)
Definition event_okb (env : EventEnvelope) : bool :=
  (if ev_Type env =s EventTradeExecuted then
     match unmarshal_trade (ev_Data env) with
     | Some trade => in64b (t_Quantity trade * t_Price trade)
     | None => true
     end
   else true) &&
  (if ev_Type env =s EventOrderCreated then
     match unmarshal_order (ev_Data env) with
     | Some o => (o_FilledQuantity o =? 0) && (o_RemainingQuantity o =? o_Quantity o) && (o_Status o =s StatusPending)
     | None => true
     end
   else true).

Lemma event_okb_spec env : event_okb env = true → event_ok env.
Proof.
  intros [Ht Ho]%andb_true_iff. split.
  - intros trade Hty Hu. rewrite Hty, seqb_refl, Hu in Ht. by apply in64b_spec.
  - intros o Hty Hu. rewrite Hty, seqb_refl, Hu in Ho.
    apply andb_true_iff in Ho as [[? ?]%andb_true_iff ?%seqb_eq]. split_and!; [lia|lia|done].
Qed.

(** ** Theorems *)

Section theorems.
Context `{Packages} `{Network} `{RedisServer}.

(** C20: the database is the projection of its trades.  In every database that the
    statements of the API and the worker reach from an empty one, for any pattern
    of failures, from events in which every trade's quantity times price fits an
    int64 and every new order is announced as PENDING and without fills: each order
    row shows the sum of its trades (and the remainder and status that follow),
    each balance is the starting balance plus what the user sold minus what it
    bought, and never negative, each position and each event's volume is the sum of
    its trades, every trade has its two ledger rows, references resolve, and the
    total cash is 100 per user. *)
Theorem database_is_projection `{!PackageLaws} d :
  rtc db_step emptyDB d →
  Projection d ∧ money d = default_balance * Z.of_nat (size (db_users d)).
Proof. apply reachable_Projection. Qed.

(** C21: settlement is all or nothing.  Whatever calls fail during [settleTrade], the
    database afterwards is the one before or the one with the trade and all its
    consequences; and if it reports no error, the trade is recorded. *)
Theorem settlement_all_or_nothing `{!PackageLaws} trade w err w' :
  Projection (wk_db w) → validateTrade trade = None → in64 (t_Quantity trade * t_Price trade) →
  settleTrade trade w = (err, w') →
  (wk_db w' = wk_db w ∨ ∃ i tr, parsed trade i tr ∧ Settled i tr (wk_db w) (wk_db w')) ∧
  (err = None → ∃ i, uuid_Parse (t_ID trade) = Some i ∧ is_Some (db_trades (wk_db w') !! i)).
Proof.
  intros HP [Hq _]%validateTrade_bounds Hc Hrun. split.
  - apply settleTrade_effect in Hrun as (_ & _ & [?|(t & t' & Hs)]); [by left|right].
    by apply settleBody_true in Hs.
  - intros ->. apply settleTrade_None in Hrun as (p & (i & ev & b & s & tk & mk & -> & Hi & _) & _ & Hin).
    by exists i.
Qed.

End theorems.

(** ** Witnesses *)

(** Ids are their own canonical form, and floats are exact. *)
#[local] Instance plainPackages : Packages := {|
  uuid_Parse s := if s =s "" then None else Some s;
  Float64Value n := Some (Some (Z.quot (n_Int n) (10 ^ (- n_Exp n))));
  pgx_postgres := {| numeric_quotient a b := Z.quot a b |}
|}.

#[local] Instance plainPackages_laws : PackageLaws.
Proof.
  split. simpl. intros n k (_ & He & ->) _. rewrite Z.quot_mul; [done|].
  pose proof (Z.pow_pos_nonneg 10 (- n_Exp n)). lia.
Qed.

(** One reply is lost: that of the commit of the first settlement attempt. *)
#[local] Instance flaky : Network := {| net n := if decide (n = 20%nat) then ReplyLost else Served |}.

#[local] Existing Instance kvRedis.

Definition event (id ty : string) (j : json) : json_text :=
  JText (envelope_json (mkEnvelope id ty 0 1 1 0 (JText j))).

Definition ask : Order := mkOrder "s" "ev" "bob" OrderTypeLimit OutcomeYes SideSell 10 0 10 6000 StatusPending 0 0.
Definition bid : Order := mkOrder "b" "ev" "alice" OrderTypeLimit OutcomeYes SideBuy 10 0 10 6000 StatusPending 0 0.
Definition sale : Trade := mkTrade "t" "b" "s" "ev" OutcomeYes "alice" "bob" SideBuy 4 6000 0.

Definition askEvent : json_text := event "e1" EventOrderCreated (order_json ask).
Definition bidEvent : json_text := event "e2" EventOrderCreated (order_json bid).
Definition saleEvent : json_text := event "e3" EventTradeExecuted (trade_json sale).

Definition after {A} (s : Stmt A) (d : DB) : DB := match s d with inl _ => d | inr (_, d) => d end.

Definition db1 : DB := after (CreateUser "alice" "a@x" "h") emptyDB.
Definition db2 : DB := after (CreateUser "bob" "b@x" "h") db1.
Definition db3 : DB := after (CreateEvent "ev" "t" "d" "q" "i" 99) db2.
Definition worker3 : Worker := mkWorker db3 (∅, ∅) [] 0.
Definition worker4 : Worker := (processEvent "1" askEvent worker3).2.
Definition worker5 : Worker := (processEvent "2" bidEvent worker4).2.
Definition worker6 : Worker := (processEvent "3" saleEvent worker5).2.
Definition worker7 : Worker := (processEvent "3" saleEvent worker6).2.
Definition worker8 : Worker := (processEvent "3" saleEvent worker7).2.

Lemma fixture_ok raw env :
  raw = askEvent ∨ raw = bidEvent ∨ raw = saleEvent → unmarshal_envelope raw = Some env → event_ok env.
Proof.
  intros Hraw Hu. apply event_okb_spec.
  destruct Hraw as [->|[->| ->]]; vm_compute in Hu; injection Hu as <-; vm_compute; reflexivity.
Qed.

Lemma worker_step id raw w :
  raw = askEvent ∨ raw = bidEvent ∨ raw = saleEvent → db_step (wk_db w) (wk_db (processEvent id raw w).2).
Proof.
  intros Hraw. destruct (processEvent id raw w) as [err w'] eqn:E. simpl.
  eapply step_worker; [reflexivity| |exact E]. intros env. by apply fixture_ok.
Qed.

Lemma worker5_reachable : rtc db_step emptyDB (wk_db worker5).
Proof.
  apply (rtc_l _ _ db1); [apply (step_user _ "alice" "a@x" "h" "alice"); vm_compute; reflexivity|].
  apply (rtc_l _ _ db2); [apply (step_user _ "bob" "b@x" "h" "bob"); vm_compute; reflexivity|].
  apply (rtc_l _ _ db3); [apply (step_event _ "ev" "t" "d" "q" "i" 99 "ev"); vm_compute; reflexivity|].
  apply (rtc_l _ _ (wk_db worker4)); [apply (worker_step "1" askEvent worker3); auto|].
  apply rtc_once, (worker_step "2" bidEvent worker4). auto.
Qed.

Lemma worker6_reachable : rtc db_step emptyDB (wk_db worker6).
Proof. eapply rtc_r; [apply worker5_reachable|]. apply (worker_step "3" saleEvent worker5). auto. Qed.

(** Alice bought 4 of 10 at 0.60: 2.40 changed hands, though the commit's reply was
    lost. *)
Lemma database_is_projection_witness :
  Projection (wk_db worker6) ∧ money (wk_db worker6) = default_balance * 2 ∧
  u_Balance <$> db_users (wk_db worker6) !! "bob" = Some 10240000000 ∧
  or_Status <$> db_orders (wk_db worker6) !! "b" = Some StatusPartial.
Proof.
  destruct (database_is_projection (wk_db worker6) worker6_reachable) as [HP Hm].
  split; [exact HP|]. split; [etransitivity; [exact Hm|vm_compute; reflexivity]|].
  split; vm_compute; reflexivity.
Defined.

(** Settling at call 7 loses the commit's reply, but the trade is in. *)
Definition attempt : option WorkerError * Worker := settleTrade sale (mkWorker (wk_db worker5) (wk_redis worker5) [] 7).

Lemma settlement_all_or_nothing_witness :
  attempt.1 = Some (Wrap "commit settlement" ConnLost) ∧
  ∃ i tr, parsed sale i tr ∧ Settled i tr (wk_db worker5) (wk_db attempt.2).
Proof.
  split; [vm_compute; reflexivity|].
  destruct (settlement_all_or_nothing sale (mkWorker (wk_db worker5) (wk_redis worker5) [] 7) attempt.1 attempt.2
    (proj1 (reachable_Projection _ worker5_reachable))) as [[Hdb|Hs] _].
  - vm_compute. reflexivity.
  - vm_compute. split; discriminate.
  - apply surjective_pairing.
  - exfalso. apply (f_equal (λ d, length (db_transactions d))) in Hdb. vm_compute in Hdb. discriminate Hdb.
  - exact Hs.
Defined.

