(* ===== verification/DatabaseAccount.v ===== *)
(** The database as an account: what the DB worker makes of an entry.

    [DbShows d a]: the rows of [d] show the account [a].  Working on the entry
    that carries [x] either changes nothing and reports an error, or books [x];
    working on it again changes nothing. *)

From S2P Require Import Prelude Json Types Router State Ledger Matching Sweep Invariant.
From S2P Require Import Events Commands Lease Repository Statements DbWorker Projection Persistence Account.
Local Open Scope Z_scope.

(** A user without a row counts as one with the balance a row starts with. *)
Definition balanceRow (d : DB) (u : UUID) : Z :=
  match db_users d !! u with Some r => u_Balance r | None => default_balance end.

Record DbShows (d : DB) (a : Account) : Prop := {
  ds_cash (u : UUID) : balanceRow d u = a_cash a u;
  ds_shares k : sharesOf d k = a_shares a k;
  ds_orders (i : UUID) : db_orders d !! i = a_orders a i;
  ds_trades (i : UUID) : a_trades a i = bool_decide (is_Some (db_trades d !! i))
}.

(** The entry has left its mark. *)
Definition booked (x : Entry) (a : Account) : Prop :=
  match x with
  | Announced o => is_Some (a_orders a (o_ID o))
  | Executed t => a_trades a (t_ID t) = true
  | Withdrawn id => ∀ r, a_orders a id = Some r → or_Status r = StatusCanceled
  end.

Lemma booked_post x a : booked x (post x a).
Proof.
  destruct x as [o|t|id]; simpl; rewrite seqb_refl; [by eexists|done|].
  intros r. destruct (a_orders a id); [|done]. by intros [= <-].
Qed.

Section worker.
Context `{Packages} `{Network} `{RedisServer} `{!PackageLaws}.

Lemma parse_canonical s i : canonical s → uuid_Parse s = Some i → i = s.
Proof. intros [_ Hp _]. congruence. Qed.

(** ** Trades *)

Record rowOfTrade (t : Trade) (tr : TradeRow) : Prop := {
  rt_event : tr_EventID tr = t_EventID t;
  rt_buyer : tr_BuyerID tr = t_BuyerID t;
  rt_seller : tr_SellerID tr = t_SellerID t;
  rt_taker : tr_TakerOrderID tr = t_OrderID t;
  rt_maker : tr_MakerOrderID tr = t_MatchOrderID t;
  rt_outcome : tr_Outcome tr = t_Outcome t;
  rt_quantity : tr_Quantity tr = t_Quantity t * share;
  rt_cost : costOf tr = costOfTrade t
}.

Lemma parsed_row t i tr : trade_entry t → parsed t i tr → i = t_ID t ∧ rowOfTrade t tr.
Proof.
  intros Ht [? ? ? ? ? ? ? _ Hq Hp]. split; [apply parse_canonical; [apply Ht|done]|].
  split; try (apply parse_canonical; [apply Ht|done]); try done. by apply costOf_exact.
Qed.

Lemma fillLine_insert f (m : gmap UUID OrderRow) id q r (i : UUID) :
  m !! id = Some r → (∀ j, m !! j = f j) → <[id := fillRow q r]> m !! i = fillLine id q f i.
Proof.
  intros Hr Hf. unfold fillLine. rewrite <- Hf. destruct (seqb_spec id i) as [<-|Hne].
  - by rewrite lookup_insert_eq, Hr.
  - by rewrite lookup_insert_ne.
Qed.

Lemma settled_shows d d' a t tr :
  rowOfTrade t tr → t_BuyerID t ≠ t_SellerID t → Settled (t_ID t) tr d d' → DbShows d a →
  DbShows d' (post (Executed t) a).
Proof.
  intros [Ee Eb Es Et Em Eo Eq Ec] Hne HS [Hcash Hshares Horders Htrades]. split; simpl.
  - intros u. rewrite <- Hcash. unfold balanceRow, cashFlow.
    destruct (se_users _ _ _ _ HS) as (ub & us & Hub & _ & Hus & ->).
    rewrite Eb, Es, Ec in *. rewrite lookup_insert_ne in Hus by done.
    destruct (seqb_spec (t_SellerID t) u) as [<-|Hs].
    + rewrite lookup_insert_eq, Hus, (seqb_ne _ _ Hne). simpl. lia.
    + rewrite lookup_insert_ne by done. destruct (seqb_spec (t_BuyerID t) u) as [<-|Hb].
      * rewrite lookup_insert_eq, Hub. simpl. lia.
      * rewrite lookup_insert_ne by done. lia.
  - intros k. rewrite (se_shares _ _ _ _ HS), Hshares. unfold shareOf, shareFlow. by rewrite Eb, Es, Ee, Eo, Eq.
  - intros i. destruct (se_orders _ _ _ _ HS) as (ot & om & Hot & Hom & ->). rewrite Et, Em, Eq in *.
    apply fillLine_insert; [done|]. intros j. by apply fillLine_insert.
  - intros i. rewrite Htrades, (se_trades _ _ _ _ HS). destruct (seqb_spec (t_ID t) i) as [<-|Hi]; simpl.
    + by rewrite bool_decide_eq_true_2 by (by rewrite lookup_insert_eq).
    + by rewrite lookup_insert_ne.
Qed.

(** ** Orders *)

Lemma InsertOrder_row p d a d' :
  n_Valid (io_Price p) = true → InsertOrder p d = inr (a, d') →
  d' = with_dborders (<[io_ID p := orderRow p (Some (decimal_units (io_Price p)))]>) d.
Proof.
  intros Hv Hs. unfold InsertOrder in Hs. sql_inv.
  match goal with Hn : n_Valid _ = true → _ |- _ => destruct (Hn Hv) as [-> ?] end. done.
Qed.

Lemma order_row o :
  order_entry o → orderRow (orderParams (o_ID o) (o_EventID o) (o_UserID o) o) (Some (o_Price o * tick4)) = lineOf o.
Proof.
  intros [_ _ _ Hw _ Hf Hst]. unfold orderRow, orderParams, lineOf, withdrawn. simpl.
  rewrite Hst, Hf, !units_int. done.
Qed.

Lemma ordered_shows d d' a o r :
  order_entry o → DbShows d a →
  InsertOrder (orderParams (o_ID o) (o_EventID o) (o_UserID o) o) d = inr (r, d') → DbShows d' (post (Announced o) a).
Proof.
  intros Ho [Hcash Hshares Horders Htrades] Hs. apply InsertOrder_row in Hs as ->; [|done].
  simpl. rewrite units_scaled, order_row by done. split; simpl; try done.
  intros i. destruct (seqb_spec (o_ID o) i) as [<-|Hne]; [by rewrite lookup_insert_eq|by rewrite lookup_insert_ne].
Qed.

Lemma withdrawn_shows d d' a id r :
  DbShows d a → UpdateOrderStatus id StatusCanceled d = inr (r, d') → DbShows d' (post (Withdrawn id) a).
Proof.
  intros [Hcash Hshares Horders Htrades] Hs. split; simpl.
  - intros u. rewrite <- Hcash. by apply UpdateOrderStatus_inr in Hs as [[_ ->]|(o & _ & ->)].
  - intros k. rewrite <- Hshares. by apply UpdateOrderStatus_inr in Hs as [[_ ->]|(o & _ & ->)].
  - intros i. rewrite <- Horders. apply UpdateOrderStatus_inr in Hs as [[Hn ->]|(o & Ho & ->)]; simpl.
    + destruct (seqb_spec id i) as [<-|]; [by rewrite Hn|done].
    + destruct (seqb_spec id i) as [<-|]; [by rewrite lookup_insert_eq, Ho|by rewrite lookup_insert_ne].
  - intros i. rewrite Htrades. by apply UpdateOrderStatus_inr in Hs as [[_ ->]|(o & _ & ->)].
Qed.

(** ** One entry *)

(** The decoded form of an entry; the lock of an order does not travel. *)
Definition decoded (x : Entry) (env : EventEnvelope) : Prop :=
  match x with
  | Announced o => unmarshal_order (ev_Data env) = Some (set_LockedFunds 0 o)
  | Executed t => unmarshal_trade (ev_Data env) = Some t ∧ validateTrade t = None
  | Withdrawn id => unmarshal_strings ["orderId"] (ev_Data env) = Some [id]
  end.

Lemma validateTrade_entry t : trade_entry t → validateTrade t = None.
Proof.
  intros [[? _ _] [? _ _] [? _ _] [? _ _] [? _ _] [? _ _] Hoc _ _ _ Hq Hp _].
  unfold validateTrade. rewrite !seqb_ne by done.
  rewrite (proj2 (Z.leb_gt _ _)), (proj2 (Z.ltb_ge _ _)) by lia. by destruct Hoc as [-> | ->].
Qed.

Lemma entry_decoded x env : entry_ok x → ev_Data env = JText (entryData x) → decoded x env.
Proof.
  intros Hx Hd. destruct x as [o|t|id]; simpl in *; rewrite Hd.
  - apply unmarshal_marshal_order. destruct Hx as [_ _ _ [(?&?&?&?) ? _ _ _ Hp _] _ _ _].
    unfold order_in_range, in64, min_int64 in *. lia.
  - split; [|by apply validateTrade_entry]. apply unmarshal_marshal_trade. destruct Hx.
    unfold trade_in_range, in64, min_int64. lia.
  - by vm_compute.
Qed.

Lemma entry_event_ok x env :
  entry_ok x → ev_Type env = entryType x → decoded x env → event_ok env.
Proof.
  intros Hx Ht Hd. split.
  - intros t Ht' Hu. destruct x as [o|t'|id]; rewrite Ht in Ht'; try discriminate Ht'.
    destruct Hd as [Hd _]. rewrite Hd in Hu. injection Hu as <-. apply Hx.
  - intros o Ht' Hu. destruct x as [o'|t'|id]; rewrite Ht in Ht'; try discriminate Ht'.
    simpl in Hd. rewrite Hd in Hu. injection Hu as <-. destruct Hx as [_ _ _ [(?&?&?&?) ? _ _ _ _ _] _ Hf Hst].
    simpl. split_and!; [done|lia|done].
Qed.

(** An effect of the entry's event is none, or books the entry. *)
Lemma effect_books x env d d' a :
  entry_ok x → ev_Type env = entryType x → decoded x env → Projection d → DbShows d a →
  effect env d d' → d' = d ∨ DbShows d' (post x a).
Proof.
  intros Hx Ht Hd HP Ha [|t n n' d1 Ht' Hu _ Hs|oid eid uid o r d1 Ht' Hu Ho He Hus Hs|id' oid r d1 Ht' Hu Ho Hs]; [by left| | |];
    right; rewrite Ht in Ht'; destruct x as [o'|t'|id]; try discriminate Ht'.
  - destruct Hd as [Hd _]. rewrite Hd in Hu. injection Hu as <-.
    apply settleBody_true in Hs as (i & tr & Hpa & Hse); [|done|apply Hx|apply Hx].
    destruct (parsed_row _ _ _ Hx Hpa) as [-> Hr]. by eapply settled_shows; [|apply Hx|..].
  - simpl in Hd. rewrite Hd in Hu. injection Hu as <-. simpl in Ho, He, Hus.
    rewrite (parse_canonical _ _ (oe_id _ Hx) Ho), (parse_canonical _ _ (oe_event _ Hx) He),
      (parse_canonical _ _ (oe_user _ Hx) Hus) in Hs. by eapply ordered_shows.
  - simpl in Hd. rewrite Hd in Hu. injection Hu as <-. rewrite (parse_canonical _ _ Hx Ho) in Hs.
    by eapply withdrawn_shows.
Qed.
(** A worker that reports no error has booked the entry. *)
Lemma handleEnvelope_books x env w err w' a :
  entry_ok x → ev_Type env = entryType x → decoded x env → allowed a x →
  Projection (wk_db w) → DbShows (wk_db w) a →
  decideEnvelope env Served (wk_redis w) = Some fencingAccept → handleEnvelope env w = (err, w') →
  wk_db w' = wk_db w ∧ err ≠ None ∨ DbShows (wk_db w') (post x a).
Proof.
  intros Hx Ht Hd Hal HP Ha Hdec Hrun. pose proof (handleEnvelope_effect _ _ _ _ Hrun) as (_ & _ & Heff).
  destruct (effect_books x env _ _ a Hx Ht Hd HP Ha Heff) as [E|?]; [|by right].
  destruct err as [err|]; [by left|right]. destruct x as [o|t|id]; simpl in Ht, Hd, Hal.
  - exfalso. destruct (handleEnvelope_applied _ _ _ Hrun ltac:(by right) Hdec)
      as [? ? Hty|o' oid eid uid Hty Hu Ho _ _ _ Hin]; [rewrite Ht in Hty; discriminate Hty|].
    rewrite Hd in Hu. injection Hu as <-. simpl in Ho. rewrite (parse_canonical _ _ (oe_id _ Hx) Ho), E in Hin.
    rewrite (ds_orders _ _ Ha), Hal in Hin. by destruct Hin.
  - exfalso. destruct (handleEnvelope_applied _ _ _ Hrun ltac:(by left) Hdec)
      as [t' p Hty Hu _ Hp _ Hin|? ? ? ? Hty]; [|rewrite Ht in Hty; discriminate Hty].
    destruct Hd as [Hd _]. rewrite Hd in Hu. injection Hu as <-.
    destruct Hp as (i & ev & b & s & tk & mk & -> & Hi & _). simpl in Hin.
    rewrite (parse_canonical _ _ (te_id _ Hx) Hi), E in Hin. destruct Hal as [Hnew _ _].
    rewrite (ds_trades _ _ Ha), bool_decide_eq_true_2 in Hnew by done. discriminate Hnew.
  - rewrite <- E in Ha. unfold handleEnvelope in Hrun. destruct (net (wk_calls w)); [|discriminate Hrun..].
    rewrite Hdec, Ht in Hrun. simpl in Hrun. unfold handleOrderCanceled in Hrun.
    rewrite Hd, (cn_parse _ Hx) in Hrun. unfold autocommit, exec in Hrun. simpl in Hrun.
    destruct (net (S (wk_calls w))); [|discriminate Hrun..].
    destruct (UpdateOrderStatus id StatusCanceled (wk_db w)) as [e|[r d]] eqn:Es; [discriminate Hrun|].
    injection Hrun as <-. simpl in E |- *. subst d. by eapply withdrawn_shows.
Qed.

(** The entry is booked, or it stays unacknowledged and nothing has changed. *)
Lemma processEvent_books id raw x env w err w' a :
  unmarshal_envelope raw = Some env → entry_ok x → ev_Type env = entryType x → decoded x env → allowed a x →
  Projection (wk_db w) → DbShows (wk_db w) a →
  decideEnvelope env Served (wk_redis w) = Some fencingAccept → processEvent id raw w = (err, w') →
  Projection (wk_db w') ∧
  (wk_db w' = wk_db w ∧ wk_acked w' = wk_acked w ∨ DbShows (wk_db w') (post x a)).
Proof.
  intros Hu Hx Ht Hd Hal HP Ha Hdec Hrun. pose proof (processEvent_effect _ _ _ _ _ Hrun) as [Hr Heff].
  assert (wk_db w' = wk_db w ∨ DbShows (wk_db w') (post x a)) as Hdb.
  { destruct Heff as [->|(env' & Hu' & Heff)]; [by left|]. rewrite Hu in Hu'. injection Hu' as <-. by eapply effect_books. }
  split.
  - destruct Heff as [->|(env' & Hu' & Heff)]; [done|]. rewrite Hu in Hu'. injection Hu' as <-.
    eapply effect_Projection; [done| |done]. by eapply entry_event_ok.
  - destruct Hdb as [E|?]; [|by right]. destruct (decide (wk_acked w' = wk_acked w)) as [|Hack]; [by left|right].
    apply (processEvent_acked _ _ _ _ _ Hrun) in Hack as (env' & w1 & Hu' & Hrun1 & ->).
    rewrite Hu in Hu'. injection Hu' as <-.
    by destruct (handleEnvelope_books x env w None w1 a Hx Ht Hd Hal HP Ha Hdec Hrun1) as [[_ ?]|?].
Qed.

(** Working on a booked entry again changes nothing. *)
Lemma processEvent_booked id raw x env w err w' a :
  unmarshal_envelope raw = Some env → entry_ok x → ev_Type env = entryType x → decoded x env → booked x a →
  Projection (wk_db w) → DbShows (wk_db w) a → processEvent id raw w = (err, w') →
  wk_redis w' = wk_redis w ∧ wk_db w' = wk_db w.
Proof.
  intros Hu Hx Ht Hd Hb HP Ha Hrun. destruct (processEvent_effect _ _ _ _ _ Hrun) as [Hr Heff]. split; [done|].
  destruct Heff as [->|(env' & Hu' & Heff)]; [done|]. rewrite Hu in Hu'. injection Hu' as <-.
  destruct Heff as [|t n n' d1 Ht' Hut _ Hs|oid eid uid o r d1 Ht' Hut Ho _ _ Hs|id' oid r d1 Ht' Hut Ho Hs]; [done| | |];
    rewrite Ht in Ht'; destruct x as [o'|t'|id0]; try discriminate Ht'; simpl in Hd, Hb.
  - exfalso. destruct Hd as [Hd _]. rewrite Hd in Hut. injection Hut as <-.
    apply settleBody_true in Hs as (i & tr & Hpa & Hse); [|done|apply Hx|apply Hx].
    destruct (parsed_row _ _ _ Hx Hpa) as [-> _].
    rewrite (ds_trades _ _ Ha), (se_new _ _ _ _ Hse) in Hb. discriminate Hb.
  - exfalso. rewrite Hd in Hut. injection Hut as <-. simpl in Ho.
    rewrite (parse_canonical _ _ (oe_id _ Hx) Ho) in Hs.
    apply (InsertOrder_taken _ _ _) in Hs; [done|]. simpl. by rewrite (ds_orders _ _ Ha).
  - rewrite Hd in Hut. injection Hut as <-. rewrite (parse_canonical _ _ Hx Ho) in Hs.
    apply UpdateOrderStatus_inr in Hs as [[_ ->]|(o & Ho' & ->)]; [done|].
    pose proof Ho' as Ho2. rewrite (ds_orders _ _ Ha) in Ho2. apply Hb in Ho2. unfold with_dborders.
    rewrite insert_id; [by destruct (wk_db w)|]. rewrite Ho'. f_equal. destruct o. simpl in *. by subst.
Qed.
End worker.
