(* ===== verification/Settling.v ===== *)
(** With the services answering, the worker fails at an entry only on overflow.

    [fits s d Q]: the statement [s] ends with [Q], or fails because a number does not
    fit its DECIMAL(20,8) column; [runs] is the same for a transaction body.  An
    entry that may be booked passes every other check: the rows are there, the ids
    parse, the buyer can pay. *)

From S2P Require Import Prelude Json Types Router State Ledger Matching Sweep Invariant.
From S2P Require Import Events Commands Lease Repository Statements DbWorker Projection Persistence Account DatabaseAccount.
Local Open Scope Z_scope.

(** ** Statements *)

Definition fits {A} (s : Stmt A) (d : DB) (Q : A → DB → Prop) : Prop :=
  match s d with inl e => e = numeric_overflow | inr (a, d') => Q a d' end.

Lemma fits_bind {A B} (m : Stmt A) (k : A → Stmt B) d Q :
  fits m d (λ a d', fits (k a) d' Q) → fits (sbind m k) d Q.
Proof. unfold fits, sbind. by destruct (m d) as [e|[a d']]. Qed.

Lemma fits_mono {A} (s : Stmt A) d (Q Q' : A → DB → Prop) : fits s d Q → (∀ a d', Q a d' → Q' a d') → fits s d Q'.
Proof. unfold fits. destruct (s d) as [e|[a d']]; eauto. Qed.
Lemma fits_sget d (Q : DB → DB → Prop) : Q d d → fits sget d Q.
Proof. done. Qed.
Lemma fits_swrite f d (Q : () → DB → Prop) : Q () (f d) → fits (swrite f) d Q.
Proof. done. Qed.
Lemma fits_sret {A} (a : A) d (Q : A → DB → Prop) : Q a d → fits (sret a) d Q.
Proof. done. Qed.
Lemma fits_require e b d (Q : () → DB → Prop) : b = true → Q () d → fits (require e b) d Q.
Proof. by intros ->. Qed.
Lemma fits_in_range v d (Q : Z → DB → Prop) : Q v d → fits (in_range v) d Q.
Proof. intros HQ. unfold fits, in_range, sbind, require. by destruct (decimal_ok v). Qed.
Lemma fits_decimal n d (Q : Z → DB → Prop) : n_Valid n = true → Q (decimal_units n) d → fits (decimal_column n) d Q.
Proof. intros Hv HQ. apply fits_bind, fits_require; [done|]. by apply fits_in_range. Qed.
Lemma fits_nullable n d (Q : option Z → DB → Prop) :
  n_Valid n = true → Q (Some (decimal_units n)) d → fits (nullable_column n) d Q.
Proof. intros Hv HQ. unfold nullable_column. rewrite Hv. by apply fits_bind, fits_in_range. Qed.
Lemma fits_one_of l s d (Q : () → DB → Prop) : s ∈ l → Q () d → fits (one_of l s) d Q.
Proof. intros Hs. by apply fits_require, bool_decide_eq_true_2. Qed.
Lemma fits_references {A} (table : DB → gmap UUID A) i d (Q : () → DB → Prop) :
  is_Some (table d !! i) → Q () d → fits (references table i) d Q.
Proof. intros Hi HQ. apply fits_bind. by apply fits_require; [apply bool_decide_eq_true_2|]. Qed.
Lemma fits_unique {K A} `{Countable K} (table : DB → gmap K A) k d (Q : () → DB → Prop) :
  table d !! k = None → Q () d → fits (unique_key table k) d Q.
Proof. intros Hk HQ. apply fits_bind. by apply fits_require; [apply bool_decide_eq_true_2|]. Qed.

(** [sql_fits] goes through a statement, leaving the checks that need the rows. *)
Ltac sql_fits :=
  repeat match goal with
  | |- fits (sbind _ _) _ _ => apply fits_bind
  | |- fits (require _ _) _ _ => apply fits_require; [done|]
  | |- fits (varchar _ _) _ _ => apply fits_require; [done|]
  | |- fits (in_range _) _ _ => apply fits_in_range
  | |- fits (decimal_column _) _ _ => apply fits_decimal; [done|]
  | |- fits (nullable_column _) _ _ => apply fits_nullable; [done|]
  | |- fits (one_of _ _) _ _ => apply fits_one_of; [set_solver|]
  | |- fits (references _ _) _ _ => apply fits_references; [done|]
  | |- fits (unique_key _ _) _ _ => apply fits_unique; [done|]
  | |- fits sget _ _ => apply fits_sget
  | |- fits (swrite _) _ _ => apply fits_swrite
  | |- fits (sret _) _ _ => apply fits_sret
  end.

Section statements.
Context `{Packages}.

Lemma DeductBalance_fits b n d ub :
  db_users d !! b = Some ub → n_Valid n = true → decimal_units n ≤ u_Balance ub →
  fits (DeductBalance b n) d (λ k _, k = 1).
Proof.
  intros Hb Hv Hle. unfold DeductBalance. sql_fits. rewrite Hb, Hv, (proj2 (Z.leb_le _ _) Hle). simpl. sql_fits. done.
Qed.

Lemma AddBalance_fits s n d : n_Valid n = true → fits (AddBalance s n) d (λ _ _, True).
Proof. intros Hv. unfold AddBalance. sql_fits. destruct (db_users d !! s); sql_fits; done. Qed.

Lemma IncrementEventVolume_fits ev n d : n_Valid n = true → fits (IncrementEventVolume ev n) d (λ _ _, True).
Proof. intros Hv. unfold IncrementEventVolume. sql_fits. destruct (db_events d !! ev); sql_fits; done. Qed.

Lemma UpdateOrderFill_fits i n st d :
  n_Valid n = true → st ∈ order_statuses → fits (UpdateOrderFill i n st) d (λ _ _, True).
Proof. intros Hv Hs. unfold UpdateOrderFill. sql_fits. destruct (db_orders d !! i); sql_fits; done. Qed.

Lemma UpsertPosition_fits u ev oc n avg d :
  oc = OutcomeYes ∨ oc = OutcomeNo → n_Valid n = true → n_Valid avg = true →
  is_Some (db_users d !! u) → is_Some (db_events d !! ev) → fits (UpsertPosition u ev oc n avg) d (λ _ _, True).
Proof.
  intros [-> | ->] Hv Ha Hu He; unfold UpsertPosition; sql_fits; destruct (db_positions d !! _); sql_fits; done.
Qed.

Lemma InsertTransaction_fits p d :
  (ix_Type p = "BUY" ∨ ix_Type p = "SELL") → (ix_Outcome p = OutcomeYes ∨ ix_Outcome p = OutcomeNo) →
  n_Valid (ix_Quantity p) = true → n_Valid (ix_Price p) = true → n_Valid (ix_Amount p) = true →
  is_Some (db_users d !! ix_UserID p) → is_Some (db_orders d !! ix_OrderID p) → is_Some (db_trades d !! ix_TradeID p) →
  fits (InsertTransaction p) d (λ _ _, True).
Proof.
  intros Hty Hoc Hq Hp Ha Hu Ho Ht. unfold InsertTransaction.
  destruct Hty as [-> | ->], Hoc as [-> | ->]; sql_fits; done.
Qed.

Lemma InsertTrade_fits p d :
  (it_Outcome p = OutcomeYes ∨ it_Outcome p = OutcomeNo) → (it_TakerSide p = SideBuy ∨ it_TakerSide p = SideSell) →
  n_Valid (it_Quantity p) = true → n_Valid (it_Price p) = true → refers d (tradeRow p) → 
  db_trades d !! it_ID p = None → fits (InsertTrade p) d (λ _ _, True).
Proof.
  intros Hoc Hsd Hq Hp [] Hnew. unfold InsertTrade. destruct Hoc as [-> | ->], Hsd as [-> | ->]; sql_fits; done.
Qed.


Lemma InsertOrder_fits oid eid uid o d :
  order_wf o → 0 ≤ o_Price o → o_Status o = StatusPending →
  is_Some (db_events d !! eid) → is_Some (db_users d !! uid) → db_orders d !! oid = None →
  fits (InsertOrder (orderParams oid eid uid o)) d (λ _ _, True).
Proof.
  intros [_ Hq Hs Ho Ht _ _] Hp Hst He Hu Hnew. unfold InsertOrder, orderParams; simpl. rewrite Hst.
  assert ((0 <? decimal_units (numericFromInt (o_Quantity o))) = true) as Eq.
  { rewrite units_int. apply Z.ltb_lt. unfold share. lia. }
  assert ((0 <=? decimal_units (numericFromScaled (o_Price o))) = true) as Ep.
  { rewrite units_scaled. apply Z.leb_le. unfold tick4. lia. }
  destruct Hs as [-> | ->], Ho as [-> | ->], Ht as [-> | ->]; sql_fits; done.
Qed.

(** An insertion whose key is taken is refused with the key, or before that with an
    overflow. *)
Definition taken {A} (s : Stmt A) (d : DB) : Prop := s d = inl numeric_overflow ∨ s d = inl unique_violation.

Lemma taken_require {B} e b (k : () → Stmt B) d : b = true → taken (k ()) d → taken (sbind (require e b) k) d.
Proof. by intros ->. Qed.
Lemma taken_decimal {B} n (k : Z → Stmt B) d :
  n_Valid n = true → taken (k (decimal_units n)) d → taken (sbind (decimal_column n) k) d.
Proof.
  intros Hv Hk. unfold taken, sbind, decimal_column, in_range, sbind, require. rewrite Hv.
  destruct (decimal_ok _); [done|by left].
Qed.
Lemma taken_nullable {B} n (k : option Z → Stmt B) d :
  n_Valid n = true → taken (k (Some (decimal_units n))) d → taken (sbind (nullable_column n) k) d.
Proof.
  intros Hv Hk. unfold taken, sbind, nullable_column, in_range, sbind, require. rewrite Hv.
  destruct (decimal_ok _); [done|by left].
Qed.
Lemma taken_unique {K A B} `{Countable K} (table : DB → gmap K A) i (k : () → Stmt B) d :
  is_Some (table d !! i) → taken (sbind (unique_key table i) k) d.
Proof. intros Hi. right. by apply sbind_unique_taken. Qed.

Ltac sql_taken :=
  repeat first
    [ apply taken_unique; done
    | apply taken_decimal; [done|] | apply taken_nullable; [done|]
    | apply taken_require; [done|] | apply taken_require; [apply bool_decide_eq_true_2; set_solver|] ].

Lemma InsertTrade_repeated p d :
  (it_Outcome p = OutcomeYes ∨ it_Outcome p = OutcomeNo) → (it_TakerSide p = SideBuy ∨ it_TakerSide p = SideSell) →
  n_Valid (it_Quantity p) = true → n_Valid (it_Price p) = true → is_Some (db_trades d !! it_ID p) →
  taken (InsertTrade p) d.
Proof.
  intros Hoc Hsd Hq Hp Hin. unfold InsertTrade. destruct Hoc as [-> | ->], Hsd as [-> | ->]; sql_taken.
Qed.

Lemma InsertOrder_repeated oid eid uid o d :
  order_wf o → 0 ≤ o_Price o → o_Status o = StatusPending → is_Some (db_orders d !! oid) →
  taken (InsertOrder (orderParams oid eid uid o)) d.
Proof.
  intros [_ Hq Hs Ho Ht _ _] Hp Hst Hin. unfold InsertOrder, orderParams; simpl. rewrite Hst.
  assert ((0 <? decimal_units (numericFromInt (o_Quantity o))) = true) as Eq.
  { rewrite units_int. apply Z.ltb_lt. unfold share. lia. }
  assert ((0 <=? decimal_units (numericFromScaled (o_Price o))) = true) as Ep.
  { rewrite units_scaled. apply Z.leb_le. unfold tick4. lia. }
  destruct Hs as [-> | ->], Ho as [-> | ->], Ht as [-> | ->]; sql_taken.
Qed.
End statements.

(** An order refers to rows that exist. *)
Definition OrderRefs (d : DB) : Prop := ∀ i o, db_orders d !! i = Some o →
  is_Some (db_users d !! or_UserID o) ∧ is_Some (db_events d !! or_EventID o).

(** ** Transactions *)

Section transactions.
Context `{Packages} `{Network} `{!PackageLaws}.

(** From call [t0] on the server answers. *)
Context (t0 : nat).
Hypothesis Hnet : ∀ n, (t0 ≤ n)%nat → net n = Served.

Definition overflow (e : WorkerError) : Prop := ∃ what, e = Wrap what numeric_overflow.

Definition runs {A} (m : TX A) (t : nat) (d : DB) (Q : A → DB → Prop) : Prop :=
  match m t d with
  | (inl e, _, _) => overflow e
  | (inr a, t', d') => (t ≤ t')%nat ∧ Q a d'
  end.

Lemma runs_bind {A B} (m : TX A) (k : A → TX B) t d Q :
  runs m t d (λ a d', ∀ t', (t ≤ t')%nat → runs (k a) t' d' Q) → runs (tbind m k) t d Q.
Proof.
  unfold runs at 1 3, tbind. destruct (m t d) as [[[e|a] t'] d']; [done|]. intros [Ht Hk]. specialize (Hk t' Ht).
  revert Hk. unfold runs. destruct (k a t' d') as [[[e|b] t''] d'']; [done|]. intros [? ?]. split; [lia|done].
Qed.

(** What success means may be known from elsewhere. *)
Lemma runs_inr {A} (m : TX A) t d Q :
  runs m t d (λ _ _, True) → (∀ a t' d', m t d = (inr a, t', d') → Q a d') → runs m t d Q.
Proof. unfold runs. destruct (m t d) as [[[e|a] t'] d']; [done|]. intros [? _] HQ. eauto. Qed.

Lemma runs_mono {A} (m : TX A) t d (Q Q' : A → DB → Prop) : runs m t d Q → (∀ a d', Q a d' → Q' a d') → runs m t d Q'.
Proof. unfold runs. destruct (m t d) as [[[e|a] t'] d']; [done|]. intros [? ?]. eauto. Qed.

Lemma runs_ret {A} (a : A) t d (Q : A → DB → Prop) : Q a d → runs (tret a) t d Q.
Proof. by split. Qed.

Lemma runs_parse what s i t d Q : uuid_Parse s = Some i → Q i d → runs (parse what s) t d Q.
Proof. intros Hp HQ. unfold runs, parse. by rewrite Hp. Qed.

Lemma runs_query {A} what (s : Stmt A) t d Q : (t0 ≤ t)%nat → fits s d Q → runs (query what s) t d Q.
Proof.
  intros Ht Hf. unfold runs, query, tbind, try, exec. rewrite Hnet by done. unfold fits in Hf.
  destruct (s d) as [e|[a d']]; [subst e; by eexists|]. split; [lia|done].
Qed.

Lemma runs_toInt64 what k t d (Q : Z → DB → Prop) :
  0 ≤ k < 1000000000000 → Q k d → runs (toInt64 what (k * share)) t d Q.
Proof.
  intros Hk HQ. unfold runs, toInt64, numericToInt64. simpl.
  rewrite (float64_exact (numericOfColumn (k * share)) k); [done|by repeat split|lia].
Qed.

Lemma applyOrderFill_runs what i q t d o :
  (t0 ≤ t)%nat → (∀ i o, db_orders d !! i = Some o → row_ok o) → db_orders d !! i = Some o → 0 < q < 1000000000000 →
  runs (applyOrderFill what i q) t d (λ _ d', d' = with_dborders (<[i := fillRow (q * share) o]>) d ∧
    ∀ i o, db_orders d' !! i = Some o → row_ok o).
Proof.
  intros Ht Hrows Ho Hq. apply runs_inr; [|intros a t' d' Hrun; by eapply applyOrderFill_inr].
  destruct (Hrows i o Ho) as [(kq & Eq & Hkq) (kf & Ef & Hkf) _ _].
  apply runs_bind, runs_query; [done|]. unfold GetOrderByID. sql_fits. rewrite Ho. apply fits_sret. intros t1 Ht1.
  rewrite Ef, Eq. apply runs_bind, runs_toInt64; [done|]. intros t2 Ht2. apply runs_bind, runs_toInt64; [lia|].
  intros t3 Ht3. apply runs_query; [lia|]. apply UpdateOrderFill_fits; [done|]. destruct (_ <=? _); set_solver.
Qed.

Lemma payTrade_runs b s total t d ub :
  (t0 ≤ t)%nat → db_users d !! b = Some ub → total * tick4 ≤ u_Balance ub → is_Some (db_users d !! s) →
  runs (payTrade b s total) t d (λ _ d', (∃ f, d' = with_users f d) ∧ ∀ u, is_Some (db_users d !! u) → is_Some (db_users d' !! u)).
Proof.
  intros Ht Hb Hle Hs. apply runs_inr.
  - apply runs_bind, runs_query; [done|]. pose proof (DeductBalance_fits b (numericFromScaled total) d ub Hb eq_refl Hle) as Hf.
    revert Hf. unfold fits. destruct (DeductBalance _ _ _) as [e|[k d1]]; [done|]. intros -> t1 Ht1. simpl.
    apply runs_query; [lia|]. by apply AddBalance_fits.
  - intros a t' d' Hrun. apply payTrade_inr in Hrun as (ub' & us & _ & _ & _ & ->); [|done].
    split; [eexists (λ _, _); reflexivity|]. intros u Hu. simpl. by do 2 (apply lookup_insert_is_Some'; right).
Qed.

Lemma movePositions_runs b s ev trade t d :
  (t0 ≤ t)%nat → t_Outcome trade = OutcomeYes ∨ t_Outcome trade = OutcomeNo →
  is_Some (db_users d !! b) → is_Some (db_users d !! s) → is_Some (db_events d !! ev) →
  runs (movePositions b s ev trade) t d (λ _ d', ∃ f, d' = with_dbpositions f d).
Proof.
  intros Ht Hoc Hb Hs He. apply runs_inr.
  - apply runs_bind, runs_inr; [by apply runs_query, UpsertPosition_fits|].
    intros a t1 d1 Hx t1' Ht1. apply query_inr, UpsertPosition_inr in Hx as [avg ->]. by apply runs_query, UpsertPosition_fits; [lia|..].
  - intros a t' d' Hrun. by apply movePositions_inr in Hrun as [? _].
Qed.

Lemma enterLedger_runs i b s tk mk trade total t d :
  (t0 ≤ t)%nat → t_Outcome trade = OutcomeYes ∨ t_Outcome trade = OutcomeNo →
  is_Some (db_users d !! b) → is_Some (db_users d !! s) → is_Some (db_orders d !! tk) → is_Some (db_orders d !! mk) →
  is_Some (db_trades d !! i) → runs (enterLedger i b s tk mk trade total) t d (λ _ _, True).
Proof.
  intros Ht Hoc Hb Hs Htk Hmk Hi. apply runs_bind, runs_inr; [apply runs_query, InsertTransaction_fits; auto|].
  intros a t1 d1 Hx t1' Ht1. apply query_inr, InsertTransaction_inr in Hx as ->; [|done..].
  apply runs_query, InsertTransaction_fits; auto; lia.
Qed.

(** ** The settlement of a trade that may be booked *)

Lemma bookable_refers d a t :
  DbShows d a → OrderRefs d → sides a t →
  is_Some (db_events d !! (t_EventID t : UUID)) ∧ is_Some (db_orders d !! (t_OrderID t : UUID)) ∧ is_Some (db_orders d !! (t_MatchOrderID t : UUID)) ∧
  is_Some (db_users d !! (t_BuyerID t : UUID)) ∧ is_Some (db_users d !! (t_SellerID t : UUID)).
Proof.
  intros Ha HR (rt & rm & Et & Em & Ee & Hu). rewrite <- (ds_orders _ _ Ha) in Et, Em.
  destruct (HR _ _ Et) as [Hut Het], (HR _ _ Em) as [Hum _]. rewrite <- Ee.
  split_and!; [done|by eexists|by eexists|..]; destruct Hu as [[E1 E2]|[E1 E2]]; rewrite <- ?E1, <- ?E2; done.
Qed.

Lemma settleBody_runs trade a t d :
  (t0 ≤ t)%nat → trade_entry trade → Projection d → DbShows d a → OrderRefs d → bookable a trade →
  runs (settleBody trade) t d (λ _ _, True).
Proof.
  intros Ht He HP Ha HR [Hnew Hpaid Hsides].
  destruct (bookable_refers d a trade Ha HR Hsides) as (Hev & [ot Hot] & Hmk & [ub Hub] & Hus).
  assert (db_trades d !! (t_ID trade : UUID) = None) as Hnone.
  { rewrite (ds_trades _ _ Ha) in Hnew. apply bool_decide_eq_false in Hnew. by apply eq_None_not_Some. }
  assert (t_Quantity trade * t_Price trade * tick4 ≤ u_Balance ub) as Hle.
  { rewrite <- (ds_cash _ _ Ha) in Hpaid. unfold balanceRow in Hpaid. by rewrite Hub in Hpaid. }
  unfold settleBody.
  do 6 (apply runs_bind; eapply runs_parse; [apply cn_parse, He|]; intros ? ?).
  set (p := mkInsertTrade _ _ _ _ _ _ _ _ _ _). apply runs_bind.
  assert (fits (InsertTrade p) d (λ _ _, True)) as Hfit.
  { apply InsertTrade_fits; [apply He|apply He|done|done| |done]. split; [done|by eexists|done|by eexists|done]. }
  unfold runs at 1, try, exec. rewrite Hnet by lia. unfold fits in Hfit. destruct (InsertTrade p d) as [e|[[] d1]] eqn:Ei.
  { split; [lia|]. subst e. intros t1 Ht1. by eexists. }
  split; [lia|]. intros t1 Ht1. apply InsertTrade_inr in Ei as (_ & _ & Hok & ->).
  assert (0 < t_Quantity trade < 1000000000000) as Hq.
  { apply Z.ltb_lt in Hok. change (tr_Quantity (tradeRow p)) with (t_Quantity trade * share) in Hok.
    pose proof (te_quantity _ He). unfold decimal_limit, share in Hok. lia. }
  rewrite mul64_id by apply He. apply runs_bind.
  eapply runs_mono; [apply (applyOrderFill_runs _ _ _ _ _ ot); [lia|apply HP|done|done]|]. intros _ d2 [-> Hrows2] t2 Ht2.
  assert (is_Some (<[(t_OrderID trade : UUID) := fillRow (t_Quantity trade * share) ot]> (db_orders d) !!
    (t_MatchOrderID trade : UUID))) as [om Hom] by (apply lookup_insert_is_Some'; by right).
  apply runs_bind. eapply runs_mono; [apply (applyOrderFill_runs _ _ _ _ _ om); [lia|done|done|done]|].
  intros _ d3 [-> _] t3 Ht3. apply runs_bind.
  eapply runs_mono; [apply (payTrade_runs _ _ _ _ _ ub); [lia|done|done|done]|].
  intros _ d4 [[f ->] Hu4] t4 Ht4. simpl in Hu4. pose proof (Hu4 _ (mk_is_Some _ _ Hub)) as Hub4. pose proof (Hu4 _ Hus) as Hus4.
  apply runs_bind. eapply runs_mono; [apply movePositions_runs; [lia|apply He|done|done|done]|].
  intros _ d5 [g ->] t5 Ht5. apply runs_bind.
  eapply runs_mono; [apply enterLedger_runs; [lia|apply He|done|done|..]|]; simpl.
  { apply lookup_insert_is_Some'. right. apply lookup_insert_is_Some'. right. by eexists. }
  { apply lookup_insert_is_Some'. by left. }
  { rewrite lookup_insert_eq. by eexists. }
  intros _ d6 _ t6 Ht6. apply runs_bind, runs_query; [lia|].
  eapply fits_mono; [by apply IncrementEventVolume_fits|]. intros. by apply runs_ret.
Qed.

Lemma settleBody_again trade t d :
  (t0 ≤ t)%nat → trade_entry trade → is_Some (db_trades d !! (t_ID trade : UUID)) → runs (settleBody trade) t d (λ _ _, True).
Proof.
  intros Ht He Hin. unfold settleBody. do 6 (apply runs_bind; eapply runs_parse; [apply cn_parse, He|]; intros ? ?).
  set (p := mkInsertTrade _ _ _ _ _ _ _ _ _ _). apply runs_bind. unfold runs at 1, try, exec. rewrite Hnet by lia.
  destruct (InsertTrade_repeated p d) as [-> | ->]; [apply He|apply He|done..| |]; (split; [lia|]); intros t1 Ht1; simpl.
  - by eexists.
  - by apply runs_ret.
Qed.
End transactions.

(** ** Entries *)

Section entries.
Context `{Packages} `{Network} `{RedisServer} `{!PackageLaws}.

(** No error, or an overflow. *)
Definition answered (err : option WorkerError) : Prop := match err with None => True | Some e => overflow e end.

Section served.
Context (wk : Worker).
Hypothesis Hnet : ∀ n, (wk_calls wk ≤ n)%nat → net n = Served.

Lemma settleTrade_answers trade w err w' :
  (wk_calls wk ≤ wk_calls w)%nat → (∀ t, (wk_calls wk ≤ t)%nat → runs (settleBody trade) t (wk_db w) (λ _ _, True)) →
  settleTrade trade w = (err, w') → answered err ∧ (err = None → wk_calls wk ≤ wk_calls w')%nat.
Proof.
  intros Hc Hb Hrun. unfold settleTrade in Hrun. rewrite Hnet in Hrun by done.
  specialize (Hb (S (wk_calls w)) ltac:(lia)). unfold runs in Hb.
  destruct (settleBody trade (S (wk_calls w)) (wk_db w)) as [[[e|b] t] d]; [by injection Hrun as <- <-|]. destruct Hb as [Ht _].
  destruct b; [rewrite Hnet in Hrun by lia|]; injection Hrun as <- <-; (split; [done|simpl; lia]).
Qed.

Lemma autocommit_answers {A} (s : Stmt A) k w err w' :
  (wk_calls wk ≤ wk_calls w)%nat → (∀ e, s (wk_db w) = inl e → answered (k (inl e))) → (∀ a, k (inr a) = None) →
  autocommit s k w = (err, w') → answered err ∧ (wk_calls wk ≤ wk_calls w')%nat.
Proof.
  intros Hc He Hk Hrun. unfold autocommit, exec in Hrun. rewrite Hnet in Hrun by done.
  destruct (s (wk_db w)) as [e|[a d]]; injection Hrun as <- <-; (split; [|simpl; lia]); [by apply He|by rewrite Hk].
Qed.

(** The rows the entry of an order refers to. *)
Definition rows_there (x : Entry) (d : DB) : Prop := match x with
  | Announced o => is_Some (db_events d !! (o_EventID o : UUID)) ∧ is_Some (db_users d !! (o_UserID o : UUID))
  | _ => True
  end.

Lemma handleEnvelope_answers x env w err w' a :
  (wk_calls wk ≤ wk_calls w)%nat → entry_ok x → ev_Type env = entryType x → decoded x env → allowed a x ∨ booked x a →
  Projection (wk_db w) → DbShows (wk_db w) a → OrderRefs (wk_db w) → rows_there x (wk_db w) →
  decideEnvelope env Served (wk_redis w) = Some fencingAccept → handleEnvelope env w = (err, w') →
  answered err ∧ (err = None → wk_calls wk ≤ wk_calls w')%nat.
Proof.
  intros Hc Hx Ht Hd Hal HP Ha HR Hrows Hdec Hrun. unfold handleEnvelope in Hrun. rewrite Hnet, Hdec, Ht in Hrun by done.
  set (w0 := mkWorker _ _ _ _) in Hrun. assert (wk_calls wk ≤ wk_calls w0)%nat as Hc0 by (simpl; lia).
  destruct x as [o|t|id]; simpl in Hrun, Hd, Hal, Hrows.
  - unfold handleOrderCreated in Hrun. rewrite Hd in Hrun. simpl in Hrun.
    rewrite (cn_parse _ (oe_id _ Hx)), (cn_parse _ (oe_event _ Hx)), (cn_parse _ (oe_user _ Hx)) in Hrun.
    apply autocommit_answers in Hrun as [? ?]; [auto|done| |done]. intros e He. simpl in He.
    change (mkInsertOrder _ _ _ _ _ _ _ _ _ _ _) with (orderParams (o_ID o) (o_EventID o) (o_UserID o) o) in He.
    destruct Hal as [Hnew|Hin]; rewrite <- (ds_orders _ _ Ha) in Hnew || rewrite <- (ds_orders _ _ Ha) in Hin.
    + pose proof (InsertOrder_fits (o_ID o) (o_EventID o) (o_UserID o) o (wk_db w) (oe_wf _ Hx) (oe_price _ Hx)
        (oe_status _ Hx) (proj1 Hrows) (proj2 Hrows) Hnew) as Hf. unfold fits in Hf. rewrite He in Hf. subst e. by eexists.
    + destruct (InsertOrder_repeated (o_ID o) (o_EventID o) (o_UserID o) o (wk_db w) (oe_wf _ Hx) (oe_price _ Hx)
        (oe_status _ Hx) Hin) as [E|E]; rewrite He in E; injection E as ->; [by eexists|done].
  - unfold handleTradeExecuted in Hrun. destruct Hd as [Hd Hv]. rewrite Hd, Hv in Hrun.
    eapply settleTrade_answers in Hrun; [done|done|]. intros t1 Ht1. destruct Hal as [Hbk|Hb].
    + by eapply settleBody_runs.
    + eapply settleBody_again; [done|done|done|]. rewrite (ds_trades _ _ Ha) in Hb. by apply bool_decide_eq_true in Hb.
  - unfold handleOrderCanceled in Hrun. rewrite Hd, (cn_parse _ Hx) in Hrun.
    apply autocommit_answers in Hrun as [? ?]; [auto|done| |done]. intros e He. exfalso.
    unfold UpdateOrderStatus, sbind, sget in He. destruct (db_orders _ !! _); done.
Qed.

Lemma processEvent_answers id raw x env err wk' a :
  unmarshal_envelope raw = Some env → entry_ok x → ev_Type env = entryType x → decoded x env → allowed a x ∨ booked x a →
  Projection (wk_db wk) → DbShows (wk_db wk) a → OrderRefs (wk_db wk) → rows_there x (wk_db wk) →
  decideEnvelope env Served (wk_redis wk) = Some fencingAccept → processEvent id raw wk = (err, wk') → answered err.
Proof.
  intros Hu Hx Ht Hd Hal HP Ha HR Hrows Hdec Hrun. unfold processEvent in Hrun. rewrite Hu in Hrun.
  destruct (handleEnvelope env wk) as [e w1] eqn:E.
  apply (handleEnvelope_answers x env wk e w1 a) in E as [He Hc]; [|done..].
  destruct e as [e|]; [by injection Hrun as <- <-|]. rewrite Hnet in Hrun by auto. by injection Hrun as <- <-.
Qed.
End served.

(** ** References *)

Lemma OrderRefs_mono d d' :
  OrderRefs d → (∀ u, is_Some (db_users d !! u) → is_Some (db_users d' !! u)) →
  (∀ ev, is_Some (db_events d !! ev) → is_Some (db_events d' !! ev)) →
  (∀ i o', db_orders d' !! i = Some o' → ∃ o, db_orders d !! i = Some o ∧ or_UserID o' = or_UserID o ∧ or_EventID o' = or_EventID o) →
  OrderRefs d'.
Proof.
  intros HR Hu Hev Ho i o' (o & Ho1 & -> & ->)%Ho. destruct (HR _ _ Ho1). auto.
Qed.

Lemma effect_OrderRefs env d d' : Projection d → event_ok env → OrderRefs d → effect env d d' → OrderRefs d'.
Proof.
  intros HP [Htr _] HR [|trade t t' d1 Ht Hu Hv Hs|oid eid uid o r d1 Ht Hu Hi He Hus Hs|id oid r d1 Ht Hu Hi Hs]; [done| | |].
  - apply validateTrade_bounds in Hv as [Hq _].
    apply settleBody_true in Hs as (i & tr & _ & Hse); [|done|done|by apply Htr].
    apply (OrderRefs_mono d); [done|..].
    + intros u Hu'. destruct (se_users _ _ _ _ Hse) as (ub & us & _ & _ & _ & ->). by do 2 (apply lookup_insert_is_Some'; right).
    + intros ev Hev. destruct (se_events _ _ _ _ Hse) as (ev0 & _ & ->). apply lookup_insert_is_Some'. by right.
    + intros j o'. destruct (se_orders _ _ _ _ Hse) as (ot & om & Hot & Hom & ->).
      apply lookup_insert_Some in Hom as Hom'.
      intros [[<- <-]|[_ [[<- <-]|[_ Hj]]%lookup_insert_Some]]%lookup_insert_Some; [|by eexists|by eexists].
      destruct Hom' as [[<- <-]|[_ Hm]]; by eexists.
  - unfold InsertOrder in Hs. sql_inv. intros j oj; simpl. intros [[<- <-]|[_ Hj]]%lookup_insert_Some; [done|by eapply HR].
  - apply UpdateOrderStatus_inr in Hs as [[_ ->]|(o & Ho & ->)]; [done|]. apply (OrderRefs_mono d); [done..|].
    intros j o'. simpl. intros [[<- <-]|[_ Hj]]%lookup_insert_Some; by eexists.
Qed.

Lemma processEvent_refs id raw x env w err w' :
  unmarshal_envelope raw = Some env → entry_ok x → ev_Type env = entryType x → decoded x env →
  Projection (wk_db w) → OrderRefs (wk_db w) → processEvent id raw w = (err, w') → OrderRefs (wk_db w').
Proof.
  intros Hu Hx Ht Hd HP HR Hrun. destruct (processEvent_effect _ _ _ _ _ Hrun) as [_ [->|(env' & Hu' & Heff)]]; [done|].
  rewrite Hu in Hu'. injection Hu' as <-. eapply effect_OrderRefs; [done|by eapply entry_event_ok|done|done].
Qed.
End entries.


