(* ===== verification/Pipeline.v ===== *)
(** The contract between the engine and the DB worker: what the engine emits is
    what the worker's theorems assume. *)

From S2P Require Import Prelude Json Types Router State Ledger Matching Sweep Invariant Settle.
From S2P Require Import Events Outbox Depth Commands Handlers Register Match Sections Concurrency Fixtures.
From S2P Require Import Lease Repository Statements DbWorker Projection Persistence.
Local Open Scope Z_scope.

#[local] Instance dues_proper : Proper ((≡ₚ) ==> eq ==> eq) dues.
Proof. intros ts ts' Hp o o' <-. unfold dues. by rewrite Hp. Qed.

Lemma Inv_Permutation ts ts' e : ts ≡ₚ ts' → Inv ts e → Inv ts' e.
Proof.
  intros Hp [HA HT HL HB]. constructor; [done|done| |done]. intros id p Hid. rewrite <- Hp. by apply (HL id).
Qed.

(** The bounds of a trade that waits for its settlement. *)
Lemma trade_bounds trs e tr :
  Inv trs e → Forall (trade_ok e) trs → tr ∈ trs →
  in64 (t_Quantity tr * t_Price tr) ∧ 0 < t_Quantity tr ≤ max_int64 ∧ 0 ≤ t_Price tr ≤ max_int64 ∧
  (t_Outcome tr = OutcomeYes ∨ t_Outcome tr = OutcomeNo).
Proof.
  intros HI Hok Hin. apply elem_of_Permutation in Hin as [ts Hp].
  pose proof (Inv_Permutation _ _ _ Hp HI) as HI'. rewrite Hp in Hok.
  apply Forall_cons in Hok as [(b & s & HP) Hts].
  destruct (parties_cover e tr ts b s HI' Hts HP) as (Lb & Ls & Hc & Hq & Hb & Hs).
  destruct (balance_bound e (inv_accounts _ _ HI') (t_BuyerID tr)) as (_ & _ & Hcash & _).
  pose proof (position_bound e (inv_accounts _ _ HI') (positionKey (t_SellerID tr) (t_EventID tr) (t_Outcome tr))) as Hpos.
  pose proof (acc_cash _ (inv_accounts _ _ HI')). pose proof (acc_shares _ (inv_accounts _ _ HI')).
  pose proof (acc_bal _ (inv_accounts _ _ HI') (t_BuyerID tr)) as [Hab _].
  pose proof (pt_qty _ _ _ _ HP). pose proof (pt_price _ _ _ _ HP).
  assert (t_Outcome tr = OutcomeYes ∨ t_Outcome tr = OutcomeNo) as Hoc.
  { rewrite <- (pt_outcome _ _ _ _ HP). destruct (parties_table e tr b s HP) as (bi & si & _ & Hsi & _).
    by apply (inv_table _ _ HI' _ _ Hsi). }
  split_and!; [|lia|lia|lia|nia|done]. unfold in64, min_int64. nia.
Qed.

Section pipeline.
Context `{Environment}.

(** The trades of a matching wait in a state of the invariant. *)
Lemma matched_trades e p t trs e' t' :
  Inv [] e → pending e p → within_budget e p t → matchOrderLocked p e t = Some (trs, e', t') →
  trs = [] ∨ ∃ e1, Inv trs e1 ∧ Forall (trade_ok e1) trs.
Proof.
  intros HI HP Hbud Hrun.
  destruct (matchOrderLocked_cases e p t HI HP)
    as [(e1 & E & _)|(m & b & h' & keep & trs1 & t1 & Hst & Hm & Hb & Hsw & E)]; rewrite E in Hrun; injection Hrun as <- _ _.
  - by left.
  - right. eexists. split; by apply (matched_Inv e p t m b h' keep trs1 t1).
Qed.

(** The ids of a trade are present. *)
Definition named (tr : Trade) : Prop :=
  t_ID tr ≠ "" ∧ t_EventID tr ≠ "" ∧ t_OrderID tr ≠ "" ∧ t_MatchOrderID tr ≠ "" ∧
  t_BuyerID tr ≠ "" ∧ t_SellerID tr ≠ "".

Lemma validateTrade_named tr :
  named tr → 0 < t_Quantity tr → 0 ≤ t_Price tr → t_Outcome tr = OutcomeYes ∨ t_Outcome tr = OutcomeNo →
  validateTrade tr = None.
Proof.
  intros (H1 & H2 & H3 & H4 & H5 & H6) Hq Hp Hoc. unfold validateTrade. rewrite !seqb_ne by done.
  rewrite (proj2 (Z.leb_gt _ _) Hq), (proj2 (Z.ltb_ge _ _) Hp). by destruct Hoc as [-> | ->].
Qed.

(** The engine keeps its promises to the DB worker.  In every state of the
    engine's invariant: the event for a registered order announces a PENDING
    order without fills; the event for each trade of a matching decodes to that
    trade, passes the worker's validation, and its cost fits an int64.  So the
    events of the engine are those for which the database stays exact. *)
Lemma engine_events_meet_worker e :
  Inv [] e →
  (∀ o p e1 env, placeable o → cost_in_range o → registerOrder o e = (RegOK p, e1) →
     ev_Type env = EventOrderCreated → ev_Data env = JText (order_json (deref (heap e1) p)) → event_ok env) ∧
  (∀ p t trs e' t' tr env, pending e p → within_budget e p t →
     matchOrderLocked p e t = Some (trs, e', t') → tr ∈ trs →
     ev_Type env = EventTradeExecuted → ev_Data env = JText (trade_json tr) →
     event_ok env ∧ unmarshal_trade (ev_Data env) = Some tr ∧ (named tr → validateTrade tr = None)).
Proof.
  intros HI. split.
  - intros o p e1 env Ho Hc Hr Hty Hd. split; [intros ? Hty'; rewrite Hty in Hty'; discriminate|].
    destruct (registerOrder_cases e o HI Ho Hc) as [(q & _ & E)|[(_ & err & e2 & E & _)|(_ & _ & _ & E)]];
      rewrite E in Hr; [discriminate Hr|discriminate Hr|]. injection Hr as <- <-.
    pose proof (proj1 (set_aside_frame e o (lockFor e o))) as Eh.
    assert (deref (heap (registered e o)) (length (heap e)) = set_LockedFunds (lockFor e o) o) as Ed.
    { unfold registered. simpl. rewrite Eh. apply deref_app_r. }
    destruct Ho as [[(Q1 & Q2 & Q3 & Q4) Hpos _ _ _ Hprice _] Hf _ Hst].
    intros o' _. rewrite Hd, Ed, unmarshal_marshal_order.
    + intros [= <-]. simpl. split_and!; [done|lia|done].
    + unfold order_in_range, in64, min_int64, max_int64 in *. simpl. lia.
  - intros p t trs e' t' tr env HP Hb Hrun Hin Hty Hd.
    destruct (matched_trades _ _ _ _ _ _ HI HP Hb Hrun) as [->|(e1 & HI1 & Hok)]; [by apply elem_of_nil in Hin|].
    destruct (trade_bounds _ _ _ HI1 Hok Hin) as (Hc & Hq & Hp & Hoc).
    assert (unmarshal_trade (ev_Data env) = Some tr) as Hu.
    { rewrite Hd. apply unmarshal_marshal_trade. unfold trade_in_range, in64, min_int64. lia. }
    split_and!; [|done|intros; apply validateTrade_named; by try lia]. split.
    + intros tr' _. rewrite Hu. by intros [= <-].
    + intros o Hty'. rewrite Hty in Hty'. discriminate.
Qed.
End pipeline.

(** ** Witness *)

#[local] Existing Instance testEnv.

(** Alice's crossing bid of the fixture: its first trade is one the worker settles. *)
Lemma engine_events_meet_worker_witness :
  ∃ tr, tr ∈ (from_option (λ r, r.1.1) [] (matchOrderLocked 3 market4 0)) ∧
    validateTrade tr = None ∧ t_Quantity tr = 5 ∧
    event_ok (mkEnvelope "x" EventTradeExecuted 0 1 1 0 (JText (trade_json tr))).
Proof.
  destruct (matchOrderLocked 3 market4 0) as [[[trs e'] t']|] eqn:E; [|vm_compute in E; discriminate E].
  destruct trs as [|tr trs]; [vm_compute in E; discriminate E|]. exists tr. split; [left|].
  destruct (engine_events_meet_worker market4 (fl_inv _ market4_Flying)) as [_ Htr].
  destruct (Htr 3%nat 0%nat (tr :: trs) e' t' tr (mkEnvelope "x" EventTradeExecuted 0 1 1 0 (JText (trade_json tr))))
    as (Hok & _ & Hv).
  - apply (fl_pending _ market4_Flying). left.
  - intros _ Hm. vm_compute in Hm. discriminate Hm.
  - exact E.
  - left.
  - reflexivity.
  - reflexivity.
  - apply (f_equal (option_map (λ r : list Trade * Engine * nat, head r.1.1))) in E.
    vm_compute in E. injection E as <-. split_and!; [apply Hv|reflexivity|exact Hok].
    repeat split; discriminate.
Defined.
