(* ===== verification/EngineAccount.v ===== *)
(** The engine as an account: what a command does to the ledger, the books and
    the order table is what the entries it announces say.

    [FundsShow]: balances and positions show the account; [OrdersShow]: so do the
    orders of the table.  The engine may start with shares the account does not
    know of ([endow]): only what moves afterwards is announced. *)

From S2P Require Import Prelude Json Types Router State Ledger Matching Sweep Invariant Settle.
From S2P Require Import Events Outbox Depth Commands Handlers Register Match Sections Commanding.
From S2P Require Import Repository Statements DbWorker Projection Account Pipeline.
From Stdlib Require Import Ascii.
Local Open Scope Z_scope.

(** ** What the engine shows *)

(** A user the engine has not heard of counts as one with the starting balance. *)
Definition credit (e : Engine) (u : string) : Z :=
  match balances e !! u with Some b => bal_Available b + bal_Reserved b | None => DefaultStartingBalance end.

Definition held (e : Engine) (k : string) : Z :=
  pos_Available (positionOf e k) + pos_Reserved (positionOf e k).

Definition colonfree (s : string) : Prop := free_of ":"%char s = true.

Record FundsShow (endow : string * string * string → Z) (e : Engine) (a : Account) : Prop := {
  fs_cash u : a_cash a u = credit e u * tick4;
  fs_shares u ev oc : colonfree u → colonfree ev →
    a_shares a (u, ev, oc) = (held e (positionKey u ev oc) - endow (u, ev, oc)) * share
}.

Definition OrdersShow (tbl : gmap string nat) (h : list Order) (a : Account) : Prop :=
  ∀ i, a_orders a i = (λ p, lineOf (deref h p)) <$> tbl !! i.

(** The status follows from the fill, unless the order was taken back. *)
Definition status_ok (o : Order) : Prop :=
  o_Status o = StatusCanceled ∨ o_Status o = status_of (o_Quantity o) (o_FilledQuantity o).

Lemma positionKey_inj u ev oc u' ev' oc' :
  colonfree u → colonfree ev → colonfree u' → colonfree ev' →
  positionKey u ev oc = positionKey u' ev' oc' → (u, ev, oc) = (u', ev', oc').
Proof.
  intros Hu Hev Hu' Hev' [-> Heq]%free_of_split; [|done..].
  apply free_of_split in Heq as [-> ->]; done.
Qed.

Lemma credit_put u b e v :
  credit (putBalance u b e) v = if decide (u = v) then bal_Available b + bal_Reserved b else credit e v.
Proof. unfold credit, putBalance. simpl. rewrite lookup_insert. by case_decide. Qed.

Lemma credit_known e u :
  is_Some (balances e !! u) → credit e u = bal_Available (balanceOf e u) + bal_Reserved (balanceOf e u).
Proof. intros [b Hb]. unfold credit, balanceOf. by rewrite Hb. Qed.

Lemma held_put k p e k' :
  held (putPosition k p e) k' = if decide (k = k') then pos_Available p + pos_Reserved p else held e k'.
Proof. unfold held. rewrite positionOf_put. by case_decide. Qed.

(** The two maps decide what is shown. *)
Lemma FundsShow_core endow e e' a :
  balances e' = balances e → positions e' = positions e → FundsShow endow e a → FundsShow endow e' a.
Proof.
  intros Hb Hp [Hc Hs]. split; intros; unfold credit, held, positionOf; rewrite ?Hb, ?Hp; [apply Hc|by apply Hs].
Qed.

Lemma FundsShow_heap endow f e a : FundsShow endow e a → FundsShow endow (with_heap f e) a.
Proof. by apply FundsShow_core. Qed.

(** Moving an amount between available and reserved shows nothing. *)
Lemma FundsShow_putBalance endow e a u b :
  bal_Available b + bal_Reserved b = credit e u → FundsShow endow e a → FundsShow endow (putBalance u b e) a.
Proof.
  intros Hb [Hc Hs]. split; [|done]. intros v. rewrite credit_put. case_decide; subst; rewrite ?Hb; apply Hc.
Qed.

Lemma FundsShow_putPosition endow e a k p :
  pos_Available p + pos_Reserved p = held e k → FundsShow endow e a → FundsShow endow (putPosition k p e) a.
Proof.
  intros Hp [Hc Hs]. split; [done|]. intros u ev oc Hu Hev. rewrite held_put. case_decide; subst; rewrite ?Hp; by apply Hs.
Qed.

(** ** Settlement *)

Section settle.
Context (endow : string * string * string → Z).

(** The ids of a trade are without colons, and its parties have accounts. *)
Record known (e : Engine) (t : Trade) : Prop := {
  kn_buyer : is_Some (balances e !! t_BuyerID t);
  kn_seller : is_Some (balances e !! t_SellerID t);
  kn_buyer_free : colonfree (t_BuyerID t);
  kn_seller_free : colonfree (t_SellerID t);
  kn_event_free : colonfree (t_EventID t)
}.

Section one.
Context (e : Engine) (t : Trade) (ts : list Trade) (b s : nat).
Hypotheses (HI : Inv (t :: ts) e) (Hts : Forall (trade_ok e) ts) (HP : parties e t b s) (Hk : known e t).

Lemma settle_balances v : is_Some (balances e !! v) → is_Some (balances (settleTradeLocked t e) !! v).
Proof.
  intros Hv. rewrite (settle_eq e t ts b s HI Hts HP). simpl.
  by do 2 (apply lookup_insert_is_Some'; right).
Qed.

Lemma settle_credit v :
  credit (settleTradeLocked t e) v * tick4 = credit e v * tick4 + cashFlow v t.
Proof.
  rewrite (settle_eq e t ts b s HI Hts HP). unfold settled_accounts, cashFlow, costOfTrade.
  change (credit (with_heap ?f ?e)) with (credit e).
  change (credit (putPosition ?k ?p ?e)) with (credit e). rewrite credit_put.
  change (credit (putPosition ?k ?p ?e)) with (credit e). rewrite credit_put.
  pose proof (pt_users _ _ _ _ HP) as Hne. destruct Hk as [Hb Hs _ _ _].
  destruct (seqb_spec (t_SellerID t) v) as [<-|Hv].
  - rewrite decide_True by done. rewrite (credit_known _ _ Hs), (seqb_ne _ _ Hne). simpl. lia.
  - rewrite decide_False by done. destruct (seqb_spec (t_BuyerID t) v) as [<-|Hv'].
    + rewrite decide_True by done. rewrite (credit_known _ _ Hb). simpl. lia.
    + rewrite decide_False by done. lia.
Qed.

Lemma settle_held u ev oc : colonfree u → colonfree ev →
  held (settleTradeLocked t e) (positionKey u ev oc) * share =
    held e (positionKey u ev oc) * share + shareFlow (u, ev, oc) t.
Proof.
  intros Hu Hev. destruct Hk as [_ _ Hbf Hsf Hef]. pose proof (pt_users _ _ _ _ HP) as Hne.
  assert (∀ x, colonfree x → bool_decide (positionKey x (t_EventID t) (t_Outcome t) = positionKey u ev oc) =
    bool_decide ((u, ev, oc) = (x, t_EventID t, t_Outcome t))) as Hkey.
  { intros x Hx. apply bool_decide_ext. split; [|by intros [= -> -> ->]].
    intros Heq. symmetry. by apply positionKey_inj. }
  pose proof (Hkey _ Hbf) as Hkb. pose proof (Hkey _ Hsf) as Hks.
  rewrite (settle_eq e t ts b s HI Hts HP). unfold settled_accounts, shareFlow.
  change (held (with_heap ?f ?e)) with (held e). rewrite held_put.
  change (held (putBalance ?k ?p ?e)) with (held e). rewrite held_put.
  change (held (putBalance ?k ?p ?e)) with (held e).
  repeat case_bool_decide; try done; repeat case_decide; simplify_eq; try done;
    repeat match goal with E : positionKey _ _ _ = positionKey _ _ _ |- _ => rewrite <- E end; unfold held; simpl; try lia.
Qed.

Lemma settle_funds a : FundsShow endow e a →
  FundsShow endow (settleTradeLocked t e) (post (Executed t) a) ∧ costOfTrade t ≤ a_cash a (t_BuyerID t).
Proof.
  intros [Hc Hs]. split; [split|].
  - intros u. simpl. by rewrite settle_credit, Hc.
  - intros u ev oc Hu Hev. simpl. rewrite Hs by done. pose proof (settle_held u ev oc Hu Hev). lia.
  - rewrite Hc, (credit_known _ _ (kn_buyer _ _ Hk)). unfold costOfTrade.
    destruct (parties_cover e t ts b s HI Hts HP) as (_ & _ & Hcost & _ & Hb & _).
    pose proof (balance_bound e (inv_accounts _ _ HI) (t_BuyerID t)) as (? & _).
    assert (t_Quantity t * t_Price t ≤ bal_Reserved (balanceOf e (t_BuyerID t))) by lia.
    unfold tick4. lia.
Qed.
End one.

(** The buyers of a list of trades can pay, one after the other. *)
Fixpoint payable (a : Account) (ts : list Trade) : Prop :=
  match ts with
  | [] => True
  | t :: ts => costOfTrade t ≤ a_cash a (t_BuyerID t) ∧ payable (post (Executed t) a) ts
  end.

Lemma settle_batch_funds ts : ∀ e a,
  Inv ts e → Forall (trade_ok e) ts → Forall (known e) ts → FundsShow endow e a →
  let e' := foldl (λ e trade, settleTradeLocked trade e) e ts in
  FundsShow endow e' (postAll (Executed <$> ts) a) ∧ payable a ts ∧
  ∀ v, is_Some (balances e !! v) → is_Some (balances e' !! v).
Proof.
  induction ts as [|t ts IH]; intros e a HI Hok Hk Ha; simpl; [done|].
  apply Forall_cons in Hok as [(b & s & HP) Hok], Hk as [Hkt Hk].
  destruct (settle_funds e t ts b s HI Hok HP Hkt a Ha) as [Ha' Hpay].
  pose proof (settle_balances e t ts b s HI Hok HP) as Hbal.
  assert (relocked e (settleTradeLocked t e)) as Hr.
  { split; [by eapply settle_length|intros p; by eapply settle_unlocked|..];
      by apply (settle_frame e t ts b s HI Hok HP). }
  destruct (IH (settleTradeLocked t e) (post (Executed t) a)) as (H1 & H2 & H3); [|by eapply trades_relocked| |done|].
  - by eapply settle_Inv.
  - eapply Forall_impl; [exact Hk|]. intros t' []. split; auto.
  - split_and!; [done|done|done|]. eauto.
Qed.

Lemma release_funds e p a :
  Accounts e → (p < length (heap e))%nat → is_Some (balances e !! o_UserID (deref (heap e) p)) →
  FundsShow endow e a →
  FundsShow endow (releaseOrderLocked p e) a ∧
  ∀ v, is_Some (balances e !! v) → is_Some (balances (releaseOrderLocked p e) !! v).
Proof.
  intros HA Hp Hk Ha. destruct (release_ranges e p HA Hp) as (H0 & _).
  destruct (decide (o_LockedFunds (deref (heap e) p) = 0)) as [E|].
  { rewrite release_nothing by lia. done. }
  rewrite (release_eq e p HA Hp) by lia. unfold release_accounts. split.
  - apply FundsShow_heap. destruct (_ =s _).
    + apply FundsShow_putBalance; [|done]. rewrite credit_known by done. simpl. lia.
    + apply FundsShow_putPosition; [|done]. unfold held. simpl. lia.
  - intros v Hv. destruct (_ =s _); simpl; [|done]. apply lookup_insert_is_Some'. by right.
Qed.
End settle.

(** ** Matching *)

Section matching.
Context `{Environment}.

(** The ids of the trades of a sweep are drawn one after the other. *)
Lemma sweep_ids p l : ∀ h t h' keep trs t',
  sweep p h l t = (h', keep, trs, t') →
  t_ID <$> trs = uuid_NewString <$> seq t (length trs) ∧ t' = (t + length trs)%nat.
Proof.
  induction l as [|q l IH]; intros h t h' keep trs t'; simpl.
  { intros [= <- <- <- <-]. simpl. split; [done|lia]. }
  destruct (_ <=? 0). { intros [= <- <- <- <-]. simpl. split; [done|lia]. }
  destruct (eligible _ _).
  - destruct (sweep p (fillPair h p q) l (S t)) as [[[h1 k1] ts1] t1] eqn:E. intros [= <- _ <- <-].
    destruct (IH _ _ _ _ _ _ E) as [Hi ->]. split; [|simpl; lia]. by rewrite fmap_cons, Hi.
  - destruct (sweep p h l t) as [[[h1 k1] ts1] t1] eqn:E. intros [= <- _ <- <-]. by eapply IH.
Qed.

(** Every trade of a sweep is booked on the rows of its two orders. *)
Section lines.
Context (p : nat) (tbl : gmap string nat).

Record tabled (h : list Order) (l : list nat) : Prop := {
  tb_ids : ∀ i r, tbl !! i = Some r → o_ID (deref h r) = i;
  tb_taker : tbl !! o_ID (deref h p) = Some p;
  tb_makers : ∀ q, q ∈ l → tbl !! o_ID (deref h q) = Some q;
  tb_live : o_Status (deref h p) = StatusPending
}.

Lemma fillPair_lines h q l t a :
  sweepable p h (q :: l) → 0 < o_RemainingQuantity (deref h p) → tabled h (q :: l) → OrdersShow tbl h a →
  OrdersShow tbl (fillPair h p q) (post (Executed (tradeOf h p q t)) a) ∧ tabled (fillPair h p q) l ∧
  sides a (tradeOf h p q t).
Proof.
  intros Hs Hr [Hids Htk Hmk Hlive] Ha.
  destruct (sweepable_head p h q l Hs) as (Hp & Hq & Hpq & Hpl & Hql & Hqp & Hrq).
  pose proof (Hmk q ltac:(left)) as Hqt. pose proof (fillPair_sweepable p h q l Hs) as Hs'.
  assert (∀ r, static (deref (fillPair h p q) r) = static (deref h r)) as Hst by (intros; by apply fillPair_static).
  assert (o_ID (deref h p) ≠ o_ID (deref h q)) as Hne by (intros E; rewrite E in Htk; congruence).
  set (n := Z.min (o_RemainingQuantity (deref h p)) (o_RemainingQuantity (deref h q))).
  assert (0 < n) as Hn by (destruct Hrq as (_ & ? & _); lia).
  split_and!.
  - intros i. unfold tradeOf. fold n. simpl. unfold fillLine. rewrite !Ha.
    destruct (tbl !! i) as [r|] eqn:Er; simpl; [|by destruct (_ =s i), (_ =s i)].
    pose proof (Hids _ _ Er) as <-. 
    destruct (decide (r = q)) as [->|Hrq'].
    + rewrite seqb_refl, (seqb_ne _ _ Hne). simpl. f_equal. rewrite fillPair_maker by done. fold n. symmetry.
      destruct Hrq as ((?&?&?&?)&?&?). apply lineOf_fill; [done|done|done| |].
      * unfold qty_ok, fillMaker; simpl. lia.
      * unfold withdrawn, fillMaker; simpl. by destruct (_ <=? _).
    + rewrite seqb_ne by congruence. destruct (decide (r = p)) as [->|Hrp].
      * rewrite seqb_refl. simpl. f_equal. rewrite fillPair_taker by done. fold n. symmetry.
        destruct Hqp as (?&?&?&?). apply lineOf_fill; [done|done|done| |].
        -- unfold qty_ok, fillTaker; simpl. lia.
        -- unfold withdrawn, fillTaker; simpl. by rewrite Hlive.
      * rewrite seqb_ne by congruence. by rewrite fillPair_other.
  - split.
    + intros i r Hi. destruct (static_inv _ _ (Hst r)) as (-> & _). by apply Hids.
    + by destruct (static_inv _ _ (Hst p)) as (-> & _).
    + intros r Hrl. destruct (static_inv _ _ (Hst r)) as (-> & _). apply Hmk. by right.
    + by rewrite fillPair_taker.
  - exists (lineOf (deref h p)), (lineOf (deref h q)). simpl. rewrite !Ha, Htk, Hqt. split_and!; [done..|].
    destruct (_ =s _); auto.
Qed.

Lemma fillPair_status h q l r :
  sweepable p h (q :: l) → 0 < o_RemainingQuantity (deref h p) → r ≠ p → status_ok (deref h r) →
  status_ok (deref (fillPair h p q) r).
Proof.
  intros Hs Hp Hr Hok. destruct (sweepable_head p h q l Hs) as (? & ? & Hpq & _ & _ & _ & (?&?&?&?) & ? & _).
  destruct (decide (r = q)) as [->|]; [|by rewrite fillPair_other].
  rewrite fillPair_maker by done. right. unfold fillMaker, status_of. simpl.
  destruct (Z.eqb_spec (o_FilledQuantity (deref h q) + Z.min (o_RemainingQuantity (deref h p)) (o_RemainingQuantity (deref h q))) 0); [lia|].
  match goal with |- (if ?b then _ else _) = if ?c then _ else _ => assert (b = c) as -> by lia end. done.
Qed.

Fixpoint placed (a : Account) (ts : list Trade) : Prop :=
  match ts with
  | [] => True
  | t :: ts => sides a t ∧ placed (post (Executed t) a) ts
  end.

Lemma sweep_lines l : ∀ h t h' keep trs t' a,
  sweepable p h l → sweep p h l t = (h', keep, trs, t') → tabled h l → OrdersShow tbl h a →
  OrdersShow tbl h' (postAll (Executed <$> trs) a) ∧ placed a trs ∧ o_Status (deref h' p) = StatusPending ∧
  ∀ r, r ≠ p → status_ok (deref h r) → status_ok (deref h' r).
Proof.
  induction l as [|q l IH]; intros h t h' keep trs t' a Hs Hsw Ht Ha; simpl in Hsw.
  { injection Hsw as <- <- <- <-. split_and!; [done|done|apply Ht|done]. }
  destruct (Z.leb_spec (o_RemainingQuantity (deref h p)) 0).
  { injection Hsw as <- <- <- <-. split_and!; [done|done|apply Ht|done]. }
  destruct (eligible _ _) eqn:He.
  - destruct (sweep p (fillPair h p q) l (S t)) as [[[h1 k1] ts1] t1] eqn:E. injection Hsw as <- <- <- <-.
    destruct (fillPair_lines h q l t a) as (Ha1 & Ht1 & Hsd); [done|lia|done|done|].
    destruct (IH _ _ _ _ _ _ _ (fillPair_sweepable _ _ _ _ Hs) E Ht1 Ha1) as (Ha2 & Hpl & Hp & Hst).
    split_and!; [done|by split|done|]. intros r Hr Hok. apply Hst; [done|].
    by apply (fillPair_status h q l).
  - destruct (sweep p h l t) as [[[h1 k1] ts1] t1] eqn:E. injection Hsw as <- <- <- <-.
    eapply IH; [by eapply sweepable_cons_inv|exact E| |done].
    destruct Ht as [? ? Hmk ?]. split; [done|done| |done]. intros r Hr. apply Hmk. by right.
Qed.
End lines.
End matching.
