(* ===== verification/Announcing.v ===== *)
(** What the engine announces is what it does.

    [Shows e t a]: the engine shows the account [a], and the trades booked in it
    got their ids before the tick [t].  Every critical section keeps it, with the
    entries the section accounts for; [handleMessage] appends these entries, in
    this order, to the event stream. *)

From S2P Require Import Prelude Json Types Router State Ledger Matching Sweep Invariant Settle.
From S2P Require Import Events Outbox Depth Commands Handlers Register Match Sections Commanding.
From S2P Require Import Repository Statements DbWorker Projection Account Pipeline EngineAccount.
Local Open Scope Z_scope.

(** The ids the engine draws are new and written the canonical way. *)
Class FreshIds `{Environment} `{Packages} : Prop := {
  uuid_fresh : Inj (=) (=) uuid_NewString;
  uuid_canonical n : canonical (uuid_NewString n)
}.
#[export] Existing Instance uuid_fresh.

Section announcing.
Context `{Environment} `{Packages} `{!FreshIds}.
Context (endow : string * string * string → Z).

(** ** The engine shows an account *)

(** The orders of the table are named canonically, and their owners have accounts. *)
Record order_known (e : Engine) (id : string) (o : Order) : Prop := {
  ok_id : canonical id;
  ok_event : canonical (o_EventID o);
  ok_user : canonical (o_UserID o);
  ok_owner : is_Some (balances e !! o_UserID o);
  ok_status : status_ok o
}.

Record Shows (e : Engine) (t : nat) (a : Account) : Prop := {
  sh_funds : FundsShow endow e a;
  sh_orders : OrdersShow (orders e) (heap e) a;
  sh_known id p : orders e !! id = Some p → order_known e id (deref (heap e) p);
  sh_trades i : a_trades a i = true → ∃ n, (n < t)%nat ∧ i = uuid_NewString n
}.

Lemma Shows_tick e t t' a : (t ≤ t')%nat → Shows e t a → Shows e t' a.
Proof.
  intros Ht [? ? ? Hs]. split; [done..|]. intros i Hi. destruct (Hs i Hi) as (n & ? & ->). exists n. split; [lia|done].
Qed.

Lemma Shows_core e e' t a : core e' = core e → Shows e t a → Shows e' t a.
Proof.
  intros (Hh & Hm & Ho & Hb & Hp)%core_inv [Hf Hor Hk Htr]. split; [by eapply FundsShow_core|by rewrite Hh, Ho| |done].
  intros id p. rewrite Hh, Ho. intros Hid. destruct (Hk id p Hid). split; try done. by rewrite Hb.
Qed.

Lemma OrdersShow_unlocked tbl h h' a :
  (∀ p, unlocked (deref h' p) = unlocked (deref h p)) → OrdersShow tbl h a → OrdersShow tbl h' a.
Proof.
  intros Hu Ha i. rewrite Ha. destruct (tbl !! i) as [p|]; [|done]. simpl. f_equal. by apply lineOf_unlocked.
Qed.

Lemma order_known_unlocked e e' id o o' :
  unlocked o' = unlocked o → is_Some (balances e' !! o_UserID o) → order_known e id o → order_known e' id o'.
Proof.
  intros (_&Ee&Eu&_&_&_&Eq&Ef&_&_&Es&_)%unlocked_inv Hb [? ? ? ? Hst].
  split; rewrite ?Ee, ?Eu; try done. unfold status_ok in *. by rewrite Es, Eq, Ef.
Qed.

(** Only locks and accounts change, and no account goes away. *)
Lemma Shows_relocked e e' t a :
  relocked e e' → FundsShow endow e' a → (∀ v, is_Some (balances e !! v) → is_Some (balances e' !! v)) →
  OrdersShow (orders e) (heap e) a → (∀ id p, orders e !! id = Some p → order_known e id (deref (heap e) p)) →
  (∀ i, a_trades a i = true → ∃ n, (n < t)%nat ∧ i = uuid_NewString n) → Shows e' t a.
Proof.
  intros [_ Hh _ Ho] Hf Hb Hor Hk Htr. split; [done| | |done].
  - rewrite Ho. by eapply OrdersShow_unlocked.
  - intros id p. rewrite Ho. intros Hid. pose proof (Hk id p Hid) as Hkn.
    eapply order_known_unlocked; [apply Hh|apply Hb, Hkn|done].
Qed.

Lemma Shows_funds e e' t a :
  FundsShow endow e' a → heap e' = heap e → orders e' = orders e →
  (∀ v, is_Some (balances e !! v) → is_Some (balances e' !! v)) → Shows e t a → Shows e' t a.
Proof.
  intros Hf Hh Ho Hb [_ Hor Hk Htr]. split; [done|by rewrite Hh, Ho| |done].
  intros id p. rewrite Hh, Ho. intros Hid. destruct (Hk id p Hid). split; auto.
Qed.

(** Giving back a lock shows nothing. *)
Lemma release_shows e p t a id :
  Accounts e → orders e !! id = Some p → (p < length (heap e))%nat → Shows e t a → Shows (releaseOrderLocked p e) t a.
Proof.
  intros HA Hid Hp Ha. destruct (release_funds endow e p a HA Hp) as [Hf Hb].
  { apply (ok_owner _ _ _ (sh_known _ _ _ Ha id p Hid)). }
  { apply Ha. }
  eapply Shows_relocked; [by apply release_relocked|done|done|apply Ha..].
Qed.

Lemma releaseDone_shows e p t a id :
  Inv [] e → orders e !! id = Some p → Shows e t a → Shows (releaseDone p e) t a.
Proof.
  intros HI Hid Ha. destruct (inv_table _ _ HI _ _ Hid) as (Hp & _ & _). unfold releaseDone.
  destruct (_ || _); [|done]. eapply release_shows; [apply HI|done..].
Qed.

(** A market order does not stay open. *)
Definition rested (o : Order) : Prop := o_OrderType o = OrderTypeLimit ∨ final_status (o_Status o) = true.

Definition Rested (e : Engine) : Prop := ∀ id p, orders e !! id = Some p → rested (deref (heap e) p).

Lemma rested_unlocked o o' : unlocked o' = unlocked o → rested o → rested o'.
Proof. intros (_&_&_&Et&_&_&_&_&_&_&Es&_)%unlocked_inv. unfold rested. by rewrite Et, Es. Qed.

(** ** A batch of trades *)

Lemma postAll_trades ts a i :
  a_trades (postAll (Executed <$> ts) a) i = true → a_trades a i = true ∨ i ∈ (t_ID <$> ts).
Proof.
  revert a. induction ts as [|tr ts IH]; intros a; [by left|]. intros Hi. destruct (IH (post (Executed tr) a) Hi) as [Hp|?].
  - simpl in Hp. apply orb_true_iff in Hp as [E%seqb_eq|?]; [right; rewrite <- E; by left|by left].
  - right. by right.
Qed.

Lemma valid_trades ts : ∀ a,
  payable a ts → placed a ts → NoDup (t_ID <$> ts) → (∀ i, i ∈ (t_ID <$> ts) → a_trades a i = false) →
  valid a (Executed <$> ts).
Proof.
  induction ts as [|tr ts IH]; intros a; simpl; [done|].
  intros [Hc Hpay] [Hsd Hpl] [Hni Hnd]%NoDup_cons Hnew. split.
  - split; [|done..]. apply Hnew. by left.
  - apply IH; [done..|]. intros i Hi. simpl. rewrite (Hnew i) by (by right).
    rewrite seqb_ne; [done|]. intros <-. done.
Qed.

(** ** Matching *)

Section match_order.
Context (e : Engine) (p : nat) (m : Market) (b : OrderBook) (t : nat) (a : Account).
Context (h' : list Order) (keep : list nat) (trs : list Trade) (t' : nat).
Let o : Order := deref (heap e) p.
Hypothesis HI : Inv [] e.
Hypothesis HP : pending e p.
Hypothesis Hbud : within_budget e p t.
Hypothesis Hst : o_Status o = StatusPending.
Hypothesis Hm : markets e !! o_EventID o = Some m.
Hypothesis Hb : Book m (o_Outcome o) = Some b.
Hypothesis Hsw : sweep p (heap e) (oppSide o b) t = (h', keep, trs, t').
Hypothesis Ha : Shows e t a.

Let e1 : Engine := matchedEngine p m h' (withOpp o keep b) e.

Lemma match_taker : order_known e (o_ID o) o.
Proof. apply (sh_known _ _ _ Ha), HP. Qed.

Lemma match_maker r : r ∈ oppSide o b → order_known e (o_ID (deref (heap e) r)) (deref (heap e) r).
Proof. intros Hr. apply (sh_known _ _ _ Ha). by apply (maker_table e p m b HI Hm Hb). Qed.

Lemma match_known : Forall (known e1) trs.
Proof.
  apply Forall_forall. intros tr Hin.
  destruct (trade_facts e p m b t HI HP Hm Hb h' keep trs t' Hsw tr Hin) as (r & n & t0 & Hr & _ & _ & ->).
  destruct match_taker as [_ [_ _ ?] [_ _ ?] ? _], (match_maker r Hr) as [_ _ [_ _ ?] ? _]. fold o.
  split; simpl; try done; by destruct (_ =s _).
Qed.

Lemma match_entries : Forall trade_entry trs.
Proof.
  destruct (matched_Inv e p t m b h' keep trs t' HI HP Hbud Hst Hm Hb Hsw) as (HI1 & Htr & _).
  apply Forall_forall. intros tr Hin. destruct (trade_bounds _ _ _ HI1 Htr Hin) as (Hc & Hq & Hp & Hoc).
  destruct (trade_facts e p m b t HI HP Hm Hb h' keep trs t' Hsw tr Hin) as (r & n & t0 & Hr & Hn & He & ->).
  destruct match_taker as [? ? ? _ _], (match_maker r Hr) as [? _ ? _ _]. fold o in Hc, Hq, Hp, Hoc |- *.
  assert (o_UserID (deref (heap e) r) ≠ o_UserID o) as Hu.
  { intros E. unfold eligible in He. fold o in He. by rewrite E, seqb_refl in He. }
  pose proof (maker_id_ne e p m b HI HP Hm Hb r Hr) as Hid. fold o in Hid.
  split; simpl; try done; try apply uuid_canonical; try (by destruct (_ =s _)).
  all: first [apply (taker_side e p HI HP)|destruct (_ =s _); congruence].
Qed.

Lemma match_tabled : tabled p (orders e) (heap e) (oppSide o b).
Proof.
  split; [intros i r Hi; by apply (inv_table _ _ HI)|apply HP| |done].
  intros q Hq. by apply (maker_table e p m b HI Hm Hb).
Qed.

Lemma match_fresh : NoDup (t_ID <$> trs) ∧ (∀ i, i ∈ (t_ID <$> trs) → a_trades a i = false) ∧
  (∀ i, i ∈ (t_ID <$> trs) → ∃ n, (n < t')%nat ∧ i = uuid_NewString n) ∧ (t ≤ t')%nat.
Proof.
  destruct (sweep_ids _ _ _ _ _ _ _ _ Hsw) as [-> ->]. split_and!; [|intros i..|lia].
  - apply (NoDup_fmap_2 uuid_NewString). apply NoDup_seq.
  - intros (n & -> & Hn%elem_of_seq)%list_elem_of_fmap.
    destruct (a_trades a (uuid_NewString n)) eqn:E; [|done].
    destruct (sh_trades _ _ _ Ha _ E) as (k & Hk & ->%(inj uuid_NewString)). lia.
  - intros (n & -> & Hn%elem_of_seq)%list_elem_of_fmap. exists n. split; [lia|done].
Qed.

(** The status of the taker is the status of its row. *)
Lemma matched_lines a1 : OrdersShow (orders e) h' a1 → o_Status (deref h' p) = StatusPending →
  OrdersShow (orders e) (heap e1) a1.
Proof.
  intros Ha1 Hp i. rewrite Ha1. destruct (orders e !! i) as [q|] eqn:Hi; [|done]. simpl. f_equal.
  change (heap e1) with (matchedHeap p h'). destruct (decide (q = p)) as [->|Hq].
  - rewrite (h2_taker e p m b t HI HP Hm Hb h' keep trs t' Hsw). unfold lineOf, withdrawn. simpl. rewrite Hp.
    change (StatusPending =s StatusCanceled) with false. simpl. unfold finalStatus.
    destruct (_ =? 0); [done|]. destruct (_ =s OrderTypeLimit); [by destruct (0 <? _)|done].
  - by rewrite (h2_ne p h' q Hq).
Qed.

Lemma matched_known : o_Status (deref h' p) = StatusPending →
  (∀ r, r ≠ p → status_ok (deref (heap e) r) → status_ok (deref h' r)) →
  ∀ id q, orders e !! id = Some q → order_known e1 id (deref (heap e1) q).
Proof.
  intros Hp Hok id q Hid. change (heap e1) with (matchedHeap p h').
  destruct (static_inv _ _ (h2_static e p m b t HI HP Hm Hb h' keep trs t' Hsw q)) as (_&Ee&Eu&_).
  destruct (sh_known _ _ _ Ha id q Hid) as [? ? ? ? ?]. split; rewrite ?Ee, ?Eu; try done.
  destruct (decide (q = p)) as [->|Hq].
  2:{ rewrite (h2_ne p h' q Hq). by apply Hok. }
  pose proof (h2_taker_qty e p m b t HI HP Hm Hb h' keep trs t' Hsw) as (Q1 & Q2 & Q3 & Q4).
  rewrite (h2_taker e p m b t HI HP Hm Hb h' keep trs t' Hsw) in *. simpl in *.
  unfold status_ok, finalStatus, status_of. simpl.
  pose proof (wf_pos _ (proj2 (taker_table e p HI HP))) as Hpos.
  destruct (static_inv _ _ (h'_static e p m b t HI HP Hm Hb h' keep trs t' Hsw)) as (_&_&_&_&_&_&Eq&_).
  rewrite <- Eq in Hpos. destruct (Z.eqb_spec (o_RemainingQuantity (deref h' p)) 0).
  - right. rewrite (proj2 (Z.eqb_neq _ _)), (proj2 (Z.leb_le _ _)) by lia. done.
  - destruct (_ =s OrderTypeLimit); [right|by left].
    destruct (Z.ltb_spec 0 (o_FilledQuantity (deref h' p))).
    + rewrite (proj2 (Z.eqb_neq _ _)), (proj2 (Z.leb_gt _ _)) by lia. done.
    + by rewrite (proj2 (Z.eqb_eq _ _)) by lia.
Qed.

Lemma match_shows :
  ∃ e', matchOrderLocked p e t = Some (trs, e', t') ∧ Shows e' t' (postAll (Executed <$> trs) a) ∧
    valid a (Executed <$> trs).
Proof.
  destruct (matched_Inv e p t m b h' keep trs t' HI HP Hbud Hst Hm Hb Hsw) as (HI1 & Htr & Hl1).
  destruct (sweep_lines p (orders e) _ _ _ _ _ _ _ a (match_sweepable e p m b HI HP Hm Hb) Hsw match_tabled
    (sh_orders _ _ _ Ha)) as (Hor & Hpl & Hp & Hok).
  destruct match_fresh as (Hnd & Hnew & Hdrawn & Hle). fold o e1 in HI1, Htr, Hl1.
  destruct (settle_batch trs _ HI1 Htr) as (HI2 & _ & _ & Hr2).
  destruct (settle_batch_funds endow trs e1 a HI1 Htr match_known) as (Hf2 & Hpay & Hb2).
  { apply (FundsShow_core endow e); [done|done|apply Ha]. }
  set (e2 := foldl (λ e trade, settleTradeLocked trade e) e1 trs) in *.
  set (a' := postAll (Executed <$> trs) a) in *.
  assert (Shows e2 t' a') as Hs2.
  { eapply Shows_relocked; [exact Hr2|done|done|by apply matched_lines|by apply matched_known|].
    intros i [Hi|Hi]%postAll_trades; [|by apply Hdrawn].
    destruct (sh_trades _ _ _ Ha i Hi) as (n & ? & ->). exists n. split; [lia|done]. }
  eexists. split; [by apply (matchOrderLocked_run e p t m b h' keep trs t')|]. fold o e1 e2.
  split; [|by apply valid_trades]. eapply releaseDone_shows; [done| |done].
  rewrite (rl_orders _ _ Hr2). apply HP.
Qed.

(** A market order is finished when its matching is. *)
Lemma match_rested e' :
  (∀ id q, orders e !! id = Some q → q ≠ p → rested (deref (heap e) q)) →
  matchOrderLocked p e t = Some (trs, e', t') → ∀ id q, orders e' !! id = Some q → rested (deref (heap e') q).
Proof.
  intros Hold Hrun id q. destruct (matchOrderLocked_Inv e p t HI HP Hbud) as (trs1 & e2 & t2 & Hrun2 & _ & _ & _ & _ & _ & Ho).
  rewrite Hrun in Hrun2. injection Hrun2 as <- <- <-. rewrite Ho. intros Hid.
  rewrite (matchOrderLocked_run e p t m b h' keep trs t' HI HP Hst Hm Hb Hsw) in Hrun. injection Hrun as <-.
  destruct (matched_Inv e p t m b h' keep trs t' HI HP Hbud Hst Hm Hb Hsw) as (HI1 & Htr & Hl1).
  fold o e1 in HI1, Htr, Hl1 |- *. destruct (settle_batch trs _ HI1 Htr) as (HI2 & _ & _ & Hr2).
  pose proof (inv_table _ _ HI _ _ Hid) as (Hlen & Eid & _).
  assert (relocked e1 (releaseDone p (foldl (λ e trade, settleTradeLocked trade e) e1 trs))) as Hr.
  { etrans; [exact Hr2|]. unfold releaseDone. destruct (_ || _); [|done]. apply release_relocked; [apply HI2|].
    rewrite (rl_length _ _ Hr2), Hl1. apply (taker_table e p HI HP). }
  eapply rested_unlocked; [apply (rl_heap _ _ Hr)|]. change (heap e1) with (matchedHeap p h').
  destruct (decide (q = p)) as [->|Hq].
  - rewrite (h2_taker e p m b t HI HP Hm Hb h' keep trs t' Hsw). unfold rested, finalStatus. simpl.
    destruct (_ =? 0); [by right|]. destruct (seqb_spec (o_OrderType (deref h' p)) OrderTypeLimit); [by left|by right].
  - destruct (decide (q ∈ oppSide o b)) as [Hin|Hin].
    + left. destruct (maker_table e p m b HI Hm Hb q Hin) as (_ & _ & Hr0).
      destruct (static_inv _ _ (h2_static e p m b t HI HP Hm Hb h' keep trs t' Hsw q)) as (_&_&_&->&_). apply Hr0.
    + rewrite (h2_other e p m b t HI HP Hm Hb h' keep trs t' Hsw q Hq Hin). by eapply Hold.
Qed.
End match_order.

(** ** Registration *)

Lemma set_aside_funds e o l a :
  is_Some (balances e !! o_UserID o) → FundsShow endow e a → FundsShow endow (set_aside o l e) a.
Proof.
  intros Hk Ha. unfold set_aside. destruct (_ =s _).
  - apply FundsShow_putBalance; [|done]. rewrite credit_known by done. simpl. lia.
  - apply FundsShow_putPosition; [|done]. unfold held. simpl. lia.
Qed.

Lemma set_aside_known e o l v : is_Some (balances e !! v) → is_Some (balances (set_aside o l e) !! v).
Proof.
  intros Hv. unfold set_aside. destruct (_ =s _); [|done]. apply lookup_insert_is_Some'. by right.
Qed.

Lemma registered_shows e t a o :
  Inv [] e → placeable o → orders e !! o_ID o = None → order_known e (o_ID o) o → Shows e t a →
  Shows (registered e o) t (post (Announced o) a) ∧ allowed a (Announced o).
Proof.
  intros HI Hpl Hnew Hko Ha. destruct (registered_frame e o) as (Hh & _ & Hor & _). split; [split|].
  - apply (FundsShow_core endow (set_aside o (lockFor e o) e)); [done|done|].
    destruct (set_aside_funds e o (lockFor e o) a (ok_owner _ _ _ Hko) (sh_funds _ _ _ Ha)). by split.
  - rewrite Hh, Hor. intros i. simpl. destruct (seqb_spec (o_ID o) i) as [<-|Hne].
    + rewrite lookup_insert_eq. simpl. by rewrite deref_app_r.
    + rewrite lookup_insert_ne by done. rewrite (sh_orders _ _ _ Ha). destruct (orders e !! i) as [q|] eqn:Hi; [|done].
      simpl. by rewrite deref_app_l by (by apply (inv_table _ _ HI _ _ Hi)).
  - intros id q. rewrite Hh, Hor. intros [[<- <-]|[Hne Hi]]%lookup_insert_Some.
    + rewrite deref_app_r. eapply order_known_unlocked; [|by apply set_aside_known, Hko|exact Hko]. done.
    + rewrite deref_app_l by (by apply (inv_table _ _ HI _ _ Hi)). pose proof (sh_known _ _ _ Ha id q Hi) as Hkn.
      eapply order_known_unlocked; [|by apply set_aside_known, Hkn|exact Hkn]. done.
  - apply Ha.
  - simpl. by rewrite (sh_orders _ _ _ Ha), Hnew.
Qed.

(** A refused order leaves no trace in the account of a known user. *)
Lemma refused_shows e e' t a o err :
  is_Some (balances e !! o_UserID o) → registerOrder o e = (RegFailed err, e') → Shows e t a → Rested e →
  Shows e' t a ∧ Rested e'.
Proof.
  intros [bal Hb] Hr Ha HR. unfold registerOrder in Hr. destruct (orders e !! o_ID o); [done|].
  destruct (markets e !! _); [|by injection Hr as _ <-].
  destruct (seqb_spec (o_Side o) SideBuy) as [Hs|Hs].
  - rewrite reserve_buy in Hr by done. destruct (_ <? _); [|done]. injection Hr as _ <-.
    unfold getOrCreateBalance. by rewrite Hb.
  - rewrite reserve_sell in Hr by done. destruct (_ <? _); [|done]. injection Hr as _ <-.
    set (e' := snd _).
    assert (e' = e ∨ e' = putPosition (positionKey (o_UserID o) (o_EventID o) (o_Outcome o)) zeroPosition e ∧
      positionOf e (positionKey (o_UserID o) (o_EventID o) (o_Outcome o)) = zeroPosition) as [->|[-> Ez]]; [|done|].
    { unfold e', getOrCreatePosition, positionOf. destruct (positions e !! _); [by left|by right]. }
    split; [|exact HR]. apply (Shows_funds e); [|done..].
    apply FundsShow_putPosition; [|apply Ha]. unfold held. by rewrite Ez.
Qed.

(** ** Cancellation *)

Lemma cancel_shows e id ev t a p e' :
  Inv [] e → Shows e t a → Rested e → cancelOrderLocked id ev e = (CancelDone p, e') →
  o_ID (deref (heap e') p) = id ∧ canonical id ∧ allowed a (Withdrawn id) ∧
  Shows e' t (post (Withdrawn id) a) ∧ Rested e'.
Proof.
  intros HI Ha HR Hc. unfold cancelOrderLocked in Hc. destruct (orders e !! id) as [q|] eqn:Hid; [|done].
  destruct (_ && _); [done|]. destruct (final_status _) eqn:Hf; [done|].
  destruct (markets e !! _) as [m|] eqn:Hm; [|done]. destruct (Book m _) as [b|] eqn:Hb; [|done].
  fold (withoutOrder e q b) in Hc. injection Hc as <- <-.
  destruct (inv_table _ _ HI _ _ Hid) as (Hq & Eid & Hw). destruct (sh_known _ _ _ Ha id q Hid) as [Hcn Hce Hcu Hcb _].
  assert (o_OrderType (deref (heap e) q) = OrderTypeLimit) as Hlim by (destruct (HR id q Hid); congruence).
  pose proof Hid as Hid'. rewrite <- Eid in Hid'. pose proof (cancel_status_Inv e q m b HI Hid' Hm Hb) as HI2.
  set (e2 := with_heap _ _) in *.
  assert (∀ r, r ≠ q → deref (heap e2) r = deref (heap e) r) as Hne by (intros; by apply deref_store_ne).
  assert (deref (heap e2) q = set_Status StatusCanceled (deref (heap e) q)) as Heq by (by apply deref_store_eq).
  assert (q < length (heap e2))%nat as Hq2 by (unfold e2; simpl; by rewrite length_store).
  assert (orders e2 = orders e) as Ho2 by done. assert (balances e2 = balances e) as Hb2 by done.
  assert (positions e2 = positions e) as Hp2 by done. clearbody e2.
  assert (Shows e2 t (post (Withdrawn id) a)) as Hs2.
  { destruct Ha as [Hfu Hor Hk Htr]. split; [|rewrite Ho2..|done].
    - apply (FundsShow_core endow e); [done|done|]. by destruct Hfu.
    - intros i. simpl. destruct (seqb_spec id i) as [<-|Hi]; rewrite Hor.
      + rewrite Hid. simpl. by rewrite Heq, lineOf_cancel.
      + destruct (orders e !! i) as [r|] eqn:Hr; [|done]. simpl. rewrite Hne; [done|].
        intros ->. destruct (inv_table _ _ HI _ _ Hr) as (_ & E & _). congruence.
    - intros i r Hr. destruct (decide (r = q)) as [->|Hrq]; [rewrite Heq|rewrite Hne by done];
        destruct (Hk i _ Hr) as [? ? ? ? ?]; split; rewrite ?Hb2; try done. by left. }
  pose proof (release_relocked e2 q (inv_accounts _ _ HI2) Hq2) as Hr.
  split_and!; [|done| |by eapply (release_shows _ _ _ _ id); [apply HI2|by rewrite Ho2|..]|].
  - destruct (unlocked_inv _ _ (rl_heap _ _ Hr q)) as (-> & _). by rewrite Heq.
  - simpl. rewrite (sh_orders _ _ _ Ha), Hid. by eexists.
  - intros i r. rewrite (rl_orders _ _ Hr), Ho2. intros Hi. eapply rested_unlocked; [apply (rl_heap _ _ Hr)|].
    destruct (decide (r = q)) as [->|Hrq]; [rewrite Heq; by left|rewrite Hne by done; by eapply HR].
Qed.

(** ** Users and events *)

Lemma createUser_shows e u t a : Shows e t a → Shows (createUserLocked u e) t a.
Proof.
  intros Ha. unfold createUserLocked. destruct (balances e !! u) eqn:Hu; [done|].
  fold (putBalance u (mkBalance DefaultStartingBalance 0) e). apply (Shows_funds e); [|done|done| |done].
  - apply FundsShow_putBalance; [|apply Ha]. unfold credit. by rewrite Hu.
  - intros v Hv. apply lookup_insert_is_Some'. by right.
Qed.

Lemma createEvent_shows e ev t a : Shows e t a → Shows (snd (createEventLocked ev e)) t a.
Proof.
  intros Ha. unfold createEventLocked. destruct (markets e !! ev); [done|].
  apply (Shows_funds e); [|done..]. by apply (FundsShow_core endow e), Ha.
Qed.
End announcing.
