(* ===== verification/EventLog.v ===== *)
(** Commands on the live event stream.

    [live]: the partition emits, and every file and Redis call succeeds, the latter
    maybe after repeated attempts.  A command then appends to the stream exactly the
    entries of what it did, each once or several times in a row: after
    [handleMessage] the engine shows the account with the new entries posted, the
    entries may be booked one after the other, and each is well formed. *)

From S2P Require Import Prelude Json Types Router State Ledger Matching Sweep Invariant Settle.
From S2P Require Import Events Outbox Depth Commands Handlers Register Match Sections Commanding.
From S2P Require Import Repository Statements DbWorker Projection Account Pipeline EngineAccount Announcing.
Local Open Scope Z_scope.

Section log.
Context `{Environment} `{Packages} `{!FreshIds}.
Context (endow : string * string * string → Z) (pid : Z).
Hypothesis Hio : ∀ k, io_ok k = true.

(** ** Emission *)

Record live (w : World) : Prop := {
  lv_replaying : isReplaying (eng w) pid = false;
  lv_redis : redisManager (eng w) = true;
  lv_open : outboxOpen w = true;
  lv_slot : seq_slot (eng w) pid;
  lv_pid : pid ≤ max_int64;
  lv_token : 0 ≤ default 0 (partitionToken (eng w) !! pid) ≤ max_uint64
}.

(** From [w] to [w'], the entries [xs] were appended to the stream. *)
Record announced (w w' : World) (xs : list Entry) : Prop := {
  an_live : live w';
  an_setup : same_setup (eng w) (eng w');
  an_log : ∃ raws ys, xlog w' = xlog w ++ (pair (eventStream (eng w)) <$> ys) ∧ copied raws ys ∧ Forall2 carries raws xs;
  an_tick : (tick w ≤ tick w')%nat
}.

Lemma live_setup w w' : same_setup (eng w) (eng w') → outboxOpen w' = outboxOpen w → live w → live w'.
Proof.
  intros Hs Ho [Hr Hrm Hop Hsl Hp Ht]. pose proof (seq_slot_setup _ _ _ Hs Hsl) as Hsl'.
  destruct Hs as (Erm&_&_&_&_&Etk&_&Erp&_). split; [|by rewrite Erm|by rewrite Ho|done|done|by rewrite Etk].
  revert Hr. unfold isReplaying. by rewrite Erp.
Qed.

Lemma announced_nil w w' :
  same_setup (eng w) (eng w') → outboxOpen w' = outboxOpen w → xlog w' = xlog w → (tick w ≤ tick w')%nat →
  live w → announced w w' [].
Proof.
  intros Hs Ho Hx Ht Hl. split; [by eapply live_setup|done| |done]. exists [], []. split_and!; [by rewrite app_nil_r|constructor..].
Qed.

Lemma announced_refl w : live w → announced w w [].
Proof. by apply announced_nil. Qed.

Lemma announced_trans w1 w2 w3 xs ys :
  announced w1 w2 xs → announced w2 w3 ys → announced w1 w3 (xs ++ ys).
Proof.
  intros [_ S1 (r1 & y1 & E1 & D1 & F1) T1] [L2 S2 (r2 & y2 & E2 & D2 & F2) T2]. split; [done|by etrans| |lia].
  destruct S1 as (_&_&_&_&_&_&_&_&Es&_). exists (r1 ++ r2), (y1 ++ y2). split_and!; [|by apply copied_app|by apply Forall2_app].
  rewrite E2, E1, Es, fmap_app. by rewrite app_assoc.
Qed.

(** Emitting an entry succeeds, and puts it on the stream. *)
Lemma emit_entry x b w : live w →
  ∃ w', emitEventP pid (entryType x) (JText (entryData x)) b w = Some (None, w') ∧
    announced w w' [x] ∧ core (eng w') = core (eng w).
Proof.
  intros Hl. pose proof Hl as [Hr Hrm Ho [Hp0 Hsl] Hp Ht]. apply lookup_lt_is_Some_2 in Hsl as [n Hn].
  destruct (emitEventP_reliable Hio pid (entryType x) (JText (entryData x)) b w n Hr Hrm Ho Hp0 Hn) as (t' & k & k' & Ht' & Hk & _ & ->).
  set (env := envelopeOf _ _ _ _ _). set (w' := mkWorld _ _ _ _ _ _ _ _).
  assert (same_setup (eng w) (eng w')) as Hs by (repeat split; simpl; by rewrite ?length_insert).
  exists w'. split_and!; [done| |done]. split; [by eapply live_setup|done| |done].
  exists [JText (envelope_json env)], (replicate (S k) (JText (envelope_json env))).
  split_and!; [simpl; by rewrite fmap_replicate|by apply copied_one|]. constructor; [|constructor].
  exists env. split_and!; [|done|done]. eapply unmarshal_marshal_envelope; [|done].
  unfold envelope_in_range, in64, min_int64; simpl.
  pose proof (Z.mod_pos_bound (n + 1) 18446744073709551616). unfold wrapu64, max_uint64 in *. lia.
Qed.

Lemma publish_entries trs w : live w →
  ∃ w', publishTrades pid trs w = Some (tt, w') ∧ announced w w' (Executed <$> trs) ∧ core (eng w') = core (eng w).
Proof.
  revert w. induction trs as [|tr trs IH]; intros w Hl; simpl.
  { exists w. split_and!; [done|by apply announced_refl|done]. }
  set (w1 := with_metrics inc_Trades w). assert (live w1) as Hl1 by (by apply (live_setup w)).
  destruct (emit_entry (Executed tr) true w1 Hl1) as (w2 & E2 & A2 & C2).
  destruct (IH w2 (an_live _ _ _ A2)) as (w3 & E3 & A3 & C3). exists w3. split_and!; [| |by rewrite C3, C2].
  - erewrite bind_eq by reflexivity. erewrite bind_eq by exact E2. done.
  - apply (announced_trans w w1 w3 []); [by apply announced_nil|]. by apply (announced_trans w1 w2 w3 [_]).
Qed.

(** ** Commands *)

(** What a command may rely on, besides what [admissible] says: orders are named
    the way the services name them, have no negative price, and come from users the
    engine knows. *)
Definition named_request (e : Engine) (req : CreateOrderReq) : Prop :=
  (r_OrderID req = "" ∨ canonical (r_OrderID req)) ∧ canonical (r_EventID req) ∧ canonical (r_UserID req) ∧
  0 ≤ r_Price req ∧ is_Some (balances e !! r_UserID req).

Definition named_command (e : Engine) (msg : MessageToEngine) : Prop :=
  msg_Type msg = CreateOrderCommand → ∀ req, unmarshal_createOrder (msg_Payload msg) = Some req → named_request e req.

(** The state of the live engine that shows [a]. *)
Record tracked (w : World) (a : Account) : Prop := {
  sn_live : live w;
  sn_inv : Inv [] (eng w);
  sn_shows : Shows endow (eng w) (tick w) a;
  sn_rested : Rested (eng w)
}.

(** [m] ends, and announces entries that take the account [a] to what it shows then. *)
Definition follows {A} (m : M A) (w : World) (a : Account) : Prop := ∃ r w' xs,
  m w = Some (r, w') ∧ announced w w' xs ∧ valid a xs ∧ Forall entry_ok xs ∧ tracked w' (postAll xs a).

Lemma tracked_core w w' xs a : announced w w' xs → core (eng w') = core (eng w) → tracked w a → tracked w' a.
Proof.
  intros [Hl _ _ Ht] Hc [_ HI Ha HR]. split; [done| | |].
  - eapply Inv_same_ledger; [by apply same_ledger_core|done].
  - eapply Shows_tick; [done|]. by eapply Shows_core.
  - apply core_inv in Hc as (Hh & _ & Ho & _). intros id p. rewrite Hh, Ho. apply HR.
Qed.

Lemma follows_bind {A B} (m : M A) (k : A → M B) w a :
  follows m w a → (∀ r w' a', tracked w' a' → follows (k r) w' a') → follows (bind m k) w a.
Proof.
  intros (r & w1 & xs & E1 & A1 & V1 & F1 & S1) Hk.
  destruct (Hk r w1 _ S1) as (r2 & w2 & ys & E2 & A2 & V2 & F2 & S2).
  exists r2, w2, (xs ++ ys). rewrite (bind_eq _ _ _ _ _ E1), postAll_app. split_and!; [done| | | |done].
  - by eapply announced_trans.
  - by apply valid_app.
  - by apply Forall_app.
Qed.

(** Steps that leave engine and stream alone. *)
Lemma follows_quiet {A} (m : M A) w a r w' :
  m w = Some (r, w') → eng w' = eng w → outboxOpen w' = outboxOpen w → xlog w' = xlog w → (tick w ≤ tick w')%nat →
  tracked w a → follows m w a.
Proof.
  intros E He Ho Hx Ht Hs. assert (announced w w' []) as Ha.
  { apply announced_nil; [by rewrite He|done..|apply Hs]. }
  exists r, w', []. split_and!; [done|done|done|constructor|]. eapply tracked_core; [done|by rewrite He|done].
Qed.

Lemma follows_ret {A} (r : A) w a : tracked w a → follows (ret r) w a.
Proof. by apply (follows_quiet (ret r) w a r w). Qed.

Lemma follows_metrics f w a : tracked w a → follows (modify (with_metrics f)) w a.
Proof. by apply (follows_quiet _ w a tt (with_metrics f w)). Qed.

(** A critical section, then the announcement of its entries. *)
Lemma tracked_section w e' a : tracked w a → same_setup (eng w) e' → Inv [] e' → Rested e' → 
  ∀ a', Shows endow e' (tick w) a' → tracked (with_eng (λ _, e') w) a' ∧ announced w (with_eng (λ _, e') w) [].
Proof.
  intros Hs Hset HI HR a' Ha'. assert (announced w (with_eng (λ _, e') w) []) as Hann by (apply announced_nil; try done; apply Hs).
  split; [|done]. split; [apply Hann|done..].
Qed.

(** ** CREATE_ORDER *)

(** Before an order is matched, it alone may be an open market order. *)
Record matchable (w : World) (p : nat) (a : Account) : Prop := {
  mb_live : live w;
  mb_inv : Inv [] (eng w);
  mb_pending : pending (eng w) p;
  mb_status : o_Status (deref (heap (eng w)) p) = StatusPending;
  mb_market : is_Some (markets (eng w) !! o_EventID (deref (heap (eng w)) p));
  mb_budget : ∀ t, within_budget (eng w) p t;
  mb_shows : Shows endow (eng w) (tick w) a;
  mb_rested : ∀ id q, orders (eng w) !! id = Some q → q ≠ p → rested (deref (heap (eng w)) q)
}.

Lemma matchable_core w w' xs p a : announced w w' xs → core (eng w') = core (eng w) → matchable w p a → matchable w' p a.
Proof.
  intros [Hl _ _ Ht] Hc [_ HI HP Hst Hm Hb Ha HR].
  pose proof (core_inv _ _ Hc) as (Hh & Hmk & Ho & _). split; [done| | |by rewrite Hh|by rewrite Hh, Hmk| | |].
  - eapply Inv_same_ledger; [by apply same_ledger_core|done].
  - eapply pending_same_ledger; [by apply same_ledger_core|done].
  - intros t. by eapply within_budget_core.
  - eapply Shows_tick; [done|]. by eapply Shows_core.
  - intros id q. rewrite Hh, Ho. apply HR.
Qed.

Lemma runMatch_follows p w a : matchable w p a → ∃ trs w',
  runMatch p w = Some (trs, w') ∧ announced w w' [] ∧ valid a (Executed <$> trs) ∧ Forall trade_entry trs ∧
  tracked w' (postAll (Executed <$> trs) a).
Proof.
  intros [Hl HI HP Hst [m Hm] Hbud Ha HR].
  assert (is_Some (Book m (o_Outcome (deref (heap (eng w)) p)))) as [b Hb].
  { unfold Book. destruct (taker_table _ _ HI HP) as [_ Hw]. destruct (wf_outcome _ Hw) as [-> | ->]; by eexists. }
  destruct (sweep p (heap (eng w)) (oppSide (deref (heap (eng w)) p) b) (tick w)) as [[[h' keep] trs] t'] eqn:Hsw.
  destruct (match_shows endow (eng w) p m b (tick w) a h' keep trs t' HI HP (Hbud _) Hst Hm Hb Hsw Ha) as (e' & Hrun & Hs & Hv).
  pose proof (match_entries endow (eng w) p m b (tick w) a h' keep trs t' HI HP (Hbud _) Hst Hm Hb Hsw Ha) as Hent.
  pose proof (match_rested (eng w) p m b (tick w) h' keep trs t' HI HP (Hbud _) Hst Hm Hb Hsw e' HR Hrun) as HR'.
  destruct (matchOrderLocked_Inv (eng w) p (tick w) HI HP (Hbud _)) as (trs1 & e1 & t1 & Hrun1 & HI' & _).
  rewrite Hrun in Hrun1. injection Hrun1 as <- <- <-.
  destruct (sweep_ids _ _ _ _ _ _ _ _ Hsw) as [_ ->].
  assert (announced w (with_tick (tick w + length trs) (with_eng (λ _, e') w)) []) as Hann.
  { apply announced_nil; [by eapply setup_match|done|done|simpl; lia|done]. }
  exists trs, (with_tick (tick w + length trs) (with_eng (λ _, e') w)). unfold runMatch. rewrite Hrun.
  split_and!; [done|done|done|done|]. split; [apply Hann|done..].
Qed.

Lemma matchOrder_follows p w a : matchable w p a → follows (matchOrder p pid) w a.
Proof.
  intros Hmb. destruct (runMatch_follows p w a Hmb) as (trs & w1 & E1 & A1 & Hv & Hent & Hs1).
  set (w2 := if o_Status (deref (heap (eng w1)) p) =s StatusFilled then with_metrics inc_Filled w1 else w1).
  assert (announced w1 w2 [] ∧ core (eng w2) = core (eng w1)) as [A2 C2].
  { unfold w2. destruct (_ =s _); (split; [apply announced_nil; try done; apply Hs1|done]). }
  destruct (publish_entries trs w2 (an_live _ _ _ A2)) as (w3 & E3 & A3 & C3).
  exists trs, w3, (Executed <$> trs). split_and!; [| |done| |].
  - unfold matchOrder. rewrite (bind_eq _ _ _ _ _ E1), (bind_eq get_eng _ w1 (eng w1) w1) by done.
    rewrite (lv_replaying _ (an_live _ _ _ A1)). 
    rewrite (bind_eq _ _ w1 tt w2) by (unfold w2; by destruct (_ =s _)). by rewrite (bind_eq _ _ _ _ _ E3).
  - apply (announced_trans w w1 w3 []); [done|]. by apply (announced_trans w1 w2 w3 []).
  - by apply Forall_fmap.
  - eapply tracked_core; [exact A3|exact C3|]. by eapply tracked_core.
Qed.

Lemma emitAndMatch_follows p o w a :
  matchable w p (post (Announced o) a) → order_json (deref (heap (eng w)) p) = order_json o →
  allowed a (Announced o) → order_entry o → follows (emitAndMatch pid p) w a.
Proof.
  intros Hmb Hj Hal Hoe. unfold emitAndMatch, follows. rewrite (bind_eq get_eng _ w (eng w) w) by done. rewrite Hj.
  destruct (emit_entry (Announced o) false w (mb_live _ _ _ Hmb)) as (w1 & E1 & A1 & C1).
  rewrite (bind_eq _ _ _ _ _ E1).
  destruct (follows_bind (matchOrder p pid) (λ _, modify (with_metrics inc_Processed) ;;;
      e <- get_eng ;; let order := deref (heap e) p in
      ret (successJSON (JObj [
        ("filledQuantity", JInt (o_FilledQuantity order)); ("orderId", JStr (o_ID order));
        ("remainingQuantity", JInt (o_RemainingQuantity order)); ("status", JStr (o_Status order))])))
    w1 (post (Announced o) a)) as (r & w2 & xs & E2 & A2 & V2 & F2 & S2).
  - by eapply matchOrder_follows, matchable_core.
  - intros _ w' a' Hs'. apply follows_bind; [by apply follows_metrics|]. intros _ w2 a2 Hs2.
    by apply (follows_quiet _ w2 a2 _ w2 eq_refl).
  - exists r, w2, (Announced o :: xs). split_and!; [done| |done|by constructor|done].
    by apply (announced_trans w w1 w2 [_]).
Qed.

Lemma placeOrder_follows req id now w a :
  tracked w a → req_in_range req → servable (eng w) req → canonical id → named_request (eng w) req →
  follows (placeOrder pid (newOrder req id now)) w a.
Proof.
  intros Hs Hin [Hcost Hbud] Hid (_ & Hev & Hus & Hpr & Hknown). unfold placeOrder.
  destruct (validateOrder (newOrder req id now)) as [err|] eqn:Hv; [by apply follows_ret|].
  pose proof (validate_placeable req id now Hin Hv) as Hpl. set (o := newOrder req id now) in *.
  assert (cost_in_range o) as Hc by exact Hcost. pose proof (setup_register o (eng w)) as Hset.
  destruct Hs as [Hl HI Ha HR]. unfold follows. rewrite (bind_eq get_eng _ w (eng w) w) by done.
  destruct (registerOrder_cases (eng w) o HI Hpl Hc) as
    [(p & _ & Eq)|[(_ & err & e1 & Eq & Hsl)|(Hnew & Hav & Hm & Eq)]]; rewrite Eq in Hset |- *; simpl in Hset.
  - apply (follows_quiet _ w a _ (with_eng (λ _, eng w) w) eq_refl); by try split.
  - destruct (refused_shows endow (eng w) e1 (tick w) a o err Hknown Eq Ha HR) as [Ha1 HR1].
    destruct (tracked_section w e1 a (Build_tracked _ _ Hl HI Ha HR) Hset (Inv_same_ledger _ _ _ Hsl HI) HR1 a Ha1) as [Hs1 A1].
    eexists _, _, []. split_and!; [done|exact A1|done|constructor|done].
  - assert (order_known (eng w) (o_ID o) o) as Hko by (split; [done..|by right]).
    destruct (registered_shows endow (eng w) (tick w) a o HI Hpl Hnew Hko Ha) as [Ha1 Hal].
    destruct (registered_Inv (eng w) o HI Hpl Hc Hnew Hav) as [HI1 HP1].
    destruct (registered_frame (eng w) o) as (Hh & Hmk & Hor & _).
    assert (deref (heap (registered (eng w) o)) (length (heap (eng w))) = set_LockedFunds (lockFor (eng w) o) o) as Ed.
    { rewrite Hh. apply deref_app_r. }
    set (w1 := with_eng (λ _, registered (eng w) o) w).
    assert (announced w w1 []) as A1 by (by apply announced_nil).
    destruct (emitAndMatch_follows (length (heap (eng w))) o w1 a) as (r & w2 & xs & E2 & A2 & V2 & F2 & S2).
    + split; change (eng w1) with (registered (eng w) o); rewrite ?Ed; try done; [apply A1|by rewrite Hmk|intros t; apply Hbud|].
      intros i q. rewrite Hor, Hh. intros [[<- <-]|[_ Hi]]%lookup_insert_Some; [done|intros _].
      rewrite deref_app_l by (by apply (inv_table _ _ HI _ _ Hi)). by eapply HR.
    + change (eng w1) with (registered (eng w) o). by rewrite Ed.
    + done.
    + split; [done..|apply Hpl|done|done|done].
    + exists r, w2, xs. split_and!; [exact E2|by apply (announced_trans w w1 w2 [])|done..].
Qed.

Lemma named_request_eng e e' req : e' = e → named_request e req → named_request e' req.
Proof. by intros ->. Qed.

Lemma handleCreateOrderCore_follows payload w a :
  tracked w a →
  (∀ req, unmarshal_createOrder payload = Some req → servable (eng w) req ∧ named_request (eng w) req) →
  follows (handleCreateOrderCore pid payload) w a.
Proof.
  intros Hs Hreq. unfold handleCreateOrderCore.
  destruct (unmarshal_createOrder payload) as [req|] eqn:Hu; [|by apply follows_ret].
  destruct (Hreq req eq_refl) as [Hsv Hn]. apply unmarshal_createOrder_range in Hu.
  set (w1 := if r_OrderID req =s "" then with_tick (S (tick w)) w else w).
  set (id := if r_OrderID req =s "" then uuid_NewString (tick w) else r_OrderID req).
  assert (canonical id) as Hid.
  { unfold id. destruct (seqb_spec (r_OrderID req) ""); [apply uuid_canonical|]. by destruct Hn as [[?|?] _]. }
  assert (announced w w1 []) as A1.
  { unfold w1. destruct (_ =s _); (apply announced_nil; [done|done|done|simpl; lia|apply Hs]). }
  assert (eng w1 = eng w) as He1 by (unfold w1; by destruct (_ =s _)).
  pose proof (tracked_core w w1 [] a A1 ltac:(by rewrite He1) Hs) as Hs1.
  assert (follows (if r_Quantity req <=? 0 then ret (failure "quantity must be greater than zero")
     else now <- next_time ;; placeOrder pid (newOrder req id now)) w1 a) as (r & w3 & xs & E3 & A3 & R3).
  { destruct (_ <=? 0); [by apply follows_ret|]. set (w2 := with_tick (S (tick w1)) w1).
    assert (announced w1 w2 []) as A2 by (apply announced_nil; [done|done|done|simpl; lia|apply A1]).
    destruct (placeOrder_follows req id (time_Now (tick w1)) w2 a) as (r & w3 & xs & E3 & A3 & R3);
      [by eapply tracked_core|done|by change (eng w2) with (eng w1); rewrite He1|done|by apply (named_request_eng (eng w))|].
    exists r, w3, xs. rewrite (bind_eq next_time _ w1 (time_Now (tick w1)) w2) by done.
    split_and!; [done|by apply (announced_trans w1 w2 w3 [])|apply R3..]. }
  exists r, w3, xs. split_and!; [|by apply (announced_trans w w1 w3 [])|apply R3..].
  rewrite (bind_eq _ _ w id w1) by (unfold id, w1; by destruct (_ =s _)). exact E3.
Qed.

Lemma handleCreateOrderP_follows payload w a :
  tracked w a →
  (∀ req, unmarshal_createOrder payload = Some req → servable (eng w) req ∧ named_request (eng w) req) →
  follows (handleCreateOrderP pid payload) w a.
Proof.
  intros Hs Hreq. apply follows_bind; [by apply handleCreateOrderCore_follows|]. intros resp w1 a1 Hs1.
  unfold follows. rewrite (bind_eq get_eng _ w1 (eng w1) w1) by done. rewrite (lv_replaying _ (sn_live _ _ Hs1)).
  apply follows_bind; [by apply follows_metrics|]. intros _ w2 a2. by apply follows_ret.
Qed.

(** ** The other commands *)

Lemma handleCancelOrderP_follows payload w a : tracked w a → follows (handleCancelOrderP pid payload) w a.
Proof.
  intros Hs. unfold handleCancelOrderP.
  destruct (unmarshal_strings _ payload) as [[|id [|ev [|]]]|]; try by apply follows_ret.
  destruct (id =s ""); [by apply follows_ret|]. unfold follows. rewrite (bind_eq get_eng _ w (eng w) w) by done.
  pose proof Hs as [Hl HI Ha HR]. pose proof (cancelOrderLocked_Inv (eng w) id ev HI) as Hc.
  pose proof (setup_cancel id ev (eng w)) as Hset.
  destruct (cancelOrderLocked id ev (eng w)) as [res e1] eqn:E. destruct Hc as (Hnp & HI1 & _). simpl in Hset.
  destruct res as [err| |p]; [|done|].
  - assert (e1 = eng w) as -> by (unfold cancelOrderLocked in E; repeat case_match; by simplify_eq).
    apply (follows_quiet _ w a _ (with_eng (λ _, eng w) w) eq_refl); by try split.
  - destruct (cancel_shows endow (eng w) id ev (tick w) a p e1 HI Ha HR E) as (Eid & Hcn & Hal & Ha1 & HR1).
    destruct (tracked_section w e1 a Hs Hset HI1 HR1 _ Ha1) as [Hs1 A1]. set (w1 := with_eng (λ _, e1) w) in *.
    set (w2 := with_metrics inc_Canceled w1).
    assert (announced w1 w2 []) as A2 by (apply announced_nil; try done; apply A1).
    destruct (emit_entry (Withdrawn id) false w2 (an_live _ _ _ A2)) as (w3 & E3 & A3 & C3).
    pose proof (lv_replaying _ (an_live _ _ _ A1)) as Hrp. change (eng w1) with e1 in Hrp.
    eexists _, w3, [Withdrawn id]. split_and!; [| |by split|by constructor|].
    + rewrite (bind_eq (put_eng e1) _ w tt w1) by done. rewrite Hrp, Eid.
      rewrite (bind_eq (modify _) _ w1 tt w2) by done. rewrite (bind_eq _ _ _ _ _ E3). reflexivity.
    + apply (announced_trans w w1 w3 []); [done|]. by apply (announced_trans w1 w2 w3 []).
    + eapply tracked_core; [exact A3|exact C3|]. by eapply tracked_core.
Qed.

Lemma handleUserCreated_follows payload w a :
  tracked w a → cash (eng w) + DefaultStartingBalance ≤ max_int64 → follows (handleUserCreated payload) w a.
Proof.
  intros Hs Hc. unfold handleUserCreated.
  destruct (unmarshal_strings _ payload) as [[|u [|]]|]; try by apply follows_ret.
  destruct (u =s ""); [by apply follows_ret|]. pose proof Hs as [Hl HI Ha HR].
  destruct (createUserLocked_Inv (eng w) u HI Hc) as (HI1 & _).
  destruct (tracked_section w (createUserLocked u (eng w)) a) with (a' := a) as [Hs1 A1]; [done| |done| |by apply createUser_shows|].
  - unfold createUserLocked. destruct (_ !! _); by repeat split.
  - unfold createUserLocked. by destruct (_ !! _).
  - eexists _, _, []. split_and!; [reflexivity|exact A1|done|constructor|done].
Qed.

Lemma handleCreateEvent_follows payload w a : tracked w a → follows (handleCreateEvent payload) w a.
Proof.
  intros Hs. unfold handleCreateEvent.
  destruct (unmarshal_strings _ payload) as [[|ev [|]]|]; try by apply follows_ret.
  destruct (ev =s ""); [by apply follows_ret|]. pose proof Hs as [Hl HI Ha HR].
  destruct (createEventLocked_Inv (eng w) ev HI) as (HI1 & _).
  pose proof (createEvent_shows endow (eng w) ev (tick w) a Ha) as Ha1.
  assert (same_setup (eng w) (snd (createEventLocked ev (eng w))) ∧ Rested (snd (createEventLocked ev (eng w)))) as [Hset HR1].
  { unfold createEventLocked. destruct (_ !! _); split; try done; by repeat split. }
  unfold follows. rewrite (bind_eq get_eng _ w (eng w) w) by done.
  destruct (createEventLocked ev (eng w)) as [st e1]; simpl in *.
  destruct (tracked_section w e1 a Hs Hset HI1 HR1 a Ha1) as [Hs1 A1].
  eexists _, _, []. split_and!; [reflexivity|exact A1|done|constructor|done].
Qed.

Lemma handleGetDepth_follows payload w a : tracked w a → follows (handleGetDepth payload) w a.
Proof.
  intros Hs. assert (∃ r t', handleGetDepth payload w = Some (r, with_tick t' w) ∧ (tick w ≤ t')%nat) as (r & t' & E & Ht).
  2:{ by apply (follows_quiet _ w a r (with_tick t' w)). }
  assert (with_tick (tick w) w = w) as Ew by (by destruct w). unfold handleGetDepth.
  destruct (unmarshal_strings _ payload) as [[|ev [|]]|]; try (eexists _, (tick w); by rewrite Ew).
  rewrite (bind_eq get_eng _ w (eng w) w) by done.
  destruct (markets (eng w) !! ev) as [m|]; [|eexists _, (tick w); by rewrite Ew].
  eexists _, _. split; [reflexivity|lia].
Qed.

Lemma handleGetOpenOrders_follows payload w a : tracked w a → follows (handleGetOpenOrders payload) w a.
Proof.
  intros Hs. unfold handleGetOpenOrders.
  destruct (unmarshal_strings _ payload) as [[|ev [|us [|]]]|]; try by apply follows_ret.
  eapply (follows_quiet _ w a _ (with_tick (S (tick w)) w) eq_refl); [done|done|done|simpl; lia|done].
Qed.

(** ** Dispatch *)

Lemma handleMessage_follows msg w a :
  tracked w a → admissible w msg → named_command (eng w) msg → follows (handleMessage pid msg) w a.
Proof.
  intros Hs [Hcr Hus] Hn. unfold handleMessage.
  seq_case; [apply handleCreateOrderP_follows; auto|].
  seq_case; [by apply handleCancelOrderP_follows|].
  seq_case; [by apply handleGetDepth_follows|].
  seq_case; [by apply handleGetOpenOrders_follows|].
  seq_case; [by apply handleCreateEvent_follows|].
  seq_case; [apply handleUserCreated_follows; auto|]. by apply follows_ret.
Qed.
End log.
