(* ===== verification/Agreement.v ===== *)
(** The engine and the database together.

    [System]: the world of the engine, the DB worker, the number of entries of the
    event stream the worker has acknowledged, and which of them it dropped as stale.
    The engine serves commands, one at a time; the worker works on the entries in the
    order of the stream and stops at the first error; the API writes users and events,
    leases change hands; any of these may happen at any time, any call of the worker
    may fail, and an entry may be in the stream several times.  As long as no entry was
    dropped as stale, the database shows what the engine has done, less the entries
    still on their way. *)

From S2P Require Import Prelude Json Types Router State Ledger Matching Sweep Invariant Settle.
From S2P Require Import Events Outbox Depth Commands Handlers Register Match Sections Commanding.
From S2P Require Import Lease Repository Statements DbWorker Projection Persistence Account DatabaseAccount Settling.
From S2P Require Import Pipeline EngineAccount Announcing EventLog Concurrency.
From Stdlib Require Import Ascii.
Local Open Scope Z_scope.

Section system.
Context `{Environment} `{Packages} `{Network} `{RedisServer}.

Record System := mkSystem {
  sy_world : World;
  sy_worker : Worker;
  sy_seen : nat;
  sy_dropped : list nat
}.

(** The worker after one entry: it moves on when Redis has the acknowledgement. *)
Definition moveOn (wk wk' : Worker) (n : nat) : nat :=
  if decide (wk_acked wk' = wk_acked wk) then n else S n.

(** [handleEnvelope] drops the entry: its token is behind the partition's counter. *)
Definition stale (raw : json_text) (wk : Worker) : bool :=
  match unmarshal_envelope raw with
  | Some env =>
      match decideEnvelope env (net (wk_calls wk)) (wk_redis wk) with Some fencingStale => true | _ => false end
  | None => false
  end.

(** An entry that was acknowledged without having been worked on. *)
Definition dropOn (raw : json_text) (wk wk' : Worker) (n : nat) (dropped : list nat) : list nat :=
  if stale raw wk then if decide (wk_acked wk' = wk_acked wk) then dropped else dropped ++ [n] else dropped.

Definition with_wkdb (d : DB) (wk : Worker) : Worker := mkWorker d (wk_redis wk) (wk_acked wk) (wk_calls wk).
Definition with_wkredis (r : rstate) (wk : Worker) : Worker := mkWorker (wk_db wk) r (wk_acked wk) (wk_calls wk).

Inductive sys_step : System → System → Prop :=
| sys_command pid msg w r w' wk n dr :
    live pid w → admissible w msg → named_command (eng w) msg → handleMessage pid msg w = Some (r, w') →
    sys_step (mkSystem w wk n dr) (mkSystem w' wk n dr)
| sys_outside w w' wk n dr :             (** replies, acknowledgements, log lines *)
    eng w' = eng w → xlog w' = xlog w → (tick w ≤ tick w')%nat →
    sys_step (mkSystem w wk n dr) (mkSystem w' wk n dr)
| sys_work id s raw w wk err wk' n dr :
    xlog w !! n = Some (s, raw) → processEvent id raw wk = (err, wk') →
    sys_step (mkSystem w wk n dr) (mkSystem w wk' (moveOn wk wk' n) (dropOn raw wk wk' n dr))
| sys_user w wk n dr id email hash r d :
    CreateUser id email hash (wk_db wk) = inr (r, d) →
    sys_step (mkSystem w wk n dr) (mkSystem w (with_wkdb d wk) n dr)
| sys_event w wk n dr id ti de qu th ex r d :
    CreateEvent id ti de qu th ex (wk_db wk) = inr (r, d) →
    sys_step (mkSystem w wk n dr) (mkSystem w (with_wkdb d wk) n dr)
| sys_lease w wk n dr r :
    sys_step (mkSystem w wk n dr) (mkSystem w (with_wkredis r wk) n dr).

(** ** The invariant *)

Section follow.
Context `{!FreshIds} `{!PackageLaws}.
Context (endow : string * string * string → Z).
Hypothesis Hio : ∀ k, io_ok k = true.

(** [spells a raws xs]: read from the account [a], the texts [raws] of the stream are
    the bookings [xs], with copies of what is already booked in between. *)
Inductive spells : Account → list json_text → list Entry → Prop :=
| sp_nil a : spells a [] []
| sp_again a raw x raws xs :
    carries raw x → entry_ok x → booked x a → spells a raws xs → spells a (raw :: raws) xs
| sp_next a raw x raws xs :
    carries raw x → entry_ok x → allowed a x → spells (post x a) raws xs → spells a (raw :: raws) (x :: xs).

Lemma spells_app a raws xs raws' xs' :
  spells a raws xs → spells (postAll xs a) raws' xs' → spells a (raws ++ raws') (xs ++ xs').
Proof.
  induction 1 as [|a raw x raws xs Hc Hx Hb _ IH|a raw x raws xs Hc Hx Hal _ IH]; intros Hs; simpl; [done|..].
  - eapply sp_again; eauto.
  - apply sp_next; auto.
Qed.

Lemma spells_again a raw x n raws xs : carries raw x → entry_ok x → booked x a →
  spells a raws xs → spells a (replicate n raw ++ raws) xs.
Proof. intros Hc Hx Hb Hs. induction n as [|n IH]; simpl; [done|]. by eapply sp_again. Qed.

(** What the engine appended to the stream spells what it did. *)
Lemma spells_copied raws ys xs : copied raws ys → Forall2 carries raws xs → Forall entry_ok xs →
  ∀ a, valid a xs → spells a ys xs.
Proof.
  intros Hcp. revert xs. induction Hcp as [|raw n raws ys _ _ IH]; intros xs Hf He a Hv.
  - apply Forall2_nil_inv_l in Hf as ->. constructor.
  - apply Forall2_cons_inv_l in Hf as (x & xs' & Hc & Hf & ->). apply Forall_cons in He as [Hx He].
    destruct Hv as [Hal Hv]. simpl. apply sp_next; [done..|].
    eapply spells_again; [done|done|apply booked_post|]. by apply IH.
Qed.

(** The database shows [a]; the entries [xs], still on their way, lead from [a] to
    what the engine shows. *)
Record lags (s : System) (a : Account) (xs : list Entry) : Prop := {
  lg_engine : Inv [] (eng (sy_world s));
  lg_rested : Rested (eng (sy_world s));
  lg_shows : Shows endow (eng (sy_world s)) (tick (sy_world s)) (postAll xs a);
  lg_projection : Projection (wk_db (sy_worker s));
  lg_refs : OrderRefs (wk_db (sy_worker s));
  lg_db : DbShows (wk_db (sy_worker s)) a;
  lg_log : spells a ((drop (sy_seen s) (xlog (sy_world s))).*2) xs;
  lg_seen : (sy_seen s ≤ length (xlog (sy_world s)))%nat
}.

Definition InStep (s : System) : Prop := ∃ a xs, lags s a xs.

Lemma command_InStep pid msg w r w' wk n dr :
  live pid w → admissible w msg → named_command (eng w) msg → handleMessage pid msg w = Some (r, w') →
  InStep (mkSystem w wk n dr) → InStep (mkSystem w' wk n dr).
Proof.
  intros Hl Hadm Hn Hrun (a & xs & [HI HR Ha HP Hrf Hdb Hlog Hle]). simpl in *.
  destruct (handleMessage_follows endow pid Hio msg w (postAll xs a) (Build_tracked _ _ _ _ Hl HI Ha HR) Hadm Hn)
    as (r' & w1 & ys & Hrun' & Hann & Hv' & He' & Hs').
  rewrite Hrun in Hrun'. injection Hrun' as <- <-. destruct (an_log _ _ _ _ Hann) as (raws & zs & Hx & Hcp & Hc).
  exists a, (xs ++ ys). rewrite <- postAll_app in Hs'.
  split; simpl; [apply Hs'..|done|done|done| |rewrite Hx, length_app; lia].
  rewrite Hx, drop_app_le, fmap_app by done. apply spells_app; [done|].
  rewrite <- list_fmap_compose. simpl. rewrite list_fmap_id. by eapply spells_copied.
Qed.

(** An entry the fence does not let through leaves the database alone, and is
    acknowledged only if it is stale. *)
Lemma processEvent_fenced id raw env wk err wk' :
  unmarshal_envelope raw = Some env → processEvent id raw wk = (err, wk') →
  decideEnvelope env Served (wk_redis wk) = Some fencingAccept ∨
  wk_db wk' = wk_db wk ∧ (stale raw wk = true ∨ wk_acked wk' = wk_acked wk).
Proof.
  intros Hu. unfold processEvent, stale, handleEnvelope. rewrite Hu.
  destruct (net (wk_calls wk)) eqn:Hnet; [|intros [= _ <-]; auto..].
  destruct (decideEnvelope env Served (wk_redis wk)) as [d|]; [destruct d; [auto|]|intros [= _ <-]; auto].
  cbn. destruct (net (S (wk_calls wk))); intros Heq; simplify_eq; auto.
Qed.

(** The worker at one entry: it books it, or leaves things as they are; an entry that is
    already booked comes again to no effect. *)
Lemma work_InStep id st raw w wk err wk' n dr :
  xlog w !! n = Some (st, raw) → processEvent id raw wk = (err, wk') → dropOn raw wk wk' n dr = [] →
  InStep (mkSystem w wk n dr) → InStep (mkSystem w wk' (moveOn wk wk' n) (dropOn raw wk wk' n dr)).
Proof.
  intros Hn Hrun Hdrop (a & xs & [HI HR Ha HP Hrf Hdb Hlog Hle]). simpl in *.
  pose proof (lookup_lt_Some _ _ _ Hn) as Hlt.
  assert (moveOn wk wk' n ≤ length (xlog w))%nat as Hle' by (unfold moveOn; case_decide; lia).
  rewrite (drop_S _ _ _ Hn) in Hlog. simpl in Hlog.
  inversion Hlog as [|a' raw' x raws xs' Hc Hx Hb Hrest|a' raw' x raws xs' Hc Hx Hal Hrest]; subst;
    pose proof Hc as (env & Hu & Ht & Hd); pose proof (entry_decoded x env Hx Hd) as Hdd.
  - destruct (processEvent_booked id raw x env wk err wk' a Hu Hx Ht Hdd Hb HP Hdb Hrun) as [_ E].
    exists a, xs. split; simpl; rewrite ?E; try done.
    unfold moveOn. case_decide; [|done]. by rewrite (drop_S _ _ _ Hn).
  - destruct (processEvent_fenced id raw env wk err wk' Hu Hrun) as [Hdec|[E Hst]].
    + pose proof (processEvent_refs id raw x env wk err wk' Hu Hx Ht Hdd HP Hrf Hrun) as Hrf'.
      destruct (processEvent_books id raw x env wk err wk' a Hu Hx Ht Hdd Hal HP Hdb Hdec Hrun) as [HP' [[E Eack]|Hdb']].
      * exists a, (x :: xs'). split; simpl; try done; [by rewrite E|].
        unfold moveOn. rewrite decide_True, (drop_S _ _ _ Hn) by done. done.
      * exists (post x a), xs'. split; simpl; try done. unfold moveOn. case_decide; [|done].
        rewrite (drop_S _ _ _ Hn). eapply sp_again; [done|done|apply booked_post|done].
    + exists a, (x :: xs'). split; simpl; rewrite ?E; try done.
      assert (wk_acked wk' = wk_acked wk) as Hack.
      { destruct Hst as [Hst|]; [|done]. unfold dropOn in Hdrop. rewrite Hst in Hdrop. case_decide; [done|].
        by destruct dr. }
      unfold moveOn. rewrite decide_True, (drop_S _ _ _ Hn) by done. done.
Qed.

(** With Redis answering, an entry the fence does not let through ends without error. *)
Lemma processEvent_stale id raw env wk err wk' :
  (∀ n, (wk_calls wk ≤ n)%nat → net n = Served) →
  unmarshal_envelope raw = Some env → processEvent id raw wk = (err, wk') →
  decideEnvelope env Served (wk_redis wk) = Some fencingAccept ∨ err = None.
Proof.
  intros Hnet Hu. unfold processEvent, handleEnvelope. rewrite Hu, Hnet by done.
  destruct (decideEnvelope env Served (wk_redis wk)) as [d|] eqn:Hd; [destruct d; [auto|]|].
  - simpl. rewrite Hnet by (simpl; lia). intros [= <- _]. auto.
  - exfalso. simpl in Hd. by destruct (r_counter _ _).
Qed.

(** The statements of the API leave the account as it is. *)
Lemma lags_api w wk n dr a xs d :
  Projection d → OrderRefs d → DbShows d a → lags (mkSystem w wk n dr) a xs → lags (mkSystem w (with_wkdb d wk) n dr) a xs.
Proof. intros ? ? ? []. by split. Qed.

Lemma user_InStep w wk n dr id email hash r d :
  CreateUser id email hash (wk_db wk) = inr (r, d) →
  InStep (mkSystem w wk n dr) → InStep (mkSystem w (with_wkdb d wk) n dr).
Proof.
  intros Hs (a & xs & Hlag). exists a, xs. pose proof (lg_projection _ _ _ Hlag) as HP. pose proof (lg_db _ _ _ Hlag) as [Hc Hsh Ho Ht].
  pose proof (lg_refs _ _ _ Hlag) as HR. simpl in *. pose proof Hs as [HP' _]%CreateUser_Projection; [|done].
  unfold CreateUser in Hs. sql_inv. match goal with Hn : _ !! id = None |- _ => rename Hn into Hnew end.
  apply lags_api; [done| | |done].
  { apply (OrderRefs_mono (wk_db wk)); [done| |done|by eauto]. intros u Hu. apply lookup_insert_is_Some'. by right. }
  split; simpl; try done. intros u. rewrite <- Hc. unfold balanceRow. simpl.
  destruct (decide (id = u)) as [<-|]; [by rewrite lookup_insert_eq, Hnew|by rewrite lookup_insert_ne].
Qed.

Lemma event_InStep w wk n dr id ti de qu th ex r d :
  CreateEvent id ti de qu th ex (wk_db wk) = inr (r, d) →
  InStep (mkSystem w wk n dr) → InStep (mkSystem w (with_wkdb d wk) n dr).
Proof.
  intros Hs (a & xs & Hlag). exists a, xs. pose proof (lg_projection _ _ _ Hlag) as HP. pose proof (lg_db _ _ _ Hlag) as [Hc Hsh Ho Ht].
  pose proof (lg_refs _ _ _ Hlag) as HR. simpl in *. pose proof Hs as [HP' _]%CreateEvent_Projection; [|done].
  unfold CreateEvent in Hs. sql_inv. apply lags_api; [done| |by split|done].
  apply (OrderRefs_mono (wk_db wk)); [done|done| |by eauto]. intros u Hu. apply lookup_insert_is_Some'. by right.
Qed.

Lemma sys_step_InStep s s' : sys_step s s' → sy_dropped s' = [] → sy_dropped s = [] ∧ (InStep s → InStep s').
Proof.
  intros [pid msg w r w' wk n dr Hl Hadm Hn Hrun|w w' wk n dr He Hx Ht|id st raw w wk err wk' n dr Hn Hrun|
    w wk n dr id email hash r d Hs|w wk n dr id ti de qu th ex r d Hs|w wk n dr r] Hdr; simpl in Hdr.
  - split; [done|]. by eapply command_InStep.
  - split; [done|]. intros (a & xs & [HI HR Ha HP Hrf Hdb Hlog Hle]). exists a, xs. simpl in *.
    split; simpl; rewrite ?He, ?Hx; try done. by eapply Shows_tick.
  - split; [|by eapply work_InStep]. unfold dropOn in Hdr. destruct (stale raw wk); [|done].
    case_decide; [done|]. by destruct dr.
  - split; [done|]. by eapply user_InStep.
  - split; [done|]. by eapply event_InStep.
  - split; [done|]. intros (a & xs & []). exists a, xs. by split.
Qed.

Lemma reachable_InStep s s' : rtc sys_step s s' → sy_dropped s' = [] → sy_dropped s = [] ∧ (InStep s → InStep s').
Proof.
  induction 1 as [|s1 s2 s3 Hs _ IH]; intros Hdr; [done|]. destruct (IH Hdr) as [Hdr2 H23].
  destruct (sys_step_InStep _ _ Hs Hdr2) as [Hdr1 H12]. auto.
Qed.

Lemma caught_up s a xs : lags s a xs → sy_seen s = length (xlog (sy_world s)) → xs = [].
Proof.
  intros Hl Hn. pose proof (lg_log _ _ _ Hl) as Hlog. rewrite drop_ge in Hlog by lia. by inversion Hlog.
Qed.

(** The entry at hand may be booked, or has been. *)
Lemma lags_next s a xs st raw :
  lags s a xs → xlog (sy_world s) !! sy_seen s = Some (st, raw) →
  ∃ x, carries raw x ∧ entry_ok x ∧ (allowed a x ∨ booked x a).
Proof.
  intros Hl Hn. pose proof (lg_log _ _ _ Hl) as Hlog. rewrite (drop_S _ _ _ Hn) in Hlog. simpl in Hlog.
  inversion Hlog; eauto 6.
Qed.
End follow.

(** ** The theorems *)

(** A deployment that starts: no order anywhere, an empty stream, balances alike.
    The engine may hold shares the database has no rows for. *)
Record starting (s : System) : Prop := {
  st_inv : Inv [] (eng (sy_world s));
  st_orders : orders (eng (sy_world s)) = ∅;
  st_projection : Projection (wk_db (sy_worker s));
  st_no_orders : db_orders (wk_db (sy_worker s)) = ∅;
  st_no_trades : db_trades (wk_db (sy_worker s)) = ∅;
  st_balances (u : UUID) : balanceRow (wk_db (sy_worker s)) u = credit (eng (sy_world s)) u * tick4;
  st_log : xlog (sy_world s) = [];
  st_seen : sy_seen s = 0%nat;
  st_dropped : sy_dropped s = []
}.

Definition endowment (s : System) (k : string * string * string) : Z :=
  held (eng (sy_world s)) (positionKey k.1.1 k.1.2 k.2).

(** The database of [s] shows what the engine of [s] has, counted from [s0]. *)
Record agrees (s0 s : System) : Prop := {
  ag_cash (u : UUID) : balanceRow (wk_db (sy_worker s)) u = credit (eng (sy_world s)) u * tick4;
  ag_shares u ev oc : colonfree u → colonfree ev →
    sharesOf (wk_db (sy_worker s)) (u, ev, oc) =
      (held (eng (sy_world s)) (positionKey u ev oc) - endowment s0 (u, ev, oc)) * share;
  ag_orders (i : string) : db_orders (wk_db (sy_worker s)) !! (i : UUID) =
    (λ p, lineOf (deref (heap (eng (sy_world s))) p)) <$> orders (eng (sy_world s)) !! i;
  ag_status (i : string) p row : orders (eng (sy_world s)) !! i = Some p →
    db_orders (wk_db (sy_worker s)) !! (i : UUID) = Some row →
    o_OrderType (deref (heap (eng (sy_world s))) p) = OrderTypeLimit →
    or_Status row = o_Status (deref (heap (eng (sy_world s))) p)
}.

Section theorems.
Context `{!FreshIds} `{!PackageLaws}.

Lemma starting_InStep s : starting s → InStep (endowment s) s.
Proof.
  intros [HI Ho HP Hdo Hdt Hb Hl Hn _].
  exists (mkAccount (λ u, credit (eng (sy_world s)) u * tick4) (λ _, 0) (λ _, None) (λ _, false)), [].
  split; simpl; [done| | |done| | | |].
  - intros i p. by rewrite Ho.
  - split; simpl; [split; simpl|..].
    + done.
    + intros u ev oc _ _. unfold endowment. simpl. lia.
    + intros i. simpl. by rewrite Ho.
    + intros i p. by rewrite Ho.
    + done.
  - intros i o. by rewrite Hdo.
  - split; simpl; [done| |by rewrite Hdo|].
    + intros k. rewrite (pj_shares _ HP), Hdt. done.
    + intros i. by rewrite Hdt.
  - rewrite Hl, Hn. constructor.
  - rewrite Hl, Hn. done.
Qed.

Lemma InStep_agrees s0 s : InStep (endowment s0) s → sy_seen s = length (xlog (sy_world s)) → agrees s0 s.
Proof.
  intros (a & xs & Hlag) Hn. pose proof (caught_up _ _ _ _ Hlag Hn) as ->.
  destruct Hlag as [_ _ [[Hc Hs] Hor Hk _] _ _ [Dc Ds Do _] _ _]. simpl in *. split.
  - intros u. by rewrite Dc, Hc.
  - intros u ev oc Hu Hev. by rewrite Ds, Hs.
  - intros i. by rewrite Do, Hor.
  - intros i p row Hi Hrow Hty. rewrite Do, Hor, Hi in Hrow. injection Hrow as <-.
    destruct (ok_status _ _ _ (Hk i p Hi)) as [E|E]; unfold lineOf, withdrawn; simpl; rewrite E, Hty; [done|].
    rewrite status_of_scale. unfold status_of. destruct (_ =? 0); [done|]. by destruct (_ <=? _).
Qed.


End theorems.
End system.

(** ** A run: Bob sells, Alice buys, the worker follows *)

(** Ids that are longer every time; the first reply to every Redis call is lost, so that
    each entry is in the stream twice. *)
Fixpoint marks (n : nat) : string := match n with O => "#" | S n => String "#"%char (marks n) end.

Definition marksEnv : Environment := {|
  uuid_NewString := marks; time_Now n := 1000 + Z.of_nat n; io_ok _ := true; io_lost _ := 1%nat; map_range A n l := l |}.

#[local] Existing Instances marksEnv plainPackages plainPackages_laws kvRedis.
#[local] Instance served : Network := {| net _ := Served |}.

Lemma marks_length n : String.length (marks n) = S n.
Proof. induction n as [|n IH]; simpl; [done|]. by rewrite IH. Qed.

Lemma marks_canonical n : canonical (marks n).
Proof.
  split; [by destruct n| |].
  - simpl. by destruct n.
  - induction n as [|n IH]; [done|]. simpl. by rewrite IH.
Qed.

#[local] Instance marks_fresh : FreshIds.
Proof.
  split; [|apply marks_canonical]. intros n m Heq%(f_equal String.length). simpl in Heq.
  rewrite !marks_length in Heq. by injection Heq.
Qed.

(** Bob was given 100 shares. *)
Definition engineA : Engine :=
  with_positions (λ _, <["bob:ev:YES" := mkPosition 100 0]> ∅)
    (with_balances (λ _, <["alice" := mkBalance DefaultStartingBalance 0]> (<["bob" := mkBalance DefaultStartingBalance 0]> ∅))
      (default (mkEngine [] ∅ ∅ ∅ ∅ true "" 0 0 (NewRouter 1 "") [0] ∅ ∅ ∅ "" "") (newEngine true))).

Definition idleWorker (d : DB) : Worker := mkWorker d (∅, ∅) [] 0.

Definition systemA : System := mkSystem (initWorld engineA) (idleWorker emptyDB) 0 [].

Definition openMarket : MessageToEngine := mkMessage CreateEventCommand (JText (JObj [("eventId", JStr "ev")])).
Definition bobsAsk : MessageToEngine := mkMessage CreateOrderCommand (JText (createOrder_json
  (mkCreateOrder "s" "ev" "bob" OrderTypeLimit OutcomeYes SideSell 10 6000))).
Definition alicesBid : MessageToEngine := mkMessage CreateOrderCommand (JText (createOrder_json
  (mkCreateOrder "b" "ev" "alice" OrderTypeLimit OutcomeYes SideBuy 4 6000))).

Definition runMessage (msg : MessageToEngine) (w : World) : World :=
  match handleMessage 0 msg w with Some (_, w') => w' | None => w end.

Definition dbA : DB := after (CreateEvent "ev" "t" "d" "q" "i" 99) (after (CreateUser "bob" "b@x" "h")
  (after (CreateUser "alice" "a@x" "h") emptyDB)).

Definition workerA : Worker := idleWorker dbA.

Definition world1 : World := runMessage openMarket (initWorld engineA).
Definition world2 : World := runMessage bobsAsk world1.
Definition worldA : World := runMessage alicesBid world2.

Definition workOn (n : nat) (wk : Worker) : Worker :=
  match xlog worldA !! n with Some (_, raw) => (processEvent (pretty n) raw wk).2 | None => wk end.

Definition systemB (n : nat) : System := mkSystem worldA (foldl (λ wk i, workOn i wk) workerA (seq 0 n)) n [].

Lemma engineA_funded : funded engineA.
Proof.
  split; [reflexivity|reflexivity|reflexivity| | |by vm_compute|by vm_compute].
  - repeat (apply map_Forall_insert_2; [vm_compute; by split|]). apply map_Forall_empty.
  - repeat (apply map_Forall_insert_2; [vm_compute; by split|]). apply map_Forall_empty.
Qed.

Lemma systemA_starting : starting systemA.
Proof.
  split; [|reflexivity|apply emptyDB_Projection|reflexivity..| |reflexivity|reflexivity|reflexivity].
  - apply (fl_inv (mkSnap engineA [])). apply funded_Flying, engineA_funded.
  - intros u. unfold balanceRow, credit. simpl. rewrite lookup_empty, !lookup_insert.
    by repeat case_decide.
Qed.

(** The engine after some of the messages is live and may serve the next one. *)
Definition serves (w : World) (msg : MessageToEngine) : Prop :=
  live 0 w ∧ admissible w msg ∧ named_command (eng w) msg ∧ is_Some (handleMessage 0 msg w).

Lemma message_step w msg wk n : serves w msg →
  sys_step (mkSystem w wk n []) (mkSystem (runMessage msg w) wk n []).
Proof.
  intros (Hl & Ha & Hn & [[r w'] Hrun]). unfold runMessage. rewrite Hrun. by eapply sys_command.
Qed.

Lemma work_step n wk raw :
  xlog worldA !! n = Some ("events:out", raw) → stale raw wk = false →
  wk_acked (workOn n wk) ≠ wk_acked wk →
  sys_step (mkSystem worldA wk n []) (mkSystem worldA (workOn n wk) (S n) []).
Proof.
  intros Hn Hst. unfold workOn. rewrite Hn.
  destruct (processEvent (pretty n) raw wk) as [err wk'] eqn:E. cbn [snd]. intros Hack.
  pose proof (sys_work (pretty n) "events:out" raw worldA wk err wk' n [] Hn E) as Hs.
  unfold moveOn, dropOn in Hs. by rewrite Hst, decide_False in Hs.
Qed.

Lemma open_serves : serves (initWorld engineA) openMarket.
Proof.
  split_and!.
  - split; vm_compute; repeat split; first [discriminate|lia].
  - split; intros Hty; discriminate Hty.
  - intros Hty. discriminate Hty.
  - vm_compute. eexists. reflexivity.
Qed.

Ltac serve_order :=
  split_and!;
  [ split; vm_compute; repeat split; first [discriminate|lia]
  | split; [intros _ req Hreq; vm_compute in Hreq; injection Hreq as <-;
            apply servable_limit; [reflexivity|intros _; vm_compute; discriminate]
           |intros Hty; discriminate Hty]
  | intros _ req Hreq; vm_compute in Hreq; injection Hreq as <-;
    split_and!; [right|..]; try (split; [discriminate|reflexivity|reflexivity]);
    [discriminate|vm_compute; eexists; reflexivity]
  | vm_compute; eexists; reflexivity ].

Lemma ask_serves : serves world1 bobsAsk.
Proof. serve_order. Qed.

Lemma bid_serves : serves world2 alicesBid.
Proof. serve_order. Qed.

Lemma run_commands : rtc sys_step systemA (systemB 0).
Proof.
  apply (rtc_l _ _ (mkSystem (initWorld engineA) (idleWorker (after (CreateUser "alice" "a@x" "h") emptyDB)) 0 [])).
  { eapply (sys_user _ (idleWorker _) _ _ "alice" "a@x" "h"). vm_compute. reflexivity. }
  apply (rtc_l _ _ (mkSystem (initWorld engineA) (idleWorker (after (CreateUser "bob" "b@x" "h")
    (after (CreateUser "alice" "a@x" "h") emptyDB))) 0 [])).
  { eapply (sys_user _ (idleWorker _) _ _ "bob" "b@x" "h"). vm_compute. reflexivity. }
  apply (rtc_l _ _ (mkSystem (initWorld engineA) workerA 0 [])).
  { eapply (sys_event _ (idleWorker _) _ _ "ev" "t" "d" "q" "i" 99). vm_compute. reflexivity. }
  apply (rtc_l _ _ (mkSystem world1 workerA 0 [])); [exact (message_step _ _ _ _ open_serves)|].
  apply (rtc_l _ _ (mkSystem world2 workerA 0 [])); [exact (message_step _ _ _ _ ask_serves)|].
  apply rtc_once. exact (message_step _ _ _ _ bid_serves).
Qed.

(** The entries of the stream, and what they decode to. *)
Definition rawA (n : nat) : json_text := from_option snd (JText JNull) (xlog worldA !! n).
Definition envA (n : nat) : EventEnvelope := default (mkEnvelope "" "" 0 0 0 0 (JText JNull)) (unmarshal_envelope (rawA n)).

Lemma entriesA n : (n < 6)%nat →
  xlog worldA !! n = Some ("events:out", rawA n) ∧ unmarshal_envelope (rawA n) = Some (envA n).
Proof. intros Hn. destruct n as [|[|[|[|[|[|n]]]]]]; [..|lia]; (split; vm_compute; reflexivity). Qed.

Lemma systemB_step n : (n < 6)%nat → stale (rawA n) (sy_worker (systemB n)) = false →
  wk_acked (workOn n (sy_worker (systemB n))) ≠ wk_acked (sy_worker (systemB n)) → sys_step (systemB n) (systemB (S n)).
Proof.
  intros Hn Hst Hack. destruct (entriesA n Hn) as (Hx & Hu).
  pose proof (work_step n (sy_worker (systemB n)) (rawA n) Hx Hst Hack) as Hs.
  unfold systemB in Hs |- *. cbn [sy_worker] in Hs. rewrite seq_S, foldl_app. exact Hs.
Qed.

Lemma run_worker n : (n ≤ 6)%nat → rtc sys_step systemA (systemB n).
Proof.
  assert (∀ k, (k < 6)%nat → sys_step (systemB k) (systemB (S k))) as Hs.
  { intros k Hk. apply systemB_step; [done|..]; destruct k as [|[|[|[|[|[|k]]]]]]; try lia; vm_compute; first [reflexivity|discriminate]. }
  induction n as [|n IH]; intros Hn; [exact run_commands|]. eapply rtc_r; [apply IH; lia|]. apply Hs. lia.
Qed.


