(* ===== verification/Delivery.v ===== *)
(** Delivery of the event stream to the DB worker: the XREADGROUP, XACK and XAUTOCLAIM
    calls of [Run] in internal/dbworker/worker.go, over the life of several worker
    processes.

    Redis' consumer group is a parameter with its documented behaviour as laws.  A
    [Shift] is the group with the worker process that is up, if one is, and the
    entries it has been handed and not worked on.  A worker stops at the first error
    or is killed at any point; another one starts ten seconds later or more, and
    reclaims what its predecessor left.  Then every entry that a worker works on is
    the first one that has not been acknowledged, so that the database follows the
    engine over any number of restarts, as long as no entry is dropped as stale.  The
    replies of XREADGROUP and XAUTOCLAIM reach the worker: [lost_read_skips] shows what
    happens when one does not. *)

From S2P Require Import Prelude Json Types Router State Events Outbox Depth Commands Handlers Commanding.
From S2P Require Import Lease Repository Statements DbWorker Projection Persistence Announcing EventLog Concurrency Agreement.
Local Open Scope Z_scope.

(** ** The consumer group *)

(** The entries of the stream by id, how many of them were handed out, and the
    pending ones: index and time of the last delivery. *)
Class StreamGroup := {
  gstate : Type;
  g_entries : gstate → list (string * json_text);
  g_next : gstate → nat;
  g_pending : gstate → list (nat * Z);
  x_add : string → json_text → gstate → gstate;
  x_read : nat → Z → gstate → list (string * json_text) * gstate;
  x_claim : Z → Z → gstate → list (string * json_text) * gstate;
  x_ack : string → gstate → gstate
}.

Record group_is `{StreamGroup} (g : gstate) (entries : list (string * json_text)) (next : nat) (pending : list (nat * Z)) : Prop := {
  gi_entries : g_entries g = entries;
  gi_next : g_next g = next;
  gi_pending : g_pending g = pending
}.

(** The pending entries that XAUTOCLAIM takes over: idle long enough, and at most the
    100 that one call without COUNT looks at. *)
Definition claimable (minIdle now : Z) (pending : list (nat * Z)) : list (nat * Z) :=
  take 100 (filter (λ p, minIdle ≤ now - p.2) pending).

Class StreamGroupLaws `(StreamGroup) : Prop := {
  x_add_law id raw g : group_is (x_add id raw g) (g_entries g ++ [(id, raw)]) (g_next g) (g_pending g);
  x_read_law count now g :
    let batch := take count (drop (g_next g) (g_entries g)) in
    (x_read count now g).1 = batch ∧
    group_is (x_read count now g).2 (g_entries g) (g_next g + length batch)
      (g_pending g ++ ((λ i, (i, now)) <$> seq (g_next g) (length batch)));
  x_claim_law minIdle now g :
    let taken := claimable minIdle now (g_pending g) in
    (x_claim minIdle now g).1 = omap (λ p, g_entries g !! p.1) taken ∧
    group_is (x_claim minIdle now g).2 (g_entries g) (g_next g)
      ((λ p, if decide (p ∈ taken) then (p.1, now) else p) <$> g_pending g);
  x_ack_law id g :
    group_is (x_ack id g) (g_entries g) (g_next g)
      (filter (λ p, fst <$> g_entries g !! p.1 ≠ Some id) (g_pending g))
}.

Definition MinIdle : Z := 10 * 1000000000.
Definition Count : nat := 10.

Lemma filter_all {A} (P : A → Prop) `{!∀ x, Decision (P x)} (l : list A) : (∀ x, x ∈ l → P x) → filter P l = l.
Proof.
  induction l as [|x l IH]; intros Hl; [done|]. rewrite filter_cons_True by (apply Hl; by left).
  f_equal. apply IH. intros y Hy. apply Hl. by right.
Qed.

Lemma omap_of_fmap {A B C} (f : B → option C) (g : A → B) (l : list A) : omap f (g <$> l) = omap (f ∘ g) l.
Proof. induction l as [|x l IH]; [done|]. rewrite fmap_cons. csimpl. by rewrite IH. Qed.

Section delivery.
Context `{Environment} `{Packages} `{Network} `{RedisServer} `{StreamGroup}.

(** ** The worker's calls *)

Record Shift := mkShift {
  sh_group : gstate;
  sh_worker : Worker;
  sh_batch : option (list (string * json_text));   (** [None]: no worker is up *)
  sh_time : Z                                      (** of the last call to the group *)
}.

(** [Run], from its start: the reclaim. *)
Definition start (now : Z) (sh : Shift) : Shift :=
  let '(claimed, g) := x_claim MinIdle now (sh_group sh) in mkShift g (sh_worker sh) (Some claimed) now.

(** One XREADGROUP. *)
Definition readMore (now : Z) (sh : Shift) : Shift :=
  let '(batch, g) := x_read Count now (sh_group sh) in mkShift g (sh_worker sh) (Some batch) now.

(** [processStreamEntry] on the next entry; an error ends the worker. *)
Definition handleNext (id : string) (raw : json_text) (rest : list (string * json_text)) (sh : Shift) : Shift :=
  let '(err, wk) := processEvent id raw (sh_worker sh) in
  let g := if decide (wk_acked wk = wk_acked (sh_worker sh)) then sh_group sh else x_ack id (sh_group sh) in
  mkShift g wk (match err with None => Some rest | Some _ => None end) (sh_time sh).

Definition crash (sh : Shift) : Shift := mkShift (sh_group sh) (sh_worker sh) None (sh_time sh).

Definition with_shworker (f : Worker → Worker) (sh : Shift) : Shift :=
  mkShift (sh_group sh) (f (sh_worker sh)) (sh_batch sh) (sh_time sh).

(** The engine's XADDs. *)
Definition addAll (new : list (string * json_text)) (sh : Shift) : Shift :=
  mkShift (foldl (λ g e, x_add e.1 e.2 g) (sh_group sh) new) (sh_worker sh) (sh_batch sh) (sh_time sh).

(** What the worker does is what [Run] does with the entries it is handed. *)
Lemma handleNext_worker id raw rest sh :
  sh_worker (handleNext id raw rest sh) = (processEvent id raw (sh_worker sh)).2.
Proof. unfold handleNext. by destruct (processEvent _ _ _). Qed.

Lemma processEvent_acks id raw w err w' : processEvent id raw w = (err, w') →
  (wk_acked w' = wk_acked w ∧ err ≠ None) ∨ wk_acked w' = wk_acked w ++ [id].
Proof.
  unfold processEvent. destruct (unmarshal_envelope raw) as [env|]; [|intros [= <- <-]; by left].
  destruct (handleEnvelope env w) as [[e|] w1] eqn:Eh; pose proof (handleEnvelope_effect env w _ w1 Eh) as (_ & Ea & _).
  - intros [= <- <-]. by left.
  - destruct (net (wk_calls w1)); intros [= <- <-]; simpl; rewrite Ea; auto.
Qed.

(** ** In order *)

(** The first [n] entries are acknowledged; those behind, as far as they were handed
    out, are pending, and are what the worker has at hand, if one is up. *)
Record tidy (n : nat) (sh : Shift) : Prop := {
  td_pending : (g_pending (sh_group sh)).*1 = seq n (g_next (sh_group sh) - n);
  td_count : (n ≤ g_next (sh_group sh) ≤ length (g_entries (sh_group sh)))%nat;
  td_few : (g_next (sh_group sh) - n ≤ Count)%nat;
  td_ids : NoDup ((g_entries (sh_group sh)).*1);
  td_times p : p ∈ g_pending (sh_group sh) → p.2 ≤ sh_time sh;
  td_batch b : sh_batch sh = Some b →
    b = take (g_next (sh_group sh) - n) (drop n (g_entries (sh_group sh)))
}.

Context `{!StreamGroupLaws _}.

Lemma addAll_group new : ∀ g, group_is (foldl (λ g e, x_add e.1 e.2 g) g new) (g_entries g ++ new) (g_next g) (g_pending g).
Proof.
  induction new as [|[id raw] new IH]; intros g; simpl; [by split; rewrite ?app_nil_r|].
  destruct (x_add_law id raw g) as [E1 E2 E3]. destruct (IH (x_add id raw g)) as [F1 F2 F3].
  split; [by rewrite F1, E1, <- app_assoc|by rewrite F2|by rewrite F3].
Qed.

Lemma tidy_add n new sh : NoDup ((g_entries (sh_group sh) ++ new).*1) → tidy n sh → tidy n (addAll new sh).
Proof.
  intros Hids [Hp Hc Hf _ Ht Hb]. destruct (addAll_group new (sh_group sh)) as [E1 E2 E3].
  split; simpl; rewrite ?E1, ?E2, ?E3; try done.
  - rewrite length_app. lia.
  - intros b ->%Hb. rewrite drop_app_le by lia. rewrite take_app_le; [done|]. rewrite length_drop. lia.
Qed.

Lemma tidy_worker n f sh : tidy n sh → tidy n (with_shworker f sh).
Proof. intros []. by split. Qed.

Lemma tidy_crash n sh : tidy n sh → tidy n (crash sh).
Proof. intros []. by split. Qed.

Lemma tidy_read n now sh : sh_batch sh = Some [] → sh_time sh ≤ now → tidy n sh → tidy n (readMore now sh).
Proof.
  intros Hnil Hnow [Hp Hc Hf Hids Ht Hb]. unfold readMore. destruct (x_read_law Count now (sh_group sh)) as [Eb [E1 E2 E3]].
  destruct (x_read Count now (sh_group sh)) as [batch g] eqn:Er. simpl in *. subst batch.
  set (batch := take Count (drop (g_next (sh_group sh)) (g_entries (sh_group sh)))) in *.
  assert (length batch ≤ Count)%nat as Hlen by (unfold batch; rewrite length_take; lia).
  assert (length batch ≤ length (g_entries (sh_group sh)) - g_next (sh_group sh))%nat as Hlen'
    by (unfold batch; rewrite length_take, length_drop; lia).
  assert (g_next (sh_group sh) = n) as En.
  { pose proof (Hb [] Hnil) as Hz. apply (f_equal length) in Hz. rewrite length_take, length_drop in Hz. simpl in Hz. lia. }
  rewrite En, Nat.sub_diag in Hp. apply fmap_nil_inv in Hp. rewrite Hp in E3. simpl in E3.
  split; simpl; rewrite ?E1, ?E2, ?E3, ?En.
  - rewrite <- list_fmap_compose, list_fmap_id. f_equal. lia.
  - lia.
  - lia.
  - done.
  - intros p (i & -> & _)%list_elem_of_fmap. simpl. lia.
  - intros b [= <-]. replace (n + length batch - n)%nat with (length batch) by lia.
    unfold batch. rewrite En, length_take, <- (take_take _ Count). f_equal. by rewrite (take_ge (drop n _)) .
Qed.

Lemma slice_lookup (es : list (string * json_text)) n k : (n + k ≤ length es)%nat →
  omap (λ i, es !! i) (seq n k) = take k (drop n es).
Proof.
  revert n. induction k as [|k IH]; intros n Hk; [done|]. simpl.
  destruct (lookup_lt_is_Some_2 es n) as [e He]; [lia|]. rewrite He, (drop_S _ _ _ He). simpl. f_equal.
  apply IH. lia.
Qed.

Lemma tidy_start n now sh : sh_time sh + MinIdle ≤ now → tidy n sh → tidy n (start now sh).
Proof.
  intros Hnow [Hp Hc Hf Hids Ht Hb]. unfold start. destruct (x_claim_law MinIdle now (sh_group sh)) as [Eb [E1 E2 E3]].
  destruct (x_claim MinIdle now (sh_group sh)) as [claimed g] eqn:Er. simpl in *.
  assert (claimable MinIdle now (g_pending (sh_group sh)) = g_pending (sh_group sh)) as Hall.
  { unfold claimable. rewrite filter_all.
    - apply take_ge. apply (f_equal length) in Hp. rewrite length_fmap, length_seq in Hp. unfold Count in Hf. lia.
    - intros q Hq%Ht. lia. }
  rewrite Hall in Eb, E3.
  split; simpl; rewrite ?E1, ?E2, ?E3; try done.
  - rewrite <- Hp, <- list_fmap_compose. apply list_fmap_ext. intros i q _. simpl. by case_decide.
  - intros q (q' & -> & Hq')%list_elem_of_fmap. rewrite decide_True by done. done.
  - intros b [= <-]. rewrite Eb, <- (slice_lookup _ n) by lia. rewrite <- Hp. by rewrite omap_of_fmap.
Qed.

(** The entry at hand is the first that has not been acknowledged. *)
Lemma tidy_next n id raw rest sh : tidy n sh → sh_batch sh = Some ((id, raw) :: rest) →
  g_entries (sh_group sh) !! n = Some (id, raw) ∧ (n < g_next (sh_group sh))%nat ∧
  rest = take (g_next (sh_group sh) - S n) (drop (S n) (g_entries (sh_group sh))).
Proof.
  intros [_ Hc _ _ _ Hb] Hbt. apply Hb in Hbt.
  destruct (g_next (sh_group sh) - n)%nat as [|k] eqn:Ek; [discriminate|].
  destruct (lookup_lt_is_Some_2 (g_entries (sh_group sh)) n) as [e He]; [lia|].
  rewrite (drop_S _ _ _ He) in Hbt. simpl in Hbt. injection Hbt as <- ->. split_and!; [done|lia|].
  f_equal. lia.
Qed.

Lemma tidy_handle n id raw rest sh : tidy n sh → sh_batch sh = Some ((id, raw) :: rest) →
  tidy (moveOn (sh_worker sh) (sh_worker (handleNext id raw rest sh)) n) (handleNext id raw rest sh).
Proof.
  intros Htd Hbt. destruct (tidy_next _ _ _ _ _ Htd Hbt) as (He & Hn & Hr). destruct Htd as [Hp Hc Hf Hids Ht Hb].
  unfold handleNext. destruct (processEvent id raw (sh_worker sh)) as [err wk] eqn:E. simpl.
  unfold moveOn. destruct (processEvent_acks _ _ _ _ _ E) as [[Ea Herr]|Ea].
  { rewrite !decide_True by done. split; simpl; try done. by destruct err. }
  assert (wk_acked wk ≠ wk_acked (sh_worker sh)) as Hne.
  { rewrite Ea. intros Hx%(f_equal length). rewrite length_app in Hx. simpl in Hx. lia. }
  rewrite !decide_False by done. destruct (x_ack_law id (sh_group sh)) as [E1 E2 E3].
  split; simpl; rewrite ?E1, ?E2, ?E3; try done; try lia.
  - destruct (g_next (sh_group sh) - n)%nat as [|k] eqn:Ek; [lia|]. simpl in Hp.
    destruct (g_pending (sh_group sh)) as [|[i t] pend]; [discriminate|]. injection Hp as -> Hp.
    change (pend.*1 = seq (S n) k) in Hp.
    rewrite filter_cons_False by (simpl; rewrite He; auto). rewrite filter_all; [rewrite Hp; f_equal; lia|].
    intros q Hq Hid. assert (q.1 ∈ seq (S n) k) as Hqs by (rewrite <- Hp; by apply list_elem_of_fmap_2).
    apply elem_of_seq in Hqs. apply fmap_Some in Hid as (e & Hq' & ->).
    assert (q.1 = n) as Hx; [|lia]. apply (NoDup_lookup _ _ _ e.1 Hids); by rewrite list_lookup_fmap, ?Hq', ?He.
  - intros q [_ Hq]%list_elem_of_filter. by apply Ht.
  - intros b. destruct err; [done|]. by intros [= <-].
Qed.
(** ** Engine, stream, group and workers together *)

Record Full := mkFull {
  fu_world : World;
  fu_shift : Shift;
  fu_dropped : list string              (** the entries acknowledged as stale *)
}.

Definition dropNext (id : string) (raw : json_text) (wk wk' : Worker) (dropped : list string) : list string :=
  if stale raw wk then if decide (wk_acked wk' = wk_acked wk) then dropped else dropped ++ [id] else dropped.

Inductive full_step : Full → Full → Prop :=
| fu_command pid msg w r w' sh dr ids new :
    live pid w → admissible w msg → named_command (eng w) msg → handleMessage pid msg w = Some (r, w') →
    xlog w' = xlog w ++ new → length ids = length new → NoDup ((g_entries (sh_group sh)).*1 ++ ids) →
    full_step (mkFull w sh dr) (mkFull w' (addAll (zip ids (new.*2)) sh) dr)
| fu_outside w w' sh dr :
    eng w' = eng w → xlog w' = xlog w → (tick w ≤ tick w')%nat → full_step (mkFull w sh dr) (mkFull w' sh dr)
| fu_start now w sh dr :
    sh_batch sh = None → sh_time sh + MinIdle ≤ now → full_step (mkFull w sh dr) (mkFull w (start now sh) dr)
| fu_read now w sh dr :
    sh_batch sh = Some [] → sh_time sh ≤ now → full_step (mkFull w sh dr) (mkFull w (readMore now sh) dr)
| fu_handle id raw rest w sh dr :
    sh_batch sh = Some ((id, raw) :: rest) →
    full_step (mkFull w sh dr) (mkFull w (handleNext id raw rest sh)
      (dropNext id raw (sh_worker sh) (sh_worker (handleNext id raw rest sh)) dr))
| fu_crash w sh dr : full_step (mkFull w sh dr) (mkFull w (crash sh) dr)
| fu_user id email hash r d w sh dr :
    CreateUser id email hash (wk_db (sh_worker sh)) = inr (r, d) →
    full_step (mkFull w sh dr) (mkFull w (with_shworker (with_wkdb d) sh) dr)
| fu_event id ti de qu th ex r d w sh dr :
    CreateEvent id ti de qu th ex (wk_db (sh_worker sh)) = inr (r, d) →
    full_step (mkFull w sh dr) (mkFull w (with_shworker (with_wkdb d) sh) dr)
| fu_lease r w sh dr : full_step (mkFull w sh dr) (mkFull w (with_shworker (with_wkredis r) sh) dr).

(** What the group has is what the engine has sent; [ds] are the positions of the dropped
    entries. *)
Definition coupled (n : nat) (ds : list nat) (s : Full) : Prop :=
  tidy n (fu_shift s) ∧ (g_entries (sh_group (fu_shift s))).*2 = (xlog (fu_world s)).*2 ∧
  length ds = length (fu_dropped s).

Definition toSystem (n : nat) (ds : list nat) (s : Full) : System :=
  mkSystem (fu_world s) (sh_worker (fu_shift s)) n ds.

Lemma start_group now sh : g_entries (sh_group (start now sh)) = g_entries (sh_group sh) ∧ sh_worker (start now sh) = sh_worker sh.
Proof.
  unfold start. destruct (x_claim_law MinIdle now (sh_group sh)) as [_ [E _ _]]. by destruct (x_claim _ _ _).
Qed.

Lemma readMore_group now sh :
  g_entries (sh_group (readMore now sh)) = g_entries (sh_group sh) ∧ sh_worker (readMore now sh) = sh_worker sh.
Proof.
  unfold readMore. destruct (x_read_law Count now (sh_group sh)) as [_ [E _ _]]. by destruct (x_read _ _ _).
Qed.

Lemma handleNext_group id raw rest sh : g_entries (sh_group (handleNext id raw rest sh)) = g_entries (sh_group sh).
Proof.
  unfold handleNext. destruct (processEvent _ _ _). simpl. case_decide; [done|].
  by destruct (x_ack_law id (sh_group sh)).
Qed.

(** Every step is one of [sys_step], or none: the worker is always at entry [n]. *)
Lemma full_step_sim n ds s s' : full_step s s' → coupled n ds s →
  ∃ n' ds', coupled n' ds' s' ∧ rtc sys_step (toSystem n ds s) (toSystem n' ds' s').
Proof.
  intros [pid msg w r w' sh dr ids new Hl Ha Hn Hrun Hx Hlen Hids|w w' sh dr He Hx Ht|now w sh dr Hb Hnow|now w sh dr Hb Hnow|
    id raw rest w sh dr Hb|w sh dr|id email hash r d w sh dr Hs|id ti de qu th ex r d w sh dr Hs|r w sh dr] (Htd & Hc & Hdr);
    unfold coupled, toSystem in *; simpl in *.
  - exists n, ds. split_and!; [| |done|].
    + apply tidy_add; [|done]. rewrite fmap_app, fst_zip by (rewrite length_fmap; lia). done.
    + destruct (addAll_group (zip ids (new.*2)) (sh_group sh)) as [-> _ _].
      rewrite Hx, !fmap_app, Hc, snd_zip by (rewrite length_fmap; lia). done.
    + apply rtc_once. by eapply sys_command.
  - exists n, ds. rewrite Hx. split_and!; [done..|]. apply rtc_once. by apply sys_outside.
  - exists n, ds. destruct (start_group now sh) as [-> ->]. split_and!; [by apply tidy_start|done|done|apply rtc_refl].
  - exists n, ds. destruct (readMore_group now sh) as [-> ->]. split_and!; [by apply tidy_read|done|done|apply rtc_refl].
  - exists (moveOn (sh_worker sh) (sh_worker (handleNext id raw rest sh)) n),
      (dropOn raw (sh_worker sh) (sh_worker (handleNext id raw rest sh)) n ds).
    split_and!; [by apply tidy_handle|by rewrite handleNext_group| |].
    { unfold dropOn, dropNext. destruct (stale _ _); [|done]. case_decide; [done|]. rewrite !length_app. simpl. lia. }
    destruct (tidy_next _ _ _ _ _ Htd Hb) as (He & _).
    assert ((xlog w).*2 !! n = Some raw) as Hraw by (by rewrite <- Hc, list_lookup_fmap, He).
    apply list_lookup_fmap_Some_1 in Hraw as ([st raw'] & Hraw & Hlk). simpl in Hraw. subst raw'.
    apply rtc_once. rewrite handleNext_worker.
    destruct (processEvent id raw (sh_worker sh)) as [err wk] eqn:Ep. by eapply sys_work.
  - exists n, ds. split_and!; [by apply tidy_crash|done|done|apply rtc_refl].
  - exists n, ds. split_and!; [by apply tidy_worker|done|done|]. apply rtc_once. by eapply sys_user.
  - exists n, ds. split_and!; [by apply tidy_worker|done|done|]. apply rtc_once. by eapply sys_event.
  - exists n, ds. split_and!; [by apply tidy_worker|done|done|]. apply rtc_once. apply sys_lease.
Qed.

Lemma full_run_sim s s' : rtc full_step s s' → ∀ n ds, coupled n ds s →
  ∃ n' ds', coupled n' ds' s' ∧ rtc sys_step (toSystem n ds s) (toSystem n' ds' s').
Proof.
  induction 1 as [s|s1 s2 s3 Hs _ IH]; intros n ds Hc; [exists n, ds; split; [done|apply rtc_refl]|].
  destruct (full_step_sim n ds _ _ Hs Hc) as (n2 & ds2 & Hc2 & R2). destruct (IH n2 ds2 Hc2) as (n3 & ds3 & Hc3 & R3).
  exists n3, ds3. split; [done|]. by etrans.
Qed.

(** A deployment that starts, with an empty group and no worker. *)
Definition fresh_start (s : Full) : Prop :=
  starting (toSystem 0 [] s) ∧ group_is (sh_group (fu_shift s)) [] 0 [] ∧ sh_batch (fu_shift s) = None ∧ fu_dropped s = [].

Lemma fresh_coupled s : fresh_start s → coupled 0 [] s.
Proof.
  intros (Hst & [E1 E2 E3] & Hb & Hd). pose proof (st_log _ Hst) as Hl. simpl in Hl.
  split_and!; [|by rewrite E1, Hl|by rewrite Hd]. split; rewrite ?E1, ?E2, ?E3, ?Hb; [done|simpl; lia|unfold Count; lia|constructor| |done].
  intros p Hp. by apply not_elem_of_nil in Hp.
Qed.

(** When the reply of an XREADGROUP is lost, the entries it took stay pending and the next
    one goes on behind them. *)
Lemma lost_read_skips now now' sh :
  sh_batch (readMore now' (readMore now sh)) =
    Some (take Count (drop (g_next (sh_group sh) + length (take Count (drop (g_next (sh_group sh)) (g_entries (sh_group sh)))))
      (g_entries (sh_group sh)))).
Proof.
  unfold readMore. destruct (x_read_law Count now (sh_group sh)) as [Eb [E1 E2 _]].
  destruct (x_read Count now (sh_group sh)) as [batch g] eqn:Er. simpl in *.
  destruct (x_read_law Count now' g) as [Eb' _]. destruct (x_read Count now' g) as [batch' g']. simpl in *.
  by rewrite Eb', E1, E2.
Qed.

(** A worker that starts sooner finds nothing to reclaim, and goes on with later
    entries: the pending ones are not handed out to it. *)
Lemma quick_restart_skips n now now' e sh :
  tidy n sh → (∀ p, p ∈ g_pending (sh_group sh) → now < p.2 + MinIdle) →
  g_entries (sh_group sh) !! g_next (sh_group sh) = Some e →
  sh_batch (start now sh) = Some [] ∧
  ∃ rest, sh_batch (readMore now' (start now sh)) = Some (e :: rest) ∧
    g_pending (sh_group (start now sh)) = g_pending (sh_group sh).
Proof.
  intros Htd Hidle He. destruct (x_claim_law MinIdle now (sh_group sh)) as [Eb [E1 E2 E3]].
  assert (claimable MinIdle now (g_pending (sh_group sh)) = []) as Hnone.
  { unfold claimable. set (l := filter _ _). destruct l as [|p l'] eqn:Ef; [done|exfalso].
    assert (p ∈ l) as [Hi Hp]%list_elem_of_filter by (rewrite Ef; left). specialize (Hidle p Hp). lia. }
  rewrite Hnone in Eb, E3. simpl in Eb.
  assert (start now sh = mkShift (x_claim MinIdle now (sh_group sh)).2 (sh_worker sh) (Some []) now) as ->.
  { unfold start. destruct (x_claim _ _ _). simpl in *. by subst. }
  split; [done|]. unfold readMore. simpl. set (g := (x_claim MinIdle now (sh_group sh)).2) in *.
  destruct (x_read_law Count now' g) as [Er _]. destruct (x_read Count now' g) as [batch g']. simpl in *.
  rewrite Er, E1, E2, (drop_S _ _ _ He). unfold Count. simpl. eexists. split; [done|].
  by rewrite E3, list_fmap_id.
Qed.

End delivery.

(** ** A group, and a run with a restart *)

(** The group as a record of its parts. *)
Definition listGroup : StreamGroup := {|
  gstate := list (string * json_text) * nat * list (nat * Z);
  g_entries g := g.1.1;
  g_next g := g.1.2;
  g_pending g := g.2;
  x_add id raw g := (g.1.1 ++ [(id, raw)], g.1.2, g.2);
  x_read count now g :=
    let batch := take count (drop g.1.2 g.1.1) in
    (batch, (g.1.1, (g.1.2 + length batch)%nat, g.2 ++ ((λ i, (i, now)) <$> seq g.1.2 (length batch))));
  x_claim minIdle now g :=
    let taken := claimable minIdle now g.2 in
    (omap (λ p, g.1.1 !! p.1) taken,
     (g.1.1, g.1.2, (λ p, if decide (p ∈ taken) then (p.1, now) else p) <$> g.2));
  x_ack id g := (g.1.1, g.1.2, filter (λ p, fst <$> g.1.1 !! p.1 ≠ Some id) g.2)
|}.

Lemma listGroup_laws : StreamGroupLaws listGroup.
Proof. split; intros; repeat split. Qed.

#[local] Existing Instances marksEnv plainPackages plainPackages_laws kvRedis served marks_fresh listGroup listGroup_laws.

Definition group0 : @gstate listGroup := ([], 0%nat, []).
Definition shift0 : Shift := mkShift group0 (idleWorker emptyDB) None 0.
Definition shiftDb : Shift := mkShift group0 workerA None 0.

(** Bob's order is sent; a worker reads it and is killed; ten seconds later its
    successor reclaims it. *)
Definition sent : Shift := addAll (zip ["1-0"; "1-1"] ((xlog world2).*2)) shiftDb.
Definition killed : Shift := crash (readMore MinIdle (start MinIdle sent)).
Definition reclaimed : Shift := start (2 * MinIdle) killed.
Definition halfway : Shift := handleNext "1-0" (rawA 0) [("1-1", rawA 1)] reclaimed.
Definition caughtUp : Shift := handleNext "1-1" (rawA 1) [] halfway.

Lemma full0_fresh : fresh_start (mkFull (initWorld engineA) shift0 []).
Proof. split; [exact systemA_starting|]. split_and!; [by split|reflexivity|reflexivity]. Qed.

Lemma full_message w msg sh ids new : serves w msg →
  xlog (runMessage msg w) = xlog w ++ new → length ids = length new → NoDup ((g_entries (sh_group sh)).*1 ++ ids) →
  full_step (mkFull w sh []) (mkFull (runMessage msg w) (addAll (zip ids (new.*2)) sh) []).
Proof.
  intros (Hl & Ha & Hn & [[r w'] Hrun]). unfold runMessage. rewrite Hrun. by eapply fu_command.
Qed.

Lemma full_run : rtc full_step (mkFull (initWorld engineA) shift0 []) (mkFull world2 caughtUp []).
Proof.
  apply (rtc_l _ _ (mkFull (initWorld engineA)
    (mkShift group0 (idleWorker (after (CreateUser "alice" "a@x" "h") emptyDB)) None 0) [])).
  { eapply (fu_user "alice" "a@x" "h" _ _ _ shift0). vm_compute. reflexivity. }
  apply (rtc_l _ _ (mkFull (initWorld engineA) (mkShift group0 (idleWorker (after (CreateUser "bob" "b@x" "h")
    (after (CreateUser "alice" "a@x" "h") emptyDB))) None 0) [])).
  { eapply (fu_user "bob" "b@x" "h" _ _ _ (mkShift _ (idleWorker _) _ _)). vm_compute. reflexivity. }
  apply (rtc_l _ _ (mkFull (initWorld engineA) shiftDb [])).
  { eapply (fu_event "ev" "t" "d" "q" "i" 99 _ _ _ (mkShift _ (idleWorker _) _ _)). vm_compute. reflexivity. }
  apply (rtc_l _ _ (mkFull world1 shiftDb [])).
  { apply (full_message _ openMarket shiftDb [] [] open_serves); [vm_compute; reflexivity|reflexivity|constructor]. }
  apply (rtc_l _ _ (mkFull world2 sent [])).
  { apply (full_message _ bobsAsk shiftDb ["1-0"; "1-1"] (xlog world2) ask_serves); [vm_compute; reflexivity..|].
    apply (bool_decide_unpack _). vm_compute. exact I. }
  apply (rtc_l _ _ (mkFull world2 (start MinIdle sent) [])).
  { apply (fu_start MinIdle world2 sent []); [reflexivity|discriminate]. }
  apply (rtc_l _ _ (mkFull world2 (readMore MinIdle (start MinIdle sent)) [])).
  { apply (fu_read MinIdle world2 (start MinIdle sent) []); [vm_compute; reflexivity|discriminate]. }
  apply (rtc_l _ _ (mkFull world2 killed [])).
  { exact (fu_crash world2 (readMore MinIdle (start MinIdle sent)) []). }
  apply (rtc_l _ _ (mkFull world2 reclaimed [])).
  { apply (fu_start (2 * MinIdle) world2 killed []); [reflexivity|discriminate]. }
  apply (rtc_l _ _ (mkFull world2 halfway [])).
  { assert (dropNext "1-0" (rawA 0) (sh_worker reclaimed) (sh_worker halfway) [] = []) as Hd by (vm_compute; reflexivity).
    pose proof (fu_handle "1-0" (rawA 0) [("1-1", rawA 1)] world2 reclaimed [] ltac:(vm_compute; reflexivity)) as Hs.
    fold halfway in Hs. rewrite Hd in Hs. exact Hs. }
  apply rtc_once.
  assert (dropNext "1-1" (rawA 1) (sh_worker halfway) (sh_worker caughtUp) [] = []) as Hd by (vm_compute; reflexivity).
  pose proof (fu_handle "1-1" (rawA 1) [] world2 halfway [] ltac:(vm_compute; reflexivity)) as Hs.
  fold caughtUp in Hs. rewrite Hd in Hs. exact Hs.
Qed.

