(* ===== verification/Divergence.v ===== *)
(** Where the database does not follow the engine.

    The theorems of file Agreement have conditions: numbers that fit the columns, one
    command at a time, limit orders, no entry dropped as stale.  Each lemma here runs the code on an input
    outside of one of them. *)

From S2P Require Import Prelude Json Types Router State Ledger Matching Sweep.
From S2P Require Import Events Outbox Depth Commands Handlers Lease Repository Statements DbWorker Persistence.
From S2P Require Import Agreement.
Local Open Scope Z_scope.

#[local] Existing Instances marksEnv plainPackages kvRedis served.

(** The worker over the whole stream of a world. *)
Definition workAll (w : World) (d : DB) : option WorkerError * Worker :=
  processEvents (imap (λ n e, (pretty n, e.2)) (xlog w)) (idleWorker d).

Definition marketBuy (qty : Z) : MessageToEngine := mkMessage CreateOrderCommand (JText (createOrder_json
  (mkCreateOrder "m" "ev" "alice" OrderTypeMarket OutcomeYes SideBuy qty 0))).

Definition statusIn (id : string) (w : World) : option string := (λ p, o_Status (deref (heap (eng w)) p)) <$> orders (eng w) !! id.

(** The engine does not bound the quantity of a market buy, a DECIMAL(20,8) column
    does: the entry of such an order is refused with an overflow, and so is every
    redelivery of it. *)
Lemma huge_market_order_stops_worker :
  let w := runMessage (marketBuy 1000000000000) world1 in
  statusIn "m" w = Some StatusCanceled ∧
  (workAll w dbA).1 = Some (Wrap "insert order" numeric_overflow) ∧
  wk_acked (workAll w dbA).2 = [].
Proof. vm_compute. split; [reflexivity|]. split; reflexivity. Qed.

(** What is left of a market order is canceled without an ORDER_CANCELED: the row
    of the database stays open. *)
Lemma market_remainder_stays_open :
  let w := runMessage (marketBuy 15) world2 in
  statusIn "m" w = Some StatusCanceled ∧ (workAll w dbA).1 = None ∧
  or_Status <$> db_orders (wk_db (workAll w dbA).2) !! "m" = Some StatusPartial ∧
  or_RemainingQuantity <$> db_orders (wk_db (workAll w dbA).2) !! "m" = Some (5 * 100000000).
Proof. vm_compute. split; [reflexivity|]. split; [reflexivity|]. split; reflexivity. Qed.

(** The owner of a partition sends its entries under token 1; before the worker gets to
    them the lease has passed on, and the counter is 2.  The worker acknowledges them
    all and books none, and nobody sends them again: the new owner replays the commands
    without announcing what they do. *)
Definition tokenWorld (w : World) : World := with_eng (with_partitionToken (<[0 := 1]>)) w.
Definition handedOver (d : DB) : Worker := mkWorker d (∅, <[FencingKey 0 := 2]> ∅) [] 0.

Lemma handover_drops_unbooked_entries :
  let w := runMessage alicesBid (runMessage bobsAsk (tokenWorld world1)) in
  let r := processEvents (imap (λ n e, (pretty n, e.2)) (xlog w)) (handedOver dbA) in
  length (xlog w) = 6%nat ∧ statusIn "b" w = Some StatusFilled ∧
  r.1 = None ∧ length (wk_acked r.2) = 6%nat ∧ wk_db r.2 = dbA.
Proof. vm_compute. repeat split. Qed.

(** ** Two partitions *)

(** [placeOrder] up to the end of its matching: the trades are settled, and not yet
    published. *)
Definition matchedOnly (pid : Z) (order : Order) : M (list Trade) :=
  e <- get_eng ;;
  let '(res, e) := registerOrder order e in
  put_eng e ;;;
  match res with
  | RegOK p =>
      emitEventP pid EventOrderCreated (JText (order_json (deref (heap e) p))) false ;;;
      runMatch p
  | _ => ret []
  end.

Definition limitReq (id ev user side : string) (qty price : Z) : CreateOrderReq :=
  mkCreateOrder id ev user OrderTypeLimit OutcomeYes side qty price.

Definition create (req : CreateOrderReq) : MessageToEngine :=
  mkMessage CreateOrderCommand (JText (createOrder_json req)).

(** Bob holds shares of "ev", in partition 0, and Carol of "fv", in partition 1. *)
Definition engine2 : Engine :=
  with_positions (λ _, <["bob:ev:YES" := mkPosition 100 0]> (<["carol:fv:YES" := mkPosition 200 0]> ∅))
    (with_balances (λ _, <["alice" := mkBalance DefaultStartingBalance 0]> (<["bob" := mkBalance DefaultStartingBalance 0]>
        (<["carol" := mkBalance DefaultStartingBalance 0]> ∅)))
      (snd (createEventLocked "fv" (snd (createEventLocked "ev" (SetRouter (NewRouter 2 "commands") engineA)))))).

Definition db2events : DB := after (CreateUser "carol" "c@x" "h") (after (CreateEvent "fv" "t" "d" "q" "i" 99) dbA).

(** Bob offers 100 shares of "ev", Carol 150 of "fv". *)
Definition offers : World :=
  runMessage (create (limitReq "sb" "ev" "bob" SideSell 100 10000))
    (match handleMessage 1 (create (limitReq "sc" "fv" "carol" SideSell 150 10000)) (initWorld engine2) with
     | Some (_, w) => w | None => initWorld engine2 end).

(** Alice buys from Bob, who buys from Carol with the proceeds. *)
Definition aliceBuys : Order := newOrder (limitReq "ba" "ev" "alice" SideBuy 100 10000) "ba" 0.
Definition bobBuys : MessageToEngine := create (limitReq "bb" "fv" "bob" SideBuy 150 10000).

(** In this order the worker follows. *)
Definition inOrder : M () :=
  trades <- matchedOnly 0 aliceBuys ;;
  publishTrades 0 trades ;;;
  handleMessage 1 bobBuys ;;;
  ret ().

(** In the other, partition 1 publishes first. *)
Definition overtaken : M () :=
  trades <- matchedOnly 0 aliceBuys ;;
  handleMessage 1 bobBuys ;;;
  publishTrades 0 trades.

Definition after_M (m : M ()) : World := match m offers with Some (_, w) => w | None => offers end.

(** The engine settles under its lock but publishes outside of it: both orders of
    publication leave the same balances and positions, and in one of them the worker
    meets Bob's purchase before the sale that pays for it, and stops. *)
Lemma overtaken_trade_stops_worker :
  balances (eng (after_M overtaken)) = balances (eng (after_M inOrder)) ∧
  positions (eng (after_M overtaken)) = positions (eng (after_M inOrder)) ∧
  (workAll (after_M inOrder) db2events).1 = None ∧
  (workAll (after_M overtaken) db2events).1 = Some (Errorf "insufficient buyer balance").
Proof. split; [|split; [|split]]; vm_compute; reflexivity. Qed.
