(* ===== verification/Findings.v ===== *)
(** Limits of the engine: behaviours of the code that the hypotheses of the other
    theorems exclude, each shown on the model. *)

From S2P Require Import Prelude Json Types Router State Ledger Matching Sweep Events Outbox Depth Commands Handlers Replay.
From S2P Require Import Invariant Settle Register Match Sections Concurrency Commanding Determinism StateMachine Lifecycle Fixtures.
Local Open Scope Z_scope.

(** ** Shares are never issued *)

(** An engine without shares: positions are empty, all orders buy, nothing is asked. *)
Record barren (s : Snapshot) : Prop := {
  br_positions : map_Forall (λ _ p, p = zeroPosition) (positions (sn_eng s));
  br_heap : Forall (λ o, o_Side o = SideBuy) (heap (sn_eng s));
  br_books : map_Forall (λ _ m, ∀ oc b, Book m oc = Some b → Asks b = []) (markets (sn_eng s));
  br_table : ∀ id p, orders (sn_eng s) !! id = Some p → (p < length (heap (sn_eng s)))%nat;
  br_flight : ∀ p, p ∈ sn_flight s → (p < length (heap (sn_eng s)))%nat
}.

Section barren.
Context `{Environment}.

(** One critical section, whatever its numbers: unlike [step] of file Concurrency it asks
    neither for costs that fit an int64, nor for market buys within their lock, nor for a
    bound on the cash. *)
Inductive any_step : Snapshot → Snapshot → Prop :=
| any_register o e ps reg e' :
    placeable o → registerOrder o e = (reg, e') → any_step (mkSnap e ps) (mkSnap e' (takeoff reg ps))
| any_abort p e ps : p ∈ ps → any_step (mkSnap e ps) (mkSnap (abortOrder p e) (land p ps))
| any_match p e ps t trs e' t' :
    p ∈ ps → matchOrderLocked p e t = Some (trs, e', t') → any_step (mkSnap e ps) (mkSnap e' (land p ps))
| any_cancel id ev e ps res e' :
    cancelOrderLocked id ev e = (res, e') → any_step (mkSnap e ps) (mkSnap e' ps)
| any_user u e ps : any_step (mkSnap e ps) (mkSnap (createUserLocked u e) ps)
| any_event ev e ps : any_step (mkSnap e ps) (mkSnap (snd (createEventLocked ev e)) ps)
| any_setup e e' ps : core e' = core e → any_step (mkSnap e ps) (mkSnap e' ps).

Lemma step_any s d s' : step s d s' → any_step s s'.
Proof. destruct 1; by econstructor. Qed.

Lemma buys_store p f h : (∀ o, o_Side (f o) = o_Side o) →
  Forall (λ o, o_Side o = SideBuy) h → Forall (λ o, o_Side o = SideBuy) (store p f h).
Proof. intros Hf Hh. apply Forall_alter; [done|]. intros o _ Ho. by rewrite Hf. Qed.

Lemma buys_deref h p : Forall (λ o, o_Side o = SideBuy) h → (p < length h)%nat → o_Side (deref h p) = SideBuy.
Proof.
  intros Hh [o Ho]%lookup_lt_is_Some_2. unfold deref. rewrite Ho. by apply (Forall_lookup_1 _ _ _ _ Hh Ho).
Qed.

Lemma barren_buys e ps : barren (mkSnap e ps) → Forall (λ o, o_Side o = SideBuy) (heap e).
Proof. apply br_heap. Qed.

(** Changing balances and fields of orders keeps the engine barren. *)
Lemma barren_update e e' ps ps' :
  positions e' = positions e → markets e' = markets e → Forall (λ o, o_Side o = SideBuy) (heap e') →
  length (heap e') = length (heap e) → (∀ id p, orders e' !! id = Some p → orders e !! id = Some p) →
  (∀ p, p ∈ ps' → p ∈ ps) → barren (mkSnap e ps) → barren (mkSnap e' ps').
Proof.
  intros Ep Em Hh El Eo Hps [B1 B2 B3 B4 B5]. simpl in *. split; simpl; rewrite ?Ep, ?Em, ?El; try done; eauto.
Qed.

Lemma barren_release e ps p : (p < length (heap e))%nat →
  barren (mkSnap e ps) → barren (mkSnap (releaseOrderLocked p e) ps).
Proof.
  intros Hp HB. unfold releaseOrderLocked. destruct (_ <=? 0); [done|].
  rewrite (buys_deref _ _ (barren_buys _ _ HB) Hp). simpl.
  unfold getOrCreateBalance. destruct (balances e !! _); simpl;
    (apply (barren_update e _ ps); try done; simpl; [by apply buys_store, (barren_buys _ _ HB)|apply length_store]).
Qed.

Lemma Book_set oc b m oc' b' : Book (set_Book oc b m) oc' = Some b' → b' = b ∨ Book m oc' = Some b'.
Proof.
  unfold Book, set_Book. destruct (oc =s OutcomeYes), (oc =s OutcomeNo), (oc' =s OutcomeYes), (oc' =s OutcomeNo);
    simpl; naive_solver.
Qed.

Lemma barren_book e ps ev oc m b : markets e !! ev = Some m → Asks b = [] →
  barren (mkSnap e ps) → barren (mkSnap (with_markets (<[ev := set_Book oc b m]>) e) ps).
Proof.
  intros Hm Hb [B1 B2 B3 B4 B5]. split; simpl in *; try done. apply map_Forall_insert_2; [|done].
  intros oc' b' [->|Hb']%Book_set; [done|]. by apply (B3 ev m Hm oc').
Qed.

(** Against an empty side nothing is executed. *)
Lemma match_nothing p b h t : o_Side (deref h p) = SideBuy → Asks b = [] →
  ∃ b', matchAgainstBook p b h t = Some (h, b', [], t) ∧ Asks b' = [].
Proof.
  intros Hs Hb. unfold matchAgainstBook, matchFuel. cbn [matchLoop]. rewrite Hs. simpl.
  unfold matchStep, removeInvalidAsks. simpl. rewrite Hb. simpl. destruct (0 <? _); by eexists.
Qed.

Lemma addToBook_buy h b p : o_Side (deref h p) = SideBuy → Asks (addToBook h b p) = Asks b.
Proof. intros Hs. unfold addToBook. by rewrite Hs. Qed.

Lemma barren_match e ps p t trs e' t' : (p < length (heap e))%nat →
  matchOrderLocked p e t = Some (trs, e', t') → barren (mkSnap e ps) → barren (mkSnap e' (land p ps)).
Proof.
  intros Hp Hm HB. assert (∀ q, q ∈ land p ps → q ∈ ps) as Hland by (intros q [_ ?]%elem_of_land; done).
  assert (∀ st, barren (mkSnap (with_heap (store p (set_Status st)) e) (land p ps))) as Hstatus.
  { intros st. apply (barren_update e _ ps); try done; simpl; [by apply buys_store, (barren_buys _ _ HB)|apply length_store]. }
  unfold matchOrderLocked in Hm. destruct (_ =s StatusCanceled).
  { injection Hm as <- <- <-. apply (barren_update e e ps); try done. apply (barren_buys _ _ HB). }
  destruct (markets e !! o_EventID (deref (heap e) p)) as [m|] eqn:Em; [|injection Hm as <- <- <-; apply Hstatus].
  destruct (Book m (o_Outcome (deref (heap e) p))) as [b|] eqn:Eb; [|injection Hm as <- <- <-; apply Hstatus].
  pose proof (buys_deref _ _ (barren_buys _ _ HB) Hp) as Hside.
  destruct (match_nothing p b (heap e) t Hside (br_books _ HB _ _ Em _ _ Eb)) as (b' & E & Hb'). rewrite E in Hm. clear E.
  match type of Hm with context [let '(h, book) := ?x in _] => destruct x as [h' b2] eqn:Ex end.
  assert ((∃ st, h' = store p (set_Status st) (heap e)) ∧ Asks b2 = []) as [[st ->] Hb2].
  { assert (∀ st, o_Side (deref (store p (set_Status st) (heap e)) p) = SideBuy) as Hst.
    { intros st. by rewrite deref_store_eq. }
    repeat case_match; injection Ex as <- <-; (split; [by eexists|]); rewrite ?addToBook_buy by apply Hst; done. }
  cbn [foldl] in Hm. injection Hm as <- <- <-.
  set (e1 := with_markets _ _).
  assert (barren (mkSnap e1 (land p ps))) as HB1.
  { pose proof (barren_book (with_heap (store p (set_Status st)) e) _ (o_EventID (deref (heap e) p)) (o_Outcome (deref (heap e) p)) m b2 Em Hb2 (Hstatus st)) as Hbk.
    exact Hbk. }
  assert (p < length (heap e1))%nat by (unfold e1; simpl; by rewrite length_store).
  destruct (_ || _); [by apply barren_release|done].
Qed.

(** Why a sell order is refused. *)
Definition refusal (market : option Market) : string :=
  match market with Some _ => ErrInsufficientShares | None => ErrEventNotFound end.

Lemma barren_register o e ps reg e' : placeable o → registerOrder o e = (reg, e') →
  barren (mkSnap e ps) → barren (mkSnap e' (takeoff reg ps)) ∧
  (o_Side o = SideSell → orders e !! o_ID o = None →
   reg = RegFailed (refusal (markets e !! o_EventID o))).
Proof.
  intros Hpl Hreg HB. unfold registerOrder in Hreg.
  destruct (orders e !! o_ID o) as [q|] eqn:Eo; [by injection Hreg as <- <-|].
  destruct (markets e !! o_EventID o) as [m|] eqn:Em; [|by injection Hreg as <- <-].
  pose proof (pl_wf _ Hpl) as Hw. unfold reserveOrderLocked in Hreg.
  destruct (wf_side _ Hw) as [Hs|Hs]; rewrite Hs in Hreg; simpl in Hreg.
  - split; [|by rewrite Hs]. clear Eo Em. unfold getOrCreateBalance in Hreg.
    assert (∃ e1 bal, (match balances e !! o_UserID o with
      | Some bal => (bal, e) | None => (zeroBalance, putBalance (o_UserID o) zeroBalance e) end) = (bal, e1) ∧
      barren (mkSnap e1 ps) ∧ heap e1 = heap e) as (e1 & bal & E1 & HB1 & Eh).
    { destruct (balances e !! o_UserID o); (eexists _, _; split; [done|]); [done|].
      split; [|done]. apply (barren_update e _ ps); try done. apply (barren_buys _ _ HB). }
    rewrite E1 in Hreg. destruct (bal_Available bal <? _); injection Hreg as <- <-; [done|]. simpl.
    destruct HB1 as [B1 B2 B3 B4 B5]. simpl in *. split; simpl; [done| |done| |].
    + apply Forall_app. split; [done|]. by constructor.
    + intros id q [[_ <-]|[_ Hq]]%lookup_insert_Some; rewrite length_app; simpl; [lia|]. apply B4 in Hq. lia.
    + intros q [->|Hq]%elem_of_cons; rewrite length_app; simpl; [lia|]. apply B5 in Hq. lia.
  - assert (∃ e1, getOrCreatePosition (o_UserID o) (o_EventID o) (o_Outcome o) e = (zeroPosition, e1) ∧
      barren (mkSnap e1 ps)) as (e1 & E1 & HB1).
    { unfold getOrCreatePosition. destruct (positions e !! _) as [pos|] eqn:Ep.
      - rewrite (br_positions _ HB _ _ Ep). by eexists.
      - eexists. split; [done|]. destruct HB as [B1 B2 B3 B4 B5]. split; simpl in *; try done.
        by apply map_Forall_insert_2. }
    rewrite E1 in Hreg. assert (0 < o_RemainingQuantity o) as Hq.
    { destruct Hw as [(?&?&?&?) ? _ _ _ _ _]. pose proof (pl_filled _ Hpl). lia. }
    simpl in Hreg. rewrite (proj2 (Z.ltb_lt _ _) Hq) in Hreg. by injection Hreg as <- <-.
Qed.

Lemma any_step_barren s s' : any_step s s' → barren s → barren s'.
Proof.
  intros Hst HB.
  destruct Hst as [o e ps reg e' Hpl Hreg|p e ps Hp|p e ps t trs e' t' Hp Hm|id ev e ps res e' Hcan|u e ps|ev e ps|e e' ps Hcore].
  - by destruct (barren_register o e ps reg e' Hpl Hreg HB).
  - apply (barren_update e _ ps); try done; simpl; [by apply buys_store, (barren_buys _ _ HB)|apply length_store| |].
    + intros id q [_ ?]%lookup_delete_Some. done.
    + intros q [_ ?]%elem_of_land. done.
  - eapply barren_match; [|done|done]. by apply (br_flight _ HB).
  - unfold cancelOrderLocked in Hcan. destruct (orders e !! id) as [p|] eqn:Eo; [|by injection Hcan as <- <-].
    pose proof (br_table _ HB id p Eo) as Hp. simpl in Hp. rewrite (buys_deref _ _ (barren_buys _ _ HB) Hp) in Hcan.
    destruct (_ && _); [by injection Hcan as <- <-|]. destruct (final_status _); [by injection Hcan as <- <-|].
    destruct (markets e !! _) as [m|] eqn:Em; [|by injection Hcan as <- <-].
    destruct (Book m _) as [b|] eqn:Eb; [|by injection Hcan as <- <-]. injection Hcan as <- <-.
    apply barren_release; [simpl; by rewrite length_store|].
    match goal with |- barren (mkSnap (with_heap _ ?e1) _) => apply (barren_update e1 _ ps) end;
      try done; simpl; [by apply buys_store, (barren_buys _ _ HB)|apply length_store|].
    apply barren_book; [done| |done]. simpl. by apply (br_books _ HB _ _ Em _ _ Eb).
  - unfold createUserLocked. destruct (balances e !! u); [done|]. apply (barren_update e _ ps); try done. apply (barren_buys _ _ HB).
  - unfold createEventLocked. destruct (markets e !! ev) eqn:Em; [done|]. destruct HB as [B1 B2 B3 B4 B5]. split; simpl in *; try done.
    apply map_Forall_insert_2; [|done]. intros oc b. unfold Book. simpl. by repeat case_match; intros [= <-].
  - apply core_inv in Hcore as (Eh & Em & Eo & _ & Ep). destruct HB. by split; simpl in *; rewrite ?Eh, ?Em, ?Eo, ?Ep.
Qed.

Lemma newEngine_barren rm e : newEngine rm = Some e → barren (mkSnap e []).
Proof.
  unfold newEngine. destruct rm; [|done]. intros [= <-]. split; simpl; try done.
  by intros p Hp%not_elem_of_nil.
Qed.

(** C40: an engine that starts empty never accepts a sell order.  No command issues shares:
    in every state that any interleaving of critical sections reaches from [newEngine],
    with whatever amounts, all positions are empty, and registering a valid sell
    order with a new id fails, for lack of shares if its market is open and else because
    the event is unknown.  (Tests seed positions directly.) *)
Theorem fresh_engine_refuses_sells rm e0 s o :
  newEngine rm = Some e0 → rtc any_step (mkSnap e0 []) s →
  placeable o → o_Side o = SideSell → orders (sn_eng s) !! o_ID o = None →
  map_Forall (λ _ p, p = zeroPosition) (positions (sn_eng s)) ∧
  fst (registerOrder o (sn_eng s)) =
    RegFailed (refusal (markets (sn_eng s) !! o_EventID o)).
Proof.
  intros Hnew Hst Hpl Hside Hid. assert (barren s) as HB.
  { apply newEngine_barren in Hnew. revert Hnew. induction Hst as [|s1 s2 s3 H12 _ IH]; intros HB; [done|].
    apply IH; [done|]. by eapply any_step_barren. }
  split; [apply HB|]. destruct s as [e ps]. simpl in *. destruct (registerOrder o e) as [reg e'] eqn:Er.
  destruct (barren_register o e ps reg e' Hpl Er HB) as [_ Hr]. by apply Hr.
Qed.
End barren.

(** ** An order ahead of USER_CREATED *)

(** A buy order that reaches a partition before the USER_CREATED of its owner is
    refused for lack of funds, but leaves an empty account behind, and the
    USER_CREATED that follows does not fund it: the starting balance is lost. *)
Lemma early_order_forfeits_balance o e :
  balances e !! o_UserID o = None → o_Side o = SideBuy → o_OrderType o = OrderTypeLimit →
  orders e !! o_ID o = None → is_Some (markets e !! o_EventID o) →
  0 < mul64 (o_RemainingQuantity o) (o_Price o) →
  ∃ e1, registerOrder o e = (RegFailed ErrInsufficientFunds, e1) ∧
    createUserLocked (o_UserID o) e1 = e1 ∧ GetBalances (o_UserID o) e1 = (0, 0, true).
Proof.
  intros Hb Hs Ht Ho [m Hm] Hc. unfold registerOrder. rewrite Ho, Hm.
  unfold reserveOrderLocked, getOrCreateBalance. rewrite Hs, Hb, Ht. simpl.
  rewrite (proj2 (Z.ltb_lt _ _) Hc). eexists. split; [done|].
  assert (balances (putBalance (o_UserID o) zeroBalance e) !! o_UserID o = Some zeroBalance) as E by apply lookup_insert_eq.
  unfold createUserLocked, GetBalances. by rewrite E.
Qed.

(** ** Scenarios *)

#[local] Existing Instance testEnv.

Definition place (w : World) (r : CreateOrderReq) : World :=
  match handleCreateOrderP 0 (JText (createOrder_json r)) w with Some (_, w') => w' | None => w end.

Definition request (id user side ty : string) (qty price : Z) : CreateOrderReq :=
  mkCreateOrder id "ev" user ty OutcomeYes side qty price.

(** A market with Bob's and Carol's shares, and Alice and Dan with cash. *)
Definition poor : World :=
  initWorld (snd (createEventLocked "ev"
    (with_balances (λ _, <["alice" := mkBalance 100 0]> (<["dan" := mkBalance 600 0]> ∅)) seeded))).

(** A market buy may spend more than it reserved.  [reserveOrderLocked] locks all
    available cash of the buyer, and nothing stops the matching at that amount:
    the clamp in [settleTradeLocked] then forgives the difference.  Here Alice,
    with 100, buys 10 shares at 60: Bob receives 600 and the engine holds 500
    more than before. *)
Lemma market_buy_creates_money :
  let w1 := place poor (request "s" "bob" SideSell OrderTypeLimit 10 60) in
  let w2 := place w1 (request "b" "alice" SideBuy OrderTypeMarket 10 0) in
  GetBalances "alice" (eng w1) = (100, 0, true) ∧ GetBalances "alice" (eng w2) = (0, 0, true) ∧
  GetPosition "alice" "ev" "YES" (eng w2) = (10, 0, true) ∧
  GetBalances "bob" (eng w2) = (600, 0, true) ∧ cash (eng w2) = cash (eng w1) + 500.
Proof. vm_compute. repeat split; reflexivity. Qed.

(** A filled order may keep cash locked for good.  Dan bids 10 at 60 and buys 5 at
    50, so his order rests with 350 locked for 5 shares worth 300; when they are
    bought at 60 by a later sell, the order is FILLED with 50 still locked:
    only the incoming order of a match is released, and a FILLED order cannot be
    canceled. *)
Lemma maker_fill_strands_funds :
  let w1 := place poor (request "s" "carol" SideSell OrderTypeLimit 5 50) in
  let w2 := place w1 (request "b" "dan" SideBuy OrderTypeLimit 10 60) in
  let w3 := place w2 (request "t" "bob" SideSell OrderTypeLimit 5 60) in
  GetBalances "dan" (eng w3) = (0, 50, true) ∧
  (∃ p, orders (eng w3) !! "b" = Some p ∧ o_Status (deref (heap (eng w3)) p) = StatusFilled ∧
        o_LockedFunds (deref (heap (eng w3)) p) = 50) ∧
  fst (cancelOrderLocked "b" "" (eng w3)) = CancelRefused ErrOrderNotCancelable.
Proof.
  cbv zeta. split; [vm_compute; reflexivity|]. split; [|vm_compute; reflexivity].
  exists 1%nat. vm_compute. repeat split; reflexivity.
Qed.

(** The requests of a log with one order, live with a failing XADD and replayed. *)
Definition bidLog : list StreamEntry := [
  mkEntryOf "1" "" (JText (JObj [("type", JStr CreateOrderCommand);
    ("payload", createOrder_json (request "b" "dan" SideBuy OrderTypeLimit 5 60))]))].

Definition liveRun : World :=
  match @processEntries (faultyEnv 5) 0 bidLog poor with Some (_, w) => w | None => poor end.
Definition replayRun : World :=
  match replayCommandLog 0 (Some bidLog) poor with Some (_, w) => w | None => poor end.

(** A failed emission loses the reservation and makes replay diverge.  When the
    ORDER_CREATED event of Dan's order cannot be appended to the stream, the
    order is withdrawn and the client is told so, but the 300 stay reserved; and
    since the command stays in the log, a replay registers the order and rests
    it in the book. *)
Lemma failed_emission_strands_and_diverges :
  GetBalances "dan" (eng liveRun) = (300, 300, true) ∧ orders (eng liveRun) !! "b" = None ∧
  xlog liveRun = [] ∧ is_Some (orders (eng replayRun) !! "b") ∧ norm (eng liveRun) ≠ norm (eng replayRun).
Proof.
  split; [vm_compute; reflexivity|]. split; [vm_compute; reflexivity|]. split; [vm_compute; reflexivity|].
  split; [vm_compute; eauto|]. intros Heq. apply (f_equal orders) in Heq.
  apply (f_equal (lookup "b")) in Heq. vm_compute in Heq. discriminate Heq.
Qed.

(** Two emissions: the XADD of the first fails, the second succeeds. *)
Definition twoEmissions : World :=
  match (@emitEventP (faultyEnv 4) 0 EventOrderCanceled (JText (JObj [("orderId", JStr "first")])) false ;;;
         @emitEventP (faultyEnv 4) 0 EventOrderCanceled (JText (JObj [("orderId", JStr "second")])) false) poor with
  | Some (_, w) => w
  | None => poor
  end.

(** The outbox forgets an unsent event.  The file says an event stays in the
    journal until it is in the stream, so that it can be republished; but a
    later successful emission truncates the whole journal, and with it the
    earlier event that never reached the stream. *)
Lemma later_emission_discards_unsent :
  let w1 := match @emitEventP (faultyEnv 4) 0 EventOrderCanceled
                   (JText (JObj [("orderId", JStr "first")])) false poor with
            | Some (_, w) => w | None => poor end in
  length (journal w1) = 1%nat ∧ xlog w1 = [] ∧
  journal twoEmissions = [] ∧
  ((λ sx, ev_Sequence <$> unmarshal_envelope sx.2) <$> xlog twoEmissions) = [Some 2].
Proof. vm_compute. repeat split; reflexivity. Qed.

(** ** A retried append *)

Definition command (client ty : string) (payload : json) : StreamEntry :=
  mkEntryOf "" client (JText (JObj [("type", JStr ty); ("requestId", JStr client); ("payload", payload)])).

(** Dan has 600: order a takes all of it, order b comes in two copies, one on
    either side of the cancellation of a. *)
Definition retriedLog : list StreamEntry :=
  let b := command "b" CreateOrderCommand (createOrder_json (request "b" "dan" SideBuy OrderTypeLimit 5 60)) in
  [command "a" CreateOrderCommand (createOrder_json (request "a" "dan" SideBuy OrderTypeLimit 10 60)); b;
   command "c" CancelOrderCommand (JObj [("orderId", JStr "a"); ("eventId", JStr "ev")]); b].

Definition retriedRun : World :=
  match processEntries 0 retriedLog poor with Some (_, w) => w | None => poor end.

Definition success_of (j : json_text) : option json :=
  match j with JText (JObj (("success", b) :: _)) => Some b | _ => None end.

(** A retried append may run a refused order after all.  The manager retries an
    append whose reply was lost because commands are idempotent; an order that
    was refused is not remembered, so its second copy is a new attempt: the
    first reply, the one the client gets, refuses order b for lack of funds, the
    second copy is accepted, and 300 of Dan's cash are locked by an order he
    believes was refused. *)
Lemma retried_append_revives_refused_order :
  ((λ cj, (cj.1, success_of cj.2)) <$> published retriedRun) =
    [("a", Some (JBool true)); ("b", Some (JBool false)); ("c", Some (JBool true)); ("b", Some (JBool true))] ∧
  GetBalances "dan" (eng retriedRun) = (300, 300, true) ∧ is_Some (orders (eng retriedRun) !! "b").
Proof. vm_compute. repeat split; try reflexivity. eauto. Qed.

(** ** Witnesses *)

(** Alice signs up, the market opens, her bid is registered and rests; Bob's ask is refused
    for lack of shares. *)
Definition fresh0 : Engine := default (mkEngine [] ∅ ∅ ∅ ∅ true "" 0 0 (NewRouter 1 "") [0] ∅ ∅ ∅ "" "") (newEngine true).
Definition fresh1 : Engine := snd (createEventLocked "ev" (createUserLocked "alice" fresh0)).
Definition fresh2 : Engine := snd (registerOrder bid1 fresh1).
Definition fresh3 : Engine := from_option (λ r, r.1.2) fresh2 (matchOrderLocked 0 fresh2 0).

Lemma fresh_run : rtc any_step (mkSnap fresh0 []) (mkSnap fresh3 []).
Proof.
  eapply rtc_l; [apply (any_user "alice")|]. eapply rtc_l; [apply (any_event "ev")|].
  eapply rtc_l; [apply (any_register bid1 fresh1 [] (RegOK 0) fresh2)|].
  - apply limit_placeable; vm_compute; auto; try (split; [reflexivity|discriminate]). discriminate.
  - vm_compute. reflexivity.
  - apply rtc_once. apply (any_match 0 fresh2 [0%nat] 0 [] fresh3 0); [left|vm_compute; reflexivity].
Qed.

Lemma fresh_engine_refuses_sells_witness :
  Bids <$> (markets fresh3 !! "ev" ≫= λ m, Book m "YES") = Some [0%nat] ∧
  fst (registerOrder ask1 fresh3) = RegFailed ErrInsufficientShares.
Proof.
  split; [vm_compute; reflexivity|].
  destruct (fresh_engine_refuses_sells true fresh0 (mkSnap fresh3 []) ask1) as [_ Hr].
  - reflexivity.
  - exact fresh_run.
  - apply limit_placeable; vm_compute; auto; try (split; [reflexivity|discriminate]). discriminate.
  - reflexivity.
  - vm_compute. reflexivity.
  - vm_compute in Hr |- *. exact Hr.
Defined.

