(* ===== verification/Consumer.v ===== *)
(** The consumer of a partition: [consumeMessages] and [ensureCommandGroup] of
    internal/engine/engine.go, and what [runPartition] of worker.go does between
    the claim and the release of a lease.

    What the blocking reads return is an argument: the log XRANGE yields, the
    entries XAUTOCLAIM hands over, and the results of the successive reads. *)

From S2P Require Import Prelude Json Types Router State Events Outbox Commands Handlers Replay DbWorker.
From S2P Require Import Ledger Invariant Concurrency Commanding Lifecycle Fixtures Findings.
Local Open Scope Z_scope.

(** [ensureCommandGroup] tests its error the way the DB worker does. *)
Definition ensureCommandGroup (err : option string) : option string := ensureGroup err.

(** One XREADGROUP: entries, the cancellation, or another error, after which the
    loop waits unless the context is done. *)
Inductive CommandRead :=
| Delivered (entries : list StreamEntry)
| ReadCanceled
| ReadFailed (done_ : bool).

Section consumer.
Context `{Environment}.

Fixpoint consumeLoop (partitionID : Z) (reads : list CommandRead) : M () :=
  match reads with
  | [] | ReadCanceled :: _ | ReadFailed true :: _ => ret ()
  | ReadFailed false :: reads => consumeLoop partitionID reads
  | Delivered entries :: reads =>
      processEntries partitionID entries ;;;
      consumeLoop partitionID reads
  end.

Definition consumeMessages (partitionID : Z) (groupErr : option string) (claimed : list StreamEntry)
    (reads : list CommandRead) : M () :=
  match ensureCommandGroup groupErr with
  | Some _ => ret ()
  | None =>
      processEntries partitionID claimed ;;;
      consumeLoop partitionID reads
  end.

(** Between claim and release: replay the log (an error is only logged), consume. *)
Definition servePartition (partitionID : Z) (log : option (list StreamEntry)) (groupErr : option string)
    (claimed : list StreamEntry) (reads : list CommandRead) : M () :=
  replayCommandLog partitionID log ;;;
  consumeMessages partitionID groupErr claimed reads.

(** ** Invariant *)

(** The entries a consumer works through, in order. *)
Fixpoint delivered (reads : list CommandRead) : list StreamEntry :=
  match reads with
  | [] | ReadCanceled :: _ | ReadFailed true :: _ => []
  | ReadFailed false :: reads => delivered reads
  | Delivered entries :: reads => entries ++ delivered reads
  end.

Lemma processEntries_app pid es es' w :
  processEntries pid (es ++ es') w = (processEntries pid es ;;; processEntries pid es') w.
Proof.
  revert w. induction es as [|e es IH]; intros w; simpl; [done|].
  unfold bind. destruct (processStreamEntry pid e w) as [[u w1]|]; [|done].
  rewrite IH. unfold bind. done.
Qed.

(** A consumer does to the engine exactly what working through its entries in one
    batch does, however they are split into reads. *)
Lemma consumeMessages_batch pid groupErr claimed reads w :
  ensureCommandGroup groupErr = None →
  consumeMessages pid groupErr claimed reads w = processEntries pid (claimed ++ delivered reads) w.
Proof.
  intros Hg. unfold consumeMessages. rewrite Hg, processEntries_app.
  destruct (processEntries pid claimed w) as [[u w1]|] eqn:E; [|unfold bind; by rewrite E].
  rewrite !(bind_eq _ _ _ _ _ E). clear E. revert w1.
  induction reads as [|[es| |[]] reads IH]; intros w1; simpl; try done.
  rewrite processEntries_app. unfold bind. destruct (processEntries pid es w1) as [[u' w2]|]; [|done]. apply IH.
Qed.

End consumer.

(** ** Commands sent while nobody serves the partition *)

#[local] Existing Instance testEnv.

(** One order, sent by a client that waits, in the log and not yet delivered. *)
Definition backlog : list StreamEntry := [
  mkEntryOf "1-0" "client" (JText (JObj [("type", JStr CreateOrderCommand); ("requestId", JStr "r1");
    ("payload", createOrder_json (request "b" "dan" SideBuy OrderTypeLimit 5 60))]))].

Definition servedBacklog : World :=
  match servePartition 0 (Some backlog) None [] [Delivered backlog; ReadCanceled] poor with
  | Some (_, w) => w
  | None => poor
  end.

(** A command that waits in the stream when an engine takes over the partition
    takes effect without being announced.  The replay covers the whole stream,
    undelivered entries included, and is silent; when the entry is then
    delivered its order is already known and is answered as a resubmission.
    Here Dan's order is accepted, acknowledged and rests in the book with 300
    locked, but no event was sent or journalled: the database never learns of
    it. *)
Lemma backlog_is_never_announced :
  is_Some (orders (eng servedBacklog) !! "b") ∧ GetBalances "dan" (eng servedBacklog) = (300, 300, true) ∧
  ((λ cj, (cj.1, success_of cj.2)) <$> published servedBacklog) = [("client", Some (JBool true))] ∧
  length (acked servedBacklog) = 1%nat ∧ xlog servedBacklog = [] ∧ journal servedBacklog = [].
Proof. vm_compute. repeat split; try reflexivity. eauto. Qed.

(** ** Witnesses *)

