(* ===== verification/Ownership.v ===== *)
(** The ownership loop of a partition: [runPartition] and [renewLease] of
    internal/engine/worker.go, as a whole.

    A [Pass] is one turn of the loop: what the network does to its calls, what
    others do to Redis meanwhile, and what the reads of the stream return.  While it
    holds a lease the process stamps its events with the token of that lease, and
    only then does it emit any. *)

From S2P Require Import Prelude Json Types Router State Events Outbox Depth Commands Handlers Replay Lease.
From S2P Require Import Ledger Matching Invariant Concurrency Commanding Lifecycle Fixtures Findings Consumer.
Local Open Scope Z_scope.

(** The ownership metrics, by partition. *)
Record OwnerMetrics := mkOwnerMetrics {
  AcquiredPartitions : gmap Z Z;
  LeaseAcquire : gmap Z nat;
  LeaseLosses : gmap Z nat
}.

Definition count (pid : Z) (m : gmap Z nat) : gmap Z nat := <[pid := S (default 0%nat (m !! pid))]> m.

Definition on_acquire (pid : Z) (m : OwnerMetrics) : OwnerMetrics :=
  mkOwnerMetrics (<[pid := 1]> (AcquiredPartitions m)) (count pid (LeaseAcquire m)) (LeaseLosses m).
Definition on_loss (pid : Z) (m : OwnerMetrics) : OwnerMetrics :=
  mkOwnerMetrics (AcquiredPartitions m) (LeaseAcquire m) (count pid (LeaseLosses m)).
Definition on_release (pid : Z) (m : OwnerMetrics) : OwnerMetrics :=
  mkOwnerMetrics (<[pid := 0]> (AcquiredPartitions m)) (LeaseAcquire m) (LeaseLosses m).

Section ownership.
Context `{Environment} `{RedisServer}.

(** One tick of the renewal: what happened to Redis since, the call, and whether the
    context is done when the call has failed. *)
Record Tick := mkTick { tk_between : rstate → rstate; tk_net : Net; tk_done : bool }.

(** [renewLease]: [true] if the lease was lost and the context is canceled; the ticks
    end when the context does. *)
Fixpoint renewLease (lease : Lease) (ticks : list Tick) (s : rstate) : bool * rstate :=
  match ticks with
  | [] => (false, s)
  | tk :: ticks =>
      let '(ok, s) := Renew lease (tk_net tk) (tk_between tk s) in
      match ok with
      | inl _ => if tk_done tk then (false, s) else renewLease lease ticks s
      | inr false => (true, s)
      | inr true => renewLease lease ticks s
      end
  end.

Record Pass := mkPass {
  ps_before : rstate → rstate;
  ps_acquire : Net; ps_token : Net; ps_giveback : Net; ps_release : Net;
  ps_done : bool;                                  (** the engine's context, at an error *)
  ps_log : option (list StreamEntry);
  ps_group : option string;
  ps_claimed : list StreamEntry;
  ps_reads : list CommandRead;
  ps_ticks : list Tick
}.

Record Process := mkProcess { pr_world : World; pr_redis : rstate; pr_owner : OwnerMetrics }.

(** The loop, one pass each; an error while the context is done returns (and leaves
    the lease, if it was acquired, to expire: a request that never arrives). *)
Fixpoint runPartition (pid : Z) (passes : list Pass) (p : Process) : option Process :=
  match passes with
  | [] => Some p
  | ps :: passes =>
      let e := eng (pr_world p) in
      let giveback := if ps_done ps then RequestLost else ps_giveback ps in
      let '(c, e', s) := claimPartition pid (ps_acquire ps) (ps_token ps) giveback e (ps_before ps (pr_redis p)) in
      match c with
      | ClaimFailed =>
          let p := mkProcess (pr_world p) s (pr_owner p) in
          if ps_done ps then Some p else runPartition pid passes p
      | NotOwner => runPartition pid passes (mkProcess (pr_world p) s (pr_owner p))
      | Claimed _ =>
          let m := on_acquire pid (pr_owner p) in
          match servePartition pid (ps_log ps) (ps_group ps) (ps_claimed ps) (ps_reads ps)
                  (with_eng (λ _, e') (pr_world p)) with
          | None => None
          | Some (_, w) =>
              let lease := NewLease (LeaseKey pid) (engineID e) (leaseTTL e) in
              let '(lost, s) := renewLease lease (ps_ticks ps) s in
              let m := if lost then on_loss pid m else m in
              let '(e, s) := yieldPartition pid (ps_release ps) (eng w) s in
              runPartition pid passes (mkProcess (with_eng (λ _, e) w) s (on_release pid m))
          end
      end
  end.

(** ** Stamped events *)

(** An entry of the stream with the number of the partition and a token. *)
Definition stamped (pid tk : Z) (entry : string * json_text) : Prop :=
  ∃ env, entry.2 = JText (envelope_json env) ∧ ev_PartitionID env = pid ∧ ev_FencingToken env = tk.

(** From [w] to [w'] only events with this token were added. *)
Record adds (pid tk : Z) (w w' : World) : Prop := {
  ad_token : partitionToken (eng w') !! pid = Some tk;
  ad_log : ∃ new, xlog w' = xlog w ++ new ∧ Forall (stamped pid tk) new
}.

(** [m] keeps the token, stamps what it adds, and returns something in [P]. *)
Definition stamps {A} (pid tk : Z) (m : M A) (P : A → Prop) : Prop := ∀ w a w',
  partitionToken (eng w) !! pid = Some tk → m w = Some (a, w') → adds pid tk w w' ∧ P a.

Section stamps.
Context (pid tk : Z).

Lemma stamps_bind {A B} (m : M A) (k : A → M B) (P : A → Prop) (Q : B → Prop) :
  stamps pid tk m P → (∀ a, P a → stamps pid tk (k a) Q) → stamps pid tk (bind m k) Q.
Proof.
  intros Hm Hk w b w' Ht. unfold bind. destruct (m w) as [[a w1]|] eqn:E; [|done]. intros Hrun.
  destruct (Hm w a w1 Ht E) as [[Ht1 (n1 & E1 & F1)] HP]. destruct (Hk a HP w1 b w' Ht1 Hrun) as [[Ht2 (n2 & E2 & F2)] HQ].
  split; [|done]. split; [done|]. exists (n1 ++ n2). rewrite E2, E1, app_assoc. split; [done|by apply Forall_app].
Qed.

(** Steps that leave tokens and stream alone. *)
Lemma stamps_quiet {A} (m : M A) :
  (∀ w a w', m w = Some (a, w') → partitionToken (eng w') = partitionToken (eng w) ∧ xlog w' = xlog w) →
  stamps pid tk m (λ _, True).
Proof.
  intros Hq w a w' Ht Hrun. destruct (Hq w a w' Hrun) as [E1 E2]. split; [|done]. split; [by rewrite E1|].
  exists []. rewrite app_nil_r. split; [done|constructor].
Qed.

Lemma stamps_ret {A} (a : A) (P : A → Prop) : P a → stamps pid tk (ret a) P.
Proof.
  intros HP w x w' Ht [= <- <-]. split; [|done]. split; [done|]. exists []. rewrite app_nil_r. split; [done|constructor].
Qed.

Lemma stamps_weaken {A} (m : M A) (P : A → Prop) : stamps pid tk m P → stamps pid tk m (λ _, True).
Proof. intros Hm w a w' Ht Hrun. by destruct (Hm w a w' Ht Hrun). Qed.

Lemma stamps_if {A} (c : bool) (m m' : M A) P : stamps pid tk m P → stamps pid tk m' P → stamps pid tk (if c then m else m') P.
Proof. by destruct c. Qed.

Lemma stamps_get_eng {A} (k : Engine → M A) P :
  (∀ e, partitionToken e !! pid = Some tk → stamps pid tk (k e) P) → stamps pid tk (bind get_eng k) P.
Proof. intros Hk w a w' Ht Hrun. by apply (Hk (eng w) Ht w a w'). Qed.

Lemma stamps_modify f :
  (∀ w, partitionToken (eng (f w)) = partitionToken (eng w) ∧ xlog (f w) = xlog w) → stamps pid tk (modify f) (λ _, True).
Proof. intros Hf. apply stamps_quiet. intros w a w' [= _ <-]. apply Hf. Qed.

Lemma stamps_next_io : stamps pid tk next_io (λ _, True).
Proof. apply stamps_quiet. by intros w a w' [= _ <-]. Qed.

Lemma stamps_next_call : stamps pid tk next_call (λ _, True).
Proof. apply stamps_quiet. by intros w a w' [= _ <-]. Qed.

Hint Resolve stamps_ret stamps_if stamps_next_io stamps_next_call : predix.

Lemma stamps_ifOpen {A} (a : A) m : stamps pid tk m (λ _, True) → stamps pid tk (ifOpen a m) (λ _, True).
Proof.
  intros Hm w x w' Ht. unfold ifOpen. destruct (outboxOpen w); [by apply Hm|]. by apply (stamps_ret a (λ _, True)).
Qed.

Ltac stamps :=
  repeat first
    [ apply stamps_get_eng; intros ? ?
    | eapply stamps_bind; [|intros ? _]
    | apply stamps_if | apply stamps_ifOpen
    | apply stamps_next_io | apply stamps_next_call | apply stamps_ret; exact I
    | apply stamps_modify; intros w; by destruct_and?; repeat case_match ].

Lemma stamps_Append d : stamps pid tk (Append d) (λ _, True).
Proof. unfold Append. stamps. Qed.
Lemma stamps_Reset : stamps pid tk Reset (λ _, True).
Proof. unfold Reset. stamps. Qed.
Lemma stamps_publish s d : stamps pid tk (publish s d) (λ _, True).
Proof. unfold publish. stamps. Qed.

Lemma stamps_xadd s env : ev_PartitionID env = pid → ev_FencingToken env = tk →
  stamps pid tk (xadd s (JText (envelope_json env))) (λ _, True).
Proof.
  intros Hp Hk w a w' Ht. unfold xadd, bind, next_call, modify, ret. simpl. intros [= <- <-]. split; [|done].
  split; simpl; try done. eexists. split; [done|]. apply Forall_replicate. by exists env.
Qed.

Lemma stamps_nextSequence : stamps pid tk (nextSequence pid) (λ _, True).
Proof.
  apply stamps_quiet. intros w a w'. unfold nextSequence. destruct (_ <? _); [done|].
  destruct (partitionSeq (eng w) !! _); [|done]. by intros [= _ <-].
Qed.

Lemma stamps_NewEnvelope p : stamps pid tk (NewEnvelope p)
  (λ env, ev_PartitionID env = np_PartitionID p ∧ ev_FencingToken env = np_FencingToken p).
Proof.
  intros w a w' Ht [= <- <-]. split; [|done]. split; [done|]. exists []. rewrite app_nil_r. split; [done|constructor].
Qed.

Lemma stamps_emit ty d b : stamps pid tk (emitEventP pid ty d b) (λ _, True).
Proof.
  unfold emitEventP. apply stamps_get_eng. intros e He. rewrite He. cbv zeta. simpl.
  apply stamps_if; [stamps|]. apply stamps_if; [stamps|]. eapply stamps_bind; [apply stamps_nextSequence|intros n _].
  eapply stamps_bind; [apply stamps_NewEnvelope|intros env [Hp Hk]]. simpl in Hp, Hk.
  eapply stamps_bind; [apply stamps_Append|intros [err|] _]; [stamps|].
  eapply stamps_bind; [by apply stamps_xadd|intros ok _]. apply stamps_if; [stamps|].
  eapply stamps_bind; [apply stamps_if; [apply stamps_publish|stamps]|intros ok' _]. apply stamps_if; [stamps|].
  eapply stamps_bind; [apply stamps_Reset|intros _ _]. stamps.
Qed.

(** ** Commands *)

Lemma setup_tokens e e' : same_setup e e' → partitionToken e' = partitionToken e.
Proof. by intros (_&_&_&_&_&?&_). Qed.

Lemma stamps_put_eng e : partitionToken e !! pid = Some tk → stamps pid tk (put_eng e) (λ _, True).
Proof.
  intros He w a w' _ [= <- <-]. split; [|done]. split; [done|]. exists []. simpl. rewrite app_nil_r. split; [done|constructor].
Qed.

Lemma stamps_modify_eng f : (∀ e, partitionToken (f e) = partitionToken e) → stamps pid tk (modify_eng f) (λ _, True).
Proof. intros Hf. apply stamps_quiet. intros w a w' [= _ <-]. simpl. by rewrite Hf. Qed.

Lemma stamps_publishTrades trs : stamps pid tk (publishTrades pid trs) (λ _, True).
Proof.
  induction trs as [|tr trs IH]; simpl; [stamps|]. eapply stamps_bind; [stamps|intros _ _].
  eapply stamps_bind; [apply stamps_emit|by intros _ _].
Qed.

Lemma stamps_matchOrder p : stamps pid tk (matchOrder p pid) (λ _, True).
Proof.
  unfold matchOrder. eapply stamps_bind.
  - apply (stamps_quiet (runMatch p)). intros w a w'. unfold runMatch.
    destruct (matchOrderLocked p (eng w) (tick w)) as [[[trs e'] t']|] eqn:E; [|done]. intros [= _ <-]. simpl.
    by rewrite (setup_tokens _ _ (setup_match _ _ _ _ _ _ E)).
  - intros trs _. apply stamps_get_eng. intros e He. apply stamps_if; [stamps|]. eapply stamps_bind; [stamps|intros _ _].
    eapply stamps_bind; [apply stamps_publishTrades|intros _ _]. stamps.
Qed.

Lemma stamps_emitAndMatch p : stamps pid tk (emitAndMatch pid p) (λ _, True).
Proof.
  unfold emitAndMatch. apply stamps_get_eng. intros e He. eapply stamps_bind; [apply stamps_emit|intros [err|] _].
  - eapply stamps_bind; [by apply stamps_modify_eng|intros _ _]. stamps.
  - eapply stamps_bind; [apply stamps_matchOrder|intros _ _]. eapply stamps_bind; [stamps|intros _ _]. stamps.
Qed.

Lemma stamps_createOrder payload : stamps pid tk (handleCreateOrderP pid payload) (λ _, True).
Proof.
  unfold handleCreateOrderP. eapply (stamps_bind _ _ (λ _, True)); [|intros resp _].
  2:{ apply stamps_get_eng. intros e He. eapply stamps_bind; [stamps|intros _ _]. stamps. }
  unfold handleCreateOrderCore. destruct (unmarshal_createOrder payload) as [req|]; [|stamps].
  eapply stamps_bind; [apply stamps_if; [apply stamps_quiet; by intros w a w' [= _ <-]|stamps]|intros id _].
  apply stamps_if; [stamps|]. eapply stamps_bind; [apply (stamps_quiet next_time); by intros w a w' [= _ <-]|intros now _].
  unfold placeOrder. destruct (validateOrder _); [stamps|]. apply stamps_get_eng. intros e He.
  pose proof (setup_tokens _ _ (setup_register (newOrder req id now) e)) as Htk.
  destruct (registerOrder (newOrder req id now) e) as [res e1]. simpl in Htk.
  eapply stamps_bind; [apply stamps_put_eng; by rewrite Htk|intros _ _].
  destruct res; [stamps|stamps|apply stamps_emitAndMatch].
Qed.

Lemma stamps_cancelOrder payload : stamps pid tk (handleCancelOrderP pid payload) (λ _, True).
Proof.
  unfold handleCancelOrderP. destruct (unmarshal_strings _ payload) as [[|id [|ev [|]]]|];
    try (apply stamps_ret; exact I).
  apply stamps_if; [stamps|]. apply stamps_get_eng. intros e He.
  pose proof (setup_tokens _ _ (setup_cancel id ev e)) as Htk.
  destruct (cancelOrderLocked id ev e) as [res e1]. simpl in Htk.
  eapply stamps_bind; [apply stamps_put_eng; by rewrite Htk|intros _ _]. destruct res; [stamps|done|].
  eapply stamps_bind; [stamps|intros _ _]. eapply stamps_bind; [apply stamps_emit|intros _ _]. stamps.
Qed.

Lemma stamps_eng_same {A} (m : M A) :
  (∀ w a w', m w = Some (a, w') → eng w' = eng w ∧ xlog w' = xlog w) → stamps pid tk m (λ _, True).
Proof. intros Hm. apply stamps_quiet. intros w a w' [-> ->]%Hm. done. Qed.

Lemma stamps_handleMessage msg : stamps pid tk (handleMessage pid msg) (λ _, True).
Proof.
  unfold handleMessage. repeat apply stamps_if; [apply stamps_createOrder|apply stamps_cancelOrder|..].
  - apply stamps_eng_same. intros w a w' Hrun.
    destruct (handleGetDepth_eng (msg_Payload msg) w) as (r & w1 & E & ? & _ & ? & _). rewrite Hrun in E. by injection E as <- <-.
  - apply stamps_eng_same. intros w a w' Hrun.
    destruct (handleGetOpenOrders_eng (msg_Payload msg) w) as (r & w1 & E & ? & _ & ? & _). rewrite Hrun in E. by injection E as <- <-.
  - unfold handleCreateEvent. destruct (unmarshal_strings _ _) as [[|ev [|]]|]; try (apply stamps_ret; exact I).
    apply stamps_if; [stamps|]. apply stamps_get_eng. intros e He.
    assert (partitionToken (snd (createEventLocked ev e)) = partitionToken e) as Htk.
    { unfold createEventLocked. by destruct (markets e !! ev). }
    destruct (createEventLocked ev e) as [st e1]. simpl in Htk.
    eapply stamps_bind; [apply stamps_put_eng; by rewrite Htk|intros _ _]. stamps.
  - unfold handleUserCreated. destruct (unmarshal_strings _ _) as [[|u [|]]|]; try (apply stamps_ret; exact I).
    apply stamps_if; [stamps|]. eapply stamps_bind; [|intros _ _; stamps].
    apply stamps_modify_eng. intros e. unfold createUserLocked. by destruct (balances e !! u).
  - stamps.
Qed.

(** ** Entries, replay and consumption *)

Lemma stamps_processEntries es : stamps pid tk (processEntries pid es) (λ _, True).
Proof.
  induction es as [|en es IH]; simpl; [stamps|]. eapply stamps_bind; [|by intros _ _].
  unfold processStreamEntry. eapply (stamps_bind _ _ (λ _, True)); [|intros _ _].
  - unfold handleEntry. apply stamps_if; [stamps|]. destruct (unmarshal_command _) as [env|]; [|stamps].
    apply stamps_if; [stamps|]. eapply stamps_bind; [apply stamps_handleMessage|intros resp _].
    unfold reply. apply stamps_if; [stamps|]. eapply stamps_bind; [apply stamps_publish|intros _ _]. stamps.
  - unfold ack. apply stamps_get_eng. intros e He. eapply stamps_bind; [apply stamps_next_call|intros ok _].
    apply stamps_modify. intros w. by destruct ok.
Qed.

Lemma stamps_replayEntries es : stamps pid tk (replayEntries pid es) (λ _, True).
Proof.
  induction es as [|en es IH]; simpl; [stamps|]. eapply stamps_bind; [|by intros _ _].
  unfold replayEntry. apply stamps_if; [stamps|]. destruct (unmarshal_command _) as [env|]; [|stamps].
  unfold applyCommand. apply stamps_if; [stamps|]. eapply stamps_bind; [apply stamps_handleMessage|intros _ _]. stamps.
Qed.

Lemma stamps_servePartition log groupErr claimed reads :
  stamps pid tk (servePartition pid log groupErr claimed reads) (λ _, True).
Proof.
  unfold servePartition. eapply (stamps_bind _ _ (λ _, True)); [|intros _ _].
  - unfold replayCommandLog. apply stamps_get_eng. intros e He. apply stamps_if; [stamps|]. destruct log as [es|]; [|stamps].
    eapply stamps_bind; [by apply stamps_modify_eng|intros _ _].
    eapply stamps_bind; [apply stamps_replayEntries|intros _ _].
    eapply stamps_bind; [by apply stamps_modify_eng|intros _ _]. stamps.
  - unfold consumeMessages. destruct (ensureCommandGroup groupErr); [stamps|].
    eapply stamps_bind; [apply stamps_processEntries|intros _ _].
    induction reads as [|[es| |[]] reads IH]; simpl; try (apply stamps_ret; exact I); [|done].
    eapply stamps_bind; [apply stamps_processEntries|by intros _ _].
Qed.
End stamps.

(** ** The loop *)

Section loop.
Context `{!RedisLaws} (pid : Z).

(** Whatever others do, the token counter of the partition does not go back. *)
Definition forward (f : rstate → rstate) : Prop := ∀ s, tokenNow pid s ≤ tokenNow pid (f s).

Definition pass_ok (ps : Pass) : Prop := forward (ps_before ps) ∧ Forall (λ t, forward (tk_between t)) (ps_ticks ps).

Lemma Renew_token lease n s : l_key lease = LeaseKey pid → tokenNow pid (Renew lease n s).2 = tokenNow pid s.
Proof.
  intros Hk. pose proof (renewTick_counter lease n (FencingKey pid) s) as Hr. unfold renewTick in Hr. unfold tokenNow.
  destruct (Renew lease n s) as [[err|ok] s1]; simpl in *; rewrite Hr; try done; rewrite Hk; apply keys_distinct.
Qed.

Lemma renewLease_token lease ticks s :
  l_key lease = LeaseKey pid → Forall (λ t, forward (tk_between t)) ticks →
  tokenNow pid s ≤ tokenNow pid (renewLease lease ticks s).2.
Proof.
  intros Hk. revert s. induction ticks as [|t ticks IH]; intros s Hf; simpl; [done|]. apply Forall_cons in Hf as [Ht Hf].
  pose proof (Ht s) as Hs. pose proof (Renew_token lease (tk_net t) (tk_between t s) Hk) as Hr.
  destruct (Renew lease (tk_net t) (tk_between t s)) as [[err|[]] s1]; simpl in *.
  - destruct (tk_done t); simpl; [lia|]. specialize (IH s1 Hf). lia.
  - specialize (IH s1 Hf). lia.
  - lia.
Qed.

(** What one stay as the owner added to the stream. *)
Record Tenure := mkTenure { tn_token : Z; tn_events : list (string * json_text) }.

Definition ran (p p' : Process) (ts : list Tenure) : Prop :=
  xlog (pr_world p') = xlog (pr_world p) ++ concat (tn_events <$> ts) ∧
  Forall (λ t, Forall (stamped pid (tn_token t)) (tn_events t)) ts ∧
  StronglySorted Z.lt (tn_token <$> ts) ∧
  Forall (λ t, tokenNow pid (pr_redis p) < tn_token t ≤ tokenNow pid (pr_redis p')) ts ∧
  tokenNow pid (pr_redis p) ≤ tokenNow pid (pr_redis p') ∧
  (partitionToken (eng (pr_world p)) !! pid = None → partitionToken (eng (pr_world p')) !! pid = None) ∧
  default 0%nat (LeaseAcquire (pr_owner p') !! pid) = (default 0%nat (LeaseAcquire (pr_owner p) !! pid) + length ts)%nat.

Lemma ran_refl p : ran p p [].
Proof.
  unfold ran. simpl. rewrite app_nil_r. split_and!; [done|constructor|constructor|constructor|lia|done|lia].
Qed.

Lemma ran_trans p1 p2 p3 ts us : ran p1 p2 ts → ran p2 p3 us → ran p1 p3 (ts ++ us).
Proof.
  intros (X1 & S1 & O1 & B1 & L1 & T1 & C1) (X2 & S2 & O2 & B2 & L2 & T2 & C2). unfold ran.
  rewrite X2, X1, C2, C1, !fmap_app, concat_app, length_app, <- app_assoc. split_and!; [done|by apply Forall_app| | |lia|auto|lia].
  - apply StronglySorted_app_2; [|done|done]. intros x y (t & -> & Ht)%list_elem_of_fmap (u & -> & Hu)%list_elem_of_fmap.
    rewrite Forall_forall in B1, B2. specialize (B1 t Ht). specialize (B2 u Hu). lia.
  - apply Forall_app. split; (eapply Forall_impl; [eassumption|]); simpl; lia.
Qed.

(** One pass that becomes the owner. *)
Lemma served_pass ps p tk e' s w u lost s1 e s2 :
  pass_ok ps →
  claimPartition pid (ps_acquire ps) (ps_token ps) (if ps_done ps then RequestLost else ps_giveback ps)
    (eng (pr_world p)) (ps_before ps (pr_redis p)) = (Claimed tk, e', s) →
  servePartition pid (ps_log ps) (ps_group ps) (ps_claimed ps) (ps_reads ps) (with_eng (λ _, e') (pr_world p)) = Some (u, w) →
  renewLease (NewLease (LeaseKey pid) (engineID (eng (pr_world p))) (leaseTTL (eng (pr_world p)))) (ps_ticks ps) s = (lost, s1) →
  yieldPartition pid (ps_release ps) (eng w) s1 = (e, s2) →
  ∃ t, ran p (mkProcess (with_eng (λ _, e) w) s2
    (on_release pid (if lost then on_loss pid (on_acquire pid (pr_owner p)) else on_acquire pid (pr_owner p)))) [t].
Proof.
  intros [Hb Hts] Hc Hs Hr Hy. destruct (claim_spec _ _ _ _ _ _ _ _ _ Hc) as [_ Ht].
  destruct (Ht tk eq_refl) as (Etk & Es & He). specialize (Hb (pr_redis p)).
  destruct (stamps_servePartition pid tk _ _ _ _ (with_eng (λ _, e') (pr_world p)) u w He Hs) as [[_ (new & Hx & Hst)] _].
  pose proof (renewLease_token (NewLease (LeaseKey pid) (engineID (eng (pr_world p))) (leaseTTL (eng (pr_world p))))
    (ps_ticks ps) s eq_refl Hts) as Hrt. rewrite Hr in Hrt. simpl in Hrt.
  assert (tokenNow pid s2 = tokenNow pid s1 ∧ partitionToken e !! pid = None) as [Hs2 Hnone].
  { unfold yieldPartition in Hy. set (l := NewLease _ _ _) in Hy.
    pose proof (Release_counter l (ps_release ps) (FencingKey pid) s1 (keys_distinct _ _)) as Hrc.
    destruct (Release l _ s1) as [? s3]. injection Hy as <- <-. unfold tokenNow. simpl in Hrc. rewrite Hrc.
    split; [done|]. simpl. apply lookup_delete_eq. }
  exists (mkTenure tk new). unfold ran. simpl. rewrite app_nil_r.
  split_and!; [done|by constructor|by repeat constructor|constructor; [simpl; lia|constructor]|lia|done|].
  destruct lost; simpl; unfold count; rewrite lookup_insert_eq; simpl; lia.
Qed.

Lemma runPartition_ran passes : ∀ p p',
  Forall pass_ok passes → runPartition pid passes p = Some p' → ∃ ts, ran p p' ts.
Proof.
  induction passes as [|ps passes IH]; intros p p' Hok Hrun; simpl in Hrun.
  { injection Hrun as <-. exists []. apply ran_refl. }
  apply Forall_cons in Hok as [Hps Hok].
  destruct (claimPartition _ _ _ _ _ _) as [[c e'] s] eqn:Hc.
  destruct (claim_spec _ _ _ _ _ _ _ _ _ Hc) as [Hle _]. pose proof (proj1 Hps (pr_redis p)) as Hb.
  assert (∀ s', s' = s → ran p (mkProcess (pr_world p) s' (pr_owner p)) []) as Hskip.
  { intros s' ->. unfold ran. simpl. rewrite app_nil_r. split_and!; [done|constructor|constructor|constructor|lia|done|lia]. }
  destruct c as [tk| |].
  - destruct (servePartition _ _ _ _ _ _) as [[u w]|] eqn:Hs; [|done].
    destruct (renewLease _ _ _) as [lost s1] eqn:Hr. destruct (yieldPartition _ _ _ _) as [e s2] eqn:Hy.
    destruct (served_pass ps p tk e' s w u lost s1 e s2 Hps Hc Hs Hr Hy) as [t Ht].
    apply IH in Hrun as [ts Hts]; [|done]. exists (t :: ts). exact (ran_trans _ _ _ [t] ts Ht Hts).
  - apply IH in Hrun as [ts Hts]; [|done]. exists ts. exact (ran_trans _ _ _ [] ts (Hskip s eq_refl) Hts).
  - destruct (ps_done ps); [injection Hrun as <-; exists []; by apply Hskip|].
    apply IH in Hrun as [ts Hts]; [|done]. exists ts. exact (ran_trans _ _ _ [] ts (Hskip s eq_refl) Hts).
Qed.

(** C33: every event of a partition is fenced.  Over any number of passes of the
    ownership loop, with calls to Redis failing and other engines taking leases in
    between, the events a process adds to the stream fall into tenures, one for each
    lease it acquired; those of a tenure carry the token of its lease, the tokens
    increase from tenure to tenure, and the DB worker accepts an event exactly if no
    larger token was handed out since.  Afterwards the process holds no token. *)
Theorem events_are_fenced passes p p' :
  0 ≤ tokenNow pid (pr_redis p) → partitionToken (eng (pr_world p)) !! pid = None →
  Forall pass_ok passes → runPartition pid passes p = Some p' →
  ∃ ts, xlog (pr_world p') = xlog (pr_world p) ++ concat (tn_events <$> ts) ∧
    Forall (λ t, Forall (stamped pid (tn_token t)) (tn_events t)) ts ∧
    StronglySorted Z.lt (tn_token <$> ts) ∧
    (∀ t env, t ∈ ts → ev_PartitionID env = pid → ev_FencingToken env = tn_token t →
       decideEnvelope env Served (pr_redis p') =
         Some (if tn_token t <? tokenNow pid (pr_redis p') then fencingStale else fencingAccept)) ∧
    partitionToken (eng (pr_world p')) !! pid = None ∧
    default 0%nat (LeaseAcquire (pr_owner p') !! pid) = (default 0%nat (LeaseAcquire (pr_owner p) !! pid) + length ts)%nat.
Proof.
  intros H0' Hnone Hok Hrun. destruct (runPartition_ran passes p p' Hok Hrun) as (ts & Hx & Hst & Hso & Hb & _ & Ht & Hc).
  exists ts. split_and!; [done|done|done| |auto|done]. intros t env Hin Hp Htk.
  rewrite Forall_forall in Hb. specialize (Hb t Hin). simpl. rewrite Hp. unfold tokenNow in *.
  destruct (r_counter (FencingKey pid) (pr_redis p')) as [c|]; simpl in *; [|lia].
  unfold fencingDecisionForToken. rewrite Htk, (proj2 (Z.eqb_neq _ _)) by lia. by destruct (_ <? _).
Qed.
End loop.
End ownership.

(** ** Scenarios *)

#[local] Existing Instances testEnv kvRedis kvRedis_laws.

(** A pass with working calls that serves [entries] after replaying [log]. *)
Definition pass (log : option (list StreamEntry)) (entries : list StreamEntry) (ticks : list Tick) : Pass :=
  mkPass id Served Served Served Served false log None [] [Delivered entries; ReadCanceled] ticks.

Definition process0 (w : World) : Process := mkProcess w (∅, ∅) (mkOwnerMetrics ∅ ∅ ∅).

(** Dan's order a takes all his cash, b is refused, a is canceled. *)
Definition refusedLog : list StreamEntry := [
  command "a" CreateOrderCommand (createOrder_json (request "a" "dan" SideBuy OrderTypeLimit 10 60));
  command "b" CreateOrderCommand (createOrder_json (request "b" "dan" SideBuy OrderTypeLimit 5 60));
  command "c" CancelOrderCommand (JObj [("orderId", JStr "a"); ("eventId", JStr "ev")])].

(** The lease is lost once, because it expired before a renewal. *)
Definition lostOnce : list Pass :=
  [pass (Some []) refusedLog [mkTick r_elapse Served false]; pass (Some refusedLog) [] []].

Definition afterLoss (n : nat) : Process :=
  default (process0 poor) (runPartition 0 (take n lostOnce) (process0 poor)).

(** A process that loses its lease and gets it back replays the log over the state
    it still holds.  Order b, which was refused for lack of funds, is not known and
    now finds the cash that the cancellation of a gave back: it is accepted, 300 are
    locked, and no event tells anybody. *)
Lemma regained_lease_revives_refused_order :
  LeaseLosses (pr_owner (afterLoss 1)) !! 0 = Some 1%nat ∧
  orders (eng (pr_world (afterLoss 1))) !! "b" = None ∧
  GetBalances "dan" (eng (pr_world (afterLoss 1))) = (600, 0, true) ∧
  is_Some (orders (eng (pr_world (afterLoss 2))) !! "b") ∧
  GetBalances "dan" (eng (pr_world (afterLoss 2))) = (300, 300, true) ∧
  xlog (pr_world (afterLoss 2)) = xlog (pr_world (afterLoss 1)).
Proof. vm_compute. repeat split; try reflexivity. eauto. Qed.

(** The stream so far created the market; Dan sends an order. *)
Definition openingLog : list StreamEntry := [command "" CreateEventCommand (JObj [("eventId", JStr "ev")])].
Definition dansOrder : StreamEntry :=
  command "dan" CreateOrderCommand (createOrder_json (request "b" "dan" SideBuy OrderTypeLimit 5 60)).

Definition restarted : World :=
  initWorld (with_balances (λ _, <["dan" := mkBalance 600 0]> ∅) seeded).

Definition repliesOf (log : option (list StreamEntry)) : list (option json) :=
  from_option (λ p, (λ cj, success_of cj.2) <$> published (pr_world p)) []
    (runPartition 0 [pass log [dansOrder] []] (process0 restarted)).

(** An error of the replay is only logged, and the partition is served on the state
    that is there: an order for a market of the log is refused as one for an unknown
    event, and acknowledged. *)
Lemma failed_replay_is_served :
  repliesOf (Some openingLog) = [Some (JBool true)] ∧ repliesOf None = [Some (JBool false)].
Proof. vm_compute. split; reflexivity. Qed.

(** ** Witness *)

Lemma kv_forward f : f = id ∨ f = r_elapse → forward 0 f.
Proof. intros [-> | ->] s; [done|]. unfold tokenNow. by rewrite elapse_counter. Qed.

Lemma lostOnce_ok : Forall (pass_ok 0) lostOnce.
Proof.
  constructor; [|constructor; [|constructor]]; (split; [apply kv_forward; left; reflexivity|]).
  - constructor; [apply kv_forward; right; reflexivity|constructor].
  - constructor.
Qed.

Lemma default_some {A} (a : A) (m : option A) : (if m is Some _ then true else false) = true → m = Some (default a m).
Proof. by destruct m. Qed.

Lemma lostOnce_run : runPartition 0 lostOnce (process0 poor) = Some (afterLoss 2).
Proof. apply (default_some (process0 poor) (runPartition 0 lostOnce (process0 poor))). vm_compute. reflexivity. Qed.

Lemma events_are_fenced_witness :
  ∃ ts, (0 + length ts)%nat = 2%nat ∧ (0 + length (concat (tn_events <$> ts)))%nat = 2%nat ∧
    StronglySorted Z.lt (tn_token <$> ts) ∧ partitionToken (eng (pr_world (afterLoss 2))) !! 0 = None.
Proof.
  pose proof (events_are_fenced 0 lostOnce (process0 poor) (afterLoss 2)
    ltac:(vm_compute; discriminate) ltac:(vm_compute; reflexivity) lostOnce_ok lostOnce_run) as (ts & Hx & _ & Hso & _ & Hn & Hc).
  exists ts. split; [|split; [|split; [exact Hso|exact Hn]]].
  - etransitivity; [symmetry; exact Hc|]. vm_compute. reflexivity.
  - apply (f_equal length) in Hx. rewrite length_app in Hx.
    etransitivity; [symmetry; exact Hx|]. vm_compute. reflexivity.
Defined.
