(* ===== verification/Manager.v ===== *)
(** The Redis manager: pkg/redis/manager.go, through which the API sends
    commands to the engine and waits for its replies.

    Redis is a service: the class [CommandBus] lists the calls the manager
    makes, [CommandBusLaws] what the Redis documentation says of them, and
    [kvBus] is a concrete server with these laws.  Every attempt of a call may fail
    before or after taking effect ([Network]), and go-redis makes up to four of
    them.  [Randomness] and [Selects] answer what else the manager cannot
    determine: the numbers of math/rand, and which cases of the [select] of
    [awaitResponse] become ready before its timer fires. *)

From S2P Require Import Prelude Json Types Router State Commands Replay Lease.
From Stdlib Require Import Ascii.
Local Open Scope Z_scope.

(** ** The service *)

(** An entry of a command stream: the values of [clientId] and [command]. *)
Definition Fields : Type := string * json_text.

Class CommandBus := {
  bstate : Type;
  b_incr : string → bstate → Z * bstate;              (** INCR key *)
  b_xadd : string → Fields → bstate → bstate;         (** XADD stream *)
  b_entries : string → bstate → list Fields           (** XRANGE stream - + *)
}.

(** XADD appends to its stream and touches no other; INCR touches no stream. *)
Class CommandBusLaws `{CommandBus} : Prop := {
  xadd_entries k e s : b_entries k (b_xadd k e s) = b_entries k s ++ [e];
  xadd_other k e s k' : k ≠ k' → b_entries k' (b_xadd k e s) = b_entries k' s;
  incr_entries k s k' : b_entries k' (b_incr k s).2 = b_entries k' s
}.

(** [rand.Intn(n)], and its documented range. *)
Class Randomness := { rand_Intn : nat → nat → nat }.
Class RandomnessLaws `{Randomness} : Prop := { rand_Intn_range t n : (0 < n → rand_Intn t n < n)%nat }.

(** What the [select] of [awaitResponse] sees, in order, until its timer fires. *)
Inductive Ready :=
| Message (payload : json_text)      (** a message on the private channel *)
| ChannelClosed
| CtxDone (err : string).

Class Selects := { select_ready : nat → Z → list Ready }.

(** ** The manager's monad *)

Record Bus `{CommandBus} := mkBus { b_state : bstate; b_tick : nat }.
Arguments mkBus {_} _ _.

Definition B `{CommandBus} (A : Type) : Type := Bus → A * Bus.

(** A [context.Context]: what its [Err] is when it is asked at a given time. *)
Definition Context_ : Type := nat → option string.
Definition context_Background : Context_ := λ _, None.

Section monad.
Context `{CommandBus}.

Definition bret {A} (a : A) : B A := λ s, (a, s).
Definition bbind {A C} (m : B A) (k : A → B C) : B C := λ s, let '(a, s) := m s in k a s.
Definition now : B nat := λ s, (b_tick s, mkBus (b_state s) (S (b_tick s))).

(** The attempts of one call, the first at time [t], [n] more to come: a failed one is
    repeated, also if only its reply was lost. *)
Fixpoint tries `{Network} {A} (op : bstate → A * bstate) (n t : nat) (st : bstate) : (string + A) * bstate :=
  match net t with
  | Served => let '(a, st) := op st in (inr a, st)
  | RequestLost => match n with O => (inl net_error, st) | S n => tries op n (S t) st end
  | ReplyLost => match n with O => (inl net_error, (op st).2) | S n => tries op n (S t) (op st).2 end
  end.

(** One call to the server: [NewRedisManager] leaves [MaxRetries] at its default. *)
Definition request `{Network} {A} (op : bstate → A * bstate) : B (string + A) := λ s,
  let '(res, st) := tries op MaxRetries (b_tick s) (b_state s) in
  (res, mkBus st (b_tick s + S MaxRetries)).

(** [Subscribe], then [sub.Receive]: one attempt. *)
Definition confirm `{Network} : B (option string) := λ s,
  (match net (b_tick s) with Served => None | _ => Some net_error end, mkBus (b_state s) (S (b_tick s))).
End monad.

Declare Scope bus_scope.
Delimit Scope bus_scope with bus.
Notation "x <- m ;; k" := (bbind m (λ x, k))
  (at level 100, m at next level, right associativity) : bus_scope.
Notation "m ;;; k" := (bbind m (λ _, k)) (at level 100, right associativity) : bus_scope.

(** ** Messages *)

Definition response_tags : list string := ["success"; "error"; "requestId"; "data"].

Definition set_response_field (tag : string) (j : json) (r : EngineResponse) : option EngineResponse :=
  let '(mkResponse su er rq da) := r in
  if tag =s "success" then (λ x, mkResponse x er rq da) <$> into_bool j su
  else if tag =s "error" then (λ x, mkResponse su x rq da) <$> into_string j er
  else if tag =s "requestId" then (λ x, mkResponse su er x da) <$> into_string j rq
  else if tag =s "data" then (λ x, mkResponse su er rq x) <$> into_raw j da
  else Some r.

Definition unmarshal_response (t : json_text) : option EngineResponse :=
  unmarshal_struct response_tags set_response_field t (mkResponse false "" "" raw_nil).

Definition command_json (env : CommandEnvelope) : json := JObj
  ([("commandId", JStr (c_CommandID env)); ("type", JStr (c_Type env))]
   ++ omit_empty "eventId" (c_EventID env) ++ omit_empty "requestId" (c_RequestID env)
   ++ [("sequence", JInt (c_Sequence env)); ("timestamp", JTime (c_Timestamp env));
       ("payload", raw_json (c_Payload env))]).

(** [json.Marshal(env)]: a payload that is not JSON is an error, a nil one is
    written as [null]. *)
Definition marshal_command (env : CommandEnvelope) : string + json_text :=
  match c_Payload env with
  | JBad s => if s =s "" then inr (JText (command_json env))
              else inl "json: error calling MarshalJSON for type json.RawMessage"
  | JText _ => inr (JText (command_json env))
  end.

(** ** The manager *)

Record RedisManager := mkManager { rm_router : option Router }.

Definition NewRedisManager : RedisManager := mkManager None.
Definition SetRouter (r : RedisManager) (router : option Router) : RedisManager := mkManager router.
Definition GetRouter (r : RedisManager) : option Router := rm_router r.

Definition streamFor (r : RedisManager) (partitionID : Z) : string :=
  match rm_router r with
  | None => "commands"
  | Some router => Stream router partitionID
  end.

Definition groupFor (r : RedisManager) (partitionID : Z) : string :=
  match rm_router r with
  | None => "engines"
  | Some router => Group router partitionID
  end.

Definition seqKeyFor (r : RedisManager) (partitionID : Z) : string :=
  match rm_router r with
  | None => "commands:sequence"
  | Some router => SequenceKey router partitionID
  end.

Definition partitionFor (r : RedisManager) (eventID : string) : Z :=
  match rm_router r with
  | None => 0
  | Some router => if eventID =s "" then 0 else Partition router eventID
  end.

(** [DefaultRPCDeadline], in nanoseconds, and [MaxAppendRetries]. *)
Definition DefaultRPCDeadline : Z := 5 * 1000000000.
Definition MaxAppendRetries : nat := 3.

(** The 36 characters of client ids. *)
Definition chars : list ascii := String.list_ascii_of_string "abcdefghijklmnopqrstuvwxyz0123456789".

Section manager.
Context `{CommandBus} `{Network} `{Environment} `{Randomness} `{Selects}.
Local Open Scope bus_scope.

Definition createEnvelope (r : RedisManager) (typ eventID : string) (payload : json_text)
    (partitionID : Z) : B CommandEnvelope :=
  incr <- request (b_incr (seqKeyFor r partitionID)) ;;
  let seq := match incr with inl _ => 0 | inr n => wrapu64 n end in
  t <- now ;;
  let requestID := uuid_NewString t in
  bret (mkCommand requestID typ eventID requestID seq (time_Now t) payload).

(** The XADD both senders make. *)
Definition xaddCommand (stream clientID : string) (envBytes : json_text) : B (option string) :=
  res <- request (λ s, ((), b_xadd stream (clientID, envBytes) s)) ;;
  bret (match res with inl err => Some err | inr _ => None end).

(** The loop of [appendCommand] with [n] attempts left. *)
Fixpoint appendAttempts (ctx : Context_) (n : nat) (stream clientID : string) (envBytes : json_text)
    (lastErr : option string) : B (option string) :=
  match n with
  | O => bret lastErr
  | S n =>
      err <- xaddCommand stream clientID envBytes ;;
      match err with
      | None => bret None
      | Some err =>
          t <- now ;;
          match ctx t with
          | Some ctxErr => bret (Some ctxErr)
          | None =>
              t <- now ;;              (** the [select] on [ctx.Done()] and the backoff *)
              match ctx t with
              | Some ctxErr => bret (Some ctxErr)
              | None => appendAttempts ctx n stream clientID envBytes (Some err)
              end
          end
      end
  end.

Definition appendCommand (r : RedisManager) (ctx : Context_) (clientID : string)
    (env : CommandEnvelope) (partitionID : Z) : B (option string) :=
  match marshal_command env with
  | inl err => bret (Some err)
  | inr envBytes =>
      appendAttempts ctx MaxAppendRetries (streamFor r partitionID) clientID envBytes None
  end.

(** [ready] is what the [select] sees before the timer. *)
Fixpoint awaitResponse (requestID : string) (ready : list Ready) : string + EngineResponse :=
  match ready with
  | [] => inl "timeout waiting for engine response"
  | ChannelClosed :: _ => inl "response channel closed"
  | CtxDone err :: _ => inl err
  | Message payload :: ready =>
      match unmarshal_response payload with
      | None => inl "json: cannot unmarshal"
      | Some resp => if RequestID resp =s requestID then inr resp else awaitResponse requestID ready
      end
  end.

Fixpoint clientChars (t n : nat) : string :=
  match n with
  | O => EmptyString
  | S n => String (default "a"%char (chars !! rand_Intn t (length chars))) (clientChars (S t) n)
  end.

(** Twenty characters; an index out of range would panic, and [rand.Intn] is
    never out of range. *)
Definition generateClientID : B string := λ s,
  (clientChars (b_tick s) 20, mkBus (b_state s) (b_tick s + 20)%nat).

Definition SendAndAwaitWithTimeout (r : RedisManager) (eventID : string) (msg : MessageToEngine)
    (timeout : Z) : B (string + EngineResponse) :=
  let partitionID := partitionFor r eventID in
  clientID <- generateClientID ;;
  confirmed <- confirm ;;
  match confirmed with
  | Some err => bret (inl err)
  | None =>
      envelope <- createEnvelope r (msg_Type msg) eventID (msg_Payload msg) partitionID ;;
      err <- appendCommand r context_Background clientID envelope partitionID ;;
      match err with
      | Some err => bret (inl err)
      | None =>
          t <- now ;;
          bret (awaitResponse (c_RequestID envelope) (select_ready t timeout))
      end
  end.

Definition SendAndAwait (r : RedisManager) (eventID : string) (msg : MessageToEngine)
    : B (string + EngineResponse) :=
  SendAndAwaitWithTimeout r eventID msg DefaultRPCDeadline.

(** Marshal and one XADD to [stream], for nobody who waits. *)
Definition sendEnvelope (stream : string) (env : CommandEnvelope) : B (option string) :=
  match marshal_command env with
  | inl err => bret (Some err)
  | inr envBytes => xaddCommand stream "" envBytes
  end.

Definition SendCommand (r : RedisManager) (eventID typ : string) (payload : json_text)
    : B (option string) :=
  let partitionID := partitionFor r eventID in
  env <- createEnvelope r typ eventID payload partitionID ;;
  sendEnvelope (streamFor r partitionID) env.

(** The loop of [SendCommandFanout] over the partitions that are left. *)
Fixpoint fanout (r : RedisManager) (router : Router) (typ : string) (payload : json_text) (ps : list Z)
    : B (option string) :=
  match ps with
  | [] => bret None
  | p :: ps =>
      env <- createEnvelope r typ "" payload p ;;
      err <- sendEnvelope (Stream router p) env ;;
      match err with
      | Some err => bret (Some err)
      | None => fanout r router typ payload ps
      end
  end.

Definition SendCommandFanout (r : RedisManager) (typ : string) (payload : json_text)
    : B (option string) :=
  match rm_router r with
  | None => SendCommand r "" typ payload
  | Some router => fanout r router typ payload (Z.of_nat <$> seq 0 (Z.to_nat (Partitions router)))
  end.
End manager.

(** [Close]: its result, and whether the publisher was closed too; the arguments
    are what the two clients return. *)
Definition Close (clientErr publisherErr : option string) : option string * bool :=
  match clientErr with
  | Some err => (Some err, false)
  | None => (publisherErr, true)
  end.

(** ** A concrete server *)

Definition kvBus : CommandBus := {|
  bstate := gmap string Z * gmap string (list Fields);
  b_incr k s := let n := (default 0 (s.1 !! k) + 1)%Z in (n, (<[k := n]> s.1, s.2));
  b_xadd k e s := (s.1, <[k := default [] (s.2 !! k) ++ [e]]> s.2);
  b_entries k s := default [] (s.2 !! k)
|}.

#[export] Instance kvBus_laws : @CommandBusLaws kvBus.
Proof.
  split; simpl.
  - intros k e s. by rewrite lookup_insert_eq.
  - intros k e s k' Hne. by rewrite lookup_insert_ne.
  - done.
Qed.
