(* ===== verification/Rpc.v ===== *)
(** Theorems about the request/reply protocol between the API and the engine:
    what a send leaves in the command streams whatever calls fail, which reply a
    caller may get, that a reply the engine publishes reaches the caller that
    waits for it, and the fan-out over the partitions. *)

From S2P Require Import Prelude Json Types Router State Outbox Events Commands Handlers Replay Routing Lease Manager.
Local Open Scope Z_scope.

(** ** The wire format *)

(** [resolve] decides a lookup of a literal key. *)
Ltac decode_step :=
  erewrite decode_cons;
    [|by vm_compute
     |lazy -[into_int64 into_uint64]; rewrite ?into_int64_ok, ?into_uint64_ok by done; reflexivity].

(** What [createEnvelope] makes: a sequence number is a uint64. *)
Definition command_ok (env : CommandEnvelope) : Prop := 0 ≤ c_Sequence env ≤ max_uint64.

Lemma unmarshal_marshal_command env j :
  command_ok env → c_Payload env = JText j → unmarshal_command (JText (command_json env)) = Some env.
Proof.
  destruct env as [id ty ev rq sq ts pl]. unfold command_ok. simpl. intros Hs ->.
  unfold unmarshal_command, unmarshal_struct, command_json, zeroCommand, omit_empty.
  cbn [c_CommandID c_Type c_EventID c_RequestID c_Sequence c_Timestamp c_Payload raw_json].
  destruct (seqb_spec ev ""), (seqb_spec rq ""); subst; cbn [app];
    repeat decode_step; reflexivity.
Qed.

(** So the engine reads off the stream what was asked. *)
Lemma entryMessage_command env j id cl :
  command_ok env → c_Payload env = JText j → c_Type env ≠ "" →
  entryMessage (mkEntryOf id cl (JText (command_json env))) = Some (mkMessage (c_Type env) (JText j)).
Proof.
  intros Hok Hj Hty. unfold entryMessage. cbn [se_command text_empty].
  by rewrite (unmarshal_marshal_command env j Hok Hj), (seqb_ne _ _ Hty), Hj.
Qed.

(** Replies of the handlers: no request id yet, and data that is JSON or absent. *)
Definition response_ok (r : EngineResponse) : Prop :=
  RequestID r = "" ∧ (Data r = raw_nil ∨ ∃ j, Data r = JText j).

Lemma unmarshal_marshal_response r id :
  response_ok r → unmarshal_response (JText (response_json (with_RequestID id r))) = Some (with_RequestID id r).
Proof.
  destruct r as [su er rq da]. unfold response_ok. simpl. intros [-> Hd].
  unfold unmarshal_response, unmarshal_struct, response_json, with_RequestID, omit_empty.
  cbn [Success Error RequestID Data].
  destruct (seqb_spec er ""), (seqb_spec id ""), Hd as [-> | [j ->]]; subst; cbn [app raw_nil];
    repeat decode_step; reflexivity.
Qed.

(** ** Replies of the handlers *)

Section yields.
Context `{Environment}.

Definition yields {A} (P : A → Prop) (m : M A) : Prop := ∀ w a w', m w = Some (a, w') → P a.

Lemma yields_ret {A} (P : A → Prop) a : P a → yields P (ret a).
Proof. intros Ha w a' w' Heq. unfold ret in Heq. by simplify_eq. Qed.

Lemma yields_panic {A} (P : A → Prop) : yields P panic.
Proof. intros w a w'. unfold panic. congruence. Qed.

Lemma yields_bind {A C} (P : C → Prop) (Q : A → Prop) (m : M A) (k : A → M C) :
  yields Q m → (∀ a, Q a → yields P (k a)) → yields P (bind m k).
Proof.
  intros Hm Hk w c w'. unfold bind. destruct (m w) as [[a w1]|] eqn:E; [|done].
  apply (Hk a (Hm _ _ _ E)).
Qed.

Lemma yields_then {A C} (P : C → Prop) (m : M A) (k : A → M C) :
  (∀ a, yields P (k a)) → yields P (bind m k).
Proof. intros Hk. apply (yields_bind _ (λ _, True)); [by intros ?|auto]. Qed.

Lemma success_ok j : response_ok (successJSON j).
Proof. split; [done|]. right. by exists j. Qed.
Lemma failure_ok e : response_ok (failure e).
Proof. split; [done|]. by left. Qed.

Local Hint Resolve success_ok failure_ok yields_ret yields_panic : predix.

(** [reply_ok] walks through a handler to its results. *)
Ltac reply_ok :=
  repeat first
    [ progress auto with predix
    | apply yields_then; intros ?
    | match goal with |- yields _ (match ?x with _ => _ end) => destruct x end ].

Lemma handleCreateOrderP_ok pid payload : yields response_ok (handleCreateOrderP pid payload).
Proof.
  unfold handleCreateOrderP. apply (yields_bind _ response_ok); [|intros r Hr; reply_ok].
  unfold handleCreateOrderCore, placeOrder, emitAndMatch. reply_ok.
Qed.

Lemma handleMessage_ok pid msg : yields response_ok (handleMessage pid msg).
Proof.
  unfold handleMessage. destruct (_ =s _); [apply handleCreateOrderP_ok|].
  unfold handleCreateEvent, handleUserCreated, handleCancelOrderP, handleGetDepth, handleGetOpenOrders.
  reply_ok.
  intros ? ? ? Heq. simplify_eq. apply success_ok.
Qed.
End yields.

(** ** What a send leaves in the streams *)

Section sends.
Context `{CommandBusLaws} `{Network} `{Environment} `{Randomness} `{Selects}.
Implicit Types (s : Bus) (k : string).

Definition entries k s : list Fields := b_entries k (b_state s).

(** From [s] to [s'] stream [k] got [es], and no other stream anything. *)
Definition grew k (es : list Fields) s s' : Prop :=
  entries k s' = entries k s ++ es ∧ ∀ k', k' ≠ k → entries k' s' = entries k' s.

(** No stream got anything. *)
Definition untouched s s' : Prop := ∀ k, entries k s' = entries k s.

Lemma untouched_grew k s s' : untouched s s' → grew k [] s s'.
Proof. intros Hu. split; [rewrite app_nil_r; apply Hu|intros k' _; apply Hu]. Qed.

Lemma grew_trans k es es' s1 s2 s3 : grew k es s1 s2 → grew k es' s2 s3 → grew k (es ++ es') s1 s3.
Proof.
  intros [E1 O1] [E2 O2]. split; [by rewrite E2, E1, app_assoc|].
  intros k' Hk. by rewrite O2, O1.
Qed.

Lemma untouched_then k es s1 s2 s3 : untouched s1 s2 → grew k es s2 s3 → grew k es s1 s3.
Proof. intros Hu Hg. change es with ([] ++ es). eapply grew_trans; [by apply untouched_grew|done]. Qed.

Lemma grew_then k es s1 s2 s3 : grew k es s1 s2 → untouched s2 s3 → grew k es s1 s3.
Proof. intros Hg Hu. rewrite <- (app_nil_r es). eapply grew_trans; [done|by apply untouched_grew]. Qed.

(** Calls that leave the streams alone. *)
Lemma tries_incr k n : ∀ t st k', b_entries k' (tries (b_incr k) n t st).2 = b_entries k' st.
Proof.
  induction n as [|n IH]; intros t st k'; simpl; pose proof (incr_entries k st k') as Hi;
    destruct (net t); rewrite ?IH; try done; by destruct (b_incr k st).
Qed.

Lemma request_incr_untouched k s : untouched s (request (b_incr k) s).2.
Proof.
  intros k'. unfold request, entries. pose proof (tries_incr k MaxRetries (b_tick s) (b_state s) k') as Ht.
  by destruct (tries _ _ _ _).
Qed.

Lemma request_tick {A} (op : bstate → A * bstate) s : b_tick (request op s).2 = (b_tick s + S MaxRetries)%nat.
Proof. unfold request. by destruct (tries _ _ _ _). Qed.

(** An XADD with [n] repetitions: one copy per attempt that reached the server. *)
Lemma tries_xadd k e n : ∀ t st res st',
  tries (λ st, ((), b_xadd k e st)) n t st = (res, st') →
  (is_Some (maybe inr res) ↔ ∃ j, (j ≤ n)%nat ∧ net (t + j) = Served) ∧
  ∃ m, (m ≤ S n)%nat ∧ (is_Some (maybe inr res) → (0 < m)%nat) ∧
    b_entries k st' = b_entries k st ++ replicate m e ∧ ∀ k', k' ≠ k → b_entries k' st' = b_entries k' st.
Proof.
  assert (∀ st m st', b_entries k st' = b_entries k (b_xadd k e st) ++ replicate m e →
    b_entries k st' = b_entries k st ++ replicate (S m) e) as Hone.
  { intros st m st' ->. by rewrite xadd_entries, <- app_assoc. }
  assert (∀ st k', k' ≠ k → b_entries k' (b_xadd k e st) = b_entries k' st) as Hoth.
  { intros st k' Hk. by rewrite xadd_other. }
  assert (∀ t n, net t ≠ Served → (∃ j, (j ≤ n)%nat ∧ net (S t + j) = Served) ↔ ∃ j, (j ≤ S n)%nat ∧ net (t + j) = Served) as Hsh.
  { intros t m Hne. split; intros (j & Hj & E).
    - exists (S j). split; [lia|]. by rewrite Nat.add_succ_r.
    - destruct j as [|j]; [by rewrite Nat.add_0_r in E|]. exists j. split; [lia|]. by rewrite <- Nat.add_succ_comm in E. }
  assert (∀ t n st (res : string + ()) st', net t = Served → (inr (), b_xadd k e st) = (res, st') →
    (is_Some (maybe inr res) ↔ ∃ j, (j ≤ n)%nat ∧ net (t + j) = Served) ∧
    ∃ m, (m ≤ S n)%nat ∧ (is_Some (maybe inr res) → (0 < m)%nat) ∧
      b_entries k st' = b_entries k st ++ replicate m e ∧ ∀ k', k' ≠ k → b_entries k' st' = b_entries k' st) as Hserved.
  { intros t m st res st' Et [= <- <-]. split.
    - split; [|by eexists]. intros _. exists 0%nat. rewrite Nat.add_0_r. split; [lia|done].
    - exists 1%nat. split_and!; [lia|lia|by rewrite xadd_entries|by apply Hoth]. }
  induction n as [|n IH]; intros t st res st'; simpl; destruct (net t) eqn:Et; try by apply Hserved.
  - intros [= <- <-]. split; [split; [by intros []|]|].
    { intros (j & Hj & E). assert (j = 0%nat) as -> by lia. rewrite Nat.add_0_r in E. congruence. }
    exists 0%nat. rewrite app_nil_r. split_and!; [lia|by intros []|done|done].
  - intros [= <- <-]. split; [split; [by intros []|]|].
    { intros (j & Hj & E). assert (j = 0%nat) as -> by lia. rewrite Nat.add_0_r in E. congruence. }
    exists 1%nat. split_and!; [lia|by intros []|by rewrite xadd_entries|by apply Hoth].
  - intros (Hi & m & Hm & Hp & Es & Eo)%IH. split; [rewrite Hi, Hsh by congruence; done|].
    exists m. split_and!; [lia|done|done|done].
  - intros (Hi & m & Hm & Hp & Es & Eo)%IH. split; [rewrite Hi, Hsh by congruence; done|].
    exists (S m). split_and!; [lia|lia|by apply Hone|]. intros k' Hk. by rewrite Eo, Hoth.
Qed.

Lemma createEnvelope_spec r typ ev payload pid s :
  let env := (createEnvelope r typ ev payload pid s).1 in
  let s' := (createEnvelope r typ ev payload pid s).2 in
  untouched s s' ∧ c_Type env = typ ∧ c_EventID env = ev ∧ c_Payload env = payload ∧
  c_CommandID env = c_RequestID env ∧ command_ok env ∧ b_tick s' = (b_tick s + S (S MaxRetries))%nat.
Proof.
  unfold createEnvelope, bbind, now, bret.
  pose proof (request_incr_untouched (seqKeyFor r pid) s) as Hu.
  pose proof (request_tick (b_incr (seqKeyFor r pid)) s) as Ht.
  destruct (request (b_incr (seqKeyFor r pid)) s) as [res s1]. simpl in *.
  split_and!; [exact Hu|done|done|done|done| |rewrite Ht; lia].
  unfold command_ok; simpl. destruct res as [|n]; [unfold max_uint64; lia|].
  unfold wrapu64, max_uint64. pose proof (Z.mod_pos_bound n 18446744073709551616). lia.
Qed.

(** One XADD: the entry is in the stream if it was acknowledged, and may be
    there if it was not; every attempt leaves at most one copy. *)
Lemma xaddCommand_spec k cl txt s err s' :
  xaddCommand k cl txt s = (err, s') →
  b_tick s' = (b_tick s + S MaxRetries)%nat ∧
  (err = None ↔ ∃ j, (j ≤ MaxRetries)%nat ∧ net (b_tick s + j) = Served) ∧
  ∃ n, (n ≤ S MaxRetries)%nat ∧ (err = None → (0 < n)%nat) ∧ grew k (replicate n (cl, txt)) s s'.
Proof.
  unfold xaddCommand, bbind, bret, request.
  destruct (tries _ MaxRetries (b_tick s) (b_state s)) as [res st] eqn:Et.
  apply tries_xadd in Et as (Hi & n & Hn & Hp & Es & Eo). intros [= <- <-]. split; [done|].
  assert (match res with inl err => Some err | inr _ => None end = None ↔ is_Some (maybe inr res)) as Hr.
  { destruct res; simpl; split; try done; by intros []. }
  split; [by rewrite Hr|]. exists n. split_and!; [done|by rewrite Hr|]. by split.
Qed.

Lemma appendAttempts_spec n k cl txt : ∀ le s err s',
  (n = 0%nat → is_Some le) →
  appendAttempts context_Background n k cl txt le s = (err, s') →
  ∃ m, (m ≤ n * S MaxRetries)%nat ∧ (err = None → (0 < m)%nat) ∧ grew k (replicate m (cl, txt)) s s'.
Proof.
  induction n as [|n IH]; intros le s err s' Hle; cbn [appendAttempts].
  { unfold bret. intros Heq; simplify_eq. exists 0%nat. split_and!; [lia| |by apply untouched_grew].
    intros ->. by destruct Hle. }
  unfold bbind at 1. destruct (xaddCommand k cl txt s) as [e1 s1] eqn:E.
  destruct (xaddCommand_spec _ _ _ _ _ _ E) as (_ & _ & m & Hm & Hm1 & Hg).
  destruct e1 as [e1|].
  - cbn [bbind now context_Background]. intros Heq. apply IH in Heq as (m' & Hm' & Hp & Hg'); [|by eexists].
    exists (m + m')%nat. split_and!; [lia|naive_solver lia|]. rewrite replicate_add. eapply grew_trans; [exact Hg|].
    exact Hg'.
  - unfold bret. intros Heq; simplify_eq. exists m. split_and!; [lia|naive_solver lia|done].
Qed.

(** The append succeeds as soon as one of its attempts is served. *)
Lemma appendAttempts_served n k cl txt : ∀ le s i j,
  (i < n)%nat → (j ≤ MaxRetries)%nat → net (b_tick s + (3 + MaxRetries) * i + j) = Served →
  (appendAttempts context_Background n k cl txt le s).1 = None.
Proof.
  induction n as [|n IH]; intros le s i j Hi Hj Hnet; [lia|]. cbn [appendAttempts].
  unfold bbind at 1. destruct (xaddCommand k cl txt s) as [e1 s1] eqn:E.
  destruct (xaddCommand_spec _ _ _ _ _ _ E) as (Ht & Hs & _).
  destruct e1 as [e1|]; [|done]. cbn [bbind now context_Background].
  destruct i as [|i].
  { rewrite Nat.mul_0_r, Nat.add_0_r in Hnet. exfalso. assert (Some e1 = None) as Hx; [|done]. apply Hs. by exists j. }
  apply (IH _ _ i j); [lia|done|]. cbn [b_tick]. rewrite Ht, <- Hnet. f_equal. lia.
Qed.

Lemma appendAttempts_tick n k cl txt : ∀ le s,
  (b_tick s ≤ b_tick (appendAttempts context_Background n k cl txt le s).2)%nat.
Proof.
  induction n as [|n IH]; intros le s; cbn [appendAttempts]; [done|].
  unfold bbind at 1. destruct (xaddCommand k cl txt s) as [e1 s1] eqn:E.
  destruct (xaddCommand_spec _ _ _ _ _ _ E) as (Ht & _).
  destruct e1 as [e1|]; [|simpl; lia]. cbn [bbind now context_Background].
  etrans; [|apply IH]. simpl. lia.
Qed.

Lemma clientChars_length t n : String.length (clientChars t n) = n.
Proof. revert t. induction n as [|n IH]; intros t; simpl; [done|]. by rewrite IH. Qed.

(** The calls of a send that starts at [t]: the subscription is confirmed and one
    of the attempts of one of the XADD calls is served. *)
Definition reachable (t : nat) : Prop :=
  net (t + 20) = Served ∧
  ∃ i j, (i < MaxAppendRetries)%nat ∧ (j ≤ MaxRetries)%nat ∧ net (t + 26 + (3 + MaxRetries) * i + j) = Served.

Lemma bbind_eq {A C} (m : B A) (k : A → B C) s a s' : m s = (a, s') → bbind m k s = k a s'.
Proof. intros Hm. unfold bbind. by rewrite Hm. Qed.

Lemma confirm_spec s res s' : confirm s = (res, s') →
  untouched s s' ∧ b_tick s' = S (b_tick s) ∧ (res = None ↔ net (b_tick s) = Served).
Proof. unfold confirm. intros [= <- <-]. split; [by intros k|]. split; [done|]. by destruct (net _). Qed.

(** A command as a send builds it between [s] and [s']. *)
Record built (ev : string) (msg : MessageToEngine) (env : CommandEnvelope) s s' : Prop := {
  bu_type : c_Type env = msg_Type msg;
  bu_event : c_EventID env = ev;
  bu_payload : c_Payload env = msg_Payload msg;
  bu_id : c_CommandID env = c_RequestID env;
  bu_ok : command_ok env;
  bu_fresh : ∃ t, (b_tick s ≤ t < b_tick s')%nat ∧ c_RequestID env = uuid_NewString t
}.

Lemma createEnvelope_fresh r typ ev payload pid s :
  c_RequestID (createEnvelope r typ ev payload pid s).1 = uuid_NewString (b_tick s + S MaxRetries).
Proof.
  unfold createEnvelope, bbind, now, bret. pose proof (request_tick (b_incr (seqKeyFor r pid)) s) as Ht.
  destruct (request _ s) as [res s1]. simpl in *. by rewrite Ht.
Qed.

(** The whole call: at most twelve copies of one entry, and an answer only from
    the wait. *)
Lemma send_spec r ev msg timeout s j res s' :
  msg_Payload msg = JText j →
  SendAndAwaitWithTimeout r ev msg timeout s = (res, s') →
  ∃ n clientID env t, (n ≤ MaxAppendRetries * S MaxRetries)%nat ∧ String.length clientID = 20%nat ∧
    (n = 0%nat ∨ built ev msg env s s') ∧
    grew (streamFor r (partitionFor r ev)) (replicate n (clientID, JText (command_json env))) s s' ∧
    ((∃ err, res = inl err) ∧ ¬ reachable (b_tick s)
     ∨ (0 < n)%nat ∧ res = awaitResponse (c_RequestID env) (select_ready t timeout)).
Proof.
  intros Hj. unfold SendAndAwaitWithTimeout.
  rewrite (bbind_eq generateClientID _ s _ _ eq_refl).
  set (cl := clientChars (b_tick s) 20). set (s0 := mkBus (b_state s) (b_tick s + 20)).
  assert (String.length cl = 20%nat) as Hcl by apply clientChars_length.
  destruct (confirm s0) as [conf s1] eqn:Ec. rewrite (bbind_eq _ _ _ _ _ Ec).
  destruct (confirm_spec _ _ _ Ec) as (Hu1 & Ht1 & Hc1).
  destruct conf as [e|].
  { unfold bret. intros Heq. simplify_eq. exists 0%nat, cl, zeroCommand, 0%nat.
    split_and!; [lia|done|by left|by apply untouched_grew|]. left. split; [by eexists|].
    intros [Hs _]. by apply Hc1 in Hs. }
  set (pid := partitionFor r ev).
  pose proof (createEnvelope_spec r (msg_Type msg) ev (msg_Payload msg) pid s1) as (Hu & Ht & He & Hp & Hid & Hok & Htk).
  pose proof (createEnvelope_fresh r (msg_Type msg) ev (msg_Payload msg) pid s1) as Hf.
  rewrite (bbind_eq (createEnvelope _ _ _ _ _) _ _ _ _ (surjective_pairing _)).
  destruct (createEnvelope r (msg_Type msg) ev (msg_Payload msg) pid s1) as [env s2].
  cbn [fst snd] in *. unfold appendCommand, marshal_command. rewrite Hp, Hj.
  assert (untouched s s2) as Hu2 by (intros k; by rewrite Hu, Hu1).
  set (m := appendAttempts _ _ _ _ _ _). destruct (m s2) as [err s3] eqn:Ea. rewrite (bbind_eq _ _ _ _ _ Ea).
  unfold m in Ea. destruct (appendAttempts_spec MaxAppendRetries _ _ _ None _ _ _ ltac:(discriminate) Ea) as (n & Hn & Hpos & Hg).
  pose proof (appendAttempts_tick MaxAppendRetries (streamFor r pid) cl (JText (command_json env)) None s2) as Hle.
  rewrite Ea in Hle. cbn [snd] in Hle. unfold s0 in Ht1; cbn [b_tick] in Ht1.
  assert (∀ i, (b_tick s3 ≤ i)%nat → built ev msg env s (mkBus (b_state s3) i)) as Hb.
  { intros i Hi. split; [done..|]. exists (b_tick s1 + S MaxRetries)%nat. simpl. split; [lia|done]. }
  destruct err as [err|]; unfold bret; [|unfold bbind, now]; intros [= <- <-].
  - exists n, cl, env, 0%nat. split_and!; [done|done| |by eapply untouched_then|].
    { right. destruct s3. apply Hb. done. }
    left. split; [by eexists|]. intros [_ (i & i' & Hi & Hi' & Hnet)].
    pose proof (appendAttempts_served MaxAppendRetries (streamFor r pid) cl (JText (command_json env)) None s2 i i' Hi Hi') as Hs.
    rewrite Ea in Hs. discriminate Hs. rewrite <- Hnet. f_equal. unfold MaxRetries in *. lia.
  - exists n, cl, env, (b_tick s3). split_and!; [done|done|right; apply Hb; simpl; lia| |].
    { eapply untouched_then; [done|]. eapply grew_then; [done|]. by intros k. }
    right. split; [by apply Hpos|done].
Qed.

(** What an answer of the wait is: a message that was received, carrying the
    request's id. *)
Lemma awaitResponse_inr id ready resp :
  awaitResponse id ready = inr resp →
  RequestID resp = id ∧ ∃ payload, Message payload ∈ ready ∧ unmarshal_response payload = Some resp.
Proof.
  induction ready as [|[payload| |err] ready IH]; simpl; [done| |done|done].
  destruct (unmarshal_response payload) as [x|] eqn:E; [|done].
  destruct (seqb_spec (RequestID x) id) as [Heq|Hne].
  - intros Hx. injection Hx as ->. split; [done|]. exists payload. split; [left|done].
  - intros Hx. destruct (IH Hx) as [Hid (p & Hp & Hr)]. split; [done|]. exists p. split; [by right|done].
Qed.

(** Messages for other requests. *)
Definition strays (id : string) (ready : list Ready) : Prop :=
  Forall (λ r, ∃ p x, r = Message p ∧ unmarshal_response p = Some x ∧ RequestID x ≠ id) ready.

Lemma awaitResponse_strays id pre ready :
  strays id pre → awaitResponse id (pre ++ ready) = awaitResponse id ready.
Proof.
  induction 1 as [|r pre (p & x & -> & Hx & Hne) Hs IH]; simpl; [done|].
  by rewrite Hx, (seqb_ne _ _ Hne).
Qed.

(** The engine's side: what it publishes for an entry decodes to its response,
    with the id of the request. *)
Lemma handleEntry_reply pid id cl env msg w resp w1 :
  cl ≠ "" → unmarshal_command (JText (command_json env)) = Some env → c_Type env ≠ "" →
  msg = mkMessage (c_Type env) (c_Payload env) →
  handleMessage pid msg w = Some (resp, w1) → io_ok (tick w1) = true →
  ∃ w2 p, handleEntry pid (mkEntryOf id cl (JText (command_json env))) w = Some ((), w2) ∧
    eng w2 = eng w1 ∧ (∃ n, (n ≤ MaxRetries)%nat ∧ published w2 = published w1 ++ replicate (S n) (cl, p)) ∧
    unmarshal_response p = Some (with_RequestID (c_RequestID env) resp).
Proof.
  intros Hcl Hu Hty -> Hh Hio. unfold handleEntry. cbn [se_command se_clientId text_empty].
  rewrite Hu, (seqb_ne _ _ Hty), (bind_eq _ _ _ _ _ Hh). unfold reply. rewrite (seqb_ne _ _ Hcl).
  pose proof (handleMessage_ok _ _ _ _ _ Hh) as Hok.
  assert ((if c_RequestID env =s "" then resp else with_RequestID (c_RequestID env) resp)
          = with_RequestID (c_RequestID env) resp) as ->.
  { destruct (seqb_spec (c_RequestID env) "") as [->|]; [|done]. destruct Hok as [Hr _].
    destruct resp. simpl in Hr. by subst. }
  unfold publish, bind, next_call, modify, ret. destruct (executed_ok _ Hio) as (k & Ek & Hk).
  eexists _, _. split; [done|]. split_and!; [done|exists k; simpl; by rewrite Ek|]. by apply unmarshal_marshal_response.
Qed.
End sends.

(** ** Theorems *)

Section theorems.
Context `{CommandBusLaws} `{Network} `{Environment} `{Randomness} `{Selects}.
Implicit Types (s : Bus).

(** C16: whatever attempts fail, a request for a message with a type and a JSON
    payload leaves at most twelve copies (three XADD calls of up to four attempts
    each) of one entry in the stream of its event's partition and nothing anywhere
    else; the entry is the command that was asked for, and asks for a reply.  A
    response is only returned after the command was appended, it was received on the
    private channel, and it carries the id made for this very request. *)
Theorem request_is_sent_and_correlated r ev msg timeout s j res s' :
  msg_Payload msg = JText j → msg_Type msg ≠ "" →
  SendAndAwaitWithTimeout r ev msg timeout s = (res, s') →
  ∃ n clientID command, (n ≤ 12)%nat ∧
    grew (streamFor r (partitionFor r ev)) (replicate n (clientID, command)) s s' ∧
    (0 < n → clientID ≠ "" ∧ ∀ id, entryMessage (mkEntryOf id clientID command) = Some msg)%nat ∧
    ∀ resp, res = inr resp → (0 < n)%nat ∧
      ∃ env t t' payload, unmarshal_command command = Some env ∧ c_EventID env = ev ∧
        RequestID resp = c_RequestID env ∧ RequestID resp = uuid_NewString t ∧
        (b_tick s ≤ t < b_tick s')%nat ∧
        Message payload ∈ select_ready t' timeout ∧ unmarshal_response payload = Some resp.
Proof.
  intros Hj Hty Hsend.
  destruct (send_spec r ev msg timeout s j res s' Hj Hsend) as (n & cl & env & t & Hn & Hcl & Hb & Hg & Hres).
  exists n, cl, (JText (command_json env)). split_and!; [done|done| |].
  - intros Hpos. destruct Hb as [?|Hb]; [lia|]. split; [by intros ->|]. intros id.
    destruct Hb as [Ht _ Hp _ Hok _].
    rewrite (entryMessage_command env j) by congruence. rewrite Ht, <- Hj. by destruct msg.
  - intros resp ->. destruct Hres as [[[e ?] _]|[Hpos Haw]]; [done|]. split; [done|].
    destruct Hb as [?|Hb]; [lia|]. symmetry in Haw.
    destruct (awaitResponse_inr _ _ _ Haw) as [Hid (p & Hp & Hr)].
    destruct (bu_fresh _ _ _ _ _ Hb) as (u & Hu & Hfresh).
    exists env, u, t, p. split_and!; [|apply Hb|done|by rewrite Hid|lia|lia|done|done].
    apply (unmarshal_marshal_command env j); [apply Hb|]. by rewrite (bu_payload _ _ _ _ _ Hb).
Qed.

(** C8: a request is answered.  When the subscription is confirmed and one of the
    attempts to append is served, the command is in the stream; whichever engine
    handles it there with response [resp] publishes a message on the caller's
    channel, and if that message is delivered before the timer, behind any number
    of messages for other requests, the call returns exactly [resp], stamped with
    the request's id. *)
Theorem request_is_answered r ev msg timeout s j res s' :
  msg_Payload msg = JText j → msg_Type msg ≠ "" →
  SendAndAwaitWithTimeout r ev msg timeout s = (res, s') → reachable (b_tick s) →
  ∃ clientID command rid t,
    (clientID, command) ∈ entries (streamFor r (partitionFor r ev)) s' ∧
    ∀ pid id w resp w1, handleMessage pid msg w = Some (resp, w1) → io_ok (tick w1) = true →
    ∃ w2 p, handleEntry pid (mkEntryOf id clientID command) w = Some ((), w2) ∧
      eng w2 = eng w1 ∧ (∃ n, (n ≤ MaxRetries)%nat ∧ published w2 = published w1 ++ replicate (S n) (clientID, p)) ∧
      ∀ pre rest, select_ready t timeout = pre ++ Message p :: rest → strays rid pre →
        res = inr (with_RequestID rid resp).
Proof.
  intros Hj Hty Hsend Hreach.
  destruct (send_spec r ev msg timeout s j res s' Hj Hsend) as (n & cl & env & t & Hn & Hcl & Hb & Hg & Hres).
  destruct Hres as [[_ Hno]|[Hpos ->]]; [done|]. destruct Hb as [?|Hb]; [lia|].
  exists cl, (JText (command_json env)), (c_RequestID env), t. split.
  { destruct Hg as [-> _]. apply elem_of_app. right. destruct n; [lia|]. left. }
  intros pid id w resp w1 Hh Hio. destruct Hb as [Ht He Hp _ Hok _].
  destruct (handleEntry_reply pid id cl env msg w resp w1) as (w2 & p & E & Hw & Hpub & Hresp); try done.
  { by intros ->. } { apply (unmarshal_marshal_command env j Hok). by rewrite Hp. }
  { by rewrite Ht. } { rewrite Ht, Hp. by destruct msg. }
  exists w2, p. split_and!; [done|done|done|]. intros pre rest -> Hstray.
  rewrite (awaitResponse_strays _ _ _ Hstray). simpl. rewrite Hresp. simpl. by rewrite seqb_refl.
Qed.

(** One copy of a command that nobody waits for. *)
Definition silent_copy (typ : string) (payload : json_text) (e : Fields) : Prop :=
  e.1 = "" ∧ ∀ id, entryMessage (mkEntryOf id e.1 e.2) = Some (mkMessage typ payload).

Lemma send_silent r typ payload pid k s j err s' :
  payload = JText j → typ ≠ "" →
  bbind (createEnvelope r typ "" payload pid) (sendEnvelope k) s = (err, s') →
  ∃ n e, (n ≤ S MaxRetries)%nat ∧ (err = None → (0 < n)%nat) ∧ silent_copy typ payload e ∧ grew k (replicate n e) s s'.
Proof.
  intros -> Hty. destruct (createEnvelope_spec r typ "" (JText j) pid s) as (Hu & Ht & _ & Hp & _ & Hok & _).
  unfold bbind. destruct (createEnvelope r typ "" (JText j) pid s) as [env s1]. cbn [fst snd] in *.
  unfold sendEnvelope, marshal_command. rewrite Hp. intros Heq.
  destruct (xaddCommand_spec _ _ _ _ _ _ Heq) as (_ & _ & n & Hn & Hn1 & Hg).
  exists n, ("", JText (command_json env)). split_and!; [done|done| |by eapply untouched_then].
  split; [done|]. intros id. cbn [fst snd]. by rewrite (entryMessage_command env j), Ht by congruence.
Qed.

(** A prefix of the partitions and the rest. *)
Lemma partitions_split n dn ps' :
  Z.of_nat <$> seq 0 n = dn ++ ps' →
  (length dn + length ps' = n)%nat ∧ (∀ p, 0 ≤ p < Z.of_nat (length dn) → p ∈ dn) ∧
  (∀ p, Z.of_nat (length dn) < p < Z.of_nat n → p ∈ tail ps') ∧
  ((length dn < n)%nat → head ps' = Some (Z.of_nat (length dn))).
Proof.
  intros Heq. assert (length dn + length ps' = n)%nat as Hlen.
  { rewrite <- length_app, <- Heq, length_fmap, length_seq. done. }
  assert (∀ i, (i < n)%nat → (dn ++ ps') !! i = Some (Z.of_nat i)) as Hi.
  { intros i Hi. rewrite <- Heq, list_lookup_fmap, lookup_seq_lt by done. done. }
  split_and!; [done| | |].
  - intros p Hp. apply (list_elem_of_lookup_2 _ (Z.to_nat p)).
    rewrite <- (lookup_app_l dn ps') by lia. rewrite Hi by lia. f_equal. lia.
  - intros p Hp. pose proof (Hi (Z.to_nat p) ltac:(lia)) as Hl. rewrite lookup_app_r in Hl by lia.
    destruct ps' as [|q ps']; [simpl in Hlen; lia|]. simpl.
    apply (list_elem_of_lookup_2 _ (Z.to_nat p - length dn - 1)).
    replace (Z.to_nat p - length dn)%nat with (S (Z.to_nat p - length dn - 1)) in Hl by lia.
    rewrite Z2Nat.id in Hl by lia. exact Hl.
  - intros Hlt. pose proof (Hi (length dn) Hlt) as Hl.
    rewrite lookup_app_r, Nat.sub_diag in Hl by lia. by destruct ps'.
Qed.

(** The loop over distinct partitions. *)
Lemma fanout_spec r router typ payload j : payload = JText j → typ ≠ "" → ∀ ps s err s',
  NoDup ps → fanout r router typ payload ps s = (err, s') →
  (∀ k, k ∉ Stream router <$> ps → entries k s' = entries k s) ∧
  ∃ done_ ps', ps = done_ ++ ps' ∧ (err = None → ps' = []) ∧
    (∀ p, p ∈ done_ → ∃ n e, (n ≤ MaxRetries)%nat ∧ silent_copy typ payload e ∧
      entries (Stream router p) s' = entries (Stream router p) s ++ replicate (S n) e) ∧
    (∀ p, p ∈ tail ps' → entries (Stream router p) s' = entries (Stream router p) s) ∧
    (∀ p, head ps' = Some p → ∃ n e, (n ≤ S MaxRetries)%nat ∧ silent_copy typ payload e ∧
      entries (Stream router p) s' = entries (Stream router p) s ++ replicate n e).
Proof.
  intros Hj Hty. induction ps as [|p ps IH]; intros s err s' Hnd; cbn [fanout].
  { unfold bret. intros [= <- <-]. split; [done|]. exists [], []. by split_and!; intros; set_solver. }
  apply NoDup_cons in Hnd as [Hp Hnd].
  assert (∀ q, q ∈ ps → Stream router q ≠ Stream router p) as Hne.
  { intros q Hq Heq. apply Stream_inj in Heq. by subst. }
  destruct (bbind (createEnvelope r typ "" payload p) (sendEnvelope (Stream router p)) s) as [e1 s1] eqn:E1.
  destruct (send_silent _ _ _ _ _ _ _ _ _ Hj Hty E1) as (n & e & Hn & Hn1 & Hcopy & Hsame & Hother).
  assert (∀ A (k : option string → B A), bbind (createEnvelope r typ "" payload p)
            (λ env, bbind (sendEnvelope (Stream router p) env) k) s = k e1 s1) as Hbind.
  { intros A k. revert E1. unfold bbind. destruct (createEnvelope r typ "" payload p s).
    intros ->. done. }
  rewrite Hbind. destruct e1 as [e1|].
  - unfold bret. intros [= <- <-]. split.
    { intros k Hk. apply Hother. set_solver. }
    exists [], (p :: ps). split_and!; [done|done|set_solver| |].
    + simpl. intros q Hq. by apply Hother, Hne.
    + simpl. intros q [= <-]. exists n, e. by split_and!.
  - specialize (Hn1 eq_refl). destruct n as [|n]; [lia|]. intros Heq.
    destruct (IH s1 err s' Hnd Heq) as (Hout & dn & ps' & -> & Hnone & Hd & Htl & Hhd).
    split. { intros k Hk. rewrite Hout, Hother; set_solver. }
    exists (p :: dn), ps'. split_and!; [done|done|..].
    + intros q [->|Hq]%elem_of_cons.
      * exists n, e. split_and!; [lia|done|]. rewrite Hout, Hsame; [done|].
        intros (q' & Heq' & Hq')%list_elem_of_fmap. by apply (Hne q').
      * destruct (Hd q Hq) as (n' & e' & Hn' & He' & Es). exists n', e'. split_and!; [done|done|]. rewrite Es, Hother; [done|].
        apply Hne. set_solver.
    + intros q Hq. rewrite Htl, Hother; [done| |done]. apply Hne. destruct ps'; set_solver.
    + intros q Hq. destruct (Hhd q Hq) as (n' & e' & Hn' & He' & Es). exists n', e'. split_and!; [done|done|].
      rewrite Es, Hother; [done|]. apply Hne. destruct ps'; [done|]. simplify_eq/=. set_solver.
Qed.

(** The fan-out.  A command for everybody reaches every partition when the call
    succeeds, once or, after lost replies, up to four times in a row; when it fails,
    exactly the partitions below some [k] got it, partition [k] maybe and the ones
    above not at all; no other stream is touched.  Nobody is asked to reply. *)
Lemma fanout_reaches_every_partition router typ j s err s' :
  typ ≠ "" → 0 ≤ Partitions router →
  SendCommandFanout (mkManager (Some router)) typ (JText j) s = (err, s') →
  (∀ k, k ∉ PartitionStreams router → entries k s' = entries k s) ∧
  ∃ k, 0 ≤ k ≤ Partitions router ∧ (err = None → k = Partitions router) ∧
    (∀ p, 0 ≤ p < k → ∃ n e, (n ≤ MaxRetries)%nat ∧ silent_copy typ (JText j) e ∧
      entries (Stream router p) s' = entries (Stream router p) s ++ replicate (S n) e) ∧
    (∀ p, k < p < Partitions router → entries (Stream router p) s' = entries (Stream router p) s) ∧
    (k < Partitions router → ∃ n e, (n ≤ S MaxRetries)%nat ∧ silent_copy typ (JText j) e ∧
      entries (Stream router k) s' = entries (Stream router k) s ++ replicate n e).
Proof.
  intros Hty Hpos Heq. unfold SendCommandFanout in Heq. cbn [rm_router] in Heq.
  apply (fanout_spec _ _ _ _ j eq_refl Hty) in Heq as (Hout & dn & ps' & Hps & Hnone & Hd & Htl & Hhd);
    [|apply NoDup_fmap_2; [intros a b; apply Nat2Z.inj|apply NoDup_seq]].
  split; [exact Hout|]. exists (Z.of_nat (length dn)).
  destruct (partitions_split _ _ _ Hps) as (Hlen & Hdn & Htail & Hhead).
  split_and!; [lia|lia| | | |].
  - intros He. rewrite (Hnone He) in Hlen. simpl in Hlen. lia.
  - intros p Hp. apply Hd, Hdn. lia.
  - intros p Hp. apply Htl, Htail. lia.
  - intros Hk. apply Hhd, Hhead. lia.
Qed.
End theorems.

(** ** Witnesses *)

(** A network that loses the replies to the first append, a clock-like uuid
    source, and a channel on which a message for somebody else comes first. *)
Definition lossyNet : Network := {| net t := if (t =? 26)%nat then ReplyLost else Served |}.

Definition rpcEnv : Environment := {|
  uuid_NewString n := "uuid-" +:+ pretty (Z.of_nat n);
  time_Now n := 1000 + Z.of_nat n;
  io_ok _ := true; io_lost _ := 0%nat;
  map_range A n l := l
|}.

Definition rpcRand : Randomness := {| rand_Intn t n := (t mod n)%nat |}.

Definition reply_to (id : string) : Ready :=
  Message (JText (response_json (mkResponse true "" id (JText (JObj [("status", JStr "created")]))))).

Definition rpcSelects : Selects := {| select_ready _ _ := [reply_to "uuid-7"; reply_to "uuid-25"] |}.

#[local] Existing Instance kvBus.
#[local] Existing Instance lossyNet.
#[local] Existing Instance rpcEnv.
#[local] Existing Instance rpcRand.
#[local] Existing Instance rpcSelects.

Definition emptyBus : Bus := mkBus ((∅, ∅) : @bstate kvBus) 0.
Definition router4 : Router := NewRouter 4 "".
Definition createEv : MessageToEngine := mkMessage CreateEventCommand (JText (JObj [("eventId", JStr "ev")])).

(** The retry left a second copy, and the reply with the right id was taken. *)
Example createEv_answer :
  let '(res, s') := SendAndAwait (mkManager (Some router4)) "ev" createEv emptyBus in
  (RequestID <$> maybe inr res) = Some "uuid-25" ∧
  length (entries (StreamForEvent router4 "ev") s') = 2%nat.
Proof. by vm_compute. Qed.

Lemma request_is_sent_and_correlated_witness :
  ∃ n clientID command, (n ≤ 12)%nat ∧
    grew (streamFor (mkManager (Some router4)) (partitionFor (mkManager (Some router4)) "ev"))
      (replicate n (clientID, command)) emptyBus
      (SendAndAwaitWithTimeout (mkManager (Some router4)) "ev" createEv 5 emptyBus).2.
Proof.
  destruct (request_is_sent_and_correlated (mkManager (Some router4)) "ev" createEv 5 emptyBus
    (JObj [("eventId", JStr "ev")]) _ _ eq_refl ltac:(discriminate) (surjective_pairing _))
    as (n & cl & cmd & Hn & Hg & _).
  exists n, cl, cmd. split; [exact Hn|exact Hg].
Defined.

Lemma request_is_answered_witness :
  ∃ clientID command,
    (clientID, command) ∈ entries (streamFor (mkManager (Some router4)) (partitionFor (mkManager (Some router4)) "ev"))
      (SendAndAwaitWithTimeout (mkManager (Some router4)) "ev" createEv 5 emptyBus).2.
Proof.
  destruct (request_is_answered (mkManager (Some router4)) "ev" createEv 5 emptyBus
    (JObj [("eventId", JStr "ev")]) _ _ eq_refl ltac:(discriminate) (surjective_pairing _))
    as (cl & cmd & rid & t & Hin & _).
  - split; [reflexivity|]. exists 0%nat, 1%nat. split_and!; [apply le_n_S, le_0_n|apply le_n_S, le_0_n|reflexivity].
  - exists cl, cmd. exact Hin.
Defined.

Definition userCreated : json := JObj [("userId", JStr "u")].

Lemma fanout_reaches_every_partition_witness :
  ∃ n e, (n ≤ MaxRetries)%nat ∧ silent_copy UserCreatedCommand (JText userCreated) e ∧
    entries (Stream router4 3)
      (SendCommandFanout (mkManager (Some router4)) UserCreatedCommand (JText userCreated) emptyBus).2 = replicate (S n) e.
Proof.
  destruct (fanout_reaches_every_partition router4 UserCreatedCommand userCreated emptyBus _ _
    ltac:(discriminate) ltac:(vm_compute; discriminate) (surjective_pairing _))
    as (_ & k & _ & Hk & Hd & _).
  apply (Hd 3). rewrite Hk; [|vm_compute; reflexivity]. vm_compute. split; [discriminate|reflexivity].
Defined.
