(* ===== verification/Auth.v ===== *)
(** Authentication: pkg/auth/jwt.go and internal/middleware/auth.go.

    The JWT library is a parameter: [Jwt] lists the calls the code makes and
    [JwtLaws] what its documentation says of them: a token signed with a key
    parses under that key, with its claims, until it expires, and a numeric date
    is the instant cut to seconds; a token is base64url text with dots.  Instants are in nanoseconds. *)

From S2P Require Import Prelude Json.
From Stdlib Require Import Ascii.
Local Open Scope Z_scope.

Record Claims := mkClaims {
  UserID : string;
  Email : string;
  ExpiresAt : Z;
  IssuedAt : Z
}.

Class Jwt := {
  jwt_NewNumericDate : Z → Z;
  jwt_SignedString : string → Claims → string + string;            (** key; an error or the token *)
  jwt_ParseWithClaims : string → Z → string → option (Claims * bool) (** key, time, token; [token.Valid] *)
}.

Definition space : ascii := " "%char.

Definition second : Z := 1000000000.
Definition hour : Z := 3600 * second.

Class JwtLaws `{Jwt} : Prop := {
  numericDate_cut t : t - second < jwt_NewNumericDate t ≤ t;
  signed_free k c tok : jwt_SignedString k c = inr tok → free_of space tok = true;
  parse_signed k c tok now : jwt_SignedString k c = inr tok → now < ExpiresAt c →
    jwt_ParseWithClaims k now tok = Some (c, true);
  parse_expired k c tok now : jwt_SignedString k c = inr tok → ExpiresAt c ≤ now →
    jwt_ParseWithClaims k now tok = None
}.

(** [Init]: [None] is the panic. *)
Definition Init (secret : string) : option string :=
  if secret =s "" then None else Some secret.

Section auth.
Context `{Jwt} (jwtSecret : string).

(** [t1], [t2]: what the two calls of [time.Now] return. *)
Definition GenerateToken (userID email : string) (t1 t2 : Z) : string + string :=
  jwt_SignedString jwtSecret
    (mkClaims userID email (jwt_NewNumericDate (t1 + 24 * hour)) (jwt_NewNumericDate t2)).

Definition ValidateToken (now : Z) (tokenString : string) : string + Claims :=
  match jwt_ParseWithClaims jwtSecret now tokenString with
  | None => inl "token is malformed, expired or has an invalid signature"
  | Some (claims, valid) => if valid : bool then inr claims else inl "invalid token"
  end.

(** ** The middleware *)

(** [strings.Split(s, sep)] for a separator of one character. *)
Fixpoint Split (sep : ascii) (s : string) : list string :=
  match s with
  | EmptyString => [EmptyString]
  | String a s =>
      if bool_decide (a = sep) then EmptyString :: Split sep s
      else match Split sep s with
           | [] => [String a EmptyString]
           | p :: ps => String a p :: ps
           end
  end.

(** The error of a 401 response, or what is set in the context: user id and
    email.  [authHeader] is "" when there is no such header. *)
Definition AuthMiddleware (now : Z) (authHeader : string) : string + string * string :=
  if authHeader =s "" then inl "Authorization header required"
  else
    match Split space authHeader with
    | [scheme; token] =>
        if scheme =s "Bearer" then
          match ValidateToken now token with
          | inl _ => inl "Invalid token"
          | inr claims => inr (UserID claims, Email claims)
          end
        else inl "Invalid authorization format"
    | _ => inl "Invalid authorization format"
    end.
End auth.

(** ** Facts *)

Lemma Split_free sep s : free_of sep s = true → Split sep s = [s].
Proof.
  induction s as [|a s IH]; simpl; [done|].
  intros [Ha%negb_true_iff Hs]%andb_true_iff. by rewrite Ha, IH.
Qed.

Lemma Split_app sep a b :
  free_of sep a = true → Split sep (a +:+ String sep b) = a :: Split sep b.
Proof.
  induction a as [|c a IH]; simpl; [by rewrite bool_decide_true|].
  intros [Hc%negb_true_iff Ha]%andb_true_iff. by rewrite Hc, IH.
Qed.

(** The parts joined by the separator are the text again, and none contains it. *)
Fixpoint Join (sep : ascii) (l : list string) : string :=
  match l with
  | [] => EmptyString
  | [p] => p
  | p :: l => p +:+ String sep (Join sep l)
  end.

Lemma Split_nonempty sep s : ∃ p ps, Split sep s = p :: ps.
Proof. destruct s as [|a s]; simpl; [eauto|]. repeat case_match; eauto. Qed.

Lemma Join_Split sep s : Join sep (Split sep s) = s.
Proof.
  induction s as [|a s IH]; simpl; [done|]. destruct (Split_nonempty sep s) as (p & ps & E).
  rewrite E in *. case_bool_decide as Ha.
  - subst a. change (EmptyString +:+ String sep (Join sep (p :: ps)) = String sep s). by rewrite IH.
  - rewrite <- IH. by destruct ps.
Qed.

Lemma Split_free_parts sep s : Forall (λ p, free_of sep p = true) (Split sep s).
Proof.
  induction s as [|a s IH]; simpl; [by repeat constructor|].
  case_bool_decide as Ha; [by constructor|].
  destruct (Split_nonempty sep s) as (p & ps & E). rewrite E in *.
  inversion IH; subst. constructor; [|done]. simpl. rewrite bool_decide_false by done. done.
Qed.

(** ** Theorems *)

Section theorems.
Context `{JwtLaws}.

(** A token identifies its user for one day.  The token that [GenerateToken]
    makes at [t1] passes the middleware as a bearer token up to a second before
    the end of the day and yields exactly the user it was made for; from the end
    of the day on it is refused. *)
Lemma token_roundtrip secret userID email t1 t2 token now :
  GenerateToken secret userID email t1 t2 = inr token →
  (now ≤ t1 + 24 * hour - second →
     AuthMiddleware secret now ("Bearer " +:+ token) = inr (userID, email)) ∧
  (t1 + 24 * hour ≤ now →
     AuthMiddleware secret now ("Bearer " +:+ token) = inl "Invalid token").
Proof.
  intros Hg. unfold GenerateToken in Hg. pose proof (signed_free _ _ _ Hg) as Hf.
  pose proof (numericDate_cut (t1 + 24 * hour)) as Hcut.
  assert (Split space ("Bearer " +:+ token) = ["Bearer"; token]) as Hs.
  { change ("Bearer " +:+ token) with ("Bearer" +:+ String space token).
    by rewrite Split_app, Split_free. }
  split; intros Hn; unfold AuthMiddleware; rewrite Hs; simpl; unfold ValidateToken.
  - rewrite (parse_signed _ _ _ now Hg); [done|]. simpl. lia.
  - rewrite (parse_expired _ _ _ now Hg); [done|]. simpl. lia.
Qed.

(** Only a bearer token that the library accepts under the secret gets past the
    middleware. *)
Lemma AuthMiddleware_inr secret now header u e :
  AuthMiddleware secret now header = inr (u, e) ↔
  ∃ token claims, header = "Bearer " +:+ token ∧ free_of space token = true ∧
    jwt_ParseWithClaims secret now token = Some (claims, true) ∧ UserID claims = u ∧ Email claims = e.
Proof.
  split.
  - unfold AuthMiddleware. destruct (header =s "") eqn:Eh; [done|].
    pose proof (Join_Split space header) as HJ. pose proof (Split_free_parts space header) as HF.
    destruct (Split space header) as [|p [|tok [|? ?]]]; [done|done| |done].
    destruct (seqb_spec p "Bearer") as [->|]; [|done]. unfold ValidateToken.
    destruct (jwt_ParseWithClaims secret now tok) as [[c []]|] eqn:E; [|done|done].
    intros [= <- <-]. exists tok, c. split_and!; [by rewrite <- HJ| |done|done|done].
    inversion HF as [|? ? _ HF']; subst. by inversion HF'.
  - intros (tok & c & -> & Hf & E & <- & <-). unfold AuthMiddleware.
    assert (Split space ("Bearer " +:+ tok) = ["Bearer"; tok]) as ->.
    { change ("Bearer " +:+ tok) with ("Bearer" +:+ String space tok). by rewrite Split_app, Split_free. }
    simpl. unfold ValidateToken. by rewrite E.
Qed.
End theorems.

(** ** A concrete library *)

(** A library that has the laws: a token is a key and claims, in binary. *)
Definition claims_code : Type := string * (string * string * Z * Z).

Fixpoint bits (p : positive) : string :=
  match p with
  | xH => ""
  | xO p => String "0" (bits p)
  | xI p => String "1" (bits p)
  end.

Fixpoint unbits (s : string) : positive :=
  match s with
  | EmptyString => xH
  | String a s => if bool_decide (a = "1"%char) then xI (unbits s) else xO (unbits s)
  end.

Lemma unbits_bits p : unbits (bits p) = p.
Proof. induction p as [p IH|p IH|]; simpl; [by rewrite IH..|done]. Qed.

Lemma bits_free p : free_of space (bits p) = true.
Proof. by induction p. Qed.

Definition token_of (k : string) (c : Claims) : string :=
  bits (encode ((k, (UserID c, Email c, ExpiresAt c, IssuedAt c)) : claims_code)).

Definition binaryJwt : Jwt := {|
  jwt_NewNumericDate t := (t / second) * second;
  jwt_SignedString k c := inr (token_of k c);
  jwt_ParseWithClaims k now tok :=
    match (decode (unbits tok) : option claims_code) with
    | Some (k', (u, e, x, i)) =>
        if bool_decide (k' = k) && (now <? x) then Some (mkClaims u e x i, true) else None
    | None => None
    end
|}.

#[export] Instance binaryJwt_laws : @JwtLaws binaryJwt.
Proof.
  split; simpl.
  - intros t. unfold second. pose proof (Z.div_mod t 1000000000). pose proof (Z.mod_pos_bound t 1000000000). lia.
  - intros k c tok [= <-]. apply bits_free.
  - intros k [u e x i] tok now [= <-] Hn; simpl in Hn. unfold token_of; simpl.
    rewrite unbits_bits, decode_encode, bool_decide_true by done. by rewrite (proj2 (Z.ltb_lt _ _) Hn).
  - intros k [u e x i] tok now [= <-] Hn; simpl in Hn. unfold token_of; simpl.
    rewrite unbits_bits, decode_encode, bool_decide_true by done. by rewrite (proj2 (Z.ltb_ge _ _) Hn).
Qed.
