(* ===== verification/Gateway.v ===== *)
(** The WebSocket gateway: internal/websocket (client.go, hub.go, message.go,
    redis.go, server.go).

    A [*Client] is an index into the clients ever made, because the hub, the
    pumps and a running broadcast share it.  A buffered channel is its queue and
    whether it is closed.  The parts of [close], of [Send] and of a round of [WritePump]
    between which another goroutine may run have definitions of their own; file
    Streaming interleaves them.  An operation that may send on a channel yields an
    [option]: [None] is the run-time panic of a send on a closed channel.  What
    the connection does with a written frame is an answer of the network
    ([bool]); instants are in nanoseconds. *)

From S2P Require Import Prelude Json Types Events Auth.
Local Open Scope Z_scope.

(** ** client.go *)

Definition sendBufferSize : nat := 256.

Inductive Frame :=
| TextMessage (message : json_text)
| PingMessage
| CloseMessage.

Record Client := mkClient {
  send : list json_text;             (** the queue of the channel *)
  sendClosed : bool;                 (** [close(c.send)] was called *)
  subscriptions : gset string;
  closed : bool;
  connClosed : bool;                 (** [c.conn.Close()] was called *)
  inHand : option json_text;         (** what [WritePump] has received and not yet written *)
  wire : list Frame                  (** what was written to the connection *)
}.

Definition NewClient : Client := mkClient [] false ∅ false false None [].

(** ** hub.go: the state *)

Record Hub := mkHub {
  clients : gset nat;
  topics : gmap string (gset nat)    (** [subscriptions]: event to clients *)
}.

Definition NewHub : Hub := mkHub ∅ ∅.

Record Gateway := mkGateway { hub : Hub; heap : list Client }.

Definition initGateway : Gateway := mkGateway NewHub [].

Definition client (g : Gateway) (c : nat) : Client := default NewClient (heap g !! c).
Definition on_client (c : nat) (f : Client → Client) (g : Gateway) : Gateway :=
  mkGateway (hub g) (alter f c (heap g)).
Definition on_hub (f : Hub → Hub) (g : Gateway) : Gateway := mkGateway (f (hub g)) (heap g).

Definition set_subscriptions (f : gset string → gset string) (x : Client) : Client :=
  mkClient (send x) (sendClosed x) (f (subscriptions x)) (closed x) (connClosed x) (inHand x) (wire x).
Definition set_send (q : list json_text) (x : Client) : Client :=
  mkClient q (sendClosed x) (subscriptions x) (closed x) (connClosed x) (inHand x) (wire x).
Definition set_inHand (m : option json_text) (x : Client) : Client :=
  mkClient (send x) (sendClosed x) (subscriptions x) (closed x) (connClosed x) m (wire x).
Definition add_wire (f : Frame) (x : Client) : Client :=
  mkClient (send x) (sendClosed x) (subscriptions x) (closed x) (connClosed x) (inHand x) (wire x ++ [f]).

(** *** The client's own subscriptions *)

Definition Client_Subscribe (eventID : string) (x : Client) : Client :=
  if eventID =s "" then x else set_subscriptions (λ s, {[eventID]} ∪ s) x.

Definition Client_Unsubscribe (eventID : string) (x : Client) : Client :=
  set_subscriptions (λ s, s ∖ {[eventID]}) x.

Definition IsSubscribed (eventID : string) (x : Client) : bool :=
  bool_decide (eventID ∈ subscriptions x).

(** *** Sending *)

(** The three parts of [close]: the flag, set under [c.mu]; [close(c.send)]; and
    [c.conn.Close()].  Others may run in between. *)
Definition setClosed (x : Client) : Client :=
  mkClient (send x) (sendClosed x) (subscriptions x) true (connClosed x) (inHand x) (wire x).
Definition closeSend (x : Client) : Client :=
  mkClient (send x) true (subscriptions x) (closed x) (connClosed x) (inHand x) (wire x).
Definition closeConn (x : Client) : Client :=
  mkClient (send x) (sendClosed x) (subscriptions x) (closed x) true (inHand x) (wire x).

(** [close], not interrupted. *)
Definition close (c : nat) (g : Gateway) : Gateway :=
  if closed (client g c) then g
  else on_client c closeConn (on_client c closeSend (on_client c setClosed g)).

(** The [select] of [Send]: whether the message was queued. *)
Definition offer (c : nat) (message : json_text) (g : Gateway) : option (bool * Gateway) :=
  if sendClosed (client g c) then None
  else if (length (send (client g c)) <? sendBufferSize)%nat then
    Some (true, on_client c (λ x, set_send (send x ++ [message]) x) g)
  else Some (false, g).

(** [Send]: a full buffer closes the client. *)
Definition Send (c : nat) (message : json_text) (g : Gateway) : option Gateway :=
  match offer c message g with
  | None => None
  | Some (true, g) => Some g
  | Some (false, g) => Some (close c g)
  end.

Definition sendError (c : nat) (message : string) (g : Gateway) : option Gateway :=
  Send c (JText (JObj [("data", JObj [("error", JStr message)]); ("type", JStr "error")])) g.

(** ** hub.go: the operations, each under [h.mu] *)

Definition Register (c : nat) (g : Gateway) : Gateway :=
  on_hub (λ h, mkHub ({[c]} ∪ clients h) (topics h)) g.

(** [delete(clients, c)], and the event with it when nobody is left. *)
Definition without (c : nat) (s : gset nat) : option (gset nat) :=
  let s := s ∖ {[c]} in if bool_decide (s = ∅) then None else Some s.

Definition Unregister (c : nat) (g : Gateway) : Gateway :=
  on_hub (λ h, mkHub (clients h ∖ {[c]}) (omap (without c) (topics h))) g.

Definition Subscribe (c : nat) (eventID : string) (g : Gateway) : Gateway :=
  let members := default ∅ (topics (hub g) !! eventID) in
  on_client c (Client_Subscribe eventID)
    (on_hub (λ h, mkHub (clients h) (<[eventID := {[c]} ∪ members]> (topics h))) g).

Definition Unsubscribe (c : nat) (eventID : string) (g : Gateway) : Gateway :=
  match topics (hub g) !! eventID with
  | None => g
  | Some members =>
      on_client c (Client_Unsubscribe eventID)
        (on_hub (λ h, mkHub (clients h)
           (match without c members with
            | None => delete eventID (topics h)
            | Some members => <[eventID := members]> (topics h)
            end)) g)
  end.

(** The targets a broadcast copies while it holds the lock; [visit] is the order
    of the [range]. *)
Definition targets (visit : list nat → list nat) (eventID : string) (g : Gateway) : list nat :=
  visit (elements (default ∅ (topics (hub g) !! eventID))).

Fixpoint sendAll (cs : list nat) (message : json_text) (g : Gateway) : option Gateway :=
  match cs with
  | [] => Some g
  | c :: cs =>
      match Send c message g with
      | None => None
      | Some g => sendAll cs message g
      end
  end.

Definition BroadcastEvent (visit : list nat → list nat) (eventID : string) (message : json_text)
    (g : Gateway) : option Gateway :=
  sendAll (targets visit eventID g) message g.

(** ** message.go and the messages of a client *)

Definition SubscribeMethod : string := "SUBSCRIBE".
Definition UnsubscribeMethod : string := "UNSUBSCRIBE".

Record IncomingMessage := mkIncoming { Method : string; Params : list string }.

Definition set_incoming_field (tag : string) (j : json) (m : IncomingMessage) : option IncomingMessage :=
  if tag =s "method" then (λ x, mkIncoming x (Params m)) <$> into_string j (Method m)
  else if tag =s "params" then
    (λ x, mkIncoming (Method m) x) <$> into_slice (λ j, into_string j "") j (Params m)
  else Some m.

Definition unmarshal_incoming (t : json_text) : option IncomingMessage :=
  unmarshal_struct ["method"; "params"] set_incoming_field t (mkIncoming "" []).

(** The loops over the parameters; empty ones are skipped. *)
Definition eachParam (op : nat → string → Gateway → Gateway) (c : nat) (params : list string)
    (g : Gateway) : Gateway :=
  foldl (λ g eventID, if eventID =s "" then g else op c eventID g) g params.

Definition handleSubscribe (c : nat) (params : list string) (g : Gateway) : option Gateway :=
  match params with
  | [] => sendError c "subscription is required" g
  | _ => Some (eachParam Subscribe c params g)
  end.

Definition handleUnsubscribe (c : nat) (params : list string) (g : Gateway) : option Gateway :=
  match params with
  | [] => sendError c "subscription is required" g
  | _ => Some (eachParam Unsubscribe c params g)
  end.

Definition handleMessage (c : nat) (message : json_text) (g : Gateway) : option Gateway :=
  match unmarshal_incoming message with
  | None => sendError c "invalid message" g
  | Some msg =>
      if Method msg =s SubscribeMethod then handleSubscribe c (Params msg) g
      else if Method msg =s UnsubscribeMethod then handleUnsubscribe c (Params msg) g
      else sendError c "unknown method" g
  end.

(** [ReadPump] on the messages the connection delivers before its error. *)
Fixpoint ReadPump (c : nat) (messages : list json_text) (g : Gateway) : option Gateway :=
  match messages with
  | [] => Some (close c (Unregister c g))
  | m :: messages =>
      match handleMessage c m g with
      | None => None
      | Some g => ReadPump c messages g
      end
  end.

(** [message, ok := <-c.send]: the pump waits, holds a message, or finds the channel
    closed and empty. *)
Inductive Received :=
| Waits
| Holds (g : Gateway)
| NotOk.

Definition receiveSend (c : nat) (g : Gateway) : Received :=
  match send (client g c) with
  | message :: queue => Holds (on_client c (set_inHand (Some message)) (on_client c (set_send queue) g))
  | [] => if sendClosed (client g c) then NotOk else Waits
  end.

(** One [WriteMessage]; [ok] is whether the frame could be written. *)
Definition writeFrame (c : nat) (f : Frame) (ok : bool) (g : Gateway) : Gateway :=
  if ok then on_client c (add_wire f) g else g.

(** Writing what the pump holds. *)
Definition writeHeld (c : nat) (ok : bool) (g : Gateway) : Gateway :=
  match inHand (client g c) with
  | None => g
  | Some message => on_client c (set_inHand None) (writeFrame c (TextMessage message) ok g)
  end.

(** One round of [WritePump], not interrupted: [true] if it goes on. *)
Inductive Round :=
| Blocks
| Round_ (goes_on : bool) (g : Gateway).

Definition writeReceived (c : nat) (ok : bool) (g : Gateway) : Round :=
  match receiveSend c g with
  | Waits => Blocks
  | NotOk => Round_ false (close c (writeFrame c CloseMessage ok g))
  | Holds g => if ok then Round_ true (writeHeld c true g) else Round_ false (close c (writeHeld c false g))
  end.

Definition writePing (c : nat) (ok : bool) (g : Gateway) : Round :=
  let g := writeFrame c PingMessage ok g in
  if ok then Round_ true g else Round_ false (close c g).

(** ** redis.go *)

Definition subscriberChannel (channel : string) : string :=
  if channel =s "" then WSChannel else channel.

(** [TradeMessage] with its [TradeData]; [UnixMilli] of an instant. *)
Definition UnixMilli (t : Z) : Z := t / 1000000.

Definition actorID (t : Trade) : string :=
  if t_TakerSide t =s SideBuy then t_BuyerID t else t_SellerID t.

Definition trade_message (t : Trade) : json_text := JText (JObj [
  ("type", JStr "trade");
  ("data", JObj [
    ("price", JInt (t_Price t)); ("quantity", JInt (t_Quantity t));
    ("timestamp", JInt (UnixMilli (t_CreatedAt t))); ("eventId", JStr (t_EventID t));
    ("userId", JStr (actorID t)); ("outcome", JStr (t_Outcome t)); ("side", JStr (t_TakerSide t))])]).

Record DepthEntry := mkDepthEntry { de_Price : Z; de_Quantity : Z; de_Total : Z }.

(** [Asks], [Bids]; [None] is a nil slice. *)
Record DepthBook := mkDepthBook { db_Asks : option (list DepthEntry); db_Bids : option (list DepthEntry) }.
Record DepthData := mkDepthData { dd_YES : DepthBook; dd_NO : DepthBook }.
Record DepthUpdate := mkDepthUpdate { du_EventID : string; du_Data : DepthData }.

Definition set_entry_field (tag : string) (j : json) (e : DepthEntry) : option DepthEntry :=
  let '(mkDepthEntry p q t) := e in
  if tag =s "price" then (λ x, mkDepthEntry x q t) <$> into_int64 j p
  else if tag =s "quantity" then (λ x, mkDepthEntry p x t) <$> into_int64 j q
  else if tag =s "total" then (λ x, mkDepthEntry p q x) <$> into_int64 j t
  else Some e.

Definition into_entries (j : json) (old : option (list DepthEntry)) : option (option (list DepthEntry)) :=
  match j with
  | JNull => Some None
  | _ => Some <$> into_slice
           (λ j, into_struct ["price"; "quantity"; "total"] set_entry_field j (mkDepthEntry 0 0 0)) j []
  end.

Definition set_book_field (tag : string) (j : json) (b : DepthBook) : option DepthBook :=
  if tag =s "asks" then (λ x, mkDepthBook x (db_Bids b)) <$> into_entries j (db_Asks b)
  else if tag =s "bids" then (λ x, mkDepthBook (db_Asks b) x) <$> into_entries j (db_Bids b)
  else Some b.

Definition set_data_field (tag : string) (j : json) (d : DepthData) : option DepthData :=
  let into := into_struct ["asks"; "bids"] set_book_field in
  if tag =s "YES" then (λ x, mkDepthData x (dd_NO d)) <$> into j (dd_YES d)
  else if tag =s "NO" then (λ x, mkDepthData (dd_YES d) x) <$> into j (dd_NO d)
  else Some d.

Definition set_update_field (tag : string) (j : json) (u : DepthUpdate) : option DepthUpdate :=
  if tag =s "eventId" then (λ x, mkDepthUpdate x (du_Data u)) <$> into_string j (du_EventID u)
  else if tag =s "data" then
    (λ x, mkDepthUpdate (du_EventID u) x) <$> into_struct ["YES"; "NO"] set_data_field j (du_Data u)
  else Some u.

Definition zeroBook : DepthBook := mkDepthBook None None.

Definition unmarshal_update (t : json_text) : option DepthUpdate :=
  unmarshal_struct ["eventId"; "data"] set_update_field t
    (mkDepthUpdate "" (mkDepthData zeroBook zeroBook)).

Definition entries_json (es : option (list DepthEntry)) : json :=
  match es with
  | None => JNull
  | Some es => JArr ((λ e, JObj [("price", JInt (de_Price e)); ("quantity", JInt (de_Quantity e));
                                 ("total", JInt (de_Total e))]) <$> es)
  end.

Definition book_json (b : DepthBook) : json :=
  JObj [("asks", entries_json (db_Asks b)); ("bids", entries_json (db_Bids b))].

Definition depth_message (d : DepthData) : json_text := JText (JObj [
  ("type", JStr "depth"); ("data", JObj [("YES", book_json (dd_YES d)); ("NO", book_json (dd_NO d))])]).

(** The handlers: an error (the message could not be decoded) and the gateway. *)
Definition decodeError : string := "json: cannot unmarshal".

Definition handleTrade (visit : list nat → list nat) (data : json_text) (g : Gateway)
    : option (option string * Gateway) :=
  match unmarshal_trade data with
  | None => Some (Some decodeError, g)
  | Some trade => pair None <$> BroadcastEvent visit (t_EventID trade) (trade_message trade) g
  end.

Definition handleDepth (visit : list nat → list nat) (data : json_text) (g : Gateway)
    : option (option string * Gateway) :=
  match unmarshal_update data with
  | None => Some (Some decodeError, g)
  | Some u => pair None <$> BroadcastEvent visit (du_EventID u) (depth_message (du_Data u)) g
  end.

Definition handle (visit : list nat → list nat) (message : json_text) (g : Gateway)
    : option (option string * Gateway) :=
  match unmarshal_envelope message with
  | None => Some (Some decodeError, g)
  | Some envelope =>
      if ev_Type envelope =s EventTradeExecuted then handleTrade visit (ev_Data envelope) g
      else if ev_Type envelope =s EventDepthUpdated then handleDepth visit (ev_Data envelope) g
      else Some (None, g)
  end.

(** [Run] on the messages the channel delivers; an error is only logged. *)
Fixpoint Run (visit : list nat → list nat) (messages : list json_text) (g : Gateway) : option Gateway :=
  match messages with
  | [] => Some g
  | m :: messages =>
      match handle visit m g with
      | None => None
      | Some (_, g) => Run visit messages g
      end
  end.

(** ** server.go *)

(** A request to [Handle]: the status of a refusal, or the client it made.
    [upgraded] is whether the protocol upgrade succeeded. *)
Inductive Handled :=
| HTTPError (message : string) (status : Z)
| UpgradeFailed
| Connected (c : nat).

Definition connect (g : Gateway) : nat * Gateway :=
  let c := length (heap g) in
  (c, Register c (mkGateway (hub g) (heap g ++ [NewClient]))).

Definition Handle `{Jwt} (jwtSecret : string) (requireAuth : bool) (now : Z) (token : string)
    (upgraded : bool) (g : Gateway) : Handled * Gateway :=
  let accept :=
    if upgraded then let '(c, g) := connect g in (Connected c, g) else (UpgradeFailed, g) in
  if requireAuth then
    if token =s "" then (HTTPError "missing token" 401, g)
    else match ValidateToken jwtSecret now token with
         | inl _ => (HTTPError "unauthorized" 401, g)
         | inr _ => accept
         end
  else accept.
