(* ===== verification/Streaming.v ===== *)
(** Runs of the WebSocket gateway, and the theorems about them.

    The goroutines of the gateway are the read and the write pump of every
    client and the subscriber that broadcasts.  A run is an interleaving of
    their atomic steps: the operations of the hub, the [select] of a send to one
    target of the broadcast in progress, the receive and the write of a write pump,
    and the three parts of a [close].  A step is labelled with the message it put
    into the queue of a client, if any.  The relation does not tie the parts of a
    close to the goroutine that began it, so it has all the interleavings of the
    program, and more. *)

From S2P Require Import Prelude Json Types Router State Events Outbox Auth Gateway.
Local Open Scope Z_scope.

(** ** Facts about clients *)

Section clients.
Implicit Types (g : Gateway) (c : nat).

Lemma client_on_eq c f g : (c < length (heap g))%nat → client (on_client c f g) c = f (client g c).
Proof.
  intros Hc. unfold client, on_client; simpl.
  apply lookup_lt_is_Some_2 in Hc as [x Hx]. by rewrite list_lookup_alter_eq, Hx.
Qed.

Lemma client_on_ne c d f g : c ≠ d → client (on_client c f g) d = client g d.
Proof. intros Hne. unfold client, on_client; simpl. by rewrite list_lookup_alter_ne. Qed.

Lemma length_on_client c f g : length (heap (on_client c f g)) = length (heap g).
Proof. apply length_alter. Qed.

Lemma on_client_twice c f h g : on_client c f (on_client c h g) = on_client c (λ x, f (h x)) g.
Proof.
  unfold on_client; simpl. f_equal. generalize (heap g) as l. revert c.
  induction c as [|c IH]; intros [|x l]; simpl; [done..|]. f_equal. apply IH.
Qed.

Lemma heap_close c g : length (heap (close c g)) = length (heap g).
Proof. unfold close. destruct (closed _); [done|]. by rewrite !length_on_client. Qed.

Lemma hub_close c g : hub (close c g) = hub g.
Proof. unfold close. by destruct (closed _). Qed.

Lemma client_close_ne c d g : c ≠ d → client (close c g) d = client g d.
Proof. intros Hne. unfold close. destruct (closed _); [done|]. by rewrite !client_on_ne. Qed.

Lemma closed_close c g : (c < length (heap g))%nat → closed (client (close c g) c) = true.
Proof.
  intros Hc. unfold close. destruct (closed (client g c)) eqn:E; [done|].
  by rewrite !client_on_eq by (rewrite ?length_on_client; done).
Qed.

(** A client after [close]. *)
Definition mark_closed (x : Client) : Client := closeConn (closeSend (setClosed x)).

Lemma client_close_eq c g : (c < length (heap g))%nat → closed (client g c) = false →
  client (close c g) c = mark_closed (client g c).
Proof.
  intros Hc Ho. unfold close. rewrite Ho. by rewrite !client_on_eq by (rewrite ?length_on_client; done).
Qed.

(** An update of a client that keeps a part of it. *)
Lemma client_on_same {A} (p : Client → A) c d f g :
  (∀ x, p (f x) = p x) → p (client (on_client c f g) d) = p (client g d).
Proof.
  intros Hf. destruct (decide (c = d)) as [->|Hne]; [|by rewrite client_on_ne].
  unfold client, on_client; simpl. rewrite list_lookup_alter_eq. destruct (heap g !! d); [apply Hf|done].
Qed.

(** What [close] keeps. *)
Lemma close_keeps {A} (p : Client → A) c d g :
  (∀ x, p (setClosed x) = p x) → (∀ x, p (closeSend x) = p x) → (∀ x, p (closeConn x) = p x) →
  p (client (close c g) d) = p (client g d).
Proof. intros H1 H2 H3. unfold close. destruct (closed _); [done|]. by rewrite !client_on_same. Qed.

Lemma offer_hub c m g b g' : offer c m g = Some (b, g') → hub g' = hub g ∧ length (heap g') = length (heap g).
Proof. unfold offer. repeat case_match; intros; simplify_eq; simpl; by rewrite ?length_alter. Qed.

Lemma Send_hub c m g g' : Send c m g = Some g' → hub g' = hub g ∧ length (heap g') = length (heap g).
Proof.
  unfold Send. destruct (offer c m g) as [[[] g1]|] eqn:E; [| |done]; apply offer_hub in E as [Eh El];
    intros [= <-]; [done|]. by rewrite hub_close, heap_close.
Qed.
End clients.

(** ** Well-formed gateways *)

Record client_wf (x : Client) : Prop := {
  cw_buffer : (length (send x) ≤ sendBufferSize)%nat;
  cw_channel : sendClosed x = true → closed x = true;
  cw_conn : connClosed x = true → sendClosed x = true
}.

(** Topics have members, all of them registered; a registered client and the hub
    agree on its subscriptions; buffers are within their size, the channel of a
    client is closed only after its flag was set, and the connection only after the
    channel. *)
Record wf (g : Gateway) : Prop := {
  wf_clients : ∀ c, c ∈ clients (hub g) → (c < length (heap g))%nat;
  wf_topics : ∀ ev s, topics (hub g) !! ev = Some s → s ≠ ∅ ∧ s ⊆ clients (hub g);
  wf_views : ∀ c ev, c ∈ clients (hub g) →
    ev ∈ subscriptions (client g c) ↔ ∃ s, topics (hub g) !! ev = Some s ∧ c ∈ s;
  wf_heap : Forall client_wf (heap g)
}.

Lemma wf_client g c : wf g → client_wf (client g c).
Proof.
  intros Hg. unfold client. destruct (heap g !! c) as [x|] eqn:E; simpl.
  - by apply (Forall_lookup_1 _ _ _ _ (wf_heap _ Hg) E).
  - split; [unfold sendBufferSize; simpl; lia|done|done].
Qed.

Lemma wf_init : wf initGateway.
Proof. split; simpl; [set_solver|intros ? ? Hl; by rewrite lookup_empty in Hl|set_solver|constructor]. Qed.

Lemma Forall_alter_wf f c l :
  (∀ x, l !! c = Some x → client_wf x → client_wf (f x)) → Forall client_wf l → Forall client_wf (alter f c l).
Proof. intros Hf Hl. apply Forall_alter; [done|]. intros x Hx _. apply (Hf x Hx). by eapply Forall_lookup_1. Qed.

(** A step that keeps the hub and the subscriptions of the clients. *)
Lemma wf_same_hub g g' :
  wf g → hub g' = hub g → length (heap g') = length (heap g) →
  (∀ c, subscriptions (client g' c) = subscriptions (client g c)) → Forall client_wf (heap g') → wf g'.
Proof.
  intros [H1 H2 H3 H4] Hh Hl Hs Hw. split; rewrite ?Hh, ?Hl; [done|done| |done].
  intros c ev Hc. rewrite Hs. by apply H3.
Qed.

(** An update of one client that keeps its subscriptions and well-formedness. *)
Lemma wf_on_client c f g :
  (∀ x, heap g !! c = Some x → client_wf x → client_wf (f x)) →
  (∀ x, subscriptions (f x) = subscriptions x) → wf g → wf (on_client c f g).
Proof.
  intros Hw Hs Hg. apply (wf_same_hub g); [done|done|apply length_on_client| |].
  - intros d. by apply client_on_same.
  - apply Forall_alter_wf; [done|apply Hg].
Qed.

Lemma wf_setClosed c g : wf g → wf (on_client c setClosed g).
Proof. apply wf_on_client; [|done]. intros x _ [? ? ?]. by split. Qed.

Lemma wf_closeSend c g : closed (client g c) = true → wf g → wf (on_client c closeSend g).
Proof.
  intros Hcl. apply wf_on_client; [|done]. intros x Hx [? ? ?]. unfold client in Hcl. rewrite Hx in Hcl. by split.
Qed.

Lemma wf_closeConn c g : sendClosed (client g c) = true → wf g → wf (on_client c closeConn g).
Proof.
  intros Hcl. apply wf_on_client; [|done]. intros x Hx [? ? ?]. unfold client in Hcl. rewrite Hx in Hcl. by split.
Qed.

Lemma wf_offer c m g b g' : offer c m g = Some (b, g') → wf g → wf g'.
Proof.
  unfold offer. destruct (sendClosed _); [done|]. destruct (_ <? _)%nat eqn:E; intros [= <- <-]; [|done].
  apply wf_on_client; [|done]. intros x Hx [? ? ?]. split; [|done|done].
  apply Nat.ltb_lt in E. unfold client in E. rewrite Hx in E. simpl in *. rewrite length_app. simpl. lia.
Qed.

Lemma wf_writeFrame c f ok g : wf g → wf (writeFrame c f ok g).
Proof.
  intros Hg. unfold writeFrame. destruct ok; [|done]. apply wf_on_client; [|done|done].
  intros x _ [? ? ?]. by split.
Qed.

Lemma wf_receiveSend c g g' : receiveSend c g = Holds g' → wf g → wf g'.
Proof.
  unfold receiveSend. destruct (send (client g c)) as [|m q] eqn:Eq; [by destruct (sendClosed _)|].
  intros [= <-] Hg. apply wf_on_client; [intros x _ [? ? ?]; by split|done|]. apply wf_on_client; [|done|done].
  intros x Hx [Hb ? ?]. split; [|done|done]. unfold client in Eq. rewrite Hx in Eq. simpl in *. rewrite Eq in Hb. simpl in Hb. lia.
Qed.

Lemma wf_writeHeld c ok g : wf g → wf (writeHeld c ok g).
Proof.
  intros Hg. unfold writeHeld. destruct (inHand _); [|done].
  apply wf_on_client; [intros x _ [? ? ?]; by split|done|by apply wf_writeFrame].
Qed.

(** *** The operations of the hub *)

Lemma wf_connect g : wf g → wf (connect g).2.
Proof.
  intros [H1 H2 H3 H4]. unfold connect, Register; simpl. split; simpl.
  - intros c Hc. rewrite length_app; simpl. apply elem_of_union in Hc as [->%elem_of_singleton|Hc]; [lia|].
    specialize (H1 _ Hc). lia.
  - intros ev s Hs. destruct (H2 _ _ Hs). set_solver.
  - intros c ev Hc. destruct (decide (c = length (heap g))) as [->|Hne].
    + unfold client; simpl. rewrite list_lookup_middle by done. simpl.
      split; [set_solver|]. intros (s & Hs & Hin). destruct (H2 _ _ Hs) as [_ Hsub].
      specialize (H1 _ (Hsub _ Hin)). lia.
    + assert (c ∈ clients (hub g)) as Hc' by set_solver. rewrite <- H3 by done.
      unfold client; simpl. by rewrite lookup_app_l by (by apply H1).
  - apply Forall_app. split; [done|]. by repeat constructor.
Qed.

Lemma without_Some c s s' : without c s = Some s' ↔ s' = s ∖ {[c]} ∧ s' ≠ ∅.
Proof. unfold without. case_bool_decide; naive_solver. Qed.

Lemma wf_Unregister c g : wf g → wf (Unregister c g).
Proof.
  intros [H1 H2 H3 H4]. split; simpl; [| | |done].
  - intros d Hd. apply H1. set_solver.
  - intros ev s Hs. apply lookup_omap_Some in Hs as (s0 & [-> Hne]%without_Some & Hs0).
    split; [done|]. destruct (H2 _ _ Hs0). set_solver.
  - intros d ev Hd. change (client (Unregister c g) d) with (client g d). rewrite H3 by set_solver.
    split; intros (s & Hs & Hin).
    + exists (s ∖ {[c]}). split; [|set_solver]. apply lookup_omap_Some. exists s. split; [|done].
      apply without_Some. set_solver.
    + apply lookup_omap_Some in Hs as (s0 & [-> _]%without_Some & Hs0). exists s0. set_solver.
Qed.

Lemma wf_Subscribe c ev g : wf g → c ∈ clients (hub g) → ev ≠ "" → wf (Subscribe c ev g).
Proof.
  intros [H1 H2 H3 H4] Hc Hev. pose proof (H1 _ Hc) as Hlt. unfold Subscribe. split; simpl.
  - intros d Hd. rewrite length_alter. by apply H1.
  - intros ev' s. destruct (decide (ev = ev')) as [<-|Hne].
    + rewrite lookup_insert_eq. intros [= <-]. split; [set_solver|].
      destruct (topics (hub g) !! ev) eqn:E; simpl; [|set_solver]. destruct (H2 _ _ E). set_solver.
    + rewrite lookup_insert_ne by done. apply H2.
  - intros d ev' Hd. set (g1 := on_hub _ g).
    assert (subscriptions (client (on_client c (Client_Subscribe ev) g1) d) =
            if decide (c = d) then {[ev]} ∪ subscriptions (client g d) else subscriptions (client g d)) as ->.
    { destruct (decide (c = d)) as [<-|Hne]; [|by rewrite client_on_ne].
      rewrite client_on_eq by done. unfold Client_Subscribe. by rewrite (seqb_ne _ _ Hev). }
    destruct (decide (ev = ev')) as [<-|Hne].
    + rewrite lookup_insert_eq. specialize (H3 d ev Hd).
      destruct (decide (c = d)) as [<-|Hcd]; [split; [intros _; eexists; split; [done|set_solver]|set_solver]|].
      rewrite H3. destruct (topics (hub g) !! ev) as [s|]; simpl; split.
      * intros (s' & [= <-] & Hin). eexists. split; [done|set_solver].
      * intros (s' & [= <-] & Hin). exists s. set_solver.
      * by intros (s' & ? & _).
      * intros (s' & [= <-] & Hin). set_solver.
    + rewrite lookup_insert_ne by done. rewrite <- (H3 d ev' Hd). destruct (decide (c = d)); set_solver.
  - apply Forall_alter_wf; [|done]. intros x _ [? ? ?]. unfold Client_Subscribe. by destruct (ev =s "").
Qed.

Lemma lookup_leave c ev s m ev' :
  (match without c s with None => delete ev m | Some s' => <[ev := s']> m end : gmap string (gset nat)) !! ev' =
  if decide (ev = ev') then without c s else m !! ev'.
Proof.
  destruct (without c s); destruct (decide (ev = ev')) as [<-|Hne];
    [by rewrite lookup_insert_eq|by rewrite lookup_insert_ne
    |by rewrite lookup_delete_eq|by rewrite lookup_delete_ne].
Qed.

Lemma wf_Unsubscribe c ev g : wf g → c ∈ clients (hub g) → wf (Unsubscribe c ev g).
Proof.
  intros Hg Hc. unfold Unsubscribe. destruct (topics (hub g) !! ev) as [s|] eqn:E; [|done].
  destruct Hg as [H1 H2 H3 H4]. pose proof (H1 _ Hc) as Hlt. split; simpl.
  - intros d Hd. rewrite length_alter. by apply H1.
  - intros ev' s'. rewrite lookup_leave. destruct (decide (ev = ev')) as [<-|Hne]; [|by apply H2].
    intros [-> Hne]%without_Some. split; [done|]. destruct (H2 _ _ E). set_solver.
  - intros d ev' Hd. set (g1 := on_hub _ g).
    assert (subscriptions (client (on_client c (Client_Unsubscribe ev) g1) d) =
            if decide (c = d) then subscriptions (client g d) ∖ {[ev]} else subscriptions (client g d)) as ->.
    { destruct (decide (c = d)) as [<-|Hne]; [|by rewrite client_on_ne]. by rewrite client_on_eq. }
    rewrite lookup_leave. destruct (decide (ev = ev')) as [<-|Hne].
    + specialize (H3 d ev Hd). destruct (decide (c = d)) as [<-|Hcd].
      * split; [set_solver|]. intros (s' & [-> _]%without_Some & Hin). set_solver.
      * rewrite H3, E. split.
        -- intros (s' & [= <-] & Hin). eexists. split; [apply without_Some; split; [done|set_solver]|set_solver].
        -- intros (s' & [-> _]%without_Some & Hin). exists s. set_solver.
    + rewrite <- (H3 d ev' Hd). destruct (decide (c = d)); set_solver.
  - apply Forall_alter_wf; [|done]. intros x _ [? ? ?]. by split.
Qed.

(** ** Runs *)

(** The broadcast in progress (the targets that are left) and the clients whose
    write pump is running. *)
Record Running := mkRun { gateway : Gateway; flight : list (nat * json_text); writers : gset nat }.

Definition initRun : Running := mkRun initGateway [] ∅.

(** The message of [sendError]. *)
Definition error_message (what : string) : json_text :=
  JText (JObj [("data", JObj [("error", JStr what)]); ("type", JStr "error")]).

(** The read pump of [c] runs as long as [c] is registered: it unregisters the
    client when it ends.  A write pump that ends leaves [writers]; the [close] it then
    makes, like that of a read pump or of a send to a full buffer, is the steps
    [st_setClosed], [st_closeSend] and [st_closeConn]. *)
Inductive step : Running → option (nat * json_text) → Running → Prop :=
| st_connect g f ws :
    step (mkRun g f ws) None (mkRun (connect g).2 f ({[(connect g).1]} ∪ ws))
| st_subscribe c ev g f ws :
    c ∈ clients (hub g) → ev ≠ "" → step (mkRun g f ws) None (mkRun (Subscribe c ev g) f ws)
| st_unsubscribe c ev g f ws :
    c ∈ clients (hub g) → step (mkRun g f ws) None (mkRun (Unsubscribe c ev g) f ws)
| st_error c what g f ws b g' :
    c ∈ clients (hub g) → offer c (error_message what) g = Some (b, g') →
    step (mkRun g f ws) (if b then Some (c, error_message what) else None) (mkRun g' f ws)
| st_unregister c g f ws :
    c ∈ clients (hub g) → step (mkRun g f ws) None (mkRun (Unregister c g) f ws)
| st_setClosed c g f ws :
    closed (client g c) = false → step (mkRun g f ws) None (mkRun (on_client c setClosed g) f ws)
| st_closeSend c g f ws :
    closed (client g c) = true → sendClosed (client g c) = false →
    step (mkRun g f ws) None (mkRun (on_client c closeSend g) f ws)
| st_closeConn c g f ws :
    sendClosed (client g c) = true → connClosed (client g c) = false →
    step (mkRun g f ws) None (mkRun (on_client c closeConn g) f ws)
| st_broadcast visit ev m g ws :
    (∀ l, visit l ≡ₚ l) →
    step (mkRun g [] ws) None (mkRun g ((λ c, (c, m)) <$> targets visit ev g) ws)
| st_send c m g f ws b g' :
    offer c m g = Some (b, g') →
    step (mkRun g ((c, m) :: f) ws) (if b then Some (c, m) else None) (mkRun g' f ws)
| st_receive c g f ws g' :
    c ∈ ws → inHand (client g c) = None → receiveSend c g = Holds g' →
    step (mkRun g f ws) None (mkRun g' f ws)
| st_write c ok m g f ws :
    c ∈ ws → inHand (client g c) = Some m →
    step (mkRun g f ws) None (mkRun (writeHeld c ok g) f (if ok then ws else ws ∖ {[c]}))
| st_drained c ok g f ws :
    c ∈ ws → inHand (client g c) = None → receiveSend c g = NotOk →
    step (mkRun g f ws) None (mkRun (writeFrame c CloseMessage ok g) f (ws ∖ {[c]}))
| st_ping c ok g f ws :
    c ∈ ws → inHand (client g c) = None →
    step (mkRun g f ws) None (mkRun (writeFrame c PingMessage ok g) f (if ok then ws else ws ∖ {[c]})).

(** A run, with the messages queued in it, in order. *)
Inductive run : Running → list (nat * json_text) → Running → Prop :=
| run_refl s : run s [] s
| run_step s tr s1 l s2 :
    run s tr s1 → step s1 l s2 → run s (tr ++ match l with Some x => [x] | None => [] end) s2.

(** The next step of the broadcast, or of a read pump, panics. *)
Definition panics (s : Running) : Prop :=
  ∃ c m f, flight s = (c, m) :: f ∧ offer c m (gateway s) = None.

Lemma step_wf s l s' : step s l s' → wf (gateway s) → wf (gateway s').
Proof.
  destruct 1; simpl; intros Hg; eauto using wf_Subscribe, wf_Unsubscribe, wf_Unregister, wf_setClosed, wf_closeSend,
    wf_closeConn, wf_offer, wf_receiveSend, wf_writeHeld, wf_writeFrame.
  by apply (wf_connect g).
Qed.

(** ** Delivery *)

(** The text messages on the wire. *)
Definition texts (fs : list Frame) : list json_text :=
  omap (λ f, match f with TextMessage m => Some m | _ => None end) fs.

Lemma texts_app fs fs' : texts (fs ++ fs') = texts fs ++ texts fs'.
Proof. apply omap_app. Qed.

(** The messages queued for [c] in a run. *)
Definition accepted (c : nat) (tr : list (nat * json_text)) : list json_text :=
  (filter (λ x, x.1 = c) tr).*2.

Lemma accepted_snoc_eq c tr m : accepted c (tr ++ [(c, m)]) = accepted c tr ++ [m].
Proof. unfold accepted. rewrite filter_app, fmap_app. simpl. by rewrite filter_cons_True. Qed.

Lemma accepted_snoc_ne c d tr m : d ≠ c → accepted c (tr ++ [(d, m)]) = accepted c tr.
Proof.
  intros Hne. unfold accepted. rewrite filter_app, fmap_app. rewrite filter_cons_False by done.
  by rewrite filter_nil, app_nil_r.
Qed.

(** What was queued for a client and not yet written: the message its pump holds, and
    the buffer. *)
Definition waiting (x : Client) : list json_text := option_list (inHand x) ++ send x.

Record delivered (tr : list (nat * json_text)) (s : Running) : Prop := {
  dv_flight : ∀ c m, (c, m) ∈ flight s → (c < length (heap (gateway s)))%nat;
  dv_trace : ∀ c m, (c, m) ∈ tr → (c < length (heap (gateway s)))%nat;
  dv_writers : ∀ c, c ∈ writers s → (c < length (heap (gateway s)))%nat;
  dv_prefix : ∀ c, texts (wire (client (gateway s) c)) `prefix_of` accepted c tr;
  dv_exact : ∀ c, c ∈ writers s →
    accepted c tr = texts (wire (client (gateway s) c)) ++ waiting (client (gateway s) c)
}.

(** A step that queues nothing, writes no text and keeps the queues of the
    running pumps. *)
Lemma delivered_same tr s s' :
  delivered tr s → (∀ c m, (c, m) ∈ flight s' → (c < length (heap (gateway s')))%nat) →
  (length (heap (gateway s)) ≤ length (heap (gateway s')))%nat → writers s' ⊆ writers s →
  (∀ c, texts (wire (client (gateway s') c)) = texts (wire (client (gateway s) c))) →
  (∀ c, c ∈ writers s' → waiting (client (gateway s') c) = waiting (client (gateway s) c)) →
  delivered tr s'.
Proof.
  intros [F T W P E] Hf Hl Hw Ht Hs. split; [done| | | |].
  - intros c m Hin. specialize (T _ _ Hin). lia.
  - intros c Hc. specialize (W c (Hw _ Hc)). lia.
  - intros c. rewrite Ht. apply P.
  - intros c Hc. rewrite Ht, (Hs c Hc). apply E. by apply Hw.
Qed.

Lemma delivered_offer tr c m g f f' ws b g' :
  delivered tr (mkRun g f ws) → (c < length (heap g))%nat → (∀ x, x ∈ f' → x ∈ f) →
  offer c m g = Some (b, g') →
  delivered (tr ++ match (if b then Some (c, m) else None) with Some x => [x] | None => [] end) (mkRun g' f' ws).
Proof.
  intros HD Hc Hf. unfold offer. destruct (sendClosed _); [done|]. destruct (_ <? _)%nat; intros [= <- <-].
  - destruct HD as [F T W P E]. simpl in *. split; simpl; rewrite ?length_alter.
    + intros d m' Hin. eapply F. by apply Hf.
    + intros d m' [Hin| [= -> ->]%list_elem_of_singleton]%elem_of_app; [by eapply T|done].
    + done.
    + intros d. destruct (decide (c = d)) as [<-|Hne].
      * rewrite client_on_eq by done. rewrite accepted_snoc_eq. by apply prefix_app_r, P.
      * rewrite client_on_ne, accepted_snoc_ne by done. apply P.
    + intros d Hd. destruct (decide (c = d)) as [<-|Hne].
      * rewrite client_on_eq by done. rewrite accepted_snoc_eq, (E c Hd). unfold waiting; simpl. by rewrite <- !app_assoc.
      * rewrite client_on_ne, accepted_snoc_ne by done. by apply E.
  - rewrite app_nil_r. apply (delivered_same tr (mkRun g f ws)); simpl; try done.
    intros d m' Hin. eapply (dv_flight _ _ HD). by apply Hf.
Qed.

(** An update of a client whose pump runs: what goes on the wire comes from what waits. *)
Lemma delivered_update tr c f fl g ws :
  delivered tr (mkRun g fl ws) → c ∈ ws →
  (∀ x, client g c = x → texts (wire (f x)) ++ waiting (f x) = texts (wire x) ++ waiting x) →
  delivered tr (mkRun (on_client c f g) fl ws).
Proof.
  intros [F T W P E] Hc Hf. simpl in *. pose proof (W c Hc) as Hlt. specialize (Hf _ eq_refl).
  split; simpl; rewrite ?length_alter; try done.
  - intros d. destruct (decide (c = d)) as [<-|Hne]; [|by rewrite client_on_ne].
    rewrite client_on_eq by done. rewrite (E c Hc), <- Hf. by apply prefix_app_r.
  - intros d Hd. destruct (decide (c = d)) as [<-|Hne]; [|rewrite client_on_ne by done; by apply E].
    rewrite client_on_eq by done. by rewrite (E c Hc), <- Hf.
Qed.

(** The heap of a gateway after an operation of the hub or a close: as many clients,
    with their queues and wires. *)
Definition same_queues (g g' : Gateway) : Prop :=
  length (heap g') = length (heap g) ∧
  ∀ c, wire (client g' c) = wire (client g c) ∧ waiting (client g' c) = waiting (client g c).

Lemma same_queues_on_client c f g :
  (∀ x, wire (f x) = wire x ∧ waiting (f x) = waiting x) → same_queues g (on_client c f g).
Proof.
  intros Hf. split; [apply length_on_client|]. intros d. split; apply client_on_same; apply Hf.
Qed.

Lemma same_queues_Subscribe c ev g : same_queues g (Subscribe c ev g).
Proof. apply (same_queues_on_client c _ (on_hub _ g)). intros x. unfold Client_Subscribe. by destruct (ev =s ""). Qed.

Lemma same_queues_Unsubscribe c ev g : same_queues g (Unsubscribe c ev g).
Proof. unfold Unsubscribe. destruct (_ !! _); [|done]. by apply (same_queues_on_client c _ (on_hub _ g)). Qed.

Lemma delivered_queues tr g g' f ws :
  same_queues g g' → delivered tr (mkRun g f ws) → delivered tr (mkRun g' f ws).
Proof.
  intros [Hl Hs] HD. apply (delivered_same tr (mkRun g f ws)); simpl; [done| |by rewrite Hl|done| |].
  - rewrite Hl. apply (dv_flight _ _ HD).
  - intros c. by destruct (Hs c) as [-> _].
  - intros c _. apply Hs.
Qed.

(** A pump that ends. *)
Lemma delivered_ends tr c g g' f ws :
  length (heap g') = length (heap g) → (∀ d, d ≠ c → client g' d = client g d) →
  texts (wire (client g' c)) = texts (wire (client g c)) →
  delivered tr (mkRun g f ws) → delivered tr (mkRun g' f (ws ∖ {[c]})).
Proof.
  intros Hl Ho Hw HD. apply (delivered_same tr (mkRun g f ws)); simpl; [done| |by rewrite Hl|set_solver| |].
  - rewrite Hl. apply (dv_flight _ _ HD).
  - intros d. destruct (decide (d = c)) as [->|Hne]; [done|by rewrite Ho].
  - intros d Hd. rewrite Ho; [done|set_solver].
Qed.

Lemma delivered_connect tr g f ws :
  delivered tr (mkRun g f ws) → delivered tr (mkRun (connect g).2 f ({[(connect g).1]} ∪ ws)).
Proof.
  intros [F T W P E]. simpl in F, T, W, P, E.
  assert (∀ c, (c < length (heap g))%nat → client (connect g).2 c = client g c) as Hold.
  { intros c Hc. unfold client; simpl. by rewrite lookup_app_l. }
  assert (client (connect g).2 (length (heap g)) = NewClient) as Hnew.
  { unfold client; simpl. by rewrite list_lookup_middle. }
  assert (accepted (length (heap g)) tr = []) as Hacc.
  { unfold accepted. destruct (filter _ tr) as [|[c m] l] eqn:Ef; [done|].
    assert ((c, m) ∈ filter (λ x, x.1 = length (heap g)) tr) as Hin by (rewrite Ef; left).
    apply list_elem_of_filter in Hin as [Hc Hin]. simpl in Hc. subst. apply T in Hin. lia. }
  assert (length (heap (connect g).2) = S (length (heap g))) as Hlen by (simpl; rewrite length_app; simpl; lia).
  change (connect g).1 with (length (heap g)).
  generalize dependent (connect g).2. intros g' Hold Hnew Hlen.
  assert (∀ c, (length (heap g) < c)%nat → client g' c = NewClient) as Hmore.
  { intros c Hc. unfold client. by rewrite lookup_ge_None_2 by lia. }
  split; simpl.
  - intros c m Hin. apply F in Hin. lia.
  - intros c m Hin. apply T in Hin. lia.
  - intros c [->%elem_of_singleton|Hc%W]%elem_of_union; lia.
  - intros c. destruct (decide (c < length (heap g))%nat) as [Hc|Hc]; [by rewrite Hold|].
    destruct (decide (c = length (heap g))) as [->|Hne]; [rewrite Hnew; apply prefix_nil|].
    rewrite Hmore by lia. apply prefix_nil.
  - intros c [->%elem_of_singleton|Hc]%elem_of_union; [by rewrite Hnew, Hacc|].
    rewrite Hold by (by apply W). by apply E.
Qed.

(** The steps of a write pump. *)
Lemma delivered_receive tr c g f ws g' :
  delivered tr (mkRun g f ws) → c ∈ ws → inHand (client g c) = None → receiveSend c g = Holds g' →
  delivered tr (mkRun g' f ws).
Proof.
  intros HD Hc Hh. unfold receiveSend. destruct (send (client g c)) as [|m q] eqn:Eq; [by destruct (sendClosed _)|].
  intros [= <-].
  rewrite on_client_twice. apply delivered_update; [done|done|]. intros x <-. unfold waiting; simpl. by rewrite Hh, Eq.
Qed.

Lemma delivered_write tr c ok m g f ws :
  delivered tr (mkRun g f ws) → c ∈ ws → inHand (client g c) = Some m →
  delivered tr (mkRun (writeHeld c ok g) f (if ok then ws else ws ∖ {[c]})).
Proof.
  intros HD Hc Hh. unfold writeHeld, writeFrame. rewrite Hh. destruct ok.
  - rewrite on_client_twice. apply delivered_update; [done|done|]. intros x <-. unfold waiting; simpl.
    rewrite texts_app, Hh, <- app_assoc. done.
  - apply (delivered_ends tr c g); [apply length_on_client|intros d Hd; by apply client_on_ne| |done].
    by rewrite client_on_same.
Qed.

Lemma delivered_frame tr c fr ok g f ws :
  delivered tr (mkRun g f ws) → c ∈ ws → texts [fr] = [] →
  delivered tr (mkRun (writeFrame c fr ok g) f ws) ∧ delivered tr (mkRun (writeFrame c fr ok g) f (ws ∖ {[c]})).
Proof.
  intros HD Hc Hfr. assert (delivered tr (mkRun (writeFrame c fr ok g) f ws)) as H1.
  { unfold writeFrame. destruct ok; [|done]. apply delivered_update; [done|done|].
    intros x _. simpl. by rewrite texts_app, Hfr, app_nil_r. }
  split; [done|]. by apply (delivered_ends tr c (writeFrame c fr ok g)).
Qed.

Lemma step_delivered tr s l s' :
  step s l s' → wf (gateway s) → delivered tr s →
  delivered (tr ++ match l with Some x => [x] | None => [] end) s'.
Proof.
  destruct 1; intros Hg HD; rewrite ?app_nil_r; simpl in Hg.
  - by apply delivered_connect.
  - eapply delivered_queues; [apply same_queues_Subscribe|done].
  - eapply delivered_queues; [apply same_queues_Unsubscribe|done].
  - eapply delivered_offer; [done|by apply (wf_clients _ Hg)|done|done].
  - apply (delivered_queues _ g); [by split|done].
  - eapply delivered_queues; [by apply same_queues_on_client|done].
  - eapply delivered_queues; [by apply same_queues_on_client|done].
  - eapply delivered_queues; [by apply same_queues_on_client|done].
  - apply (delivered_same tr (mkRun g [] ws)); simpl; [done| |done|done|done|done].
    intros c m' (c' & [= <- <-] & Hin)%list_elem_of_fmap. unfold targets in Hin.
    match goal with Hv : ∀ l, visit l ≡ₚ l |- _ => rewrite (Hv _) in Hin end.
    apply elem_of_elements in Hin. destruct (topics (hub g) !! ev) as [s|] eqn:E; [|set_solver].
    apply (wf_clients _ Hg). by apply (wf_topics _ Hg _ _ E).
  - eapply delivered_offer; [done| | |done].
    + apply (dv_flight _ _ HD c m). left.
    + intros x Hx. by right.
  - by eapply delivered_receive.
  - by eapply delivered_write.
  - by eapply delivered_frame.
  - destruct (delivered_frame tr c PingMessage ok g f ws HD ltac:(done) eq_refl). by destruct ok.
Qed.

Lemma run_sound s tr s' :
  run s tr s' → wf (gateway s) → delivered [] s → wf (gateway s') ∧ delivered tr s'.
Proof.
  induction 1 as [s|s tr s1 l s2 Hr IH Hst]; intros Hg HD; [done|].
  destruct (IH Hg HD) as [Hg1 HD1]. split; [by eapply step_wf|by eapply step_delivered].
Qed.

Lemma delivered_init : delivered [] initRun.
Proof. split; simpl; set_solver. Qed.

(** *** Broadcasts *)

Definition full (x : Client) : bool := (sendBufferSize <=? length (send x))%nat.

(** What one send makes of an open client. *)
Definition receive (m : json_text) (x : Client) : Client :=
  if full x then mark_closed x else set_send (send x ++ [m]) x.

Lemma Send_open c m g :
  client_wf (client g c) → closed (client g c) = false → (c < length (heap g))%nat →
  ∃ g', Send c m g = Some g' ∧ hub g' = hub g ∧ length (heap g') = length (heap g) ∧
    client g' c = receive m (client g c) ∧ ∀ d, d ≠ c → client g' d = client g d.
Proof.
  intros [_ Hch _] Ho Hc. unfold Send, offer, receive, full.
  destruct (sendClosed (client g c)); [by rewrite Hch in Ho|].
  rewrite Nat.leb_antisym. destruct (_ <? _)%nat eqn:E; simpl; eexists; (split; [done|]).
  - split_and!; [done|apply length_on_client|by rewrite client_on_eq|]. intros d Hd. by rewrite client_on_ne.
  - split_and!; [apply hub_close|apply heap_close|by apply client_close_eq|].
    intros d Hd. by rewrite client_close_ne.
Qed.

Lemma sendAll_open m cs : ∀ g,
  NoDup cs → (∀ c, c ∈ cs → client_wf (client g c) ∧ closed (client g c) = false ∧ (c < length (heap g))%nat) →
  ∃ g', sendAll cs m g = Some g' ∧ hub g' = hub g ∧ length (heap g') = length (heap g) ∧
    (∀ c, c ∈ cs → client g' c = receive m (client g c)) ∧ (∀ c, c ∉ cs → client g' c = client g c).
Proof.
  induction cs as [|c cs IH]; intros g Hnd Hcs; simpl.
  { exists g. split_and!; [done..|set_solver|done]. }
  apply NoDup_cons in Hnd as [Hc Hnd].
  destruct (Hcs c ltac:(left)) as (Hw & Ho & Hlt).
  destruct (Send_open c m g Hw Ho Hlt) as (g1 & -> & Hh & Hl & Hme & Hoth).
  destruct (IH g1 Hnd) as (g' & -> & Hh' & Hl' & Hin & Hout).
  { intros d Hd. assert (d ≠ c) by (by intros ->). rewrite Hoth, Hl by done. apply Hcs. by right. }
  exists g'. split_and!; [done|congruence|congruence| |].
  - intros d [->|Hd]%elem_of_cons; [by rewrite Hout|]. rewrite Hin by done. by rewrite Hoth by (by intros ->).
  - intros d Hd. rewrite Hout by set_solver. apply Hoth. set_solver.
Qed.

(** A closed target makes the broadcast panic. *)
Lemma sendAll_closed m c cs : ∀ g,
  c ∈ cs → sendClosed (client g c) = true → sendAll cs m g = None.
Proof.
  induction cs as [|d cs IH]; intros g Hin Hcl; [by apply elem_of_nil in Hin|]. simpl.
  destruct (Send d m g) as [g1|] eqn:E; [|done].
  unfold Send, offer in E. destruct (sendClosed (client g d)) eqn:Ed; [done|].
  assert (d ≠ c) by (intros ->; congruence).
  apply elem_of_cons in Hin as [->|Hin]; [done|]. apply IH; [done|].
  destruct (_ <? _)%nat; simplify_eq; [by rewrite client_on_ne|by rewrite client_close_ne].
Qed.

Definition members (ev : string) (g : Gateway) : gset nat := default ∅ (topics (hub g) !! ev).

Lemma targets_spec visit ev g :
  (∀ l, visit l ≡ₚ l) → NoDup (targets visit ev g) ∧ ∀ c, c ∈ targets visit ev g ↔ c ∈ members ev g.
Proof.
  intros Hv. unfold targets, members. rewrite (Hv _). split; [apply NoDup_elements|].
  intros c. rewrite (Hv _). apply elem_of_elements.
Qed.

(** *** The handlers as runs *)

Lemma run_trans s tr s1 tr' s2 : run s tr s1 → run s1 tr' s2 → run s (tr ++ tr') s2.
Proof.
  intros H1 H2. revert H1. induction H2 as [s1|s1 tr' s2 l s3 Hr IH Hst]; intros H1.
  { by rewrite app_nil_r. }
  rewrite app_assoc. eapply run_step; [by apply IH|done].
Qed.

Lemma run_one s l s' : step s l s' → run s (match l with Some x => [x] | None => [] end) s'.
Proof. intros Hst. apply (run_step s [] s l s' (run_refl s) Hst). Qed.

Lemma run_quiet s tr s1 s2 : run s tr s1 → step s1 None s2 → run s tr s2.
Proof. intros Hr Hst. rewrite <- (app_nil_r tr). by apply (run_step s tr s1 None s2). Qed.

Lemma clients_Subscribe c ev g : clients (hub (Subscribe c ev g)) = clients (hub g).
Proof. done. Qed.
Lemma clients_Unsubscribe c ev g : clients (hub (Unsubscribe c ev g)) = clients (hub g).
Proof. unfold Unsubscribe. by destruct (_ !! _). Qed.

Lemma eachParam_run op c params f ws :
  (∀ ev g, clients (hub (op c ev g)) = clients (hub g)) →
  (∀ ev g, c ∈ clients (hub g) → ev ≠ "" → step (mkRun g f ws) None (mkRun (op c ev g) f ws)) →
  ∀ g, c ∈ clients (hub g) → run (mkRun g f ws) [] (mkRun (eachParam op c params g) f ws).
Proof.
  intros Hcl Hop. unfold eachParam. induction params as [|ev params IH]; intros g Hc; simpl; [constructor|].
  destruct (seqb_spec ev "") as [|Hev]; [by apply IH|].
  change [] with ([] ++ [] : list (nat * json_text)). eapply run_trans; [|by apply IH; rewrite Hcl].
  apply (run_one _ None), Hop; done.
Qed.

(** So is a [close]: the three steps of it. *)
Lemma close_run c g f ws :
  client_wf (client g c) → (c < length (heap g))%nat → run (mkRun g f ws) [] (mkRun (close c g) f ws).
Proof.
  intros [_ Hch Hco] Hc. unfold close. destruct (closed (client g c)) eqn:E; [constructor|].
  assert (sendClosed (client g c) = false) as Es by (apply not_true_is_false; intros Hx%Hch; congruence).
  assert (connClosed (client g c) = false) as Ec by (apply not_true_is_false; intros Hx%Hco; congruence).
  eapply run_quiet; [eapply run_quiet; [eapply run_quiet; [constructor|]|]|].
  - by apply st_setClosed.
  - apply st_closeSend; by rewrite client_on_eq.
  - apply st_closeConn; by rewrite !client_on_eq by (rewrite ?length_on_client; done).
Qed.

(** And a [Send], or the [sendError] of a read pump: the [select], then the close of a
    client that is too slow. *)
Lemma Send_run c m g f g' ws :
  client_wf (client g c) → (c < length (heap g))%nat → Send c m g = Some g' →
  ∃ b g1, offer c m g = Some (b, g1) ∧ run (mkRun g1 f ws) [] (mkRun g' f ws).
Proof.
  intros Hw Hc. unfold Send. destruct (offer c m g) as [[b g1]|] eqn:E; [|done]. intros Heq.
  exists b, g1. split; [done|]. destruct b; injection Heq as <-; [constructor|].
  unfold offer in E. destruct (sendClosed _); [done|]. destruct (_ <? _)%nat; simplify_eq. by apply close_run.
Qed.

(** What a client's message does is a run of the steps. *)
Lemma handleMessage_run c m g g' f ws :
  wf g → c ∈ clients (hub g) → handleMessage c m g = Some g' → ∃ tr, run (mkRun g f ws) tr (mkRun g' f ws).
Proof.
  intros Hg Hc. unfold handleMessage, handleSubscribe, handleUnsubscribe.
  assert (∀ what, sendError c what g = Some g' → ∃ tr, run (mkRun g f ws) tr (mkRun g' f ws)) as Herr.
  { intros what HS. destruct (Send_run c _ g f g' ws (wf_client g c Hg) (wf_clients _ Hg c Hc) HS) as (b & g1 & Eo & Hr).
    eexists. eapply run_trans; [|exact Hr].
    apply (run_one _ (if b then Some (c, error_message what) else None)). by apply st_error. }
  destruct (unmarshal_incoming m) as [[me ps]|]; [|apply Herr]. cbn [Method Params].
  destruct (me =s SubscribeMethod); [|destruct (me =s UnsubscribeMethod); [|apply Herr]];
    (destruct ps as [|p ps]; [apply Herr|]); intros Heq; apply (inj Some) in Heq as <-; exists []; apply eachParam_run; try done.
  - intros ev g0 Hg0 Hev. by constructor.
  - intros ev g0. apply clients_Unsubscribe.
  - intros ev g0 Hg0 Hev. by constructor.
Qed.

(** So is a broadcast that does not panic. *)
Lemma sendAll_run cs m ws : ∀ g g', wf g → (∀ c, c ∈ cs → (c < length (heap g))%nat) →
  sendAll cs m g = Some g' → ∃ tr, run (mkRun g ((λ c, (c, m)) <$> cs) ws) tr (mkRun g' [] ws).
Proof.
  induction cs as [|c cs IH]; intros g g' Hg Hcs; simpl.
  { intros [= <-]. exists []. constructor. }
  destruct (Send c m g) as [g1|] eqn:E; [|done]. intros Hall. pose proof (Send_hub _ _ _ _ E) as [_ Hl].
  destruct (Send_run c m g ((λ c, (c, m)) <$> cs) g1 ws (wf_client g c Hg) (Hcs c ltac:(left)) E) as (b & g0 & Eo & Hr).
  assert (run (mkRun g (((c, m)) :: ((λ c, (c, m)) <$> cs)) ws)
    (match (if b then Some (c, m) else None) with Some x => [x] | None => [] end ++ []) (mkRun g1 ((λ c, (c, m)) <$> cs) ws)) as H1.
  { eapply run_trans; [|exact Hr]. apply (run_one _ (if b then Some (c, m) else None)). by apply st_send. }
  destruct (IH g1 g') as [tr Htr]; [| |done|].
  - assert (∀ s tr s', run s tr s' → wf (gateway s) → wf (gateway s')) as Hrw.
    { induction 1 as [|s1 tr1 s2 l s3 _ IHr Hst]; intros Hw; [done|]. eapply step_wf; [done|]. by apply IHr. }
    by apply (Hrw _ _ _ H1).
  - intros d Hd. rewrite Hl. apply Hcs. by right.
  - eexists. eapply run_trans; [exact H1|exact Htr].
Qed.

(** *** Draining a queue *)

(** [n] rounds of the write pump on a connection that works, after it has written what it
    holds. *)
Fixpoint rounds (n : nat) (c : nat) (g : Gateway) : Gateway :=
  match n with
  | O => g
  | S n => match writeReceived c true g with Round_ _ g => rounds n c g | Blocks => g end
  end.

Definition pump (n : nat) (c : nat) (g : Gateway) : Gateway := rounds n c (writeHeld c true g).

Lemma writeReceived_message c m q g : (c < length (heap g))%nat → send (client g c) = m :: q →
  ∃ g', writeReceived c true g = Round_ true g' ∧ hub g' = hub g ∧ length (heap g') = length (heap g) ∧
    client g' c = set_inHand None (add_wire (TextMessage m) (set_inHand (Some m) (set_send q (client g c)))) ∧
    ∀ d, d ≠ c → client g' d = client g d.
Proof.
  intros Hc Hq. unfold writeReceived, receiveSend. rewrite Hq. eexists. split; [done|]. unfold writeHeld, writeFrame.
  rewrite on_client_twice, client_on_eq by done. cbn [inHand set_inHand]. rewrite !on_client_twice.
  split_and!; [done|apply length_on_client|by rewrite client_on_eq|]. intros d Hd. by rewrite client_on_ne.
Qed.

Lemma rounds_drain c q : ∀ g,
  (c < length (heap g))%nat → send (client g c) = q →
  let g' := rounds (length q) c g in
  hub g' = hub g ∧ send (client g' c) = [] ∧
  wire (client g' c) = wire (client g c) ++ (TextMessage <$> q) ∧ ∀ d, d ≠ c → client g' d = client g d.
Proof.
  induction q as [|m q IH]; intros g Hc Hq; simpl; [by rewrite app_nil_r|].
  destruct (writeReceived_message c m q g Hc Hq) as (g1 & -> & Hh1 & Hl1 & E1 & Ho1).
  destruct (IH g1) as (Hh & Hs & Hw & Ho).
  { by rewrite Hl1. } { by rewrite E1. }
  split_and!; [congruence|done| |].
  - rewrite Hw, E1. simpl. by rewrite <- app_assoc.
  - intros d Hd. by rewrite Ho, Ho1.
Qed.

Lemma pump_drains c g : (c < length (heap g))%nat →
  let g' := pump (length (send (client g c))) c g in
  send (client g' c) = [] ∧ wire (client g' c) = wire (client g c) ++ (TextMessage <$> waiting (client g c)).
Proof.
  intros Hc. unfold pump, writeHeld, waiting.
  destruct (inHand (client g c)) as [m|] eqn:Eh; [|by destruct (rounds_drain c _ g Hc eq_refl) as (_ & ? & ? & _)].
  unfold writeFrame. rewrite on_client_twice. set (g1 := on_client c _ g).
  assert (client g1 c = set_inHand None (add_wire (TextMessage m) (client g c))) as E1 by (by apply client_on_eq).
  destruct (rounds_drain c (send (client g c)) g1) as (_ & Hs & Hw & _).
  { unfold g1. by rewrite length_on_client. } { by rewrite E1. }
  split; [done|]. rewrite Hw, E1. simpl. by rewrite <- app_assoc.
Qed.
