(* ===== verification/Broadcast.v ===== *)
(** Theorems about the WebSocket gateway: its state stays well formed, clients
    receive what was sent to them in order, a broadcast reaches exactly the
    subscribers of its event, a trade that the engine publishes reaches the
    connections of the subscribers, who may connect, and the crash that a closed
    subscriber causes. *)

From S2P Require Import Prelude Json Types Router State Events Outbox Auth Gateway Streaming.
Local Open Scope Z_scope.

(** C24: in every interleaving of the pumps and the broadcasts, down to the parts of a
    close, the gateway stays well formed: every topic has members and all of them are
    registered, each registered client and the hub agree on what it is subscribed
    to, no buffer exceeds its size, the channel of a client is closed only after its
    flag was set, and its connection only after its channel. *)
Theorem gateway_well_formed tr s : run initRun tr s → wf (gateway s).
Proof. intros Hr. apply (run_sound _ _ _ Hr wf_init delivered_init). Qed.

(** C23: per client, delivery is in order, without gaps or repetitions.  In every
    interleaving the text messages written to a connection are a prefix of those
    queued for its client, and while its write pump runs the rest is exactly the
    message the pump has taken and not yet written, if there is one, and then what
    waits in the buffer. *)
Theorem clients_receive_in_order tr s c :
  run initRun tr s →
  texts (wire (client (gateway s) c)) `prefix_of` accepted c tr ∧
  (c ∈ writers s →
     accepted c tr = texts (wire (client (gateway s) c)) ++
       option_list (inHand (client (gateway s) c)) ++ send (client (gateway s) c)).
Proof.
  intros Hr. destruct (run_sound _ _ _ Hr wf_init delivered_init) as [_ HD].
  split; [apply HD|apply (dv_exact _ _ HD)].
Qed.

(** No target of a broadcast is closed. *)
Definition all_open (ev : string) (g : Gateway) : Prop :=
  ∀ c, c ∈ members ev g → closed (client g c) = false.

Lemma broadcast_open visit ev m g :
  wf g → (∀ l, visit l ≡ₚ l) → all_open ev g →
  ∃ g', BroadcastEvent visit ev m g = Some g' ∧ hub g' = hub g ∧ length (heap g') = length (heap g) ∧
    (∀ c, c ∈ members ev g → client g' c = receive m (client g c)) ∧
    (∀ c, c ∉ members ev g → client g' c = client g c).
Proof.
  intros Hg Hv Ho. destruct (targets_spec visit ev g Hv) as [Hnd Ht].
  destruct (sendAll_open m (targets visit ev g) g Hnd) as (g' & E & Hh & Hl & Hin & Hout).
  { intros c Hc%Ht. split_and!; [by apply wf_client|by apply Ho|].
    unfold members in Hc. destruct (topics (hub g) !! ev) as [s|] eqn:E; [|set_solver].
    apply (wf_clients _ Hg). by apply (wf_topics _ Hg _ _ E). }
  exists g'. split_and!; [done|done|done|intros c Hc; by apply Hin, Ht|].
  intros c Hc. apply Hout. by rewrite Ht.
Qed.

Lemma members_subscribed ev g c :
  wf g → c ∈ clients (hub g) → c ∈ members ev g ↔ IsSubscribed ev (client g c) = true.
Proof.
  intros Hg Hc. unfold IsSubscribed. rewrite bool_decide_eq_true, (wf_views _ Hg c ev Hc). unfold members.
  destruct (topics (hub g) !! ev) as [s|]; simpl; [naive_solver|]. split; [set_solver|by intros (s & ? & _)].
Qed.

(** A broadcast reaches exactly the subscribers.  In a well-formed gateway whose
    subscribers of the event are open, a broadcast never blocks or panics; every
    registered client that is subscribed to the event gets the message once,
    behind what it has, or is closed if its buffer is full; everybody else, and
    the hub, is left alone, in whatever order the targets are visited. *)
Lemma broadcast_reaches_subscribers visit ev m g :
  wf g → (∀ l, visit l ≡ₚ l) → all_open ev g →
  ∃ g', BroadcastEvent visit ev m g = Some g' ∧ hub g' = hub g ∧
    ∀ c, c ∈ clients (hub g) →
      client g' c =
        if negb (IsSubscribed ev (client g c)) then client g c
        else if full (client g c) then mark_closed (client g c)
        else set_send (send (client g c) ++ [m]) (client g c).
Proof.
  intros Hg Hv Ho. destruct (broadcast_open visit ev m g Hg Hv Ho) as (g' & E & Hh & _ & Hin & Hout).
  exists g'. split_and!; [done|done|]. intros c Hc.
  pose proof (members_subscribed ev g c Hg Hc) as Hm. destruct (IsSubscribed ev (client g c)); simpl.
  - by rewrite Hin by (by apply Hm).
  - rewrite Hout; [done|]. intros Hc'. by apply Hm in Hc'.
Qed.

(** ** From the engine to the connection *)

Lemma handle_trade visit t env g :
  trade_in_range t → envelope_in_range env → ev_Type env = EventTradeExecuted →
  ev_Data env = JText (trade_json t) →
  handle visit (JText (envelope_json env)) g =
    pair None <$> BroadcastEvent visit (t_EventID t) (trade_message t) g.
Proof.
  intros Ht He Hty Hd. unfold handle. rewrite (unmarshal_marshal_envelope env _ He Hd), Hty, Hd. simpl.
  unfold handleTrade. by rewrite unmarshal_marshal_trade.
Qed.

Section delivery.
Context `{Environment}.

(** C11: trades reach the subscribers.  When an engine with a Redis manager publishes
    a trade, its numbers in range, in a live partition with its outbox open and its
    I/O succeeds, it puts the message on the gateway's channel, once or, when replies
    of the PUBLISH were lost, up to four times.  A well-formed gateway that receives a
    copy while all subscribers of the event are open queues the trade for each
    registered one whose buffer is not full; and if its connection works, its write
    pump then has it on the wire, after everything that waited before it, once it has
    emptied the buffer. *)
Theorem trade_reaches_connections pid t w n :
  (∀ k, io_ok k = true) → isReplaying (eng w) pid = false → redisManager (eng w) = true →
  outboxOpen w = true → 0 ≤ pid → partitionSeq (eng w) !! Z.to_nat pid = Some n →
  trade_in_range t →
  envelope_in_range (envelopeOf pid EventTradeExecuted (JText (trade_json t)) n w) →
  ∃ w' msg copies, publishTrade pid t w = Some (None, w') ∧ (copies ≤ MaxRetries)%nat ∧
    published w' = published w ++ replicate (S copies) (wsChannel (eng w), msg) ∧
    ∀ visit g, wf g → (∀ l, visit l ≡ₚ l) → all_open (t_EventID t) g →
    ∃ g', Run visit [msg] g = Some g' ∧ hub g' = hub g ∧
      ∀ c, c ∈ clients (hub g) → IsSubscribed (t_EventID t) (client g c) = true → full (client g c) = false →
        let g'' := pump (S (length (send (client g c)))) c g' in
        wire (client g'' c) =
          wire (client g c) ++ (TextMessage <$> waiting (client g c)) ++ [TextMessage (trade_message t)] ∧
        send (client g'' c) = [].
Proof.
  intros Hio Hrep Hrm Hopen Hpid Hn Ht He. unfold publishTrade.
  destruct (emitEventP_reliable Hio pid EventTradeExecuted (JText (trade_json t)) true w n Hrep Hrm Hopen Hpid Hn)
    as (t' & k & k' & _ & _ & Hk' & E).
  eexists _, _, k'. split; [exact E|]. split; [done|]. split; [done|]. intros visit g Hg Hv Ho.
  destruct (broadcast_open visit (t_EventID t) (trade_message t) g Hg Hv Ho) as (g' & Eb & Hh & Hl & Hin & _).
  exists g'. split_and!; [|done|].
  { cbn [Run]. rewrite (handle_trade visit t _ g Ht He) by done. by rewrite Eb. }
  intros c Hc Hsub Hfull. cbv zeta.
  apply (members_subscribed _ _ _ Hg Hc) in Hsub. specialize (Hin c Hsub).
  unfold receive in Hin. rewrite Hfull in Hin.
  destruct (pump_drains c g' ltac:(rewrite Hl; by apply (wf_clients _ Hg))) as (Hs & Hw).
  assert (length (send (client g' c)) = S (length (send (client g c)))) as Hlen.
  { rewrite Hin. simpl. rewrite length_app. simpl. lia. }
  rewrite Hlen in Hs, Hw. split; [|done]. rewrite Hw, Hin. unfold waiting; simpl. by rewrite !fmap_app, <- app_assoc.
Qed.
End delivery.

(** ** A closed subscriber *)

Definition msgA : json_text := JText (JStr "a").
Definition msgB : json_text := JText (JStr "b").

(** One client subscribes, a message is queued for it and its write pump takes it. *)
Definition crash1 : Gateway := Subscribe 0 "ev" (connect initGateway).2.
Definition crash2 : Gateway := on_client 0 (λ x, set_send (send x ++ [msgA]) x) crash1.
Definition crash3 : Gateway := on_client 0 (set_inHand (Some msgA)) (on_client 0 (set_send []) crash2).

Lemma taken_run : run initRun [(0%nat, msgA)] (mkRun crash3 [] {[0%nat]}).
Proof.
  assert (run initRun [] (mkRun crash1 [] {[0%nat]})) as H1.
  { eapply run_quiet; [eapply run_quiet; [apply run_refl|apply (st_connect initGateway [] ∅)]|].
    rewrite (right_id_L ∅ (∪)). apply (st_subscribe 0 "ev"); [set_solver|discriminate]. }
  eapply run_quiet; [|apply (st_receive 0 crash2 [] {[0%nat]} crash3); [set_solver|reflexivity|reflexivity]].
  apply (run_step initRun [] (mkRun crash1 [(0%nat, msgA)] {[0%nat]}) (Some (0%nat, msgA))).
  - eapply run_quiet; [exact H1|]. apply (st_broadcast id "ev" msgA crash1 {[0%nat]}). done.
  - apply (st_send 0 msgA crash1 [] {[0%nat]} true). reflexivity.
Qed.

(** The write fails, and the pump closes the client; before its read pump notices, the
    next broadcast copies it as a target. *)
Definition crash4 : Gateway := close 0 (writeHeld 0 false crash3).

Lemma crash_run : run initRun [(0%nat, msgA)] (mkRun crash4 [(0%nat, msgB)] ({[0%nat]} ∖ {[0%nat]})).
Proof.
  eapply run_quiet; [eapply run_quiet; [eapply run_quiet; [eapply run_quiet; [eapply run_quiet; [exact taken_run|]|]|]|]|].
  - apply (st_write 0 false msgA crash3 [] {[0%nat]}); [set_solver|reflexivity].
  - apply (st_setClosed 0). reflexivity.
  - apply (st_closeSend 0); reflexivity.
  - apply (st_closeConn 0); reflexivity.
  - apply (st_broadcast id "ev" msgB crash4). done.
Qed.

(** A subscriber that was closed but not yet unregistered crashes the gateway.
    [close] closes the channel that [Send] sends on, and only the end of the read
    pump takes the client out of the hub: until then every broadcast of an event
    it is subscribed to panics, with everybody else's connections.  Such a state
    is reached by the loss of one connection. *)
Lemma closed_subscriber_crashes_gateway :
  (∀ visit ev m g c, (∀ l, visit l ≡ₚ l) → c ∈ members ev g → sendClosed (client g c) = true →
     BroadcastEvent visit ev m g = None) ∧
  (∃ tr s, run initRun tr s ∧ panics s).
Proof.
  split.
  - intros visit ev m g c Hv Hc Hcl. apply (sendAll_closed m c); [|done].
    by apply (targets_spec visit ev g Hv).
  - eexists _, _. split; [exact crash_run|]. by exists 0%nat, msgB, [].
Qed.

(** ** Who may connect *)

(** When tokens are required, only a request with a token that validates becomes a
    client: registered, fresh and without subscriptions; a refused request
    changes nothing. *)
Lemma Handle_spec `{Jwt} secret now token upgraded g res g' :
  wf g → Handle secret true now token upgraded g = (res, g') →
  (∀ c, res = Connected c → (∃ claims, ValidateToken secret now token = inr claims) ∧ token ≠ "" ∧
     c ∉ clients (hub g) ∧ c ∈ clients (hub g') ∧ client g' c = NewClient ∧ wf g') ∧
  ((∀ c, res ≠ Connected c) → g' = g).
Proof.
  intros Hg. unfold Handle. destruct (seqb_spec token "") as [|Hne]; [by intros [= <- <-]|].
  destruct (ValidateToken secret now token) as [e|cl]; [by intros [= <- <-]|].
  destruct upgraded; [|by intros [= <- <-]]. destruct (connect g) as [c0 g0] eqn:E. intros [= <- <-].
  split; [|intros Hno; by destruct (Hno c0)]. intros c [= <-].
  pose proof (wf_connect g Hg) as Hw. rewrite E in Hw. injection E as <- <-.
  split_and!; [eauto|done| |set_solver| |done].
  - intros Hin. apply (wf_clients _ Hg) in Hin. lia.
  - unfold client; simpl. by rewrite list_lookup_middle.
Qed.

(** ** Witnesses *)

Definition gateway2 : Gateway :=
  Subscribe 1 "ev" (connect (Subscribe 0 "ev" (connect initGateway).2)).2.

Lemma gateway2_run : run initRun [] (mkRun gateway2 [] ({[1%nat]} ∪ ({[0%nat]} ∪ ∅))).
Proof.
  eapply run_quiet; [eapply run_quiet; [eapply run_quiet; [eapply run_quiet; [apply run_refl|]|]|]|].
  - apply (st_connect initGateway [] ∅).
  - apply (st_subscribe 0 "ev"); [set_solver|discriminate].
  - apply st_connect.
  - apply (st_subscribe 1 "ev"); [set_solver|discriminate].
Qed.

Lemma gateway2_wf : wf gateway2.
Proof. apply (run_sound _ _ _ gateway2_run wf_init delivered_init). Qed.

Lemma gateway2_open : all_open "ev" gateway2.
Proof.
  intros c Hc. assert (c = 0%nat ∨ c = 1%nat) as [->| ->]; [|reflexivity..].
  assert (members "ev" gateway2 = {[0%nat; 1%nat]}) as Hm by (vm_compute; reflexivity).
  rewrite Hm in Hc. apply elem_of_union in Hc as [Hc|Hc]; apply elem_of_singleton in Hc; auto.
Qed.

Lemma gateway_well_formed_witness : wf crash4 ∧ sendClosed (client crash4 0) = true.
Proof. split; [exact (gateway_well_formed _ _ crash_run)|reflexivity]. Defined.

(** The first message is written, the second is in the pump's hand, the third waits. *)
Definition msgC : json_text := JText (JStr "c").
Definition wrote1 : Gateway := writeHeld 0 true crash3.
Definition queue2 : Gateway := on_client 0 (λ x, set_send (send x ++ [msgB]) x) wrote1.
Definition took2 : Gateway := on_client 0 (set_inHand (Some msgB)) (on_client 0 (set_send []) queue2).
Definition queue3 : Gateway := on_client 0 (λ x, set_send (send x ++ [msgC]) x) took2.

Lemma sent_run tr g m : run initRun tr (mkRun g [] {[0%nat]}) → targets id "ev" g = [0%nat] →
  offer 0 m g = Some (true, on_client 0 (λ x, set_send (send x ++ [m]) x) g) →
  run initRun (tr ++ [(0%nat, m)]) (mkRun (on_client 0 (λ x, set_send (send x ++ [m]) x) g) [] {[0%nat]}).
Proof.
  intros Hr Ht Ho. apply (run_step initRun tr (mkRun g [(0%nat, m)] {[0%nat]}) (Some (0%nat, m))).
  - eapply run_quiet; [exact Hr|]. change [(0%nat, m)] with ((λ c, (c, m)) <$> [0%nat]). rewrite <- Ht.
    by apply (st_broadcast id "ev" m g {[0%nat]}).
  - by apply (st_send 0 m g [] {[0%nat]} true).
Qed.

Lemma three_run : run initRun [(0%nat, msgA); (0%nat, msgB); (0%nat, msgC)] (mkRun queue3 [] {[0%nat]}).
Proof.
  apply (sent_run [(0%nat, msgA); (0%nat, msgB)] took2 msgC); [|reflexivity|reflexivity].
  eapply run_quiet; [|apply (st_receive 0 queue2 [] {[0%nat]} took2); [set_solver|reflexivity|reflexivity]].
  apply (sent_run [(0%nat, msgA)] wrote1 msgB); [|reflexivity|reflexivity].
  eapply run_quiet; [exact taken_run|]. apply (st_write 0 true msgA crash3 [] {[0%nat]}); [set_solver|reflexivity].
Qed.

Lemma clients_receive_in_order_witness :
  [msgA; msgB; msgC] = texts (wire (client queue3 0)) ++ option_list (inHand (client queue3 0)) ++ send (client queue3 0) ∧
  texts (wire (client queue3 0)) = [msgA] ∧ inHand (client queue3 0) = Some msgB ∧ send (client queue3 0) = [msgC].
Proof.
  split; [|split_and!; reflexivity].
  exact (proj2 (clients_receive_in_order [(0%nat, msgA); (0%nat, msgB); (0%nat, msgC)] _ 0 three_run)
    (proj2 (elem_of_singleton 0%nat 0%nat) eq_refl)).
Defined.

Lemma broadcast_reaches_subscribers_witness :
  ∃ g', BroadcastEvent reverse "ev" (JText (JStr "m")) gateway2 = Some g' ∧ hub g' = hub gateway2.
Proof.
  destruct (broadcast_reaches_subscribers reverse "ev" (JText (JStr "m")) gateway2 gateway2_wf
    (@reverse_Permutation nat) gateway2_open) as (g' & E & Hh & _).
  exists g'. split; [exact E|exact Hh].
Defined.

Definition tradeA : Trade := mkTrade "t" "b1" "s1" "ev" "YES" "alice" "bob" SideBuy 5 60 1000000.

Definition liveEnv : Environment := {|
  uuid_NewString n := "uuid"; time_Now n := 1000 + Z.of_nat n; io_ok _ := true; io_lost _ := 0%nat; map_range A n l := l |}.

Definition liveWorld : World :=
  initWorld (default (mkEngine [] ∅ ∅ ∅ ∅ true "" 0 0 (NewRouter 1 "") [0] ∅ ∅ ∅ "" "") (newEngine true)).

Lemma trade_reaches_connections_witness :
  ∃ w' msg, @publishTrade liveEnv 0 tradeA liveWorld = Some (None, w') ∧
    ∃ g', Run reverse [msg] gateway2 = Some g' ∧
      wire (client (pump 1 0 g') 0) = [TextMessage (trade_message tradeA)].
Proof.
  destruct (@trade_reaches_connections liveEnv 0 tradeA liveWorld 0) as (w' & msg & copies & E & _ & _ & Hg).
  1-4: reflexivity. 1: lia. 1: reflexivity.
  - unfold trade_in_range, in64, min_int64, max_int64; simpl; lia.
  - vm_compute. repeat split; discriminate.
  - exists w', msg. split; [exact E|].
    destruct (Hg reverse gateway2 gateway2_wf (@reverse_Permutation nat) gateway2_open) as (g' & Er & _ & Hc).
    exists g'. split; [exact Er|].
    exact (proj1 (Hc 0%nat ltac:(set_solver) ltac:(reflexivity) ltac:(reflexivity))).
Defined.
