(* ===== verification/Price.v ===== *)
(** Prices at the API boundary: [ScalePrice] and [UnscalePrice] of
    internal/engine/types.go.

    A [float64] is a [spec_float] of the Standard Library with 53 bits of
    precision, whose operations are those of IEEE 754 with rounding to nearest.
    A conversion to [int64] truncates; out of range its value depends on the
    implementation ([GoArch]). *)

From S2P Require Import Prelude Types.
From Stdlib Require Import SpecFloat.
Local Open Scope Z_scope.

Definition float64 : Type := spec_float.

Definition fmul : float64 → float64 → float64 := SFmul 53 1024.
Definition fadd : float64 → float64 → float64 := SFadd 53 1024.
Definition fdiv : float64 → float64 → float64 := SFdiv 53 1024.

(** [float64(v)] of an integer. *)
Definition float_of (v : Z) : float64 := binary_normalize 53 1024 v 0 false.

Definition half : float64 := S754_finite false 4503599627370496 (-53).

Class GoArch := { int64_overflow : float64 → Z }.

Definition truncate (f : float64) : option Z :=
  match f with
  | S754_zero _ => Some 0
  | S754_finite s m e =>
      let a := if 0 <=? e then Z.pos m * 2 ^ e else Z.pos m / 2 ^ (- e) in
      Some (if s then - a else a)
  | _ => None
  end.

(** [int64(f)] *)
Definition int_of `{GoArch} (f : float64) : Z :=
  match truncate f with
  | Some z => if in64b z then z else int64_overflow f
  | None => int64_overflow f
  end.

Definition ScalePrice `{GoArch} (f : float64) : Z := int_of (fadd (fmul f (float_of PriceScale)) half).

Definition UnscalePrice (v : Z) : float64 := fdiv (float_of v) (float_of PriceScale).

(** The float64 nearest to [c] cents, which is what a decoder makes of the decimal. *)
Definition cents (c : Z) : float64 := fdiv (float_of c) (float_of 100).

(** ** Exactness *)

(** One price, decided without the overflow of [int_of]. *)
Definition exact_cents (c : Z) : bool :=
  bool_decide (truncate (fadd (fmul (cents c) (float_of PriceScale)) half) = Some (100 * c)) &&
  bool_decide (truncate (fadd (fmul (UnscalePrice (100 * c)) (float_of PriceScale)) half) = Some (100 * c)).

Fixpoint all_exact (n : nat) (c : Z) : bool :=
  match n with
  | O => true
  | S n => exact_cents c && all_exact n (c + 1)
  end.

Lemma all_exact_spec n : ∀ c d, all_exact n c = true → c ≤ d < c + Z.of_nat n → exact_cents d = true.
Proof.
  induction n as [|n IH]; intros c d; [lia|]. cbn [all_exact].
  intros [Hc Hn]%andb_true_iff Hd. destruct (decide (c = d)) as [->|]; [done|].
  apply (IH (c + 1)); [done|lia].
Qed.

Lemma cents_checked : all_exact (Z.to_nat 1001) 0 = true.
Proof. vm_compute. reflexivity. Qed.

(** A price in whole cents, up to ten dollars, becomes its exact number of
    fixed-point units although a float64 cannot hold it exactly, and a price in
    units survives the way to a float64 and back. *)
Lemma ScalePrice_exact `{GoArch} c :
  0 ≤ c ≤ 1000 → ScalePrice (cents c) = 100 * c ∧ ScalePrice (UnscalePrice (100 * c)) = 100 * c.
Proof.
  intros Hc. assert (exact_cents c = true) as He.
  { apply (all_exact_spec (Z.to_nat 1001) 0); [apply cents_checked|lia]. }
  apply andb_true_iff in He as [H1%bool_decide_eq_true H2%bool_decide_eq_true].
  unfold ScalePrice, int_of. rewrite H1, H2.
  assert (in64b (100 * c) = true) as -> by (apply in64b_spec; i64). done.
Qed.

(** ** Witnesses *)

Definition amd64 : GoArch := {| int64_overflow _ := min_int64 |}.

