(* ===== verification/Api.v ===== *)
(** The HTTP API: internal/handler, internal/dto, internal/router/router.go.

    A handler reads and writes the database and sends commands through the Redis
    manager.  Every call to a server may fail before or after taking effect
    ([Network]).  Third-party code is a parameter: [Gin] is the decoding and
    validation of a request body (its laws are the documented meaning of the
    binding tags), [ApiPackages] has bcrypt, the parsing and formatting of times,
    the ids PostgreSQL draws, and how a row is written as JSON.

    Only [Signup] checks the Redis manager for nil; the other handlers are given
    one, as main does.  A [uuid.UUID] is its canonical text. *)

From S2P Require Import Prelude Json Types Router State Commands Lease Repository DbWorker Manager Auth Price.
Local Open Scope Z_scope.

(** ** internal/dto *)

Record SignupRequest := mkSignup { su_Email : string; su_Password : string }.
Record SigninRequest := mkSignin { si_Email : string; si_Password : string }.
Record CreateEventRequest := mkCreateEventReq {
  ce_Title : string; ce_Description : string; ce_Question : string; ce_ImageURL : string; ce_ExpiresAt : string
}.
Record CreateOrderRequest := mkCreateOrderReq {
  co_OrderID : string; co_EventID : string; co_OrderType : string; co_Outcome : string; co_Side : string;
  co_Quantity : Z; co_Price : float64
}.

(** [ShouldBindJSON]: an error text or the request. *)
Class Gin := {
  bind_signup : json_text → string + SignupRequest;
  bind_signin : json_text → string + SigninRequest;
  bind_createEvent : json_text → string + CreateEventRequest;
  bind_createOrder : json_text → string + CreateOrderRequest
}.

(** [f > 0] *)
Definition positive_float (f : float64) : bool :=
  match f with
  | SpecFloat.S754_finite false _ _ | SpecFloat.S754_infinity false => true
  | _ => false
  end.

Definition zero_float (f : float64) : bool :=
  match f with SpecFloat.S754_zero _ => true | _ => false end.

(** The tags [required], [oneof], [gt=0], [min=6] and [omitempty]. *)
Class GinLaws `{Gin} : Prop := {
  bound_signup b r : bind_signup b = inr r → su_Email r ≠ "" ∧ (6 ≤ String.length (su_Password r))%nat;
  bound_createEvent b r : bind_createEvent b = inr r →
    ce_Title r ≠ "" ∧ ce_Description r ≠ "" ∧ ce_Question r ≠ "" ∧ ce_ImageURL r ≠ "" ∧ ce_ExpiresAt r ≠ "";
  bound_createOrder b r : bind_createOrder b = inr r →
    co_EventID r ≠ "" ∧ co_OrderType r ∈ [OrderTypeLimit; OrderTypeMarket] ∧
    co_Outcome r ∈ [OutcomeYes; OutcomeNo] ∧ co_Side r ∈ [SideBuy; SideSell] ∧
    0 < co_Quantity r ≤ max_int64 ∧ (zero_float (co_Price r) = true ∨ positive_float (co_Price r) = true)
}.

Class ApiPackages := {
  bcrypt_GenerateFromPassword : nat → string → option string;
  bcrypt_CompareHashAndPassword : string → string → bool;
  time_ParseRFC3339 : string → option Z;
  time_FormatRFC3339 : Z → string;
  gen_random_uuid : nat → UUID;
  user_created_at : UUID → string;
  event_body : UUID → EventRow → json;
  visit_events : nat → list (UUID * EventRow) → list (UUID * EventRow)
}.

(** ** Responses *)

Record Response := mkHttp { status : Z; body : json }.

(** [gin.H{"error": m}], and with ["success": false]. *)
Definition errorH (code : Z) (m : string) : Response := mkHttp code (JObj [("error", JStr m)]).
Definition failH (code : Z) (m : string) : Response :=
  mkHttp code (JObj [("error", JStr m); ("success", JBool false)]).
Definition okH (code : Z) (data : json) : Response :=
  mkHttp code (JObj [("data", data); ("success", JBool true)]).

(** ** The state of the API and its surroundings *)

Record Api `{CommandBus} := mkApi { a_bus : Bus; a_db : DB }.
Arguments mkApi {_} _ _.

Definition H `{CommandBus} (A : Type) : Type := Api → A * Api.

Section monad.
Context `{CommandBus} `{Network}.

Definition hret {A} (a : A) : H A := λ s, (a, s).
Definition hbind {A C} (m : H A) (k : A → H C) : H C := λ s, let '(a, s) := m s in k a s.

(** A call of the Redis manager. *)
Definition redis {A} (m : B A) : H A := λ s, let '(a, b) := m (a_bus s) in (a, mkApi b (a_db s)).

(** A statement on the connection pool. *)
Definition sql {A} (stmt : Stmt A) : H (PgError + A) := λ s,
  let '(r, d) := exec stmt (b_tick (a_bus s)) (a_db s) in
  (r, mkApi (mkBus (b_state (a_bus s)) (S (b_tick (a_bus s)))) d).

(** The position in the answers of the environment. *)
Definition tickH : H nat := redis now.
End monad.

Declare Scope api_scope.
Delimit Scope api_scope with api.
Notation "x <- m ;; k" := (hbind m (λ x, k))
  (at level 100, m at next level, right associativity) : api_scope.
Notation "m ;;; k" := (hbind m (λ _, k)) (at level 100, right associativity) : api_scope.

(** ** The handlers *)

Section handlers.
Context `{CommandBus} `{Network} `{Environment} `{Randomness} `{Selects}.
Context `{Gin} `{ApiPackages} `{Packages} `{Jwt} `{GoArch}.
Context (h : RedisManager) (jwtSecret : string).
Local Open Scope api_scope.

(** *** auth.go *)

Definition Signup (rm : option RedisManager) (b : json_text) : H Response :=
  match bind_signup b with
  | inl err => hret (errorH 400 err)
  | inr req =>
      found <- sql (GetUserByEmail (su_Email req)) ;;
      match found with
      | inr _ => hret (errorH 409 "email already registered")
      | inl _ =>
          t <- tickH ;;
          match bcrypt_GenerateFromPassword t (su_Password req) with
          | None => hret (errorH 500 "failed to hash password")
          | Some hashed =>
              user <- sql (CreateUser (gen_random_uuid t) (su_Email req) hashed) ;;
              match user with
              | inl _ => hret (errorH 500 "failed to create user")
              | inr id =>
                  match rm with
                  | None => hret None
                  | Some rm => redis (SendCommandFanout rm UserCreatedCommand (JText (JObj [("userId", JStr id)])))
                  end ;;;
                  hret (mkHttp 201 (JObj [("id", JStr id); ("email", JStr (su_Email req));
                                          ("created_at", JStr (user_created_at id))]))
              end
          end
      end
  end.

Definition Signin (b : json_text) : H Response :=
  match bind_signin b with
  | inl err => hret (errorH 400 err)
  | inr req =>
      user <- sql (GetUserByEmail (si_Email req)) ;;
      match user with
      | inl _ => hret (errorH 401 "invalid credentials")
      | inr (id, user) =>
          if bcrypt_CompareHashAndPassword (u_PasswordHash user) (si_Password req) then
            t1 <- tickH ;;
            t2 <- tickH ;;
            match GenerateToken jwtSecret id (u_Email user) (time_Now t1) (time_Now t2) with
            | inl _ => hret (errorH 500 "failed to generate token")
            | inr token =>
                hret (mkHttp 200 (JObj [("token", JStr token);
                  ("user", JObj [("id", JStr id); ("email", JStr (u_Email user))])]))
            end
          else hret (errorH 401 "invalid credentials")
      end
  end.

Definition Me (userID : option string) : H Response :=
  match userID with
  | None => hret (errorH 401 "unauthorized")
  | Some u => hret (mkHttp 200 (JObj [("user_id", JStr u)]))
  end.

(** *** user.go *)

Definition GetPosition (userID : option string) : H Response :=
  match userID with
  | None => hret (failH 401 "unauthorized")
  | Some u => hret (okH 200 (JObj [("message", JStr ("get position for user: " +:+ u))]))
  end.

Definition GetBalances (userID : option string) : H Response :=
  match userID with
  | None => hret (failH 401 "unauthorized")
  | Some u => hret (okH 200 (JObj [("message", JStr ("get balances for user: " +:+ u))]))
  end.

(** *** event.go *)

Definition GetEvents : H Response :=
  t <- tickH ;;
  rows <- sql (GetActiveEvents (visit_events t)) ;;
  match rows with
  | inl _ => hret (errorH 500 "failed to fetch events")
  | inr rows => hret (okH 200 (JArr ((λ r, event_body r.1 r.2) <$> rows)))
  end.

Definition GetEvent (param : string) : H Response :=
  match uuid_Parse param with
  | None => hret (failH 400 "invalid event ID")
  | Some id =>
      row <- sql (GetEventByID id) ;;
      match row with
      | inl _ => hret (failH 404 "event not found")
      | inr row => hret (okH 200 (event_body id row))
      end
  end.

(** [SendAndAwait] and the test [err != nil || !resp.Success] of every handler
    that asks the engine: the response if it is a success. *)
Definition askEngine (eventID typ : string) (payload : json) : H (option EngineResponse) :=
  resp <- redis (SendAndAwait h eventID (mkMessage typ (JText payload))) ;;
  hret (match resp with
        | inl _ => None
        | inr resp => if Success resp then Some resp else None
        end).

Definition CreateEvent (b : json_text) : H Response :=
  match bind_createEvent b with
  | inl err => hret (failH 400 err)
  | inr req =>
      match time_ParseRFC3339 (ce_ExpiresAt req) with
      | None => hret (failH 400 "invalid expiresAt format, use RFC3339")
      | Some expiresAt =>
          t <- tickH ;;
          event <- sql (Repository.CreateEvent (gen_random_uuid t) (ce_Title req) (ce_Description req)
                          (ce_Question req) (ce_ImageURL req) expiresAt) ;;
          match event with
          | inl _ => hret (failH 500 "failed to create event")
          | inr id =>
              resp <- askEngine id "CREATE_EVENT" (JObj [
                ("eventId", JStr id); ("expiresAt", JStr (time_FormatRFC3339 expiresAt));
                ("title", JStr (ce_Title req))]) ;;
              match resp with
              | None =>
                  sql (DeleteEvent id) ;;;
                  hret (failH 400 "orderbook not responding")
              | Some _ =>
                  hret (okH 201 (event_body id (mkEventRow (ce_Title req) (ce_Description req)
                    (ce_Question req) (ce_ImageURL req) true expiresAt 0)))
              end
          end
      end
  end.

(** *** order.go *)

(** The payload of CREATE_ORDER, as the engine will decode it. *)
Definition orderPayload (req : CreateOrderRequest) (orderID userID : string) : CreateOrderReq :=
  mkCreateOrder orderID (co_EventID req) userID (co_OrderType req) (co_Outcome req) (co_Side req)
    (co_Quantity req) (ScalePrice (co_Price req)).

Definition CreateOrder (userID : option string) (b : json_text) : H Response :=
  match userID with
  | None => hret (failH 401 "unauthorized")
  | Some userID =>
      match bind_createOrder b with
      | inl err => hret (failH 400 err)
      | inr req =>
          if (co_OrderType req =s "LIMIT") && negb (positive_float (co_Price req)) then
            hret (failH 400 "price is required for LIMIT orders")
          else
            match uuid_Parse (co_EventID req) with
            | None => hret (failH 400 "invalid event ID")
            | Some eventID =>
                event <- sql (GetEventByID eventID) ;;
                match event with
                | inl _ => hret (failH 400 "event not found or not active")
                | inr event =>
                    if negb (er_IsActive event) then hret (failH 400 "event is not active")
                    else
                      t <- tickH ;;
                      let orderID := if co_OrderID req =s "" then uuid_NewString t else co_OrderID req in
                      resp <- askEngine (co_EventID req) "CREATE_ORDER"
                                (createOrder_json (orderPayload req orderID userID)) ;;
                      hret (match resp with
                            | None => failH 400 "orderbook not responding"
                            | Some resp => okH 200 (raw_json (Data resp))
                            end)
                end
            end
      end
  end.

Definition DeleteOrder (userID : option string) (orderID : string) : H Response :=
  match userID with
  | None => hret (failH 401 "unauthorized")
  | Some userID =>
      match uuid_Parse orderID with
      | None => hret (failH 400 "invalid order ID")
      | Some oid =>
          order <- sql (GetOrderByID oid) ;;
          match order with
          | inl _ => hret (failH 404 "order not found")
          | inr order =>
              if negb (or_UserID order =s userID) then
                hret (failH 403 "you are not authorized to cancel this order")
              else
                resp <- askEngine (or_EventID order) "CANCEL_ORDER"
                          (JObj [("eventId", JStr (or_EventID order)); ("orderId", JStr orderID)]) ;;
                hret (match resp with
                      | None => failH 400 "orderbook not responding"
                      | Some resp => okH 200 (raw_json (Data resp))
                      end)
          end
      end
  end.

(** *** orderbook.go *)

Definition GetOrderbook (eventID : string) : H Response :=
  match uuid_Parse eventID with
  | None => hret (failH 400 "invalid event ID")
  | Some eid =>
      row <- sql (GetEventByID eid) ;;
      match row with
      | inl _ => hret (failH 404 "event not found")
      | inr _ =>
          resp <- askEngine eventID "GET_DEPTH" (JObj [("eventId", JStr eventID)]) ;;
          hret (match resp with
                | None => failH 400 "orderbook not responding"
                | Some resp => okH 200 (raw_json (Data resp))
                end)
      end
  end.

(** [GetOrderbookDepth] has the body of [GetOrderbook]. *)
Definition GetOrderbookDepth (eventID : string) : H Response := GetOrderbook eventID.

(** ** internal/router *)

Inductive Route :=
| Root | Ping | PostSignup | PostSignin
| GetMe | GetPosition_ | GetBalances_
| GetEvents_ | GetEvent_ | PostEvent
| PostOrder | DeleteOrder_
| GetOrderbook_ | GetOrderbookDepth_.

(** A request: the header, the path parameter and the body. *)
Record Request := mkRequest { authHeader : string; param : string; reqBody : json_text }.

Definition public (r : Route) : bool :=
  match r with Root | Ping | PostSignup | PostSignin => true | _ => false end.

Definition publicHandler (r : Route) (req : Request) : H Response :=
  match r with
  | Ping => hret (mkHttp 200 (JStr "pong"))
  | PostSignup => Signup (Some h) (reqBody req)
  | PostSignin => Signin (reqBody req)
  | _ => hret (mkHttp 200 (JObj [("message", JStr "hello")]))
  end.

(** The handler behind the middleware, which set the user id. *)
Definition protectedHandler (r : Route) (userID : string) (req : Request) : H Response :=
  let u := Some userID in
  match r with
  | GetPosition_ => GetPosition u
  | GetBalances_ => GetBalances u
  | GetEvents_ => GetEvents
  | GetEvent_ => GetEvent (param req)
  | PostEvent => CreateEvent (reqBody req)
  | PostOrder => CreateOrder u (reqBody req)
  | DeleteOrder_ => DeleteOrder u (param req)
  | GetOrderbook_ => GetOrderbook (param req)
  | GetOrderbookDepth_ => GetOrderbookDepth (param req)
  | _ => Me u
  end.

(** [SetupRoutes]: what a request to a route does. *)
Definition serve (r : Route) (req : Request) : H Response :=
  if public r then publicHandler r req
  else
    t <- tickH ;;
    match AuthMiddleware jwtSecret (time_Now t) (authHeader req) with
    | inl err => hret (errorH 401 err)
    | inr (userID, _) => protectedHandler r userID req
    end.
End handlers.
