(* ===== verification/Access.v ===== *)
(** Theorems about the HTTP API: who is let in, what a request makes of the
    database and of the command streams whatever calls fail, and that the engine
    reads what the API meant. *)

From S2P Require Import Prelude Json Types Router State Events Commands Handlers Replay Lease Repository Statements.
From S2P Require Import DbWorker Manager Rpc Auth Price Api.
Local Open Scope Z_scope.

Section frames.
Context `{CommandBusLaws} `{Network} `{Environment} `{Randomness} `{Selects}.
Implicit Types (s : Api).

Lemma hbind_eq {A C} (m : H A) (k : A → H C) s a s' : m s = (a, s') → hbind m k s = k a s'.
Proof. intros Hm. unfold hbind. by rewrite Hm. Qed.

(** From [s] to [s'] the streams got nothing. *)
Definition silent s s' : Prop := untouched (a_bus s) (a_bus s').

#[export] Instance silent_refl : Reflexive silent.
Proof. by intros s k. Qed.
#[export] Instance silent_trans : Transitive silent.
Proof. intros s1 s2 s3 Hs1 Hs2 k. by rewrite Hs2, Hs1. Qed.

Lemma sql_silent {A} (stmt : Stmt A) s : silent s (sql stmt s).2.
Proof. intros k. unfold sql. by destruct (exec _ _ _). Qed.

Lemma tickH_spec s : ∃ s', tickH s = (b_tick (a_bus s), s') ∧ a_db s' = a_db s ∧ silent s s'.
Proof. eexists. split; [done|]. split; [done|]. by intros k. Qed.

(** A statement that only reads. *)
Definition reads {A} (stmt : Stmt A) : Prop := ∀ d a d', stmt d = inr (a, d') → d' = d.

Lemma sql_reads {A} (stmt : Stmt A) s r s' :
  reads stmt → sql stmt s = (r, s') →
  a_db s' = a_db s ∧ silent s s' ∧ (∀ a, r = inr a → stmt (a_db s) = inr (a, a_db s)) ∧
  (net (b_tick (a_bus s)) = Served → ∀ e, r = inl e → stmt (a_db s) = inl e).
Proof.
  intros Hr Hs. pose proof (sql_silent stmt s) as Hq. rewrite Hs in Hq. unfold sql, exec in Hs.
  destruct (stmt (a_db s)) as [e|[a d]] eqn:E; destruct (net _); simplify_eq; simpl; split_and!; try done;
    try (by eapply Hr); try (intros; simplify_eq; try done).
  by rewrite (Hr _ _ _ E).
Qed.

Lemma reads_GetEventByID id : reads (GetEventByID id).
Proof. intros d a d'. unfold GetEventByID, sbind, sget. destruct (db_events d !! id); intros [=]; done. Qed.
Lemma reads_GetOrderByID id : reads (GetOrderByID id).
Proof. intros d a d'. unfold GetOrderByID, sbind, sget. destruct (db_orders d !! id); intros [=]; done. Qed.

Lemma GetEventByID_row id d r : GetEventByID id d = inr r → db_events d !! id = Some r.1.
Proof. unfold GetEventByID, sbind, sget. destruct (db_events d !! id); by intros [= <-]. Qed.
Lemma GetOrderByID_row id d r : GetOrderByID id d = inr r → db_orders d !! id = Some r.1.
Proof. unfold GetOrderByID, sbind, sget. destruct (db_orders d !! id); by intros [= <-]. Qed.

(** ** Asking the engine *)

(** At most twelve copies of the message [typ], [payload] went to the partition of
    [ev], for a client that waits; at least one of them if [sent]. *)
Definition asked (h : RedisManager) (ev typ : string) (payload : json) (sent : Prop) s s' : Prop :=
  ∃ n clientID command, (n ≤ 12)%nat ∧ (sent → 0 < n)%nat ∧
    grew (streamFor h (partitionFor h ev)) (replicate n (clientID, command)) (a_bus s) (a_bus s') ∧
    (0 < n → clientID ≠ "" ∧ ∀ id, entryMessage (mkEntryOf id clientID command) = Some (mkMessage typ (JText payload)))%nat.

Lemma asked_from h ev typ payload (P Q : Prop) s0 s s' :
  silent s0 s → (Q → P) → asked h ev typ payload P s s' → asked h ev typ payload Q s0 s'.
Proof.
  intros Hq HQ (n & cl & cmd & Hn & Hp & Hg & Hm). exists n, cl, cmd. split_and!; [done|auto| |done].
  by eapply untouched_then.
Qed.

Lemma askEngine_spec h ev typ payload s r s' :
  typ ≠ "" → askEngine h ev typ payload s = (r, s') →
  a_db s' = a_db s ∧ asked h ev typ payload (is_Some r) s s'.
Proof.
  intros Hty. unfold askEngine, hbind, redis, hret, SendAndAwait.
  destruct (SendAndAwaitWithTimeout h ev (mkMessage typ (JText payload)) DefaultRPCDeadline (a_bus s)) as [res b] eqn:E.
  intros [= <- <-]. split; [done|].
  destruct (send_spec h ev (mkMessage typ (JText payload)) _ _ payload _ _ eq_refl E)
    as (n & cl & env & t & Hn & Hcl & Hb & Hg & Hres).
  exists n, cl, (JText (command_json env)). split_and!; [done| |exact Hg|].
  - intros [x Hx]. destruct Hres as [[[e ->] _]|[? _]]; [done|done].
  - intros Hpos. destruct Hb as [?|Hb]; [lia|]. split; [by intros ->|]. intros id.
    destruct Hb as [Ht _ Hp _ Hok _]. simpl in Ht, Hp. by rewrite (entryMessage_command env payload), Ht by congruence.
Qed.
End frames.

(** ** The payload the engine decodes *)

Lemma unmarshal_marshal_createOrder r :
  req_in_range r → unmarshal_createOrder (JText (createOrder_json r)) = Some r.
Proof.
  destruct r. intros [Hq Hp]. simpl in Hq, Hp.
  unfold unmarshal_createOrder, unmarshal_struct, createOrder_json.
  repeat decode_step. reflexivity.
Qed.

(** Out of range the conversion of a float still yields an [int64]. *)
Class GoArchLaws `{GoArch} : Prop := { overflow_in64 f : in64 (int64_overflow f) }.

Lemma ScalePrice_in64 `{GoArchLaws} f : in64 (ScalePrice f).
Proof.
  unfold ScalePrice, int_of. destruct (truncate _) as [z|]; [|apply overflow_in64].
  destruct (in64b z) eqn:E; [by apply in64b_spec|apply overflow_in64].
Qed.

Section theorems.
Context `{CommandBusLaws} `{Network} `{Environment} `{Randomness} `{Selects}.
Context `{GinLaws} `{ApiPackages} `{Packages} `{JwtLaws} `{GoArchLaws}.
Context (h : RedisManager) (secret : string).
Implicit Types (s : Api).

(** C26: nobody gets past the middleware without a token.  A request to any route but
    the greeting, the ping, signup and signin whose header is not [Bearer] and a
    token the library accepts under the secret is answered with 401; it reaches
    no handler: the database and the streams are left alone. *)
Theorem protected_routes_need_token r req s resp s' :
  public r = false →
  (∀ token claims, authHeader req = "Bearer " +:+ token →
     jwt_ParseWithClaims secret (time_Now (b_tick (a_bus s))) token ≠ Some (claims, true)) →
  serve h secret r req s = (resp, s') →
  status resp = 401 ∧ a_db s' = a_db s ∧ silent s s'.
Proof.
  intros Hp Hno. unfold serve. rewrite Hp. destruct (tickH_spec s) as (s1 & Et & Hd & Hq).
  rewrite (hbind_eq _ _ _ _ _ Et).
  destruct (AuthMiddleware secret (time_Now (b_tick (a_bus s))) (authHeader req)) as [e|[u e]] eqn:E.
  { by intros [= <- <-]. }
  apply AuthMiddleware_inr in E as (tok & c & Hh & _ & Hc & _). by destruct (Hno tok c Hh).
Qed.

Lemma orderPayload_range req oid u b :
  bind_createOrder b = inr req → req_in_range (orderPayload req oid u).
Proof.
  intros Hb. destruct (bound_createOrder _ _ Hb) as (_ & _ & _ & _ & Hq & _).
  split; simpl; [unfold in64, min_int64 in *; lia|apply ScalePrice_in64].
Qed.

Lemma orderPayload_valid req oid u b now :
  bind_createOrder b = inr req → u ≠ "" → (co_OrderType req = OrderTypeLimit → 0 < ScalePrice (co_Price req)) →
  validateOrder (newOrder (orderPayload req oid u) oid now) = None.
Proof.
  intros Hb Hu Hpr. destruct (bound_createOrder _ _ Hb) as (Hev & Hty & Hoc & Hsd & Hq & _).
  unfold validateOrder; simpl. rewrite (seqb_ne _ _ Hev), (seqb_ne _ _ Hu), (proj2 (Z.leb_gt _ _)) by lia.
  rewrite !elem_of_cons, elem_of_nil in Hty, Hoc, Hsd.
  destruct Hsd as [-> | [-> |[]]], Hoc as [-> | [-> |[]]], Hty as [Ht | [-> |[]]]; try reflexivity;
    rewrite Ht; simpl; by rewrite (proj2 (Z.leb_gt _ _)) by (by apply Hpr).
Qed.

(** C10: an order goes to the engine in the name of whoever sent it.  Whatever calls
    fail, POST /order leaves the database alone; it either refuses and sends
    nothing, or the request passed validation, its event id parses to the id of an
    active event of the database, and what it sent (at least once if it answers
    200) is a CREATE_ORDER whose user is the authenticated one, routed by the event
    id as the client wrote it.  The engine decodes exactly these values; its own
    validation accepts them if the user id is not empty and, for a limit order, the
    scaled price is positive (it is not when the price rounds to zero or overflows
    an int64). *)
Theorem createOrder_sends_own_order u b s resp s' :
  CreateOrder h (Some u) b s = (resp, s') →
  a_db s' = a_db s ∧
  (status resp = 400 ∧ silent s s' ∨
   ∃ req eid row oid, bind_createOrder b = inr req ∧ uuid_Parse (co_EventID req) = Some eid ∧
     db_events (a_db s) !! eid = Some row ∧ er_IsActive row = true ∧
     (co_OrderID req ≠ "" → oid = co_OrderID req) ∧
     let order := orderPayload req oid u in
     asked h (co_EventID req) CreateOrderCommand (createOrder_json order) (status resp = 200) s s' ∧
     unmarshal_createOrder (JText (createOrder_json order)) = Some order ∧
     (u ≠ "" → (co_OrderType req = OrderTypeLimit → 0 < ScalePrice (co_Price req)) →
        ∀ now, validateOrder (newOrder order oid now) = None)).
Proof.
  unfold CreateOrder. destruct (bind_createOrder b) as [e|req] eqn:Eb.
  { intros [= <- <-]. split; [done|]. left. by split. }
  destruct (_ && _). { intros [= <- <-]. split; [done|]. left. by split. }
  destruct (uuid_Parse (co_EventID req)) as [eid|] eqn:Ep; [|intros [= <- <-]; split; [done|]; left; by split].
  destruct (sql (GetEventByID eid) s) as [row s1] eqn:E1. rewrite (hbind_eq _ _ _ _ _ E1).
  destruct (sql_reads _ _ _ _ (reads_GetEventByID eid) E1) as (Hd1 & Hq1 & Hrow & _).
  destruct row as [e|row]; [intros [= <- <-]; split; [done|]; left; by split|].
  specialize (Hrow row eq_refl). apply GetEventByID_row in Hrow.
  destruct (er_IsActive row) eqn:Ea; cbn [negb]; [|intros [= <- <-]; split; [done|]; left; by split].
  destruct (tickH_spec s1) as (s2 & Et & Hd2 & Hq2). rewrite (hbind_eq _ _ _ _ _ Et).
  set (oid := if co_OrderID req =s "" then _ else _). cbv zeta.
  destruct (askEngine h (co_EventID req) "CREATE_ORDER" (createOrder_json (orderPayload req oid u)) s2) as [r s3] eqn:E3.
  rewrite (hbind_eq _ _ _ _ _ E3). unfold hret. intros [= <- <-].
  destruct (askEngine_spec h _ "CREATE_ORDER" _ _ _ _ ltac:(discriminate) E3) as [Hd3 Hask].
  split; [congruence|]. right. exists req, eid, row, oid. split_and!; try done.
  - intros Hne. unfold oid. by rewrite (seqb_ne _ _ Hne).
  - apply (asked_from _ _ _ _ (is_Some r) _ _ s2); [by transitivity s1| |done]. by destruct r.
  - by eapply unmarshal_marshal_createOrder, orderPayload_range.
  - intros Hu Hpr now. by eapply orderPayload_valid.
Qed.

(** C15: only its owner cancels an order.  Whatever calls fail, DELETE /order leaves
    the database alone, and it sends a CANCEL_ORDER only for an order that is in
    the database under the authenticated user, to the partition of its event;
    when the database answers, an unknown order is a 404 and somebody else's
    order a 403, and nothing is sent. *)
Theorem deleteOrder_only_by_owner u orderID s resp s' :
  DeleteOrder h (Some u) orderID s = (resp, s') →
  a_db s' = a_db s ∧
  (status resp ≠ 200 ∧ silent s s' ∨
   ∃ oid row, uuid_Parse orderID = Some oid ∧ db_orders (a_db s) !! oid = Some row ∧ or_UserID row = u ∧
     asked h (or_EventID row) CancelOrderCommand
       (JObj [("eventId", JStr (or_EventID row)); ("orderId", JStr orderID)]) (status resp = 200) s s') ∧
  (∀ oid, net (b_tick (a_bus s)) = Served → uuid_Parse orderID = Some oid →
     match db_orders (a_db s) !! oid with
     | None => status resp = 404 ∧ silent s s'
     | Some row => or_UserID row ≠ u → status resp = 403 ∧ silent s s'
     end).
Proof.
  unfold DeleteOrder. destruct (uuid_Parse orderID) as [oid|] eqn:Ep.
  2:{ intros [= <- <-]. split_and!; [done|left; by split|done]. }
  destruct (sql (GetOrderByID oid) s) as [row s1] eqn:E1. rewrite (hbind_eq _ _ _ _ _ E1).
  destruct (sql_reads _ _ _ _ (reads_GetOrderByID oid) E1) as (Hd1 & Hq1 & Hrow & Hno).
  destruct row as [e|row].
  { intros [= <- <-]. split_and!; [done|left; by split|]. intros oid' Hnet [= <-].
    specialize (Hno Hnet e eq_refl). unfold GetOrderByID, sbind, sget in Hno.
    by destruct (db_orders (a_db s) !! oid). }
  specialize (Hrow row eq_refl). apply GetOrderByID_row in Hrow. simpl in Hrow.
  destruct (seqb_spec (or_UserID row) u) as [Hu|Hu]; cbn [negb].
  - destruct (askEngine h (or_EventID row) "CANCEL_ORDER"
      (JObj [("eventId", JStr (or_EventID row)); ("orderId", JStr orderID)]) s1) as [r s2] eqn:E2.
    rewrite (hbind_eq _ _ _ _ _ E2). unfold hret. intros [= <- <-].
    destruct (askEngine_spec h _ "CANCEL_ORDER" _ _ _ _ ltac:(discriminate) E2) as [Hd2 Hask].
    split_and!; [congruence| |intros oid' _ [= <-]; by rewrite Hrow].
    right. exists oid, row. split_and!; [done|done|done|].
    apply (asked_from _ _ _ _ (is_Some r) _ _ s1); [done| |done]. by destruct r.
  - intros [= <- <-]. split_and!; [done|left; by split|]. intros oid' _ [= <-]. by rewrite Hrow.
Qed.

(** *** Creating an event *)

(** The foreign keys on events. *)
Record event_refs (d : DB) : Prop := {
  ev_orders : map_Forall (λ _ o, is_Some (db_events d !! or_EventID o)) (db_orders d);
  ev_trades : map_Forall (λ _ t, is_Some (db_events d !! tr_EventID t)) (db_trades d);
  ev_positions : map_Forall (λ k _, is_Some (db_events d !! k.1.2)) (db_positions d)
}.

Lemma create_delete_event id row d :
  event_refs d → db_events d !! id = None →
  DeleteEvent id (with_events (<[id := row]>) d) = inr ((), d).
Proof.
  intros [Ho Ht Hp] Hid.
  assert (∀ o, or_EventID <$> db_orders d !! o ≠ Some id) as Hgone.
  { intros o Hx. apply fmap_Some in Hx as (r & Hr & ->). specialize (Ho _ _ Hr). simpl in Ho.
    rewrite Hid in Ho. by destruct Ho. }
  unfold DeleteEvent, sbind, sget, require. cbn [db_orders db_trades db_positions db_transactions with_events].
  rewrite bool_decide_true; [|]. 2:{ intros k t Hkt. specialize (Ht _ _ Hkt). simpl in Ht.
    split_and!; [intros Heq; rewrite Heq, Hid in Ht; by destruct Ht|by apply bool_decide_eq_false..]. }
  cbn [sret]. rewrite bool_decide_true; [|]. 2:{ intros k x Hkx Heq. specialize (Hp _ _ Hkx). simpl in Hp.
    rewrite Heq, Hid in Hp. by destruct Hp. }
  rewrite bool_decide_true; [|]. 2:{ apply Forall_forall. intros x _. by apply bool_decide_eq_false. }
  unfold swrite, with_events, with_dborders. simpl. f_equal. f_equal. destruct d; simpl in *. f_equal.
  - rewrite delete_insert_id; done.
  - apply map_filter_id. intros o r Hr Heq. specialize (Ho _ _ Hr). simpl in Ho, Heq. rewrite Heq, Hid in Ho. by destruct Ho.
Qed.

(** The payload of CREATE_EVENT. *)
Definition eventPayload (id : UUID) (expiresAt : Z) (title : string) : json := JObj [
  ("eventId", JStr id); ("expiresAt", JStr (time_FormatRFC3339 expiresAt)); ("title", JStr title)].

Lemma eventPayload_decodes id x t : unmarshal_strings ["eventId"] (JText (eventPayload id x t)) = Some [id].
Proof. reflexivity. Qed.

Lemma sql_served {A} (stmt : Stmt A) s : (∀ t, net t = Served) →
  ∃ s', silent s s' ∧ match stmt (a_db s) with
    | inl e => sql stmt s = (inl e, s') ∧ a_db s' = a_db s
    | inr (a, d) => sql stmt s = (inr a, s') ∧ a_db s' = d
    end.
Proof.
  intros Hs. unfold sql, exec. rewrite Hs. destruct (stmt (a_db s)) as [e|[a d]]; eexists; (split; [|by split]); by intros k.
Qed.


(** *** Signing in *)

Lemma GetUserByEmail_row e d i u d' :
  GetUserByEmail e d = inr ((i, u), d') → d' = d ∧ db_users d !! i = Some u ∧ u_Email u = e.
Proof.
  unfold GetUserByEmail, sbind, sget. destruct (map_to_list _) as [|[i' u'] l] eqn:E; [done|].
  intros [= -> -> ->]. split; [done|].
  assert ((i, u) ∈ map_to_list (filter (λ iu, u_Email iu.2 = e) (db_users d'))) as Hin by (rewrite E; left).
  apply elem_of_map_to_list, map_lookup_filter_Some in Hin. done.
Qed.

Lemma reads_GetUserByEmail e : reads (GetUserByEmail e).
Proof. intros d [i u] d' Hx. by apply GetUserByEmail_row in Hx as [-> _]. Qed.

(** C27: signing in.  Whatever calls fail, POST /auth/signin changes nothing; it answers
    200 only for a user of the database whose stored hash matches the password,
    and the token it hands out lets every request made with it within the day
    through the middleware as exactly this user, and none after. *)
Theorem signin_authenticates b s resp s' :
  Signin secret b s = (resp, s') →
  a_db s' = a_db s ∧ silent s s' ∧
  (status resp = 200 →
   ∃ req id user token t1, bind_signin b = inr req ∧ db_users (a_db s) !! id = Some user ∧
     u_Email user = si_Email req ∧ bcrypt_CompareHashAndPassword (u_PasswordHash user) (si_Password req) = true ∧
     body resp = JObj [("token", JStr token); ("user", JObj [("id", JStr id); ("email", JStr (u_Email user))])] ∧
     ∀ now,
       (now ≤ time_Now t1 + 24 * hour - second →
          AuthMiddleware secret now ("Bearer " +:+ token) = inr (id, u_Email user)) ∧
       (time_Now t1 + 24 * hour ≤ now →
          AuthMiddleware secret now ("Bearer " +:+ token) = inl "Invalid token")).
Proof.
  unfold Signin. destruct (bind_signin b) as [e|req]; [by intros [= <- <-]|].
  destruct (sql (GetUserByEmail (si_Email req)) s) as [row s1] eqn:E1. rewrite (hbind_eq _ _ _ _ _ E1).
  destruct (sql_reads _ _ _ _ (reads_GetUserByEmail _) E1) as (Hd1 & Hq1 & Hrow & _).
  destruct row as [e|[id user]]; [by intros [= <- <-]|].
  destruct (GetUserByEmail_row _ _ _ _ _ (Hrow _ eq_refl)) as (_ & Hu & He).
  destruct (bcrypt_CompareHashAndPassword _ _) eqn:Ec; [|by intros [= <- <-]].
  destruct (tickH_spec s1) as (s2 & Et2 & Hd2 & Hq2). rewrite (hbind_eq _ _ _ _ _ Et2).
  destruct (tickH_spec s2) as (s3 & Et3 & Hd3 & Hq3). rewrite (hbind_eq _ _ _ _ _ Et3).
  assert (a_db s3 = a_db s ∧ silent s s3) as [Hd Hq].
  { split; [congruence|]. transitivity s1; [done|]. by transitivity s2. }
  destruct (GenerateToken _ _ _ _ _) as [e|token] eqn:Eg; intros [= <- <-]; [done|].
  split_and!; [done|done|]. intros _. exists req, id, user, token, (b_tick (a_bus s1)).
  split_and!; [done..|]. intros now. by eapply token_roundtrip.
Qed.

(** *** Signing up *)

(** An email that is taken is refused and nothing changes; a new user gets a row
    with the starting balance, and nobody else's row changes. *)
Lemma signup_spec rm b s resp s' :
  (∀ t, net t = Served) → Signup rm b s = (resp, s') →
  status resp = 201 ∧ (∃ req id hash, bind_signup b = inr req ∧ db_users (a_db s) !! id = None ∧
     map_Forall (λ _ u, u_Email u ≠ su_Email req) (db_users (a_db s)) ∧
     a_db s' = with_users (<[id := mkUserRow (su_Email req) hash default_balance]>) (a_db s)) ∨
  status resp ≠ 201 ∧ a_db s' = a_db s ∧ silent s s'.
Proof.
  intros Hserved. unfold Signup. destruct (bind_signup b) as [e|req]; [intros [= <- <-]; by right|].
  destruct (sql (GetUserByEmail (su_Email req)) s) as [row s1] eqn:E1. rewrite (hbind_eq _ _ _ _ _ E1).
  destruct (sql_reads _ _ _ _ (reads_GetUserByEmail _) E1) as (Hd1 & Hq1 & _).
  destruct row as [e|row]; [|intros [= <- <-]; by right].
  destruct (tickH_spec s1) as (s2 & Et2 & Hd2 & Hq2). rewrite (hbind_eq _ _ _ _ _ Et2).
  destruct (bcrypt_GenerateFromPassword _ _) as [hash|].
  2:{ intros [= <- <-]. right. split_and!; [done|congruence|by transitivity s1]. }
  set (id := gen_random_uuid _). set (stmt := CreateUser id (su_Email req) hash).
  destruct (sql_served stmt s2 Hserved) as (s3 & Hq3 & Hsql).
  destruct (stmt (a_db s2)) as [e'|[a d]] eqn:Es; destruct Hsql as [Esql Hd3]; rewrite (hbind_eq _ _ _ _ _ Esql).
  { intros [= <- <-]. right. split_and!; [done|congruence|transitivity s1; [done|by transitivity s2]]. }
  unfold stmt, CreateUser in Es. apply sbind_inr in Es as (d0 & d1 & [= <- <-] & Es).
  apply sbind_inr in Es as (? & ? & [Hem ->]%require_inr & Es). apply bool_decide_eq_true in Hem.
  apply sbind_inr in Es as (? & ? & [Hid ->]%unique_key_inr & Es).
  injection Es as <- <-. unfold hbind, redis, hret.
  set (left := match rm with None => _ | Some _ => _ end).
  assert (a_db (left s3).2 = a_db s3) as Hleft by (unfold left; destruct rm as [rm|]; [by destruct (SendCommandFanout _ _ _ _)|done]).
  destruct (left s3) as [err s4]. simpl in Hleft. intros [= <- <-]. left. split; [done|].
  rewrite Hd2, Hd1 in *. exists req, id, hash. split_and!; [done..|congruence].
Qed.
End theorems.

(** ** Witnesses *)

(** A client body is taken apart without validation but for what the tags say. *)
Definition testOrder : CreateOrderRequest :=
  mkCreateOrderReq "" "ev" OrderTypeLimit OutcomeYes SideBuy 5 (cents 57).

Definition testGin : Gin := {|
  bind_signup _ := inr (mkSignup "a@b" "secret");
  bind_signin _ := inr (mkSignin "a@b" "secret");
  bind_createEvent _ := inr (mkCreateEventReq "t" "d" "q" "http://i" "2030-01-01T00:00:00Z");
  bind_createOrder _ := inr testOrder
|}.

#[export] Instance testGin_laws : @GinLaws testGin.
Proof.
  split; simpl.
  - intros b r [= <-]. split; [discriminate|simpl; lia].
  - intros b r [= <-]. by split_and!.
  - intros b r [= <-]. split_and!; simpl; try (by repeat constructor); try done.
Qed.

Definition testApi : ApiPackages := {|
  bcrypt_GenerateFromPassword _ p := Some ("#" +:+ p);
  bcrypt_CompareHashAndPassword h p := h =s ("#" +:+ p);
  time_ParseRFC3339 _ := Some 1893456000000000000;
  time_FormatRFC3339 _ := "2030-01-01T00:00:00Z";
  gen_random_uuid _ := "new";
  user_created_at _ := "";
  event_body id _ := JStr id;
  visit_events _ l := l
|}.

Definition textPackages : Packages := {|
  uuid_Parse s := if s =s "" then None else Some s;
  Float64Value _ := None;
  pgx_postgres := {| numeric_quotient a b := Z.quot a b |}
|}.

#[export] Instance amd64_laws : @GoArchLaws amd64.
Proof. split. intros f. vm_compute. split; discriminate. Qed.

#[local] Existing Instance kvBus.
#[local] Existing Instance rpcEnv.
#[local] Existing Instance rpcRand.
#[local] Existing Instance rpcSelects.
#[local] Existing Instance testGin.
#[local] Existing Instance testApi.
#[local] Existing Instance textPackages.
#[local] Existing Instance binaryJwt.
#[local] Existing Instance amd64.

Definition goodNet : Network := {| net _ := Served |}.
#[local] Existing Instance goodNet.

Definition manager4 : RedisManager := mkManager (Some router4).

(** One user, one active event, one order of another user. *)
Definition smallDB : DB := mkDB
  {["u1" := mkUserRow "a@b" "#secret" default_balance]}
  {["ev" := mkEventRow "t" "d" "q" "i" true 0 0]}
  {["o2" := mkOrderRow "ev" "u2" OrderTypeLimit OutcomeYes SideBuy 5 None StatusPending 0 5]} ∅ ∅ [].

Definition api0 : Api := mkApi emptyBus smallDB.

Lemma smallDB_refs : event_refs smallDB.
Proof.
  split; [|apply map_Forall_empty|apply map_Forall_empty].
  apply map_Forall_singleton. vm_compute. eauto.
Qed.

Lemma protected_routes_need_token_witness :
  status (serve manager4 "k" PostOrder (mkRequest "Bearer x" "" raw_nil) api0).1 = 401.
Proof.
  apply (protected_routes_need_token manager4 "k" PostOrder (mkRequest "Bearer x" "" raw_nil) api0 _ _ eq_refl
    ltac:(intros tok c Heq; apply (string_app_inj_l "Bearer " "x" tok) in Heq as <-; vm_compute; discriminate) (surjective_pairing _)).
Defined.

Lemma createOrder_sends_own_order_witness :
  a_db (CreateOrder manager4 (Some "u1") raw_nil api0).2 = smallDB.
Proof.
  exact (proj1 (createOrder_sends_own_order manager4 "u1" raw_nil api0 _ _ (surjective_pairing _))).
Defined.

Lemma deleteOrder_only_by_owner_witness :
  status (DeleteOrder manager4 (Some "u1") "o2" api0).1 = 403.
Proof.
  destruct (deleteOrder_only_by_owner manager4 "u1" "o2" api0 _ _ (surjective_pairing _)) as (_ & _ & Hf).
  specialize (Hf "o2" eq_refl eq_refl). change (db_orders (a_db api0) !! "o2") with
    (Some (mkOrderRow "ev" "u2" OrderTypeLimit OutcomeYes SideBuy 5 None StatusPending 0 5)) in Hf.
  apply Hf. discriminate.
Defined.


Lemma signin_authenticates_witness :
  ∃ token, AuthMiddleware "k" 5000 ("Bearer " +:+ token) = inr ("u1", "a@b").
Proof.
  destruct (signin_authenticates "k" raw_nil api0 _ _ (surjective_pairing _)) as (_ & _ & Hs).
  destruct (Hs ltac:(vm_compute; reflexivity)) as (req & id & user & token & t1 & Hb & Hu & _ & _ & _ & Hn).
  exists token. destruct (Hn 5000) as [Hin _].
  assert (id = "u1" ∧ u_Email user = "a@b") as [<- <-].
  { destruct (decide (id = "u1")) as [->|Hne].
    - vm_compute in Hu. injection Hu as <-. split; reflexivity.
    - unfold api0, smallDB in Hu; simpl in Hu. rewrite lookup_singleton_ne in Hu by congruence. discriminate Hu. }
  apply Hin. simpl. unfold hour, second. lia.
Defined.
