(* ===== verification/Boundaries.v ===== *)
(** Where the services fall short of each other: behaviours of the API, the Redis
    manager and the DB worker that a caller would not expect, each shown on the
    model. *)

From S2P Require Import Prelude Json Types Router State Events Commands Handlers Replay Lease Repository.
From S2P Require Import DbWorker Manager Rpc Auth Price Api Access.
Local Open Scope Z_scope.

(** ** An order id that is no UUID *)

Section poison.
Context `{Packages} `{Network} `{RedisServer}.

(** A client can stop the DB worker.  POST /order passes the order id of the
    request on as it is, the engine takes any id, and the DB worker ends with an
    error at the first event it cannot apply: a worker that claims an
    ORDER_CREATED whose id is not a UUID ends at once, without applying anything,
    without acknowledging the entry, so that the next worker claims it again. *)
Lemma client_order_id_stops_worker o env entryID rest reads w :
  uuid_Parse (o_ID o) = None → order_in_range o → envelope_in_range env →
  ev_Type env = EventOrderCreated → ev_Data env = JText (order_json o) →
  decideEnvelope env (net (wk_calls w)) (wk_redis w) ≠ Some fencingStale →
  ∃ err w', Run None ((entryID, JText (envelope_json env)) :: rest) reads w = (Some err, w') ∧
    wk_db w' = wk_db w ∧ wk_acked w' = wk_acked w.
Proof.
  intros Hid Ho He Hty Hd Hf. unfold Run. cbn [ensureGroup processEvents]. unfold processEvent.
  rewrite (unmarshal_marshal_envelope env _ He Hd). unfold handleEnvelope.
  destruct (decideEnvelope _ _ _) as [[]|]; [|done|by eexists _, _].
  rewrite Hty. simpl. unfold handleOrderCreated. rewrite Hd, unmarshal_marshal_order by done.
  destruct o. simpl in *. rewrite Hid. by eexists _, _.
Qed.
End poison.

(** ** What a failed call leaves behind *)

#[local] Existing Instance kvBus.
#[local] Existing Instance rpcEnv.
#[local] Existing Instance rpcRand.
#[local] Existing Instance testGin.
#[local] Existing Instance testApi.
#[local] Existing Instance textPackages.
#[local] Existing Instance binaryJwt.

(** No reply comes before the timer. *)
Definition noReply : Selects := {| select_ready _ _ := [] |}.

(** The command an entry of a stream carries. *)
Definition commandOf (e : Fields) : option MessageToEngine := entryMessage (mkEntryOf "" e.1 e.2).

(** A timeout leaves a market without an event.  When the engine is slower than
    the deadline, POST /event deletes the row and reports a failure, but the
    CREATE_EVENT stays in the command stream, and the engine opens the market
    when it gets there: the engine then has an event the database does not. *)
Lemma timeout_leaves_market_without_event :
  let '(resp, s') := @CreateEvent kvBus goodNet rpcEnv rpcRand noReply testGin testApi manager4 raw_nil api0 in
  status resp = 400 ∧ db_events (a_db s') !! "new" = None ∧
  ∃ msg, (commandOf <$> entries (StreamForEvent router4 "new") (a_bus s')) = [Some msg] ∧
    ∀ pid w, ∃ w', handleMessage pid msg w =
        Some (successJSON (JObj [("status", JStr (createEventLocked "new" (eng w)).1)]), w') ∧
      is_Some (markets (eng w') !! "new").
Proof.
  set (run := CreateEvent _ _ _).
  assert (status run.1 = 400 ∧ db_events (a_db run.2) !! "new" = None ∧
    (commandOf <$> entries (StreamForEvent router4 "new") (a_bus run.2)) =
      [Some (mkMessage "CREATE_EVENT" (JText (JObj [("eventId", JStr "new");
        ("expiresAt", JStr "2030-01-01T00:00:00Z"); ("title", JStr "t")])))]) as (Hs & Hd & He).
  { vm_compute. repeat split; reflexivity. }
  destruct run as [resp s']. split_and!; [exact Hs|exact Hd|]. eexists. split; [exact He|].
  intros pid w. unfold handleMessage. simpl. unfold handleCreateEvent, bind, get_eng, put_eng, ret.
  change (unmarshal_strings ["eventId"] _) with (Some ["new"]). simpl.
  unfold createEventLocked. destruct (markets (eng w) !! "new") eqn:E; eexists; (split; [done|]); simpl.
  - by rewrite E.
  - by rewrite lookup_insert_eq.
Qed.

(** The calls after the INSERT of the user are lost. *)
Definition dyingNet : Network := {| net t := if (t <=? 2)%nat then Served else RequestLost |}.

(** Signing up may leave a user without funds.  The comment in [Signup] says that
    USER_CREATED is delivered at least once; but the fan-out is tried once and its
    error is dropped: when Redis is away the answer is 201 and the user is in the
    database, while no partition will ever fund the account. *)
Lemma signup_may_lose_user_created :
  let '(resp, s') := @Signup kvBus dyingNet rpcEnv testGin testApi (Some manager4) raw_nil (mkApi emptyBus (mkDB ∅ ∅ ∅ ∅ ∅ [])) in
  status resp = 201 ∧ is_Some (db_users (a_db s') !! "new") ∧
  (∀ k, k ∈ PartitionStreams router4 → entries k (a_bus s') = []).
Proof.
  set (run := Signup _ _ _).
  assert (status run.1 = 201 ∧ (u_Email <$> db_users (a_db run.2) !! "new") = Some "a@b" ∧
    ((λ k, entries k (a_bus run.2)) <$> PartitionStreams router4) = [[]; []; []; []]) as (Hs & Hd & He).
  { vm_compute. repeat split; reflexivity. }
  destruct run as [resp s']. split_and!; [exact Hs| |].
  - apply fmap_Some in Hd as (u & Hu & _). by exists u.
  - intros k Hk. assert (entries k (a_bus s') ∈ [[]; []; []; []]) as Hin.
    { rewrite <- He. apply list_elem_of_fmap. by exists k. }
    set_solver.
Qed.

(** ** Two spellings of one UUID *)

(** [uuid.Parse] takes upper-case digits as well, so POST /order finds the event of
    either spelling; but it routes the command, and names the event in it, as the client
    wrote it.  With three partitions the two spellings below go to different ones, and an
    engine that has the market under the usual one does not know the other. *)
Definition lowerId : string := "a0eebc99-9c0b-4ef8-bb6d-6bb9bd38000a".
Definition upperId : string := "A0EEBC99-9C0B-4EF8-BB6D-6BB9BD38000A".

Lemma respelled_event_is_unknown o e :
  (Partition (NewRouter 3 "") lowerId, Partition (NewRouter 3 "") upperId) = (1, 0) ∧
  (markets e !! upperId = None → orders e !! o_ID o = None → o_EventID o = upperId →
   registerOrder o e = (RegFailed ErrEventNotFound, e)).
Proof.
  split; [vm_compute; reflexivity|]. intros Hm Ho Hev. unfold registerOrder. by rewrite Ho, Hev, Hm.
Qed.
