(* ===== verification/Observability.v ===== *)
(** Logging, metrics and the operations endpoints: pkg/logging/logging.go,
    [NewMetricsWithRegistry] of internal/engine/metric.go, [SetLogger] and [logEvent]
    of internal/engine/engine.go, and internal/observability/ops.go.

    A log record is the list of members of the JSON object that [log/slog] writes.
    The Prometheus client library is a parameter: a registry with [Register]
    ([registerCollector] below), which accepts a collector exactly when none of its
    metric names is taken. *)

From S2P Require Import Prelude Json Types Router State Deployment.
Local Open Scope Z_scope.

(** ** pkg/logging *)

Module Logging.

(** An argument of type [any]: a string, or another value. *)
Inductive Arg := Key (s : string) | Val (v : json).

(** How [log/slog] pairs its arguments; what is no pair goes under "!BADKEY". *)
Fixpoint argsToAttrs (args : list Arg) : list (string * json) :=
  match args with
  | [] => []
  | [Key k] => [("!BADKEY", JStr k)]
  | Key k :: Key s :: args => (k, JStr s) :: argsToAttrs args
  | Key k :: Val v :: args => (k, v) :: argsToAttrs args
  | Val v :: args => ("!BADKEY", v) :: argsToAttrs args
  end.

Definition LevelDebug : Z := -4.
Definition LevelInfo : Z := 0.
Definition LevelWarn : Z := 4.
Definition LevelError : Z := 8.

Definition levelName (level : Z) : string :=
  if level =? LevelDebug then "DEBUG" else if level =? LevelInfo then "INFO"
  else if level =? LevelWarn then "WARN" else "ERROR".

Record Logger := mkLogger { lg_out : string; lg_level : Z; lg_attrs : list (string * json) }.

(** [New]; [None] is a panic in [itoa]. *)
Definition New (id : string) (level : Z) (w : option string) (hostname : option string) (pid : Z) : option Logger :=
  (λ id, mkLogger (default "stdout" w) level [("instanceId", JStr id)]) <$> instanceID id hostname pid.

Definition With (l : Logger) (attrs : list Arg) : Logger :=
  mkLogger (lg_out l) (lg_level l) (lg_attrs l ++ argsToAttrs attrs).

(** The record written, if the level is enabled; [now] is the time as text. *)
Definition log (level : Z) (l : Logger) (now msg : string) (attrs : list Arg) : option (list (string * json)) :=
  if lg_level l <=? level then
    Some ([("time", JStr now); ("level", JStr (levelName level)); ("msg", JStr msg)]
            ++ lg_attrs l ++ argsToAttrs attrs)
  else None.

Definition Debug := log LevelDebug.
Definition Info := log LevelInfo.
Definition Warn := log LevelWarn.

(** [append(attrs, "error", err)]; a nil error is written as null. *)
Definition Error (l : Logger) (now msg : string) (err : option string) (attrs : list Arg) :=
  log LevelError l now msg (attrs ++ [Key "error"; Val (from_option JStr JNull err)]).

(** ** The engine's logger *)

(** [SetLogger]; the nil logger is ignored. *)
Definition SetLogger (l : option Logger) (current : Logger) : Logger := default current l.

(** The part of [SetLeaseSettings] that is about the logger. *)
Definition relabel (engineID : string) (l : Logger) : Logger :=
  if engineID =s "" then l else With l [Key "instanceId"; Key engineID].

(** [logEvent] *)
Definition logEvent (l : option Logger) (now event : string) (attrs : list Arg) : option (list (string * json)) :=
  match l with None => None | Some l => Info l now event attrs end.

(** The logger of [newEngine], and what the set-up of cmd/engine makes of it. *)
Definition defaultLogger (hostname : option string) (pid : Z) : option Logger :=
  New "" LevelInfo None hostname pid.

Definition engineLogger (cfg : Config) (hostname : option string) (pid : Z) : option Logger :=
  SetLogger (New (EngineID cfg) LevelInfo (Some "stdout") hostname pid)
    <$> (relabel (EngineID cfg) <$> defaultLogger hostname pid).

(** ** Records *)

(** Key-value pairs, as every call in the code passes them. *)
Definition pairs (kvs : list (string * json)) : list Arg := kvs ≫= λ kv, [Key kv.1; Val kv.2].

Lemma argsToAttrs_pairs kvs args : argsToAttrs (pairs kvs ++ args) = kvs ++ argsToAttrs args.
Proof. induction kvs as [|[k v] kvs IH]; [done|]. simpl. by rewrite IH. Qed.

(** The values a record has under a key. *)
Definition values (key : string) (rec : list (string * json)) : list json :=
  (filter (λ kv, kv.1 = key) rec).*2.

Lemma values_app key r1 r2 : values key (r1 ++ r2) = values key r1 ++ values key r2.
Proof. unfold values. by rewrite filter_app, fmap_app. Qed.

Lemma values_none key r : key ∉ r.*1 → values key r = [].
Proof.
  induction r as [|[k v] r IH]; [done|]. intros [Hne Hr]%not_elem_of_cons. unfold values in *.
  rewrite filter_cons_False by (simpl in *; congruence). by apply IH.
Qed.

Lemma instanceID_total id hostname pid : in64 pid → is_Some (instanceID id hostname pid).
Proof.
  intros Hp. unfold instanceID. destruct (id =s ""); [|by eexists]. rewrite itoa_decimal by done. by eexists.
Qed.

(** Every record that the engine writes through [logEvent] carries the engine's id
    once, under "instanceId", whatever host and process it runs as; and [New] never
    panics. *)
Lemma engine_records_identified cfg hostname pid now event kvs :
  EngineID cfg ≠ "" → in64 pid → "instanceId" ∉ kvs.*1 →
  ∃ l rec, engineLogger cfg hostname pid = Some l ∧
    logEvent (Some l) now event (pairs kvs) = Some rec ∧
    values "instanceId" rec = [JStr (EngineID cfg)] ∧ values "msg" rec = JStr event :: values "msg" kvs.
Proof.
  intros Hid Hp Hk. unfold engineLogger, defaultLogger, New.
  destruct (instanceID_total "" hostname pid Hp) as [i0 ->].
  unfold instanceID. rewrite (seqb_ne _ _ Hid). do 2 eexists. split; [done|]. split; [done|].
  pose proof (argsToAttrs_pairs kvs []) as Hpairs. rewrite !app_nil_r in Hpairs.
  rewrite !values_app. rewrite Hpairs. by rewrite (values_none _ _ Hk).
Qed.

(** [Error] adds the error after the caller's pairs. *)
Lemma Error_carries_error l now msg err kvs :
  lg_level l ≤ LevelError →
  Error l now msg err (pairs kvs) =
    Some ([("time", JStr now); ("level", JStr "ERROR"); ("msg", JStr msg)] ++ lg_attrs l ++ kvs
            ++ [("error", from_option JStr JNull err)]).
Proof.
  intros Hl. unfold Error, log. rewrite (proj2 (Z.leb_le _ _)) by done. by rewrite argsToAttrs_pairs.
Qed.

(** Without [SetLogger] the records of an engine have two members named
    "instanceId": [SetLeaseSettings] adds to the attributes and replaces none. *)
Lemma relabelled_records_have_two_ids engineID hostname now event :
  engineID ≠ "" →
  ∃ l rec, relabel engineID <$> defaultLogger hostname 7 = Some l ∧
    logEvent (Some l) now event [] = Some rec ∧
    values "instanceId" rec = [JStr (default "unknown" hostname +:+ ":7"); JStr engineID].
Proof.
  intros Hid. unfold relabel, defaultLogger, New. rewrite (seqb_ne _ _ Hid). do 2 eexists.
  split; [reflexivity|]. split; reflexivity.
Qed.

End Logging.

(** ** Metrics *)

Module Registration.

(** The client library.  A collector is given by the names of its metrics. *)
Class Prometheus := {
  Registry : Type;
  NewRegistry : Registry;
  registered : Registry → gset string;
  registerCollector : gset string → Registry → option Registry;
  GoCollector : gset string;
  ProcessCollector : gset string
}.

(** Its documented behaviour: a new registry is empty; a collector is refused if a
    metric of it is registered already, and added otherwise.  The two runtime
    collectors export names with the prefixes "go_" and "process_". *)
Class PrometheusLaws `(Prometheus) : Prop := {
  registered_new : registered NewRegistry = ∅;
  register_new ms r : ms ## registered r → ∃ r', registerCollector ms r = Some r' ∧ registered r' = ms ∪ registered r;
  register_taken m ms r : m ∈ ms → m ∈ registered r → registerCollector ms r = None;
  go_names m : m ∈ GoCollector → ∃ s, m = "go_" +:+ s;
  process_names m : m ∈ ProcessCollector → ∃ s, m = "process_" +:+ s
}.

Section registration.
Context `{Prometheus}.

(** [MustRegister]: one collector after the other; [None] is a panic. *)
Fixpoint MustRegister (cs : list (gset string)) (r : Registry) : option Registry :=
  match cs with
  | [] => Some r
  | c :: cs => match registerCollector c r with None => None | Some r => MustRegister cs r end
  end.

(** The metrics of the engine, in the order of their registration. *)
Definition engineMetrics : list string :=
  [ "engine_orders_processed_total"; "engine_order_latency_seconds"; "engine_orders_accepted_total";
    "engine_orders_rejected_total"; "engine_orders_canceled_total"; "engine_orders_filled_total";
    "engine_trades_executed_total"; "engine_matching_latency_seconds"; "engine_replay_latency_seconds";
    "engine_partition_owner"; "engine_lease_acquire_total"; "engine_lease_losses_total" ].

Definition NewMetricsWithRegistry (reg : Registry) : option (Metrics * Registry) :=
  pair State.NewMetrics <$> MustRegister (singleton <$> engineMetrics) reg.

Definition NewMetrics : option (Metrics * Registry) := NewMetricsWithRegistry NewRegistry.

(** ** observability/ops.go *)

Definition WithRuntimeMetrics (reg : Registry) : option Registry := MustRegister [GoCollector; ProcessCollector] reg.

Record Ops := mkOps { op_registry : Registry; op_checks : gmap string Check }.

(** [NewOps]; the nil registry is replaced by a new one. *)
Definition NewOps (registry : option Registry) : option Ops :=
  (λ reg, mkOps reg ∅) <$> WithRuntimeMetrics (default NewRegistry registry).

(** [o.AddCheck] *)
Definition addCheck (name : string) (fn : Check) (o : Ops) : Ops := mkOps (op_registry o) (AddCheck name fn (op_checks o)).

(** What an endpoint answers. *)
Inductive Answer :=
| Exposition (names : gset string)
| Live (code : Z) (body : json)
| Ready (code : Z) (status : string) (checks : gmap string string)
| NoSuchPage.

(** [Handler]: the mux, whose patterns have no trailing slash and match exactly. *)
Definition Handler (o : Ops) (path : string) : Answer :=
  if path =s "/metrics" then Exposition (registered (op_registry o))
  else if path =s "/health/live" then Live (LiveHandler.1) (LiveHandler.2)
  else if path =s "/health/ready" then
    let '(code, status, checks) := ReadyHandler (op_checks o) in Ready code status checks
  else NoSuchPage.

(** [Run] of [Ops], when the server stopped with an error, when the context was canceled, or
    both ([first] is the case [select] takes); [shutdown] is what [srv.Shutdown]
    returns.  [None]: it still blocks. *)
Definition Ops_Run (listen : option string) (canceled : bool) (first : bool) (shutdown : option string)
    : option (option string) :=
  let failed := match listen with Some err => negb (err =s "http: Server closed") | None => false end in
  match failed, canceled with
  | false, false => None
  | true, false => Some listen
  | false, true => Some shutdown
  | true, true => Some (if first then listen else shutdown)
  end.

(** ** What is registered *)

Context `{!PrometheusLaws _}.

(** Collectors that share no name can be registered together. *)
Lemma MustRegister_new cs : ∀ r,
  (∀ i j c d, cs !! i = Some c → cs !! j = Some d → i ≠ j → c ## d) →
  (∀ c, c ∈ cs → c ## registered r) →
  ∃ r', MustRegister cs r = Some r' ∧ registered r' = ⋃ cs ∪ registered r.
Proof.
  induction cs as [|c cs IH]; intros r Hd Hr; simpl; [eexists; split; [done|set_solver]|].
  destruct (register_new c r (Hr c ltac:(left))) as (r1 & -> & E1).
  destruct (IH r1) as (r2 & -> & E2).
  - intros i j c' d' Hi Hj Hij. by apply (Hd (S i) (S j)); auto.
  - intros d Hdin. rewrite E1. apply disjoint_union_r. split; [|apply Hr; by right].
    apply list_elem_of_lookup_1 in Hdin as [i Hi]. by apply (Hd (S i) 0%nat).
  - eexists. split; [done|]. rewrite E2, E1. set_solver.
Qed.

Lemma go_process_disjoint : GoCollector ## ProcessCollector.
Proof. by intros m [s1 ->]%go_names [s2 [=]]%process_names. Qed.

Lemma engine_metric_prefix m : m ∈ engineMetrics → ∃ s, m = "engine_" +:+ s.
Proof.
  intros Hm. repeat (apply elem_of_cons in Hm as [->|Hm]; [by eexists|]). by apply not_elem_of_nil in Hm.
Qed.

Lemma engineMetrics_NoDup : NoDup engineMetrics.
Proof. apply (bool_decide_eq_true_1 _). vm_compute. reflexivity. Qed.

Lemma singletons_disjoint (l : list string) i j (c d : gset string) :
  NoDup l → (singleton <$> l) !! i = Some c → (singleton <$> l) !! j = Some d → i ≠ j → c ## d.
Proof.
  intros Hnd Hi Hj Hij. apply list_lookup_fmap_Some_1 in Hi as (a & -> & Hi). apply list_lookup_fmap_Some_1 in Hj as (b & -> & Hj).
  apply disjoint_singleton_l, not_elem_of_singleton. intros ->. apply Hij. exact (NoDup_lookup _ _ _ _ Hnd Hi Hj).
Qed.

Lemma union_singletons (l : list string) : ⋃ (singleton (B := gset string) <$> l) = list_to_set l.
Proof. induction l as [|a l IH]; [done|]. rewrite fmap_cons, union_list_cons, IH. done. Qed.

Lemma NewMetrics_ok :
  ∃ reg, NewMetrics = Some (State.NewMetrics, reg) ∧ registered reg = list_to_set engineMetrics.
Proof.
  destruct (MustRegister_new (singleton <$> engineMetrics) NewRegistry) as (r & Er & Hr).
  - intros. by eapply singletons_disjoint; eauto using engineMetrics_NoDup.
  - intros c _. rewrite registered_new. apply disjoint_empty_r.
  - exists r. unfold NewMetrics, NewMetricsWithRegistry. rewrite Er. split; [done|].
    rewrite Hr, registered_new, union_singletons. set_solver.
Qed.

(** A registry whose names are the engine's, or that has none, takes the runtime
    collectors. *)
Lemma NewOps_ok reg :
  (∀ m, m ∈ registered (default NewRegistry reg) → m ∈ engineMetrics) →
  ∃ o, NewOps reg = Some o ∧ op_checks o = ∅ ∧
    registered (op_registry o) = GoCollector ∪ ProcessCollector ∪ registered (default NewRegistry reg).
Proof.
  intros Hin. set (r0 := default NewRegistry reg) in *.
  destruct (MustRegister_new [GoCollector; ProcessCollector] r0) as (r & Er & Hr).
  - intros [|[|i]] [|[|j]] c d Hi Hj Hij; simplify_eq/=; try done; [|symmetry]; apply go_process_disjoint.
  - intros c Hc m Hmc Hmr. destruct (engine_metric_prefix m (Hin m Hmr)) as [s0 ->].
    apply elem_of_cons in Hc as [->| ->%list_elem_of_singleton]; [by apply go_names in Hmc as [? [=]]|by apply process_names in Hmc as [? [=]]].
  - exists (mkOps r ∅). unfold NewOps, WithRuntimeMetrics. fold r0. rewrite Er. split; [done|]. split; [done|].
    simpl. rewrite Hr. simpl. set_solver.
Qed.

(** The registry of an engine, with the runtime collectors on it, exports the twelve
    metrics of the engine; a second [NewOps] on it panics as soon as the Go collector
    has a metric. *)
Lemma engine_registry_exports :
  ∃ m reg o, NewMetrics = Some (m, reg) ∧ NewOps (Some reg) = Some o ∧
    Handler o "/metrics" = Exposition (GoCollector ∪ ProcessCollector ∪ list_to_set engineMetrics) ∧
    (GoCollector ≠ ∅ → NewOps (Some (op_registry o)) = None).
Proof.
  destruct NewMetrics_ok as (reg & Em & Hreg). destruct (NewOps_ok (Some reg)) as (o & Eo & _ & Ho).
  { intros m. simpl. rewrite Hreg. apply elem_of_list_to_set. }
  exists State.NewMetrics, reg, o. split; [done|]. split; [done|]. split.
  - change (Handler o "/metrics") with (Exposition (registered (op_registry o))). by rewrite Ho, <- Hreg.
  - intros [x Hx]%set_choose_L. unfold NewOps, WithRuntimeMetrics. simpl.
    rewrite (register_taken x); [done|done|]. rewrite Ho. set_solver.
Qed.
End registration.

(** A registry that is the set of its names. *)
#[export] Instance namesRegistry : Prometheus := {|
  Registry := gset string;
  NewRegistry := ∅;
  registered r := r;
  registerCollector ms r := if decide (ms ## r) then Some (ms ∪ r) else None;
  GoCollector := {["go_goroutines"; "go_threads"]};
  ProcessCollector := {["process_cpu_seconds_total"]}
|}.

#[export] Instance namesRegistry_laws : PrometheusLaws namesRegistry.
Proof.
  split.
  - done.
  - intros ms r Hd. simpl. rewrite decide_True by done. by eexists.
  - intros m ms r Hm Hr. simpl. rewrite decide_False; [done|]. intros Hd. exact (Hd m Hm Hr).
  - intros m [->%elem_of_singleton| ->%elem_of_singleton]%elem_of_union; by eexists.
  - intros m. simpl. intros ->%elem_of_singleton. by eexists.
Qed.

End Registration.
