(* ===== verification/Services.v ===== *)
(** The four main programs: cmd/engine, cmd/db-worker, cmd/api and cmd/ws, from the
    first call to the exit status, with [NewEngine] and [NewOutbox].

    A process is the list of what its main goroutine did, in order, with the stack of
    its deferred calls; of the log lines, those of main and of goroutines that end are
    kept.  What other goroutines and the operating system do while main
    waits for a signal is a list of [Happening]s.  [log.Fatal] exits at once and runs
    no deferred call; a panic runs them, and the deferred [Close] of the pgxpool waits
    until every connection is back.  [pr_clock] is the time that main has waited
    since the signal, in nanoseconds.  Values that main only builds and hands on are no
    steps: the routers, managers and streams are in Deployment, the handlers and routes
    in Api, the hub in Gateway, and the probes below the programs. *)

From S2P Require Import Prelude Json Types Router State Auth Routing Deployment Observability.
Import Registration.
Local Open Scope Z_scope.

(** ** Processes *)

Inductive Resource := Postgres | RedisClient | OutboxFile.
Inductive Ctx := OpsCtx | WorkerCtx | SubscriberCtx | EngineCtx | DeadlineCtx.

Inductive Goroutine :=
| OpsServer (addr : string)
| HttpServer (addr : string)
| WorkerRun (stream group : string)
| SubscriberRun (channel : string)
| PartitionRun (pid : Z).

Inductive Act :=
| Open (r : Resource)
| CloseOf (r : Resource)
| Spawn (g : Goroutine)
| Cancel (c : Ctx)
| ShutdownServer
| StartPumps                              (** [Handle] of the gateway: the two pumps of a client *)
| Print (line : string).

#[export] Instance Resource_eq : EqDecision Resource.
Proof. solve_decision. Defined.
#[export] Instance Ctx_eq : EqDecision Ctx.
Proof. solve_decision. Defined.
#[export] Instance Goroutine_eq : EqDecision Goroutine.
Proof. solve_decision. Defined.
#[export] Instance Act_eq : EqDecision Act.
Proof. solve_decision. Defined.

Record Proc := mkProc {
  did : list Act;
  deferred : list Act;                    (** the last one first *)
  pr_clock : Z;
  pr_done : option (option string)        (** the buffered channel [workerDone] of cmd/db-worker *)
}.

Inductive Result (A : Type) := Normal (a : A) | Fatal | Panic | Blocked.
Arguments Normal {A} a.
Arguments Fatal {A}.
Arguments Panic {A}.
Arguments Blocked {A}.

Definition Pr (A : Type) : Type := Proc → Result A * Proc.

Definition pret {A} (a : A) : Pr A := λ p, (Normal a, p).
Definition pbind {A B} (m : Pr A) (k : A → Pr B) : Pr B := λ p,
  match m p with
  | (Normal a, p) => k a p
  | (Fatal, p) => (Fatal, p)
  | (Panic, p) => (Panic, p)
  | (Blocked, p) => (Blocked, p)
  end.

Declare Scope proc_scope.
Delimit Scope proc_scope with proc.
Notation "x <- m ;; k" := (pbind m (λ x, k))
  (at level 100, m at next level, right associativity) : proc_scope.
Notation "m ;;; k" := (pbind m (λ _, k)) (at level 100, right associativity) : proc_scope.
Local Open Scope proc_scope.

Definition act (a : Act) : Pr () := λ p,
  (Normal (), mkProc (did p ++ [a]) (deferred p) (pr_clock p) (pr_done p)).
Definition defer (a : Act) : Pr () := λ p,
  (Normal (), mkProc (did p) (a :: deferred p) (pr_clock p) (pr_done p)).
Definition wait (d : Z) : Pr () := λ p,
  (Normal (), mkProc (did p) (deferred p) (pr_clock p + d) (pr_done p)).
Definition send_done (err : option string) : Pr () := λ p,
  (Normal (), mkProc (did p) (deferred p) (pr_clock p) (Some err)).
Definition read_done : Pr (option (option string)) := λ p, (Normal (pr_done p), p).
Definition block {A} : Pr A := λ p, (Blocked, p).

(** [log.Fatal] *)
Definition fatal {A} (msg : string) : Pr A := act (Print msg) ;;; λ p, (Fatal, p).

(** A call that panics when it has no result. *)
Definition must {A} (o : option A) : Pr A := λ p,
  match o with Some a => (Normal a, p) | None => (Panic, p) end.

(** A constructor whose error is fatal. *)
Definition orFatal {A} (what : string) (o : string + A) : Pr A :=
  match o with inl err => fatal (what +:+ err) | inr a => pret a end.

Fixpoint each (acts : list Act) : Pr () :=
  match acts with [] => pret () | a :: acts => act a ;;; each acts end.

(** What happens while main waits: a signal, or the return of a goroutine. *)
Inductive Happening :=
| Signal
| OpsReturned (err : option string)
| HttpReturned (err : string)               (** [ListenAndServe] always returns an error *)
| WorkerReturned (err : option string)
| ClientConnected
| SubscriberReturned (err : option string).

(** [<-sig], with the rest of the goroutines' bodies as [react]. *)
Fixpoint awaitSignal (react : Happening → Pr ()) (hs : list Happening) : Pr () :=
  match hs with
  | [] => block
  | Signal :: _ => pret ()
  | h :: hs => react h ;;; awaitSignal react hs
  end.

(** The deferred calls, and the time they take; [pool] is how long it takes until all
    connections are back in the pgxpool, if they ever are.  [false]: a call has not
    returned. *)
Fixpoint unwound (pool : option Z) (acts : list Act) : list Act * Z * bool :=
  match acts with
  | [] => ([], 0, true)
  | a :: acts =>
      match (match a with CloseOf Postgres => pool | _ => Some 0 end) with
      | None => ([], 0, false)
      | Some d => let '(l, t, ended) := unwound pool acts in (a :: l, d + t, ended)
      end
  end.

(** How a process ends: its status and what it did; [None] while it runs. *)
Definition runMain (pool : option Z) (m : Pr ()) : option Z * Proc :=
  let unwind (status : Z) p :=
    let '(l, t, ended) := unwound pool (deferred p) in
    (if ended : bool then Some status else None, mkProc (did p ++ l) [] (pr_clock p + t) (pr_done p)) in
  match m (mkProc [] [] 0 None) with
  | (Normal _, p) => unwind 0 p
  | (Panic, p) => unwind 2 p
  | (Fatal, p) => (Some 1, p)
  | (Blocked, p) => (None, p)
  end.

Definition second : Z := 1000000000.

(** [srv.Shutdown] with a deadline; [drain] is when it finds all connections idle. *)
Definition shutdownServer (drain : option Z) (deadline : Z) : Pr (option string) :=
  act ShutdownServer ;;;
  match drain with
  | Some d => if d <? deadline then wait d ;;; pret None
              else wait deadline ;;; pret (Some "context deadline exceeded")
  | None => wait deadline ;;; pret (Some "context deadline exceeded")
  end.

(** [if err != nil { log.Println(...) }] *)
Definition report (what : string) (err : option string) : Pr () :=
  match err with Some err => act (Print (what +:+ err)) | None => pret () end.

Definition serverStopped (err : string) : Pr () :=
  if err =s "http: Server closed" then pret () else fatal err.

Inductive Service := EngineService | DbWorkerService | ApiService | WsService.

(** What the goroutines of a program do when their calls return: the DB worker's sends
    on [workerDone], a failed server is fatal, the others log; a client of the gateway
    brings its pumps along. *)
Definition react (svc : Service) (h : Happening) : Pr () :=
  match svc, h with
  | (EngineService | DbWorkerService | WsService), OpsReturned err => report "ops server stopped: " err
  | DbWorkerService, WorkerReturned err => send_done err
  | WsService, ClientConnected => act StartPumps
  | WsService, SubscriberReturned err => report "redis subscriber stopped: " err
  | (ApiService | WsService), HttpReturned err => serverStopped err
  | _, _ => pret ()
  end.

(** ** The engine's constructor *)

(** [NewOutbox]: opening creates the file if it is missing and keeps its lines. *)
Definition NewOutbox (open : option string) (disk : option (list json_text)) : string + list json_text :=
  match open with Some err => inl err | None => inr (default [] disk) end.

(** [newEngine]: the errors of its calls, and the world of the new engine. *)
Definition NewEngine (rm : bool) (mkdir open : option string) (disk : option (list json_text)) : string + World :=
  match newEngine rm with
  | None => inl "redis manager is required"
  | Some e =>
      match mkdir with
      | Some err => inl ("create outbox dir: " +:+ err)
      | None =>
          match NewOutbox open disk with
          | inl err => inl ("create outbox: " +:+ err)
          | inr lines => inr (mkWorld e State.NewMetrics true lines [] [] [] 0)
          end
      end
  end.

(** ** The programs *)

(** What a run of a program meets. *)
Record Conditions := mkConditions {
  rn_pool : option string;                    (** the error of [pgxpool.New] *)
  rn_mkdir : option string; rn_open : option string;
  rn_disk : option (list json_text);          (** the outbox file *)
  rn_recover : option string;                 (** the errors of its recovery and of closing it *)
  rn_close : option string;
  rn_happen : list Happening;
  rn_drain : option Z;                        (** when the servers are idle, or the workers have returned, after the signal *)
  rn_worker : option string;                  (** what the DB worker returns when it is canceled *)
  rn_returned : option Z                      (** when all connections are back in the pgxpool, after its [Close] was called *)
}.

Section programs.
Context `{Prometheus} (cfg : Config) (rn : Conditions).

(** cmd/engine.  [Shutdown] waits for the partition workers; the deadline of main's
    context is not looked at. *)
Definition configure (e : Engine) : Engine :=
  SetStreamNames (DBStream cfg) (WSStream cfg)
    (SetLeaseSettings (EngineID cfg) (LeaseTTL cfg) (LeaseRenewInterval cfg)
       (State.SetRouter (NewRouter (PartitionCount cfg) (CommandStreamPrefix cfg)) e)).

Definition shutdownEngine : Pr () :=
  act (Print "Shutting down engine...") ;;;
  act (Cancel EngineCtx) ;;;
  match rn_drain rn with
  | None => block
  | Some d =>
      wait d ;;;
      act (CloseOf OutboxFile) ;;;
      report "outbox close error: " (rn_close rn) ;;;
      act (Print "Engine stopped.")
  end.

Definition engineProcess : Pr () :=
  act (Open RedisClient) ;;; defer (CloseOf RedisClient) ;;;
  w <- orFatal "failed to create engine:" (NewEngine true (rn_mkdir rn) (rn_open rn) (rn_disk rn)) ;;
  act (Open OutboxFile) ;;;
  m <- must NewMetrics ;;
  e <- orFatal "failed to add partition:"
         (addPartitions (Z.of_nat <$> seq 0 (Z.to_nat (PartitionCount cfg))) (configure (eng w))) ;;
  report "outbox recovery error: " (rn_recover rn) ;;;
  each ((Spawn ∘ PartitionRun) <$> elements (partitions e)) ;;;
  act (Print ("Engine started: " +:+ pretty (size (partitions e)) +:+ " partition worker(s) running")) ;;;
  act (Print "Orderbook engine is running.") ;;;
  must (NewOps (Some m.2)) ;;;
  defer (Cancel OpsCtx) ;;;
  act (Spawn (OpsServer (":" +:+ OpsPort cfg))) ;;;
  awaitSignal (react EngineService) (rn_happen rn) ;;;
  act (Cancel OpsCtx) ;;;
  defer (Cancel DeadlineCtx) ;;;
  shutdownEngine.

(** cmd/db-worker *)
Definition drainWorker : Pr () :=
  returned <- read_done ;;
  match returned with
  | Some err => report "DB worker stopped with error: " err
  | None =>
      match rn_drain rn with
      | Some d =>
          if d <? 10 * second then wait d ;;; report "DB worker stopped with error: " (rn_worker rn)
          else wait (10 * second) ;;; act (Print "DB worker drain timed out")
      | None => wait (10 * second) ;;; act (Print "DB worker drain timed out")
      end
  end.

Definition dbWorkerProcess : Pr () :=
  orFatal "database connection failed:" (from_option inl (inr ()) (rn_pool rn)) ;;;
  act (Open Postgres) ;;; defer (CloseOf Postgres) ;;;
  act (Open RedisClient) ;;; defer (CloseOf RedisClient) ;;;
  must (NewOps None) ;;;
  defer (Cancel OpsCtx) ;;;
  act (Spawn (OpsServer (":" +:+ OpsPort cfg))) ;;;
  defer (Cancel WorkerCtx) ;;;
  act (Print "DB worker started") ;;;
  act (Spawn (WorkerRun (workerStreams cfg).1 (workerStreams cfg).2)) ;;;
  awaitSignal (react DbWorkerService) (rn_happen rn) ;;;
  act (Print "shutting down DB worker") ;;;
  act (Cancel OpsCtx) ;;;
  act (Cancel WorkerCtx) ;;;
  drainWorker.

(** cmd/api *)
Definition apiProcess : Pr () :=
  must (Init (JWTSecret cfg)) ;;;
  orFatal "DB connection failed:" (from_option inl (inr ()) (rn_pool rn)) ;;;
  act (Open Postgres) ;;; defer (CloseOf Postgres) ;;;
  act (Open RedisClient) ;;; defer (CloseOf RedisClient) ;;;
  must (NewOps None) ;;;
  act (Spawn (HttpServer (":" +:+ APIPort cfg))) ;;;
  awaitSignal (react ApiService) (rn_happen rn) ;;;
  act (Print "shutting down API server") ;;;
  defer (Cancel DeadlineCtx) ;;;
  err <- shutdownServer (rn_drain rn) (10 * second) ;;
  report "API shutdown error: " err.

(** cmd/ws *)
Definition wsProcess : Pr () :=
  must (Init (JWTSecret cfg)) ;;;
  act (Open RedisClient) ;;; defer (CloseOf RedisClient) ;;;
  defer (Cancel SubscriberCtx) ;;;
  act (Spawn (SubscriberRun (wsSubscription cfg))) ;;;
  must (NewOps None) ;;;
  defer (Cancel OpsCtx) ;;;
  act (Spawn (OpsServer (":" +:+ OpsPort cfg))) ;;;
  act (Spawn (HttpServer (":" +:+ WSPort cfg))) ;;;
  awaitSignal (react WsService) (rn_happen rn) ;;;
  act (Print "Shutting down WebSocket server") ;;;
  act (Cancel OpsCtx) ;;;
  act (Cancel SubscriberCtx) ;;;
  defer (Cancel DeadlineCtx) ;;;
  err <- shutdownServer (rn_drain rn) (10 * second) ;;
  report "HTTP shutdown error: " err.
End programs.

(** The readiness probes the programs install. *)
Definition engineChecks (redis : Check) (e : Engine) : gmap string Check :=
  AddCheck "partition-ownership" (ownershipCheck e) (AddCheck "redis" redis ∅).
Definition storageChecks (redis postgres : Check) : gmap string Check :=
  AddCheck "postgres" postgres (AddCheck "redis" redis ∅).
Definition wsChecks (redis : Check) : gmap string Check := AddCheck "redis" redis ∅.

Definition program `{Prometheus} (svc : Service) (cfg : Config) (rn : Conditions) : Pr () :=
  match svc with
  | EngineService => engineProcess cfg rn
  | DbWorkerService => dbWorkerProcess cfg rn
  | ApiService => apiProcess cfg rn
  | WsService => wsProcess cfg rn
  end.

(** ** Traces *)

Definition opens (l : list Act) : list Resource := omap (λ a, match a with Open r => Some r | _ => None end) l.
Definition closes (l : list Act) : list Resource := omap (λ a, match a with CloseOf r => Some r | _ => None end) l.

Definition spawns (l : list Act) : list Goroutine := omap (λ a, match a with Spawn g => Some g | _ => None end) l.

(** What tells a goroutine that main started to stop. *)
Definition stops (g : Goroutine) : Act :=
  match g with
  | OpsServer _ => Cancel OpsCtx
  | HttpServer _ => ShutdownServer
  | WorkerRun _ _ => Cancel WorkerCtx
  | SubscriberRun _ => Cancel SubscriberCtx
  | PartitionRun _ => Cancel EngineCtx
  end.

(** Log lines, and pumps of clients. *)
Definition printed (l : list Act) : Prop := ∀ a, a ∈ l → a = StartPumps ∨ ∃ line, a = Print line.

Lemma printed_nil : printed [].
Proof. by intros a Ha%not_elem_of_nil. Qed.

Lemma printed_app l1 l2 : printed l1 → printed l2 → printed (l1 ++ l2).
Proof. intros H1 H2 a [Ha|Ha]%elem_of_app; auto. Qed.

Lemma printed_one line : printed [Print line].
Proof. intros a ->%list_elem_of_singleton. right. by eexists. Qed.

Lemma printed_pumps : printed [StartPumps].
Proof. intros a ->%list_elem_of_singleton. by left. Qed.

Lemma printed_cons_inv a l : printed (a :: l) → (a = StartPumps ∨ ∃ line, a = Print line) ∧ printed l.
Proof. intros Hp. split; [apply Hp; by left|intros b Hb; apply Hp; by right]. Qed.

Lemma opens_printed l : printed l → opens l = [].
Proof. induction l as [|a l IH]; [done|]. intros [[->|[line ->]] Hl]%printed_cons_inv; exact (IH Hl). Qed.

Lemma closes_printed l : printed l → closes l = [].
Proof. induction l as [|a l IH]; [done|]. intros [[->|[line ->]] Hl]%printed_cons_inv; exact (IH Hl). Qed.

Lemma spawns_printed l : printed l → spawns l = [].
Proof. induction l as [|a l IH]; [done|]. intros [[->|[line ->]] Hl]%printed_cons_inv; exact (IH Hl). Qed.

Lemma opens_app l1 l2 : opens (l1 ++ l2) = opens l1 ++ opens l2.
Proof. apply omap_app. Qed.
Lemma closes_app l1 l2 : closes (l1 ++ l2) = closes l1 ++ closes l2.
Proof. apply omap_app. Qed.
Lemma spawns_app l1 l2 : spawns (l1 ++ l2) = spawns l1 ++ spawns l2.
Proof. apply omap_app. Qed.

Lemma opens_spawned {A} (f : A → Goroutine) l : opens ((Spawn ∘ f) <$> l) = [].
Proof. by induction l. Qed.
Lemma closes_spawned {A} (f : A → Goroutine) l : closes ((Spawn ∘ f) <$> l) = [].
Proof. by induction l. Qed.
Lemma spawns_spawned {A} (f : A → Goroutine) l : spawns ((Spawn ∘ f) <$> l) = f <$> l.
Proof. induction l as [|a l IH]; [done|]. exact (f_equal (cons (f a)) IH). Qed.

#[local] Create Rewrite HintDb trace.
#[local] Hint Rewrite opens_app closes_app spawns_app @opens_spawned @closes_spawned @spawns_spawned : trace.

(** Computes what a trace opens, closes and spawns. *)
Ltac trace :=
  autorewrite with trace;
  repeat match goal with
         | Hp : printed ?l |- _ => rewrite ?(opens_printed l Hp), ?(closes_printed l Hp), ?(spawns_printed l Hp); clear Hp
         end; simpl; rewrite ?app_nil_r.

Lemma report_run what err p :
  ∃ out, printed out ∧ report what err p = (Normal (), mkProc (did p ++ out) (deferred p) (pr_clock p) (pr_done p)).
Proof.
  destruct err as [err|].
  - exists [Print (what +:+ err)]. split; [apply printed_one|done].
  - exists []. split; [apply printed_nil|]. destruct p. simpl. by rewrite app_nil_r.
Qed.

Lemma each_run acts : ∀ p,
  each acts p = (Normal (), mkProc (did p ++ acts) (deferred p) (pr_clock p) (pr_done p)).
Proof.
  induction acts as [|a acts IH]; intros p; [destruct p; simpl; by rewrite app_nil_r|].
  simpl. unfold pbind, act. rewrite IH. simpl. by rewrite <- app_assoc.
Qed.

(** While only log lines are written and the worker's result is kept, main waits for
    the first signal. *)
Lemma awaitSignal_run react before after :
  (∀ h p, h ∈ before → h ≠ Signal ∧ ∃ out res, printed out ∧
     react h p = (Normal (), mkProc (did p ++ out) (deferred p) (pr_clock p) res)) → ∀ p,
  ∃ out res, printed out ∧
    awaitSignal react (before ++ Signal :: after) p = (Normal (), mkProc (did p ++ out) (deferred p) (pr_clock p) res).
Proof.
  induction before as [|h before IH]; intros Hr p.
  { exists [], (pr_done p). split; [apply printed_nil|]. destruct p. simpl. by rewrite app_nil_r. }
  destruct (Hr h p ltac:(left)) as (Hs & out & res & Hout & Eh).
  destruct (IH (λ h p Hin, Hr h p ltac:(by right)) (mkProc (did p ++ out) (deferred p) (pr_clock p) res)) as (out' & res' & Hout' & E).
  exists (out ++ out'), res'. split; [by apply printed_app|].
  assert (awaitSignal react ((h :: before) ++ Signal :: after) p =
          pbind (react h) (λ _, awaitSignal react (before ++ Signal :: after)) p) as -> by (by destruct h).
  unfold pbind. rewrite Eh, E. simpl. by rewrite app_assoc.
Qed.

(** ** Clean ends *)

(** What was opened is closed once, in the opposite order; every goroutine that main
    started was told to stop before anything was closed; main did not wait longer than
    [limit]. *)
Record clean (limit : Z) (p : Proc) : Prop := {
  cl_closes : closes (did p) = reverse (opens (did p));
  cl_stops g : g ∈ spawns (did p) → ∃ l1 l2, did p = l1 ++ stops g :: l2 ∧ closes l1 = [];
  cl_clock : 0 ≤ pr_clock p ≤ limit
}.

Lemma clean_intro limit work fin c r :
  closes fin = reverse (opens (work ++ fin)) → closes work = [] →
  (∀ g, g ∈ spawns (work ++ fin) → stops g ∈ work) → 0 ≤ c ≤ limit →
  clean limit (mkProc (work ++ fin) [] c r).
Proof.
  intros Hc Hw Hs Hl. split; simpl; [by rewrite closes_app, Hw| |done].
  intros g (l1 & l2 & ->)%Hs%list_elem_of_split. exists l1, (l2 ++ fin). rewrite <- app_assoc. split; [done|].
  rewrite closes_app in Hw. by apply app_eq_nil in Hw as [].
Qed.

(** The service has its secret, and opens what it needs. *)
Definition starts (svc : Service) (cfg : Config) (rn : Conditions) : Prop :=
  match svc with
  | EngineService => rn_mkdir rn = None ∧ rn_open rn = None
  | DbWorkerService => rn_pool rn = None
  | ApiService => JWTSecret cfg ≠ "" ∧ rn_pool rn = None
  | WsService => JWTSecret cfg ≠ ""
  end.

Lemma Init_some secret : secret ≠ "" → Init secret = Some secret.
Proof. intros Hs. unfold Init. by rewrite (seqb_ne _ _ Hs). Qed.

(** Neither a signal nor a server that fails. *)
Definition harmless (svc : Service) (h : Happening) : Prop :=
  h ≠ Signal ∧
  match svc, h with
  | ApiService, HttpReturned err | WsService, HttpReturned err => err = "http: Server closed"
  | _, _ => True
  end.

(** Main waits for its workers or servers, and then for the connections of the pool. *)
Definition limit (svc : Service) (rn : Conditions) : Z :=
  match svc with
  | EngineService => default 0 (rn_drain rn)
  | DbWorkerService | ApiService => 10 * second + default 0 (rn_returned rn)
  | WsService => 10 * second
  end.

(** What the service waits for without a deadline comes about. *)
Definition returns (svc : Service) (rn : Conditions) : Prop :=
  match svc with
  | EngineService => is_Some (rn_drain rn)
  | DbWorkerService | ApiService => ∃ d, rn_returned rn = Some d ∧ 0 ≤ d
  | WsService => True
  end.

Lemma pbind_run {A B} (m : Pr A) (k : A → Pr B) p a q : m p = (Normal a, q) → pbind m k p = k a q.
Proof. unfold pbind. by intros ->. Qed.

Lemma act_run {B} a (k : () → Pr B) p :
  pbind (act a) k p = k () (mkProc (did p ++ [a]) (deferred p) (pr_clock p) (pr_done p)).
Proof. done. Qed.
Lemma defer_run {B} a (k : () → Pr B) p :
  pbind (defer a) k p = k () (mkProc (did p) (a :: deferred p) (pr_clock p) (pr_done p)).
Proof. done. Qed.
Lemma must_run {A B} (a : A) (k : A → Pr B) p : pbind (must (Some a)) k p = k a p.
Proof. done. Qed.
Lemma orFatal_run {A B} what (a : A) (k : A → Pr B) p : pbind (orFatal what (inr a)) k p = k a p.
Proof. done. Qed.

(** Runs main up to the next call that is none of these. *)
Ltac steps := rewrite ?act_run, ?defer_run, ?must_run, ?orFatal_run; cbn [did deferred pr_clock pr_done];
  repeat (first [rewrite act_run|rewrite defer_run|rewrite must_run|rewrite orFatal_run]; cbn [did deferred pr_clock pr_done]).

(** Runs a report. *)
Ltac reported :=
  let out := fresh "out" in let Hout := fresh "Hout" in let E := fresh "E" in
  match goal with
  | |- context [pbind (report ?w ?err) _ ?p] =>
      destruct (report_run w err p) as (out & Hout & E); rewrite (pbind_run _ _ _ _ _ E)
  | |- context [report ?w ?err ?p] => destruct (report_run w err p) as (out & Hout & E); rewrite E
  end;
  clear E; cbn [did deferred pr_clock pr_done].

(** Membership in a list of concrete pieces. *)
Ltac in_pieces :=
  first [ by left | right; in_pieces
        | apply elem_of_app; right; in_pieces | apply elem_of_app; left; in_pieces ].

(** Shows that a finished run is clean. *)
Ltac finish :=
  cbn [unwound deferred did pr_clock pr_done]; eexists; split; [reflexivity|]; apply clean_intro; trace;
  [ reflexivity | reflexivity
  | let g := fresh "g" in let Hg := fresh "Hg" in
    intros g Hg; repeat (apply elem_of_cons in Hg as [->|Hg]; [in_pieces|]); by apply not_elem_of_nil in Hg
  | lia ].

(** The partitions of the configuration are those the router knows. *)
Lemma configured_partitions cfg e : newEngine true = Some e →
  ∃ e', addPartitions (Z.of_nat <$> seq 0 (Z.to_nat (PartitionCount cfg))) (configure cfg e) = inr e'.
Proof.
  intros [= <-]. set (n := PartitionCount cfg). eexists. apply addPartitions_ok.
  - apply NoDup_fmap_2; [intros a b; apply Nat2Z.inj|apply NoDup_seq].
  - intros q Hq. split; [|set_solver]. apply elem_of_partitions in Hq.
    unfold configure, NewRouter; simpl. fold n. destruct (n <? 1) eqn:E; lia.
Qed.

Lemma newOps_none `{PrometheusLaws} : ∃ o, NewOps None = Some o.
Proof.
  destruct (NewOps_ok None) as (o & -> & _); [|by eexists]. intros m. simpl. rewrite registered_new. set_solver.
Qed.

Section ends.
Context `{PrometheusLaws} (cfg : Config) (rn : Conditions) (before after : list Happening).
Hypothesis Hhs : rn_happen rn = before ++ Signal :: after.
Hypothesis Hdrain : ∀ d, rn_drain rn = Some d → 0 ≤ d.

Lemma shutdownServer_run p : ∃ err d, 0 ≤ d ≤ 10 * second ∧
  shutdownServer (rn_drain rn) (10 * second) p
    = (Normal err, mkProc (did p ++ [ShutdownServer]) (deferred p) (pr_clock p + d) (pr_done p)).
Proof.
  unfold shutdownServer, pbind, act, wait, pret. destruct (rn_drain rn) as [d|] eqn:E.
  - specialize (Hdrain d eq_refl). destruct (d <? 10 * second) eqn:Ed; do 2 eexists; (split; [|done]); unfold second in *; lia.
  - do 2 eexists; (split; [|done]); unfold second; lia.
Qed.

Lemma ends_wait svc p : Forall (harmless svc) before →
  ∃ out res, printed out ∧
    awaitSignal (react svc) (rn_happen rn) p = (Normal (), mkProc (did p ++ out) (deferred p) (pr_clock p) res).
Proof.
  intros Hb. rewrite Forall_forall in Hb. rewrite Hhs. apply awaitSignal_run. intros h q [Hs Hh]%Hb. split; [done|].
  assert (∃ out res, printed out ∧ pret () q = (Normal (), mkProc (did q ++ out) (deferred q) (pr_clock q) res)) as Hret.
  { exists [], (pr_done q). split; [apply printed_nil|]. destruct q. simpl. by rewrite app_nil_r. }
  assert (∀ what err, ∃ out res, printed out ∧
            report what err q = (Normal (), mkProc (did q ++ out) (deferred q) (pr_clock q) res)) as Hrep.
  { intros what err. destruct (report_run what err q) as (out & Hp & ->). eauto. }
  destruct svc, h as [|err|err|err| |err]; simpl in *; eauto; try (subst err; exact Hret).
  2:{ exists [StartPumps], (pr_done q). split; [apply printed_pumps|done]. }
  exists [], (Some err). split; [apply printed_nil|]. unfold send_done. by rewrite app_nil_r.
Qed.

(** Runs the wait for the signal, and [srv.Shutdown]. *)
Ltac await Hb :=
  match goal with
  | |- context [pbind (awaitSignal (react ?svc) _) _ ?p] =>
      let out := fresh "out" in let res := fresh "res" in let Hout := fresh "Hout" in let E := fresh "E" in
      destruct (ends_wait svc p Hb) as (out & res & Hout & E); rewrite (pbind_run _ _ _ _ _ E); clear E
  end.
Ltac serve_out :=
  match goal with
  | |- context [pbind (shutdownServer _ _) _ ?p] =>
      let err := fresh "err" in let d := fresh "d" in let Hd := fresh "Hd" in let E := fresh "E" in
      destruct (shutdownServer_run p) as (err & d & Hd & E); rewrite (pbind_run _ _ _ _ _ E); clear E
  end.
Lemma ws_ends : JWTSecret cfg ≠ "" → Forall (harmless WsService) before →
  ∃ p, runMain (rn_returned rn) (wsProcess cfg rn) = (Some 0, p) ∧ clean (10 * second) p.
Proof.
  intros Hs Hb. destruct newOps_none as [o Ho]. unfold runMain, wsProcess. rewrite Ho, (Init_some _ Hs).
  steps. await Hb. steps. serve_out. steps. reported. finish.
Qed.

Lemma api_ends r : JWTSecret cfg ≠ "" → rn_pool rn = None → rn_returned rn = Some r → 0 ≤ r →
  Forall (harmless ApiService) before →
  ∃ p, runMain (rn_returned rn) (apiProcess cfg rn) = (Some 0, p) ∧ clean (10 * second + r) p.
Proof.
  intros Hs Hp Hr Hr0 Hb. destruct newOps_none as [o Ho]. unfold runMain, apiProcess.
  rewrite Ho, Hp, Hr, (Init_some _ Hs). unfold from_option.
  steps. await Hb. steps. serve_out. steps. reported. finish.
Qed.

(** The drain of the worker ends within ten seconds, whatever the worker does. *)
Lemma drainWorker_run p : ∃ out d, printed out ∧ 0 ≤ d ≤ 10 * second ∧
  drainWorker rn p = (Normal (), mkProc (did p ++ out) (deferred p) (pr_clock p + d) (pr_done p)).
Proof.
  unfold drainWorker. rewrite (pbind_run read_done _ _ _ _ eq_refl).
  destruct (pr_done p) as [err|] eqn:Edone.
  { destruct (report_run "DB worker stopped with error: " err p) as (out & Hout & ->).
    exists out, 0. rewrite Z.add_0_r, Edone. split_and!; [done|done|unfold second; lia|done]. }
  assert (∃ out d, printed out ∧ 0 ≤ d ≤ 10 * second ∧
            pbind (wait (10 * second)) (λ _, act (Print "DB worker drain timed out")) p
              = (Normal (), mkProc (did p ++ out) (deferred p) (pr_clock p + d) (pr_done p))) as Hlate.
  { exists [Print "DB worker drain timed out"], (10 * second). split_and!; [apply printed_one|unfold second; lia|lia|done]. }
  rewrite Edone in Hlate. destruct (rn_drain rn) as [d|] eqn:Ed; [|done].
  specialize (Hdrain d eq_refl). destruct (d <? 10 * second) eqn:El; [|done].
  rewrite (pbind_run (wait d) _ _ _ _ eq_refl).
  match goal with |- context [report ?w ?e ?q] => destruct (report_run w e q) as (out & Hout & ->) end.
  exists out, d. split_and!; [done|lia|lia|]. simpl. by rewrite Edone.
Qed.

Lemma dbWorker_ends r : rn_pool rn = None → rn_returned rn = Some r → 0 ≤ r →
  Forall (harmless DbWorkerService) before →
  ∃ p, runMain (rn_returned rn) (dbWorkerProcess cfg rn) = (Some 0, p) ∧ clean (10 * second + r) p.
Proof.
  intros Hp Hr Hr0 Hb. destruct newOps_none as [o Ho]. unfold runMain, dbWorkerProcess.
  rewrite Ho, Hp, Hr. unfold from_option.
  steps. await Hb. steps.
  match goal with |- context [drainWorker _ ?q] => destruct (drainWorker_run q) as (out' & d & Hout' & Hd & E) end.
  rewrite E. clear E. cbn [did deferred pr_clock pr_done]. finish.
Qed.
Lemma engine_ends d : rn_mkdir rn = None → rn_open rn = None → rn_drain rn = Some d →
  Forall (harmless EngineService) before →
  ∃ p, runMain (rn_returned rn) (engineProcess cfg rn) = (Some 0, p) ∧ clean d p.
Proof.
  intros Hm Hf Hd Hb. pose proof (Hdrain d Hd) as Hd0. unfold runMain, engineProcess.
  destruct (newEngine true) as [e|] eqn:Ee; [|done].
  unfold NewEngine. rewrite Ee, Hm, Hf. unfold NewOutbox.
  destruct NewMetrics_ok as (reg & -> & Hreg).
  destruct (configured_partitions cfg e Ee) as [e' He'].
  destruct (NewOps_ok (Some reg)) as (o & Ho & _); [intros m; simpl; rewrite Hreg; apply elem_of_list_to_set|].
  steps. simpl (eng _). rewrite He'. steps. reported.
  rewrite (pbind_run _ _ _ _ _ (each_run _ _)). cbn [fst snd]. rewrite Ho. steps. await Hb. steps.
  unfold shutdownEngine. rewrite Hd. steps. rewrite (pbind_run (wait d) _ _ _ _ eq_refl). steps. reported.
  unfold act. cbn [unwound did deferred pr_clock pr_done]. eexists. split; [reflexivity|].
  match goal with |- context [(?l ++ [Cancel EngineCtx]) ++ _] => set (work := l ++ [Cancel EngineCtx]) end.
  rewrite <- !(app_assoc work). apply clean_intro; unfold work; trace; [reflexivity|reflexivity| |lia].
  intros g [(pid & -> & _)%list_elem_of_fmap|[->|Hg]%elem_of_cons]%elem_of_app; [in_pieces|in_pieces|].
  by apply not_elem_of_nil in Hg.
Qed.
End ends.

(** C29: a service that has started and gets a signal ends as it should.  Assume that the
    JWT secret of cmd/api and cmd/ws is not empty and that the service could open what it
    needs; that before the signal no HTTP server failed; that the partition workers of
    cmd/engine return, and that the connections of cmd/api and cmd/db-worker are given
    back to the pgxpool at some time.  Then the process exits with status 0; what it
    opened is closed, once and in the opposite order, and only after every goroutine that
    main started was told to stop (the pumps of connected clients, which the gateway's
    handler starts, are not).  Main does not wait longer than ten seconds, in cmd/api and
    cmd/db-worker for as long as the pool needs on top of that, and in cmd/engine
    as long as its partition workers need. *)
Theorem services_stop_cleanly `{PrometheusLaws} svc cfg rn before after :
  starts svc cfg rn → rn_happen rn = before ++ Signal :: after → Forall (harmless svc) before →
  (∀ d, rn_drain rn = Some d → 0 ≤ d) → returns svc rn →
  ∃ p, runMain (rn_returned rn) (program svc cfg rn) = (Some 0, p) ∧ clean (limit svc rn) p.
Proof.
  intros Hst Hhs Hb Hdrain He. destruct svc; simpl in *.
  - destruct Hst as [Hm Hf], He as [d Hd]. rewrite Hd. by eapply engine_ends.
  - destruct He as (d & Hd & Hd0). assert (default 0 (rn_returned rn) = d) as -> by (by rewrite Hd). by eapply dbWorker_ends.
  - destruct He as (d & Hd & Hd0), Hst as [Hs Hp]. assert (default 0 (rn_returned rn) = d) as -> by (by rewrite Hd). by eapply api_ends.
  - by eapply ws_ends.
Qed.

(** ** Failures *)

(** Without its secret, or when it cannot open what it needs, a service exits with a status
    other than 0 (2 for the panic of [auth.Init], else 1) before it starts any goroutine. *)
Lemma failed_start_exits `{PrometheusLaws} svc cfg rn : ~ starts svc cfg rn →
  ∃ st p, runMain (rn_returned rn) (program svc cfg rn) = (Some st, p) ∧ (st = 1 ∨ st = 2) ∧ spawns (did p) = [].
Proof.
  intros Hst. destruct svc; simpl in *.
  - unfold runMain, engineProcess, NewEngine, NewOutbox. steps. simpl (newEngine true). cbv iota.
    destruct (rn_mkdir rn); [eexists _, _; by eauto|]. destruct (rn_open rn); [eexists _, _; by eauto|]. by destruct Hst.
  - unfold runMain, dbWorkerProcess. destruct (rn_pool rn) as [err|]; [|done]. eexists _, _; by eauto.
  - unfold runMain, apiProcess, Init. destruct (seqb_spec (JWTSecret cfg) ""); [eexists _, _; by eauto|].
    destruct (rn_pool rn) as [err|]; [eexists _, _; by eauto|]. by destruct Hst.
  - unfold runMain, wsProcess, Init. destruct (seqb_spec (JWTSecret cfg) ""); [eexists _, _; by eauto|done].
Qed.

(** A DB worker or an API whose connections are not given back does not end: the ten
    seconds that bound the drain do not bound the deferred [Close] of the pool. *)
Lemma held_connection_blocks_exit `{PrometheusLaws} cfg rn after :
  starts DbWorkerService cfg rn → rn_happen rn = Signal :: after → rn_drain rn = None → rn_returned rn = None →
  ∃ p, runMain (rn_returned rn) (program DbWorkerService cfg rn) = (None, p) ∧ closes (did p) = [RedisClient] ∧
    Print "DB worker drain timed out" ∈ did p.
Proof.
  intros Hp Hhs Hd Hr. destruct newOps_none as [o Ho]. cbn [program starts] in *. unfold runMain, dbWorkerProcess.
  rewrite Ho, Hp, Hhs, Hr. unfold from_option. steps. cbn [awaitSignal]. rewrite (pbind_run (pret ()) _ _ _ _ eq_refl). steps.
  unfold drainWorker. rewrite (pbind_run read_done _ _ _ _ eq_refl). cbn [pr_done]. rewrite Hd.
  eexists. split; [reflexivity|]. split; [reflexivity|]. cbn [did]. in_pieces.
Qed.

(** The wait of cmd/engine for its workers has no end if a worker does not return: the
    thirty seconds main grants are not looked at, and neither the outbox nor Redis is
    closed. *)
Lemma engine_waits_past_its_deadline `{PrometheusLaws} cfg rn after :
  starts EngineService cfg rn → rn_happen rn = Signal :: after → rn_drain rn = None →
  ∃ p, runMain (rn_returned rn) (program EngineService cfg rn) = (None, p) ∧ closes (did p) = [].
Proof.
  intros [Hm Hf] Hhs Hd. cbn [program]. unfold runMain, engineProcess.
  destruct (newEngine true) as [e|] eqn:Ee; [|done].
  unfold NewEngine. rewrite Ee, Hm, Hf, Hhs. unfold NewOutbox.
  destruct NewMetrics_ok as (reg & -> & Hreg).
  destruct (configured_partitions cfg e Ee) as [e' He'].
  destruct (NewOps_ok (Some reg)) as (o & Ho & _); [intros m; simpl; rewrite Hreg; apply elem_of_list_to_set|].
  steps. simpl (eng _). rewrite He'. steps. reported.
  rewrite (pbind_run _ _ _ _ _ (each_run _ _)). cbn [fst snd]. rewrite Ho. steps.
  cbn [awaitSignal]. rewrite (pbind_run (pret ()) _ _ _ _ eq_refl). steps.
  unfold shutdownEngine. rewrite Hd. steps. eexists. split; [reflexivity|]. cbn [did]. by trace.
Qed.

(** A DB worker that has failed is noticed by nobody: the process goes on without
    consuming, and is ready as long as Redis and Postgres answer. *)
Lemma failed_worker_stays_ready `{PrometheusLaws} cfg rn err :
  starts DbWorkerService cfg rn → rn_happen rn = [WorkerReturned (Some err)] →
  ∃ p, runMain (rn_returned rn) (program DbWorkerService cfg rn) = (None, p) ∧ pr_done p = Some (Some err) ∧
    (ReadyHandler (storageChecks None None)).1 = (200, "ok").
Proof.
  intros Hp Hhs. destruct newOps_none as [o Ho]. cbn [program starts] in *. unfold runMain, dbWorkerProcess.
  rewrite Ho, Hp, Hhs. unfold from_option. steps. eexists. split; [reflexivity|]. split; [done|].
  vm_compute. reflexivity.
Qed.

(** So does a gateway whose subscription has ended. *)
Lemma ended_subscription_stays_ready `{PrometheusLaws} cfg rn err :
  starts WsService cfg rn → rn_happen rn = [SubscriberReturned err] →
  ∃ p, runMain (rn_returned rn) (program WsService cfg rn) = (None, p) ∧ (ReadyHandler (wsChecks None)).1 = (200, "ok").
Proof.
  intros Hs Hhs. destruct newOps_none as [o Ho]. cbn [program starts] in *. unfold runMain, wsProcess.
  rewrite Ho, Hhs, (Init_some _ Hs). steps. cbn [awaitSignal react].
  destruct err; (eexists; split; [reflexivity|vm_compute; reflexivity]).
Qed.

(** A server that cannot listen ends the process from its goroutine, and nothing that
    was opened is closed. *)
Lemma failed_server_closes_nothing `{PrometheusLaws} cfg rn err hs :
  starts ApiService cfg rn → rn_happen rn = HttpReturned err :: hs → err ≠ "http: Server closed" →
  ∃ p, runMain (rn_returned rn) (program ApiService cfg rn) = (Some 1, p) ∧
    opens (did p) = [Postgres; RedisClient] ∧ closes (did p) = [].
Proof.
  intros [Hs Hp] Hhs Herr. destruct newOps_none as [o Ho]. cbn [program starts] in *. unfold runMain, apiProcess.
  rewrite Ho, Hp, Hhs, (Init_some _ Hs). unfold from_option. steps. cbn [awaitSignal react]. unfold serverStopped.
  rewrite (seqb_ne _ _ Herr). eexists. split; [reflexivity|]. split; reflexivity.
Qed.

(** ** Witnesses *)

Definition run1 : Conditions :=
  mkConditions None None None None None None [OpsReturned (Some "bind"); Signal] (Some (3 * second)) None (Some second).

Definition workerCfg : Config := @Load noDurations fourPartitions.

Lemma services_stop_cleanly_witness :
  (∃ p, runMain (rn_returned run1) (program EngineService workerCfg run1) = (Some 0, p) ∧ clean (3 * second) p) ∧
  (∃ p, runMain (rn_returned run1) (program DbWorkerService workerCfg run1) = (Some 0, p) ∧ clean (11 * second) p).
Proof.
  split.
  - apply (services_stop_cleanly EngineService workerCfg run1 [OpsReturned (Some "bind")] []).
    + split; reflexivity.
    + reflexivity.
    + constructor; [split; [discriminate|exact I]|constructor].
    + intros d [= <-]. unfold second. lia.
    + eexists. reflexivity.
  - apply (services_stop_cleanly DbWorkerService workerCfg run1 [OpsReturned (Some "bind")] []).
    + reflexivity.
    + reflexivity.
    + constructor; [split; [discriminate|exact I]|constructor].
    + intros d [= <-]. unfold second. lia.
    + eexists. split; [reflexivity|]. unfold second. lia.
Defined.
